(* ===== verification/_CoqProject ===== *)
-Q . S2P
Prelude.v
Ids.v
Interest.v
Message.v
Proposal.v
Queue.v
Topic.v
Delivery.v
Replica.v
NodeData.v
StateMachine.v
Wire.v
Agreement.v
Placement.v
LogStorage.v
LogHandle.v
Edge.v
Serde.v
Codec.v
Tcp.v
EdgeNode.v
Tasks.v
Ownership.v
Rpc.v
RaftNetwork.v
RaftTasks.v
DurableLoad.v
DurableStore.v
Commit.v
Errors.v
EventHandler.v
System.v
Drain.v
Cluster.v
Membership.v
Handshake.v
Sdk.v
SdkTasks.v
EdgeWire.v
EdgeLink.v
