(* ===== verification/Prelude.v ===== *)
(** * asteroid-mq: a verification library

    asteroid-mq is a message queue whose topics are replicated over a cluster with
    Raft (the openraft crate).  This library models the Rust code under [src/] (the
    crates [model], [server] and [sdk/rust]) in functions and step relations that
    evaluate, and proves what makes it correct.

    ** The program and its parts

    A _message_ is sent to a _topic_ with one or more _subjects_.  _Endpoints_ of
    the topic declare _interests_, patterns over subjects; a radix tree finds the
    endpoints a message concerns.  A topic holds a message until every endpoint it
    was given to has acknowledged it as far as the sender expects, in order if the
    topic is blocking; the sender waits for the result.  All of this is a state
    machine that every node runs on one log of _proposals_ (hold a message, set
    statuses, an endpoint comes online, goes offline or changes its interests, a
    topic is loaded or unloaded).  Applying a proposal does not do I/O itself: it
    spawns tasks (deliver, answer a waiting sender, commit to the durable store),
    which may in turn propose.  _Edge_ nodes are clients that reach a cluster node
    over a packet connection and act by requests; the Rust client is one.

    ** Files

    Shared:
    - [Prelude]: this file; bytes and machine integers, the outcome monad
      ([Done], [Panic], [OutOfFuel]), results, generic lemmas, tactics, hints.
    - [Rpc]: the scheme of requests matched with responses by number, which the
      Raft transport and the edge clients share.
    - [Replica], [Agreement], [Placement]: specifications over the modelled code: what
      replicas share, that they agree on it, and which of them delivers.
    - [Wire], [EdgeWire]: concrete serialisations, for the witnesses only.

    Data ([model/src]):
    - [Ids]: the identifiers, snowflakes, base64 and hexadecimal texts
      ([message.rs], [endpoint.rs], [node.rs], [util.rs], [topic.rs]).
    - [Interest]: [interest.rs], and [server/src/protocol/interest.rs] with the tree
      ([insert_recursive], [delete_recursive], [find_all_recursive]).
    - [Message]: statuses, headers and their builder, acknowledgements.
    - [Serde]: how ids, payloads and names are serialised and read back.
    - [Edge]: edge requests, responses and pushes ([edge.rs]).

    The replicated state ([server/src/protocol/node/raft]):
    - [Proposal]: the proposals, the context they are applied in and the world
      they act on, a heap of topic handles and the tasks spawned so far
      ([proposal.rs], [proposal/*.rs], [state_machine/topic/config.rs]).
    - [Queue]: held messages and [MessageQueue] ([topic/message_queue.rs]).
    - [Topic]: the handlers of one topic ([state_machine/topic.rs]); [Delivery]:
      sequences of calls on it.
    - [NodeData]: [apply_*] of [state_machine/node.rs].
    - [StateMachine]: [apply] and the snapshots of [state_machine.rs].
    - [LogStorage], [LogHandle]: [log_storage.rs], the store and its shared handle.

    A node and its tasks ([server/src]):
    - [Tasks]: [protocol/topic.rs], [protocol/endpoint.rs], the bodies of the
      spawned tasks.
    - [Ownership]: strong and weak handles of nodes, topics and endpoints
      ([protocol/{node,topic,endpoint}.rs]).
    - [System]: callers, proposals, the state machine and the spawned tasks on one
      state; [Drain]: how that state settles.
    - [DurableLoad], [DurableStore], [Commit]: [protocol/topic/durable_message.rs],
      [Node::load_from_durable_service], the commit tasks and their interleaving.
    - [EventHandler]: [event_handler.rs] and [event_handler/json.rs].
    - [Cluster]: [raft/cluster.rs], [cluster/static.rs], [cluster/k8s.rs].
    - [Membership]: [raft.rs], [Node::new], [Node::init_raft].
    - [Errors]: [error.rs], [node/edge/auth.rs].

    Connections:
    - [RaftNetwork], [RaftTasks], [Handshake]: [raft/network.rs],
      [raft/network_factory.rs]; the link of packets, the two tasks on the stream of
      bytes, and how a connection begins.
    - [Codec]: [node/edge/{codec,packet}.rs]; [Tcp]:
      [node/edge/connection/tokio_tcp.rs].
    - [EdgeNode]: the edge part of [protocol/node.rs]; [EdgeLink]:
      [node/edge/connection.rs].
    - [Sdk], [SdkTasks]: [sdk/rust/src/{node,endpoint,error}.rs].

    ** How code becomes definitions

    A method on [&mut self] is a function of the record to the new one; a panic
    (a failed [expect], an index out of range, [unwrap]) is [Panic], an [Err] is
    [Err].  Integers are [Z] with their wrap-around or overflow written out where
    the code has it.  A [HashMap] is a [gmap], with the order of its iteration a
    parameter ([HashOrder]) wherever the code iterates; the keyed hash is one too
    ([Hash64]), and the readings of the clock ([Clock]).  What the code shares by
    [Arc] or a channel lives in a heap and is named by a location, so two handles
    of one object stay two handles of one object.  [tokio::spawn] appends to the
    list of spawned tasks, and a task is one step on the state it finds; where the
    code waits inside a task and the interleaving matters, each wait is the
    boundary of a step ([Membership.get_step], [RaftNetwork], [Tcp], [EdgeLink],
    [SdkTasks]) and the theorems hold for every interleaving.  A [select!] loop is
    a relation over the events it may receive.

    Code that is not under [src/] is a parameter with what is documented of it as
    named laws, which a concrete instance in the witnesses satisfies: bincode
    ([StateMachine.Bincode], [RaftNetwork.RaftWire]), the codecs of edge packets
    ([EdgeLink.faithful]), base64, sha2, tokio's sockets ([Tcp.Socket]), openraft's
    membership and its handle ([StateMachine.OpenraftMembership],
    [Membership.RaftHandle]), Raft's answer to a proposal ([raft_propose]),
    Kubernetes' client, the durable service ([DurableStore.DurableLaws], which the
    repository's own in-memory service is proved to satisfy), serde_json.

    ** What is shown

    _Replication._  [Agreement.replicas_agree]: replicas with different clocks,
    hash orders and connections that apply the same log keep the same topics,
    queues, routing and interests and give the same answers, as long as no expiry
    falls between their readings of the clock.  [Agreement.snapshot_catches_up]: a
    replica that installs a snapshot and applies the rest is one of them.
    [StateMachine.apply_total]: a log of ready proposals is applied to its end, no
    handler panics and the state stays well formed;
    [StateMachine.apply_answers_every_entry], [StateMachine.snapshot_transfer],
    [LogStorage.log_refines] and [LogHandle.storage_shares_log]: the contract
    openraft expects of its state machine and its log.

    _Delivery._  [Placement.delivered_at_most_once]: two nodes of a cluster that
    apply the same log deliver a message at most once to an endpoint, together.
    [Topic.update_and_flush_refines],
    [Topic.hold_new_message_refines], [Topic.ep_online_refines],
    [Topic.ep_offline_refines], [Topic.update_ep_interest_refines] and
    [Queue.queue_flush_refines]: each handler implements a short function on the
    ordered list of held messages ([Topic.topic_abs]).
    [Delivery.messages_conserved]: over calls that bring new messages at later
    times, a message is held or answered, once;
    [Delivery.calls_within_capacity]: no calls take a topic over its capacity.
    [Interest.interest_map_refines]: the tree finds exactly the values with a
    matching interest.  [EventHandler.event_settles_message]: from a handler's
    verdict to the queue and the waiting sender, through the proposals it makes.

    [System.no_sender_forgotten]: with callers, commits, refusals and tasks in any
    interleaving, a caller of [send_message] is answered with what was decided for
    its message, or the message is at exactly one place it moves on from.
    [Drain.delivery_drains]: tasks report statuses and applying them spawns tasks,
    and yet this ends, within [Drain.sys_work] steps in every order.

    _Durability._  [DurableStore.recovery_restores_queue]: the commands a topic
    that never drops an accepted message queues, committed to a lawful service, let
    a restart restore which messages are held and their order, though not their
    receivers and statuses;
    [Commit.commits_serialise]: the tasks that commit them, several at once, come to
    that; [DurableLoad.load_from_durable_refines], [Topic.from_durable_restores].

    _Connections._  [RaftNetwork.responses_match_requests],
    [RaftNetwork.request_answered], [Sdk.client_gets_its_answer]: a caller gets the
    answer to its own request, under every interleaving, and gets it when the wires
    are drained.  [EdgeLink.link_refines_session] and
    [SdkTasks.tasks_refine_session]: the loops of both ends of an edge connection
    refine the session [Sdk] reasons about; [RaftTasks.tasks_refine_link]: so do the
    tasks of a Raft connection, down to bytes and aborted frames.  [Tcp.poll_next_delivers_frames],
    [RaftNetwork.raft_frames_roundtrip], [Handshake.handshake_roundtrip]: frames
    survive any cutting of the stream; [Serde.serde_roundtrip]: ids, payloads and
    names survive every format.  [EdgeNode.edge_request_authorized]: an edge
    node acts only on the endpoints the routing gives it.

    _Cluster._  [Membership.listener_tracks_provider]: the changes a leader asks for
    lead to its provider's members; [Membership.loading_get_woken],
    [Cluster.k8s_update_members].

    _Where the code does not do what it means to._  Some theorems state a
    behaviour the code has and hardly wants: a restored message that wedges a
    blocking topic ([DurableStore.restored_front_wedges]), a membership change that
    is never asked for again ([Membership.membership_change_lost]), a wakeup that
    is lost ([Membership.loading_wakeup_lost]), callers that are not told of a
    closed stream ([SdkTasks.closed_stream_strands_callers]) or of a dead Raft
    connection ([RaftTasks.dead_read_strands_callers]), a dead connection that
    is never replaced ([RaftNetwork.dead_connection_never_replaced]) or that
    replaces a live one ([EdgeNode.stale_connection_removes_new]), a silent peer
    that stops the listener ([Handshake.accept_loop_spec]), waiting senders lost
    with a snapshot ([StateMachine.install_orphans_waiters]), a frame reader that
    spins ([Tcp.poll_next_spins_at_end]) or a writer that panics
    ([Tcp.start_send_panics]), texts that are not read ([Serde.serde_refuses]), an
    IPv6 pod ([Cluster.k8s_ipv6_panics]), a
    node that is never freed ([Ownership.loaded_node_never_freed]), a dropped
    endpoint that stays listed ([Ownership.dropped_endpoint_stays_listed]), a node
    that runs without a listener ([Handshake.failed_bind_never_listens]), commands
    stored under another topic ([Tasks.commit_mixes_topics]) or dropped
    ([Commit.failed_check_loses]), replicas that
    disagree on an expiry ([Topic.replicas_diverge_on_expiry]).

    ** Bounds and fuel

    Loops that are not structural have fuel, and the theorems show that what the
    callers give is enough, that is, that [OutOfFuel] does not happen: the flush
    of a queue has one unit more than the queue is long ([Queue.queue_flush]), the
    frame reader one more than the bytes to come ([Tcp.poll_next]; at the end of
    the stream no fuel is enough, which [Tcp.poll_next_spins_at_end] states), the
    writer two more than the unsent ones ([Tcp.poll_flush]), the Raft read loop one
    more than the stream is long, the paged load as many as there are pages, the
    handler loop one more than the mailbox holds ([EventHandler.run_ready_drains]);
    five digits suffice for a port ([Cluster.decimal]).  A message id is unique for
    2^32 draws on a thread; sequence numbers of callers wrap at 2^32 (edge) and
    2^64 (Raft), and the theorems say so where it matters.  [usize] has 64 bits.

    ** Not modelled

    Tracing, [Debug] renderings and the schema annotations of [typeshare]; the
    TypeScript client; the codecs' own serialisation and the socket of the client,
    which are libraries; the scheduler, so that time passes only where the code
    reads it; poisoning and blocking of [std]'s locks, and the capacity of the
    bounded channels (512 and 1024 packets), on which a sender would wait.  The
    reading of a pod's namespace from its file ([k8s.rs]) is an argument.  *)

From Stdlib Require Export Strings.Byte ZArith Lia.
From stdpp Require Export base gmap sets list strings fin_maps sorting option relations.

(** ** Notations and hint databases *)

Declare Scope amq_scope.
Delimit Scope amq_scope with amq.
Create HintDb amq.

(** ** Bytes and machine integers *)

Abbreviation u8 := Byte.byte.

#[export] Instance byte_eq_dec : EqDecision u8 := Byte.byte_eq_dec.

#[export] Program Instance byte_countable : Countable u8 :=
  inj_countable Byte.to_N Byte.of_N _.
Next Obligation. intros b. apply Byte.of_to_N. Qed.

(** The number a byte denotes, and the byte of an integer cast with [as u8]. *)
Definition byte_to_Z (b : u8) : Z := Z.of_N (Byte.to_N b).
Definition byte_of_Z (z : Z) : u8 :=
  default x00 (Byte.of_N (Z.to_N (z mod 256))).

Definition u32_MAX : Z := 2 ^ 32 - 1.
Definition u64_MAX : Z := 2 ^ 64 - 1.
(** [usize] on the 64-bit targets the crate builds for. *)
Definition usize_MAX : Z := 2 ^ 64 - 1.

(** [wrapping_add] on a [u32]. *)
Definition u32_wrapping_add (a b : Z) : Z := (a + b) mod 2 ^ 32.

(** A cast [e as u32] of an unsigned integer. *)
Definition as_u32 (z : Z) : Z := z mod 2 ^ 32.

(** [to_be_bytes] on an [n]-byte unsigned integer and [from_be_bytes]. *)
Fixpoint to_be_bytes (n : nat) (z : Z) : list u8 :=
  match n with
  | O => []
  | S n => to_be_bytes n (z / 256) ++ [byte_of_Z z]
  end.

Definition from_be_bytes (bs : list u8) : Z :=
  foldl (fun acc b => acc * 256 + byte_to_Z b)%Z 0%Z bs.

Lemma byte_to_Z_range b : (0 <= byte_to_Z b < 256)%Z.
Proof. unfold byte_to_Z. pose proof (Byte.to_N_bounded b). lia. Qed.

Lemma byte_to_of_Z z : byte_to_Z (byte_of_Z z) = (z mod 256)%Z.
Proof.
  unfold byte_to_Z, byte_of_Z.
  pose proof (Z.mod_pos_bound z 256 ltac:(lia)).
  destruct (Byte.of_N _) as [b|] eqn:E.
  - apply Byte.to_of_N in E. simpl. rewrite E. lia.
  - apply Byte.of_N_None_iff in E. lia.
Qed.

Lemma byte_of_to_Z b : byte_of_Z (byte_to_Z b) = b.
Proof.
  unfold byte_of_Z, byte_to_Z. pose proof (Byte.to_N_bounded b).
  rewrite Z.mod_small by lia. rewrite N2Z.id. by rewrite Byte.of_to_N.
Qed.

Lemma length_to_be_bytes n z : length (to_be_bytes n z) = n.
Proof. revert z. induction n; intros z; simpl; [done|]. rewrite length_app, IHn. simpl. lia. Qed.

Lemma from_be_bytes_app bs b : from_be_bytes (bs ++ [b]) = (from_be_bytes bs * 256 + byte_to_Z b)%Z.
Proof. unfold from_be_bytes. by rewrite foldl_app. Qed.

Lemma from_to_be_bytes n z : (0 <= z < 256 ^ Z.of_nat n)%Z -> from_be_bytes (to_be_bytes n z) = z.
Proof.
  revert z. induction n as [|n IH]; intros z Hz.
  - cbn in *. lia.
  - cbn [to_be_bytes]. rewrite from_be_bytes_app, byte_to_of_Z.
    rewrite Nat2Z.inj_succ, Z.pow_succ_r in Hz by lia.
    rewrite IH.
    + pose proof (Z.div_mod z 256 ltac:(lia)). lia.
    + split; [apply Z.div_pos; lia|]. apply Z.div_lt_upper_bound; lia.
Qed.

Lemma from_be_bytes_range bs : (0 <= from_be_bytes bs < 256 ^ Z.of_nat (length bs))%Z.
Proof.
  induction bs as [|b bs IH] using rev_ind; [done|].
  rewrite from_be_bytes_app, length_app, Nat2Z.inj_add, Z.pow_add_r by lia.
  pose proof (byte_to_Z_range b). cbn [length]. lia.
Qed.

Lemma to_from_be_bytes bs : to_be_bytes (length bs) (from_be_bytes bs) = bs.
Proof.
  induction bs as [|b bs IH] using rev_ind; [done|].
  rewrite length_app, Nat.add_comm, from_be_bytes_app. cbn [length Nat.add to_be_bytes].
  pose proof (byte_to_Z_range b). f_equal.
  - rewrite (Z.add_comm (_ * _)), Z.div_add, Z.div_small by lia. exact IH.
  - f_equal. rewrite <-(byte_of_to_Z b) at 2. unfold byte_of_Z.
    by rewrite Z.add_comm, Z.mod_add by lia.
Qed.

Lemma to_be_bytes_inj n z1 z2 :
  (0 <= z1 < 256 ^ Z.of_nat n)%Z -> (0 <= z2 < 256 ^ Z.of_nat n)%Z ->
  to_be_bytes n z1 = to_be_bytes n z2 -> z1 = z2.
Proof. intros H1 H2 H. apply (f_equal from_be_bytes) in H. by rewrite !from_to_be_bytes in H. Qed.

(** ** Outcomes

    A Rust function of the model returns normally ([Done]), panics ([Panic]: an
    [expect], an index, an [unimplemented!] or an arithmetic overflow in a build
    with overflow checks), or, for a loop translated with fuel, runs out of it. *)
Inductive Outcome (A : Type) : Type :=
  | Done (a : A)
  | Panic
  | OutOfFuel.
Arguments Done {A} a.
Arguments Panic {A}.
Arguments OutOfFuel {A}.

#[export] Instance Outcome_ret : MRet Outcome := @Done.
#[export] Instance Outcome_bind : MBind Outcome := fun A B f m =>
  match m with
  | Done a => f a
  | Panic => Panic
  | OutOfFuel => OutOfFuel
  end.

(** [expect] and [unwrap] on an option. *)
Definition expect {A} (o : option A) : Outcome A :=
  match o with Some a => Done a | None => Panic end.

(** Checked [usize] arithmetic, as the dev profile compiles [+=] and [-=]. *)
Definition usize_add (a b : Z) : Outcome Z :=
  if decide (a + b <= usize_MAX)%Z then Done (a + b)%Z else Panic.
Definition usize_sub (a b : Z) : Outcome Z :=
  if decide (b <= a)%Z then Done (a - b)%Z else Panic.

Lemma Outcome_bind_Done {A B} (m : Outcome A) (f : A -> Outcome B) b :
  (m ≫= f) = Done b <-> exists a, m = Done a /\ f a = Done b.
Proof. destruct m as [a| |]; simpl; split; [by exists a|by intros (? & [= ->] & ?)|done|by intros (? & ? & _)|done|by intros (? & ? & _)]. Qed.

(** Rust's [Result]. *)
Inductive Result (A E : Type) : Type :=
  | Ok (a : A)
  | Err (e : E).
Arguments Ok {A E} a.
Arguments Err {A E} e.

Definition is_ok {A E} (r : Result A E) : bool :=
  match r with Ok _ => true | Err _ => false end.

(** Rust's [Poll]. *)
Inductive Poll (A : Type) : Type :=
  | Ready (a : A)
  | Pending.
Arguments Ready {A} a.
Arguments Pending {A}.

Definition is_ready {A} (p : Poll A) : bool :=
  match p with Ready _ => true | Pending => false end.

(** ** Hash iteration order

    The iteration order of [std::collections::HashMap] and [HashSet] is
    unspecified: every loop over one goes through [hash_order], of which only
    the multiset of the visited elements is known.  Theorems proved under
    [HashOrder] hold for every order. *)
Class HashOrder : Type := {
  hash_order : forall A : Type, list A -> list A;
  hash_order_perm : forall (A : Type) (l : list A), hash_order A l ≡ₚ l;
}.

(** The order that visits the elements as the map stores them, for evaluation. *)
#[export, refine] Instance hash_order_id : HashOrder | 100 := {| hash_order := fun _ l => l |}.
Proof. done. Defined.

Section HashIteration.
Context `{HashOrder} {K V S : Type} `{Countable K}.

(** [map.iter()] and [set.iter()]. *)
Definition hm_iter (m : gmap K V) : list (K * V) := hash_order _ (map_to_list m).
Definition hs_iter (s : gset K) : list K := hash_order _ (elements s).

(** [for (k, v) in map.iter_mut() { body }]: the body may replace the value it
    is given and updates the loop state. *)
Definition hm_iter_mut (body : K -> V -> S -> V * S) (m : gmap K V) (s : S) : gmap K V * S :=
  foldl (fun '(m, s) '(k, v) => let '(v', s') := body k v s in (<[k:=v']> m, s'))
    (m, s) (hm_iter m).

Lemma hm_iter_perm m : hm_iter m ≡ₚ map_to_list m.
Proof. apply hash_order_perm. Qed.

Lemma elem_of_hm_iter m k v : (k, v) ∈ hm_iter m <-> m !! k = Some v.
Proof. by rewrite hm_iter_perm, elem_of_map_to_list. Qed.

Lemma NoDup_hm_iter_fst m : NoDup (hm_iter m).*1.
Proof. rewrite hm_iter_perm. apply NoDup_fst_map_to_list. Qed.

Lemma elem_of_hs_iter s k : k ∈ hs_iter s <-> k ∈ s.
Proof. unfold hs_iter. by rewrite hash_order_perm, elem_of_elements. Qed.

Lemma NoDup_hs_iter s : NoDup (hs_iter s).
Proof. unfold hs_iter. rewrite hash_order_perm. apply NoDup_elements. Qed.

Lemma hs_iter_empty : hs_iter ∅ = [].
Proof. apply Permutation_nil. unfold hs_iter. by rewrite hash_order_perm, elements_empty. Qed.

Lemma hs_iter_singleton k : hs_iter {[k]} = [k].
Proof.
  apply Permutation_singleton_r. unfold hs_iter. by rewrite hash_order_perm, elements_singleton.
Qed.

Lemma foldl_insert_lookup (f : K -> V -> V) l (m0 : gmap K V) k :
  NoDup l.*1 ->
  foldl (fun m '(k, v) => <[k := f k v]> m) m0 l !! k =
    match (list_to_map l : gmap K V) !! k with Some v => Some (f k v) | None => m0 !! k end.
Proof.
  revert m0. induction l as [|[k' v'] l IH]; intros m0 Hnd; simpl; [by rewrite lookup_empty|].
  apply NoDup_cons in Hnd as [Hni Hnd]. rewrite IH by done.
  destruct (decide (k = k')) as [->|Hne].
  - rewrite lookup_insert_eq, not_elem_of_list_to_map_1 by done. by rewrite lookup_insert_eq.
  - by rewrite !lookup_insert_ne by done.
Qed.

(** When the value written does not depend on the loop state, the loop is a
    map over the entries, and the state is the fold of the state updates. *)
Lemma hm_iter_mut_spec (body : K -> V -> S -> V * S) (f : K -> V -> V) (g : K -> V -> S -> S) m s :
  (forall k v s, m !! k = Some v -> body k v s = (f k v, g k v s)) ->
  hm_iter_mut body m s =
    (map_imap (fun k v => Some (f k v)) m, foldl (fun s '(k, v) => g k v s) s (hm_iter m)).
Proof.
  intros Hb. unfold hm_iter_mut.
  assert (forall l (m0 : gmap K V) s0, (forall k v, (k, v) ∈ l -> m !! k = Some v) ->
    foldl (fun '(m, s) '(k, v) => let '(v', s') := body k v s in (<[k:=v']> m, s')) (m0, s0) l =
    (foldl (fun m '(k, v) => <[k := f k v]> m) m0 l, foldl (fun s '(k, v) => g k v s) s0 l)) as ->.
  { induction l as [|[k v] l IH]; intros m0 s0 Hl; simpl; [done|].
    rewrite Hb by (apply Hl; left). apply IH. intros k' v' Hin. apply Hl. by right. }
  2: { intros k v. apply elem_of_hm_iter. }
  f_equal. apply map_eq. intros k.
  rewrite foldl_insert_lookup by apply NoDup_hm_iter_fst.
  rewrite map_lookup_imap.
  rewrite (list_to_map_proper _ (map_to_list m)) by (apply NoDup_hm_iter_fst || apply hm_iter_perm).
  rewrite list_to_map_to_list. by destruct (m !! k).
Qed.
End HashIteration.

(** ** Lists *)

Lemma filter_all {A} (P : A -> Prop) `{forall x, Decision (P x)} (l : list A) :
  Forall P l -> filter P l = l.
Proof. induction 1 as [|x l Hx Hl IH]; [done|]. by rewrite filter_cons_True, IH. Qed.

Lemma list_filter_iff_in {A} (P Q : A -> Prop) `{forall x, Decision (P x)} `{forall x, Decision (Q x)} (l : list A) :
  (forall x, x ∈ l -> P x <-> Q x) -> filter P l = filter Q l.
Proof.
  induction l as [|x l IH]; intros Hl; [done|]. rewrite !filter_cons.
  rewrite IH by (intros y Hy; apply Hl; by right). pose proof (Hl x ltac:(left)).
  by repeat case_decide; try tauto.
Qed.

Lemma filter_fmap {A B} (f : A -> B) (P : B -> Prop) `{forall x, Decision (P x)} (l : list A) :
  filter P (f <$> l) = f <$> filter (fun x => P (f x)) l.
Proof.
  induction l as [|x l IH]; [done|]. rewrite fmap_cons, !filter_cons, IH. by case_decide.
Qed.

Lemma omap_none {A B} (f : A -> option B) (l : list A) : (forall x, x ∈ l -> f x = None) -> omap f l = [].
Proof.
  induction l as [|x l IH]; intros Hf; [done|]. cbn. rewrite (Hf x) by left. apply IH.
  intros y Hy. apply Hf. by right.
Qed.

Lemma NoDup_fmap_inj {A B} (f : A -> B) (l : list A) x y :
  NoDup (f <$> l) -> x ∈ l -> y ∈ l -> f x = f y -> x = y.
Proof.
  intros Hnd Hx Hy Hf. apply list_elem_of_split in Hx as (l1 & l2 & ->).
  rewrite fmap_app, fmap_cons in Hnd. apply NoDup_app in Hnd as (_ & H1 & [H2 _]%NoDup_cons).
  apply elem_of_app in Hy as [Hy|[->|Hy]%elem_of_cons]; [|done|].
  - exfalso. apply (H1 (f y)); [by apply list_elem_of_fmap_2|]. rewrite Hf. by left.
  - exfalso. apply H2. rewrite Hf. by apply list_elem_of_fmap_2.
Qed.

(** ** BTreeSet

    [std::collections::BTreeSet] over a comparison function, as the list of its
    elements in ascending order.  [insert] leaves the set as it is when an element
    comparing [Eq] is present, and [remove] removes the element comparing [Eq]. *)
Section BTreeSet.
Context {A : Type} (cmp : A -> A -> comparison).

Fixpoint btree_insert (x : A) (s : list A) : list A :=
  match s with
  | [] => [x]
  | y :: s' =>
      match cmp x y with
      | Lt => x :: s
      | Eq => s
      | Gt => y :: btree_insert x s'
      end
  end.

Fixpoint btree_remove (x : A) (s : list A) : list A :=
  match s with
  | [] => []
  | y :: s' =>
      match cmp x y with
      | Lt => s
      | Eq => s'
      | Gt => y :: btree_remove x s'
      end
  end.

Definition btree_pop_first (s : list A) : option (A * list A) :=
  match s with [] => None | y :: s' => Some (y, s') end.

Definition btree_first (s : list A) : option A := head s.

Context (key : A -> Z) (cmp_key : forall a b, cmp a b = (key a ?= key b)%Z).

Definition btree_sorted : list A -> Prop := StronglySorted (fun a b => (key a < key b)%Z).

Lemma elem_of_btree_insert x s y :
  x ∈ btree_insert y s -> x = y \/ x ∈ s.
Proof.
  induction s as [|z s IH]; simpl; [set_solver|].
  destruct (cmp y z); rewrite ?elem_of_cons; naive_solver.
Qed.

Lemma btree_insert_sorted x s : btree_sorted s -> btree_sorted (btree_insert x s).
Proof.
  intros Hs. induction Hs as [|y s Hs IH Hy]; simpl; [repeat constructor|].
  rewrite cmp_key. destruct (Z.compare_spec (key x) (key y)).
  - by constructor.
  - constructor; [by constructor|]. constructor; [done|].
    eapply Forall_impl; [exact Hy|]. simpl. lia.
  - constructor; [exact IH|]. apply Forall_forall. intros z Hz%elem_of_btree_insert.
    destruct Hz as [->|Hz]; [lia|]. by eapply Forall_forall in Hy.
Qed.

(** An element whose key is not in the set is really inserted. *)
Lemma elem_of_btree_insert_fresh x s y :
  (forall z, z ∈ s -> key z <> key y) ->
  x ∈ btree_insert y s <-> x = y \/ x ∈ s.
Proof.
  induction s as [|z s IH]; simpl; intros Hf; [set_solver|].
  rewrite cmp_key. destruct (Z.compare_spec (key y) (key z)) as [He|Hlt|Hgt].
  - destruct (Hf z); [set_solver|lia].
  - by rewrite !elem_of_cons.
  - rewrite !elem_of_cons, IH by set_solver. naive_solver.
Qed.

(** An element whose key is already in the set is dropped. *)
Lemma btree_insert_present y z s :
  btree_sorted s -> z ∈ s -> key z = key y -> btree_insert y s = s.
Proof.
  induction 1 as [|w s Hs IH Hw]; simpl; [set_solver|]. intros Hz Hk.
  rewrite cmp_key. apply elem_of_cons in Hz as [->|Hz].
  - by rewrite Hk, Z.compare_refl.
  - assert (key w < key z)%Z by (by eapply Forall_forall in Hw).
    replace (key y ?= key w)%Z with Gt by (symmetry; apply Z.compare_gt_iff; lia).
    by rewrite IH.
Qed.

Lemma btree_remove_Forall x (P : A -> Prop) s : Forall P s -> Forall P (btree_remove x s).
Proof.
  induction 1 as [|z s Hz HP IH]; simpl; [constructor|].
  destruct (cmp x z); [done|by constructor|by constructor].
Qed.

Lemma btree_remove_sorted x s : btree_sorted s -> btree_sorted (btree_remove x s).
Proof.
  induction 1 as [|y s Hs IH Hy]; simpl; [constructor|].
  destruct (cmp x y); [done|by constructor|].
  constructor; [done|]. by apply btree_remove_Forall.
Qed.

Lemma elem_of_btree_remove x s y :
  btree_sorted s -> x ∈ btree_remove y s <-> x ∈ s /\ key x <> key y.
Proof.
  induction 1 as [|z s Hs IH Hz]; simpl; [set_solver|].
  rewrite Forall_forall in Hz.
  rewrite cmp_key. destruct (Z.compare_spec (key y) (key z)) as [He|Hlt|Hgt];
    rewrite ?elem_of_cons, ?IH; split.
  - intros Hx. pose proof (Hz _ Hx). split; [by right|]. simpl in *. lia.
  - intros [[->|Hx] Hk]; [congruence|done].
  - intros [->|Hx]; [split; [by left|lia]|].
    pose proof (Hz _ Hx). split; [by right|]. simpl in *. lia.
  - intros [[->|Hx] _]; [by left|by right].
  - intros [->|[Hx Hk]]; [split; [by left|lia]|split; [by right|done]].
  - intros [[->|Hx] Hk]; [by left|by right].
Qed.

(** An element later than all others goes last. *)
Lemma btree_insert_last x s :
  (forall y, y ∈ s -> (key y < key x)%Z) -> btree_insert x s = s ++ [x].
Proof.
  induction s as [|y s IH]; simpl; intros Hs; [done|]. rewrite cmp_key.
  replace (key x ?= key y)%Z with Gt.
  - rewrite IH; [done|]. set_solver.
  - symmetry. apply Z.compare_gt_iff. apply Hs. by left.
Qed.

(** Two ascending lists with the same elements are the same list. *)
Lemma btree_sorted_ext (l l' : list A) :
  btree_sorted l -> btree_sorted l' -> (forall x, x ∈ l <-> x ∈ l') -> l = l'.
Proof.
  intros Hl Hl' Hx.
  assert (forall k : list A, btree_sorted k -> NoDup k) as Hnd.
  { induction 1 as [|x k Hk IH Hall]; constructor; [|done]. intros Hin.
    rewrite Forall_forall in Hall. specialize (Hall _ Hin). lia. }
  eapply StronglySorted_unique_strong; [|exact Hl|exact Hl'|by apply NoDup_Permutation; auto].
  simpl. intros; lia.
Qed.

Lemma btree_sorted_filter (P : A -> Prop) `{forall x, Decision (P x)} (l : list A) :
  btree_sorted l -> btree_sorted (filter P l).
Proof.
  induction 1 as [|x l Hl IH Hx]; [constructor|]. rewrite filter_cons. case_decide; [|done].
  constructor; [done|]. apply Forall_forall. intros y [_ Hy]%list_elem_of_filter.
  by eapply Forall_forall in Hx.
Qed.
End BTreeSet.
Arguments btree_pop_first {A} s.
Arguments btree_first {A} s.

(** ** Stable sorting: [slice::sort_by_key] *)
Section SortByKey.
Context {A : Type} (key : A -> Z).

Fixpoint sort_insert (x : A) (l : list A) : list A :=
  match l with
  | [] => [x]
  | y :: l' => if (key x <=? key y)%Z then x :: l else y :: sort_insert x l'
  end.

Definition sort_by_key (l : list A) : list A := foldr sort_insert [] l.

Lemma sort_insert_perm x l : sort_insert x l ≡ₚ x :: l.
Proof. induction l as [|y l IH]; simpl; [done|]. case_match; [done|]. rewrite IH. apply perm_swap. Qed.

Lemma sort_by_key_perm l : sort_by_key l ≡ₚ l.
Proof. induction l as [|x l IH]; simpl; [done|]. by rewrite sort_insert_perm, IH. Qed.

Lemma sort_insert_sorted x l :
  StronglySorted (fun a b => (key a <= key b)%Z) l ->
  StronglySorted (fun a b => (key a <= key b)%Z) (sort_insert x l).
Proof.
  induction 1 as [|y l Hl IH Hy]; simpl; [repeat constructor|].
  case_match eqn:E.
  - constructor; [by constructor|]. constructor; [lia|].
    eapply Forall_impl; [exact Hy|]. simpl. lia.
  - constructor; [done|]. rewrite sort_insert_perm. constructor; [lia|done].
Qed.

Lemma sort_by_key_sorted l : StronglySorted (fun a b => (key a <= key b)%Z) (sort_by_key l).
Proof. induction l as [|x l IH]; simpl; [constructor|]. by apply sort_insert_sorted. Qed.

(** Distinct keys end up strictly ascending. *)
Lemma sort_by_key_strict l :
  NoDup (key <$> sort_by_key l) -> StronglySorted (fun a b => (a < b)%Z) (key <$> sort_by_key l).
Proof.
  pose proof (sort_by_key_sorted l) as Hs. induction Hs as [|x k Hk IH Hx]; [constructor|].
  rewrite fmap_cons. intros [Hni Hnd]%NoDup_cons. constructor; [by apply IH|].
  apply Forall_fmap. rewrite Forall_forall in Hx |- *. intros y Hy. specialize (Hx y Hy). cbn in *.
  assert (key y <> key x) by (intros He; apply Hni; rewrite <-He; by apply list_elem_of_fmap_2). lia.
Qed.

Lemma StronglySorted_fmap_key l :
  StronglySorted (fun a b => (a < b)%Z) (key <$> l) -> StronglySorted (fun a b => (key a < key b)%Z) l.
Proof.
  induction l as [|x l IH]; [constructor|]. rewrite fmap_cons. intros [Hl Hx]%StronglySorted_inv.
  constructor; [by apply IH|]. rewrite (Forall_fmap key) in Hx. exact Hx.
Qed.

(** A sort by distinct keys forgets the order of its input. *)
Lemma sort_by_key_unique l1 l2 :
  l1 ≡ₚ l2 -> NoDup (key <$> l1) -> sort_by_key l1 = sort_by_key l2.
Proof.
  intros Hp Hnd.
  assert (NoDup (key <$> sort_by_key l1)) as Hnd1 by by rewrite sort_by_key_perm.
  assert (NoDup (key <$> sort_by_key l2)) as Hnd2 by by rewrite sort_by_key_perm, <-Hp.
  apply (btree_sorted_ext key); [| |by intros x; rewrite (sort_by_key_perm l1), (sort_by_key_perm l2), Hp].
  all: unfold btree_sorted.
  - by apply StronglySorted_fmap_key, sort_by_key_strict.
  - by apply StronglySorted_fmap_key, sort_by_key_strict.
Qed.
End SortByKey.
