(* ===== verification/Ids.v ===== *)
(** * Identifiers and codes (model crate)

    [model/src/{message,endpoint,node,util,topic}.rs] and
    [server/src/protocol/node/edge/packet.rs]: the 16-byte identifiers, their
    snowflake constructors, their base64 and hexadecimal renderings, and topic
    codes.  The [base64] and [sha2] crates are parameters. *)

From S2P Require Import Prelude.

(** ** util.rs: hexadecimal rendering *)
Module Hex.
(** One digit of [{:02x}]. *)
Definition hex_digit (n : Z) : u8 :=
  byte_of_Z (if (n <? 10)%Z then 48 + n else 87 + n)%Z.

(** [Hex]'s [Display]: every byte as two lowercase digits. *)
Definition hex (bs : list u8) : list u8 :=
  flat_map (fun b => [hex_digit (byte_to_Z b / 16); hex_digit (byte_to_Z b mod 16)]) bs.

(** [Dashed]'s [Debug]: the parts separated by ['-'], none after the last. *)
Fixpoint dashed (parts : list (list u8)) : list u8 :=
  match parts with
  | [] => []
  | [p] => p
  | p :: ps => p ++ [x2d] ++ dashed ps
  end.

Lemma hex_digit_inj a b :
  (0 <= a < 16)%Z -> (0 <= b < 16)%Z -> hex_digit a = hex_digit b -> a = b.
Proof.
  unfold hex_digit. intros Ha Hb H. apply (f_equal byte_to_Z) in H.
  rewrite !byte_to_of_Z in H. revert H.
  destruct (Z.ltb_spec a 10), (Z.ltb_spec b 10); rewrite ?(Z.mod_small (48 + _)), ?(Z.mod_small (87 + _)) by lia; lia.
Qed.

Lemma length_hex bs : length (hex bs) = 2 * length bs.
Proof. induction bs as [|b bs IH]; simpl; [done|]. rewrite IH. lia. Qed.

Lemma hex_byte_inj a b :
  hex_digit (byte_to_Z a / 16) = hex_digit (byte_to_Z b / 16) ->
  hex_digit (byte_to_Z a mod 16) = hex_digit (byte_to_Z b mod 16) -> a = b.
Proof.
  pose proof (byte_to_Z_range a) as Ra. pose proof (byte_to_Z_range b) as Rb.
  intros Hd Hm.
  apply hex_digit_inj in Hd; [|split; [apply Z.div_pos|apply Z.div_lt_upper_bound]; lia..].
  apply hex_digit_inj in Hm; [|apply Z.mod_pos_bound; lia..].
  rewrite <-(byte_of_to_Z a), <-(byte_of_to_Z b). f_equal.
  rewrite (Z.div_mod (byte_to_Z a) 16), (Z.div_mod (byte_to_Z b) 16) by lia. congruence.
Qed.

Lemma hex_inj (a b : list u8) : hex a = hex b -> a = b.
Proof.
  revert b. induction a as [|x a IH]; intros [|y b]; try done.
  simpl. intros [= H1 H2 H3]. f_equal; [by apply hex_byte_inj|]. by apply IH.
Qed.
End Hex.

(** ** The base64 engines

    [base64::engine::general_purpose::STANDARD] and [URL_SAFE] (the [url] ones):
    third-party code, known by the law that decoding undoes encoding. *)
Class Base64Engine : Type := {
  b64_encode : list u8 -> list u8;
  b64_decode : list u8 -> option (list u8);
  b64_decode_encode : forall bs, b64_decode (b64_encode bs) = Some bs;
  url_encode : list u8 -> list u8;
  url_decode : list u8 -> option (list u8);
  url_decode_encode : forall bs, url_decode (url_encode bs) = Some bs;
}.

(** [base64::DecodeError], of which the source builds only [InvalidLength]. *)
Inductive DecodeError : Type :=
  | InvalidLength (n : nat)
  | DecodeFailed.

(** What reading an [EndpointAddr] reports: an error of the engine, or a text. *)
Inductive AddrError : Type :=
  | AddrDecode (e : DecodeError)
  | AddrText (text : string).

(** [dst.copy_from_slice(src)] for a 16-byte array: it panics on other lengths. *)
Definition copy_from_slice16 (bs : list u8) : Outcome (list u8) :=
  if decide (length bs = 16) then Done bs else Panic.

(** ** MessageId *)
Record MessageId : Type := mkMessageId { message_id_bytes : list u8 }.
#[export] Instance MessageId_eq_dec : EqDecision MessageId.
Proof. solve_decision. Defined.
#[export] Program Instance MessageId_countable : Countable MessageId :=
  inj_countable' message_id_bytes mkMessageId _.
Next Obligation. by intros []. Qed.

(** ** EndpointAddr *)
Record EndpointAddr : Type := mkEndpointAddr { endpoint_addr_bytes : list u8 }.
#[export] Instance EndpointAddr_eq_dec : EqDecision EndpointAddr.
Proof. solve_decision. Defined.
#[export] Program Instance EndpointAddr_countable : Countable EndpointAddr :=
  inj_countable' endpoint_addr_bytes mkEndpointAddr _.
Next Obligation. by intros []. Qed.

(** ** NodeId *)
Record NodeId : Type := mkNodeId { node_id_bytes : list u8 }.
#[export] Instance NodeId_eq_dec : EqDecision NodeId.
Proof. solve_decision. Defined.
#[export] Program Instance NodeId_countable : Countable NodeId :=
  inj_countable' node_id_bytes mkNodeId _.
Next Obligation. by intros []. Qed.

(** ** EdgePacketId *)
Record EdgePacketId : Type := mkEdgePacketId { edge_packet_id_bytes : list u8 }.
#[export] Instance EdgePacketId_eq_dec : EqDecision EdgePacketId.
Proof. solve_decision. Defined.

(** ** TopicCode: a wrapper of the code's bytes, expected to be UTF-8. *)
Record TopicCode : Type := mkTopicCode { topic_code_bytes : list u8 }.
#[export] Instance TopicCode_eq_dec : EqDecision TopicCode.
Proof. solve_decision. Defined.
#[export] Program Instance TopicCode_countable : Countable TopicCode :=
  inj_countable' topic_code_bytes mkTopicCode _.
Next Obligation. by intros []. Qed.

(** [TopicCode::new] on a string literal. *)
Definition topic_code_new (s : string) : TopicCode := mkTopicCode (String.list_byte_of_string s).

(** [Display] of a topic code. *)
Definition topic_code_display (c : TopicCode) : list u8 := topic_code_bytes c.

(** ** Snowflake constructors

    The three read a timestamp in seconds, the executor digest (a hash of the
    thread and machine ids) and a thread-local [u32] counter, and step the
    counter: each returns the identifier and the counter's new value. *)
Section Snowflake.
Context (timestamp executor_digest : Z).

Definition message_id_new_snowflake (counter : Z) : MessageId * Z :=
  let eid := as_u32 executor_digest in
  (mkMessageId (to_be_bytes 4 eid ++ to_be_bytes 8 timestamp ++ to_be_bytes 4 counter),
   u32_wrapping_add counter 1).

Definition endpoint_addr_new_snowflake (counter : Z) : EndpointAddr * Z :=
  let eid := as_u32 executor_digest in
  (mkEndpointAddr (to_be_bytes 8 timestamp ++ to_be_bytes 4 counter ++ to_be_bytes 4 eid),
   u32_wrapping_add counter 1).

Definition edge_packet_id_new_snowflake (counter : Z) : EdgePacketId * Z :=
  let eid := as_u32 executor_digest in
  (mkEdgePacketId (to_be_bytes 8 timestamp ++ to_be_bytes 4 counter ++ to_be_bytes 4 eid),
   u32_wrapping_add counter 1).

(** [NodeId::snowflake]: the process-wide [INSTANCE_ID] is an [AtomicU8], whose
    [fetch_add] wraps; the timestamp keeps its six low bytes. *)
Definition node_id_snowflake (instance_id : Z) : NodeId * Z :=
  (mkNodeId ([x02] ++ to_be_bytes 8 executor_digest ++ to_be_bytes 1 instance_id
              ++ drop 2 (to_be_bytes 8 timestamp)),
   (instance_id + 1) mod 256)%Z.
End Snowflake.

Definition node_id_new_indexed (id : Z) : NodeId :=
  mkNodeId ([x00] ++ to_be_bytes 8 id ++ replicate 7 x00).

(** [NodeId::sha256]: the digest function of the [sha2] crate is a parameter; it
    returns 32 bytes. *)
Definition node_id_sha256 (digest : list u8 -> list u8) (bs : list u8) : NodeId :=
  mkNodeId ([x01] ++ take 15 (digest bs)).

(** ** Base64 conversions *)
Section Base64.
Context `{Base64Engine}.

Definition message_id_to_base64 (i : MessageId) : list u8 := b64_encode (message_id_bytes i).

Definition message_id_from_base64 (s : list u8) : Outcome (Result MessageId DecodeError) :=
  match b64_decode s with
  | None => Done (Err DecodeFailed)
  | Some bytes =>
      if decide (length bytes ≠ 16) then Done (Err (InvalidLength (length bytes)))
      else addr ← copy_from_slice16 bytes; Done (Ok (mkMessageId addr))
  end.

(** [Serialize]/[Deserialize] of [EndpointAddr] in a human-readable format. *)
Definition endpoint_addr_serialize (e : EndpointAddr) : list u8 :=
  url_encode (endpoint_addr_bytes e).

Definition endpoint_addr_deserialize (s : list u8) : Outcome (Result EndpointAddr AddrError) :=
  match url_decode s with
  | None => Done (Err (AddrDecode DecodeFailed))
  | Some bytes =>
      if decide (length bytes ≠ 16) then Done (Err (AddrText "invalid length"))
      else addr ← copy_from_slice16 bytes; Done (Ok (mkEndpointAddr addr))
  end.

Definition node_id_to_base64 (i : NodeId) : list u8 := url_encode (node_id_bytes i).

(** [NodeId::from_base64] has no length check before [copy_from_slice]. *)
Definition node_id_from_base64 (s : list u8) : Outcome (Result NodeId DecodeError) :=
  match url_decode s with
  | None => Done (Err DecodeFailed)
  | Some id => bytes ← copy_from_slice16 id; Done (Ok (mkNodeId bytes))
  end.
End Base64.

(** ** Display *)
Definition slice (a b : nat) (bs : list u8) : list u8 := take (b - a) (drop a bs).

Definition message_id_display (i : MessageId) : list u8 :=
  let bytes := message_id_bytes i in
  Hex.hex (slice 0 4 bytes) ++ [x2d] ++ Hex.hex (slice 4 12 bytes) ++ [x2d]
    ++ Hex.hex (slice 12 16 bytes).

Definition node_id_display (i : NodeId) : list u8 :=
  let bytes := node_id_bytes i in
  Hex.hex (slice 0 1 bytes) ++ [x2d] ++ Hex.hex (slice 1 9 bytes) ++ [x2d]
    ++ Hex.hex (slice 9 10 bytes) ++ [x2d] ++ Hex.hex (slice 10 16 bytes).

(** [Debug], in the plain format [{:?}]: a tuple of one field. *)
Definition debug_tuple (name : string) (field : list u8) : list u8 :=
  String.list_byte_of_string name ++ [x28] ++ field ++ [x29].

Definition message_id_debug (i : MessageId) : list u8 :=
  let bytes := message_id_bytes i in
  debug_tuple "MessageId" (Hex.dashed [Hex.hex (slice 0 4 bytes); Hex.hex (slice 4 12 bytes); Hex.hex (slice 12 16 bytes)]).

Definition node_id_debug (i : NodeId) : list u8 :=
  let bytes := node_id_bytes i in
  debug_tuple "NodeId" (Hex.dashed [Hex.hex (slice 0 1 bytes); Hex.hex (slice 1 9 bytes); Hex.hex (slice 9 10 bytes);
    Hex.hex (slice 10 16 bytes)]).

Definition edge_packet_id_debug (i : EdgePacketId) : list u8 :=
  debug_tuple "N2NEventId" (Hex.hex (edge_packet_id_bytes i)).

Definition endpoint_addr_debug (e : EndpointAddr) : list u8 :=
  let bytes := endpoint_addr_bytes e in
  debug_tuple "EndpointAddr" (Hex.dashed [Hex.hex (slice 0 8 bytes); Hex.hex (slice 8 12 bytes); Hex.hex (slice 12 16 bytes)]).

(** ** Properties *)

(** The identifiers a thread draws in consecutive calls, one timestamp each. *)
Fixpoint message_id_run (executor_digest : Z) (timestamps : list Z) (counter : Z) : list MessageId :=
  match timestamps with
  | [] => []
  | ts :: rest =>
      let '(i, counter') := message_id_new_snowflake ts executor_digest counter in
      i :: message_id_run executor_digest rest counter'
  end.

Lemma app_inj_length {A} (a b c d : list A) :
  length a = length c -> a ++ b = c ++ d -> a = c /\ b = d.
Proof. apply app_inj_1. Qed.

(** The counter field of a snowflake message id is its last four bytes. *)
Lemma message_id_snowflake_counter ts ts' d c c' :
  (0 <= c < 2 ^ 32)%Z -> (0 <= c' < 2 ^ 32)%Z ->
  fst (message_id_new_snowflake ts d c) = fst (message_id_new_snowflake ts' d c') -> c = c'.
Proof.
  unfold message_id_new_snowflake. cbn [fst]. intros Hc Hc' H.
  apply (f_equal message_id_bytes) in H. cbn [message_id_bytes] in H.
  apply app_inj_length in H as [_ H]; [|by rewrite !length_to_be_bytes].
  apply app_inj_length in H as [_ H]; [|by rewrite !length_to_be_bytes].
  apply to_be_bytes_inj in H; [done|lia..].
Qed.

Lemma elem_of_message_id_run d tss c i :
  (0 <= c < 2 ^ 32)%Z -> i ∈ message_id_run d tss c ->
  exists k ts, (0 <= k < Z.of_nat (length tss))%Z /\
    i = fst (message_id_new_snowflake ts d ((c + k) mod 2 ^ 32)).
Proof.
  revert c. induction tss as [|ts tss IH]; intros c Hc; [by intros ?%not_elem_of_nil|].
  cbn [message_id_run message_id_new_snowflake length].
  intros [->|Hi]%elem_of_cons.
  - exists 0%Z, ts. split; [lia|]. by rewrite Z.add_0_r, Z.mod_small.
  - apply IH in Hi as (k & ts' & Hk & ->).
    + exists (k + 1)%Z, ts'. split; [lia|]. unfold u32_wrapping_add.
      rewrite Zplus_mod_idemp_l. do 3 f_equal. lia.
    + apply Z.mod_pos_bound. lia.
Qed.

(** A thread that draws at most 2^32 message ids in a row never draws the
    same id twice, whatever the clock returns in between (it may stand still or
    go back): the thread-local counter alone keeps them apart. *)
Theorem message_id_run_NoDup (executor_digest : Z) (timestamps : list Z) (counter : Z) :
  (0 <= counter < 2 ^ 32)%Z -> (Z.of_nat (length timestamps) <= 2 ^ 32)%Z ->
  NoDup (message_id_run executor_digest timestamps counter).
Proof.
  revert counter. induction timestamps as [|ts tss IH]; intros c Hc Hlen; [constructor|].
  cbn [message_id_run message_id_new_snowflake length] in *. constructor.
  - intros (k & ts' & Hk & Hi)%elem_of_message_id_run; [|apply Z.mod_pos_bound; lia].
    unfold u32_wrapping_add in Hi. rewrite Zplus_mod_idemp_l in Hi.
    apply (message_id_snowflake_counter ts ts') in Hi; [|done|apply Z.mod_pos_bound; lia].
    assert (c = (c + (1 + k)) mod 2 ^ 32)%Z as Hc' by (rewrite Hi at 1; f_equal; lia).
    destruct (Z.ltb_spec (c + (1 + k)) (2 ^ 32)).
    + rewrite Z.mod_small in Hc' by lia. lia.
    + replace (c + (1 + k))%Z with ((c + (1 + k) - 2 ^ 32) + 1 * 2 ^ 32)%Z in Hc' by lia.
      rewrite Z.mod_add, Z.mod_small in Hc' by lia. lia.
  - apply IH; [|lia]. apply Z.mod_pos_bound. lia.
Qed.

Lemma message_id_run_NoDup_witness :
  NoDup (message_id_run 77 [5; 5; 4]%Z u32_MAX).
Proof. apply (message_id_run_NoDup 77 [5; 5; 4]%Z u32_MAX); unfold u32_MAX; simpl; lia. Defined.

Section Base64Properties.
Context `{Base64Engine}.

(** A 16-byte message id survives the trip through its base64 text, and a
    text that decodes to another length is refused with the length it has,
    never panicking. *)
Theorem message_id_base64_roundtrip (bs : list u8) :
  message_id_from_base64 (b64_encode bs) =
    Done (if decide (length bs = 16) then Ok (mkMessageId bs) else Err (InvalidLength (length bs))).
Proof.
  unfold message_id_from_base64, copy_from_slice16. rewrite b64_decode_encode.
  destruct (decide (length bs = 16)) as [->|]; [|by rewrite decide_True].
  by rewrite decide_False by (intros ?; done).
Qed.

(** [NodeId::from_base64] has no length check: on the base64 text of any
    byte string that is not 16 bytes long it panics in [copy_from_slice]. *)
Theorem node_id_from_base64_panics (bs : list u8) :
  node_id_from_base64 (url_encode bs) = Panic <-> length bs <> 16.
Proof.
  unfold node_id_from_base64, copy_from_slice16. rewrite url_decode_encode.
  destruct (decide (length bs = 16)); simpl; [naive_solver congruence|done].
Qed.
End Base64Properties.

(** The parts of a [Display]ed message id determine its bytes. *)
Lemma slice_all3 (bs : list u8) :
  length bs = 16 -> slice 0 4 bs ++ slice 4 12 bs ++ slice 12 16 bs = bs.
Proof.
  intros Hl. unfold slice. rewrite drop_0. simpl Nat.sub.
  rewrite <-(take_drop 4 bs) at 4. f_equal.
  rewrite <-(take_drop 8 (drop 4 bs)) at 2. f_equal. rewrite drop_drop. simpl.
  apply take_ge. rewrite length_drop. lia.
Qed.

(** The [Display] text of a message id (three dash-separated hexadecimal
    groups) identifies it: no two 16-byte ids print alike. *)
Theorem message_id_display_inj (i j : MessageId) :
  length (message_id_bytes i) = 16 -> length (message_id_bytes j) = 16 ->
  message_id_display i = message_id_display j -> i = j.
Proof.
  destruct i as [a], j as [b]. cbn [message_id_bytes]. intros Ha Hb H.
  unfold message_id_display in H. cbn [message_id_bytes] in H.
  assert (forall n m l, length l = 16 -> m <= 16 -> length (slice n m l) = m - n) as Hlen.
  { intros n m l Hl Hm. unfold slice. rewrite length_take, length_drop. lia. }
  apply app_inj_length in H as [H1 H]; [|rewrite !Hex.length_hex, !Hlen by lia; done].
  apply app_inj_length in H as [_ H]; [|done].
  apply app_inj_length in H as [H2 H]; [|rewrite !Hex.length_hex, !Hlen by lia; done].
  apply app_inj_length in H as [_ H3]; [|done]. apply Hex.hex_inj in H1, H2, H3.
  f_equal. by rewrite <-(slice_all3 a), <-(slice_all3 b), H1, H2, H3.
Qed.

Lemma message_id_display_inj_witness :
  mkMessageId (replicate 16 x2a) = mkMessageId (replicate 16 x2a).
Proof.
  apply (message_id_display_inj (mkMessageId (replicate 16 x2a)) (mkMessageId (replicate 16 x2a)));
    reflexivity.
Defined.
