(* ===== verification/Interest.v ===== *)
(** * Subjects, interests and the interest map

    [model/src/interest.rs] (subjects, interests, their segments) and
    [server/src/protocol/interest.rs] (the radix tree that finds the endpoints
    interested in a subject). *)

From S2P Require Import Prelude.

(** ** Subjects *)

Record Subject : Type := mkSubject { subject_bytes : list u8 }.
#[export] Instance Subject_eq_dec : EqDecision Subject.
Proof. solve_decision. Defined.
#[export] Program Instance Subject_countable : Countable Subject :=
  inj_countable' subject_bytes mkSubject _.
Next Obligation. by intros []. Qed.

Definition slash : u8 := x2f.

(** [Subject::new] on a string literal. *)
Definition subject_new (s : string) : Subject := mkSubject (String.list_byte_of_string s).

Module SubjectSegments.
(** The loop of [next] that looks for the first slash. *)
Fixpoint find_slash (index : nat) (inner : list u8) : option nat :=
  match inner with
  | [] => None
  | b :: rest => if decide (b = slash) then Some index else find_slash (S index) rest
  end.

(** The loop that looks for the first byte after the run of slashes:
    [bias] counts from the first slash. *)
Fixpoint find_next_start (slash_index bias : nat) (rest : list u8) : option nat :=
  match rest with
  | [] => None
  | b :: rest' =>
      if decide (b <> slash) then Some (slash_index + bias)
      else find_next_start slash_index (S bias) rest'
  end.

(** [SubjectSegments::next]: the item and the iterator's new [inner]. *)
Definition next (inner : list u8) : option (list u8 * list u8) :=
  match inner with
  | [] => None
  | _ =>
      match find_slash 0 inner with
      | Some slash_index =>
          let next := take slash_index inner in
          match find_next_start slash_index 0 (drop slash_index inner) with
          | Some next_start => Some (next, drop next_start inner)
          | None => Some (next, [])
          end
      | None => Some (inner, [])
      end
  end.

(** The items the iterator yields until [None]; [fuel] bounds the calls. *)
Fixpoint collect (fuel : nat) (inner : list u8) : option (list (list u8)) :=
  match fuel with
  | O => None
  | S fuel =>
      match next inner with
      | None => Some []
      | Some (seg, inner') => (seg ::.) <$> collect fuel inner'
      end
  end.
End SubjectSegments.

(** [Subject::segments], driven to the end: every call of [next] consumes at
    least one byte, so the length bounds the calls ([subject_segments_total]). *)
Definition subject_segments (s : Subject) : list (list u8) :=
  default [] (SubjectSegments.collect (S (length (subject_bytes s))) (subject_bytes s)).

(** ** Interests *)

Record Interest : Type := mkInterest { interest_bytes : list u8 }.
#[export] Instance Interest_eq_dec : EqDecision Interest.
Proof. solve_decision. Defined.
#[export] Program Instance Interest_countable : Countable Interest :=
  inj_countable' interest_bytes mkInterest _.
Next Obligation. by intros []. Qed.

(** [Interest::new] on a string literal. *)
Definition interest_new (s : string) : Interest := mkInterest (String.list_byte_of_string s).

Inductive InterestSegment : Type :=
  | Specific (seg : list u8)
  | Any
  | RecursiveAny.
#[export] Instance InterestSegment_eq_dec : EqDecision InterestSegment.
Proof. solve_decision. Defined.

(** [slice::split(|c| *c == b'/')]. *)
Fixpoint split_slash (bs : list u8) : list (list u8) :=
  match bs with
  | [] => [[]]
  | b :: rest =>
      if decide (b = slash) then [] :: split_slash rest
      else match split_slash rest with
           | [] => [[b]]
           | p :: ps => (b :: p) :: ps
           end
  end.

(** [u8::is_ascii_whitespace] and [trim_ascii]. *)
Definition is_ascii_whitespace (b : u8) : bool :=
  bool_decide (b ∈ [x20; x09; x0a; x0c; x0d]).

Fixpoint trim_ascii_start (bs : list u8) : list u8 :=
  match bs with
  | [] => []
  | b :: rest => if is_ascii_whitespace b then trim_ascii_start rest else bs
  end.

Definition trim_ascii (bs : list u8) : list u8 :=
  reverse (trim_ascii_start (reverse (trim_ascii_start bs))).

Definition star : list u8 := [x2a].
Definition star_star : list u8 := [x2a; x2a].

Definition interest_segment_of (seg : list u8) : InterestSegment :=
  let seg := trim_ascii seg in
  if decide (seg = star) then Any
  else if decide (seg = star_star) then RecursiveAny
  else Specific seg.

(** [Interest::as_segments]. *)
Definition as_segments (i : Interest) : list InterestSegment :=
  omap (fun seg => match seg with [] => None | _ => Some (interest_segment_of seg) end)
    (split_slash (interest_bytes i)).

(** ** The radix tree *)

#[warnings="-register-all"]
Inductive InterestRadixTreeNode (T : Type) `{Countable T} : Type :=
  | TreeNode
      (value : gset T)
      (children : gmap (list u8) (InterestRadixTreeNode T))
      (any_child : option (InterestRadixTreeNode T))
      (recursive_any_child : option (InterestRadixTreeNode T)).
Arguments TreeNode {T _ _} value children any_child recursive_any_child.

Section RadixTree.
Context {T : Type} `{Countable T}.
Implicit Types (t : InterestRadixTreeNode T) (v : T).

Definition tree_value t : gset T := let 'TreeNode v _ _ _ := t in v.
Definition tree_children t : gmap (list u8) (InterestRadixTreeNode T) :=
  let 'TreeNode _ c _ _ := t in c.
Definition tree_any_child t : option (InterestRadixTreeNode T) := let 'TreeNode _ _ a _ := t in a.
Definition tree_recursive_any_child t : option (InterestRadixTreeNode T) :=
  let 'TreeNode _ _ _ r := t in r.

(** [Default]. *)
Definition tree_default : InterestRadixTreeNode T := TreeNode ∅ ∅ None None.

Fixpoint insert_recursive (path : list InterestSegment) (value : T) t : InterestRadixTreeNode T :=
  let 'TreeNode vs children any_child rac := t in
  match path with
  | Specific seg :: path =>
      match children !! seg with
      | Some child => TreeNode vs (<[seg := insert_recursive path value child]> children) any_child rac
      | None =>
          let child_tree := insert_recursive path value tree_default in
          TreeNode vs (<[seg := child_tree]> children) any_child rac
      end
  | Any :: path =>
      let child := default tree_default any_child in
      TreeNode vs children (Some (insert_recursive path value child)) rac
  | RecursiveAny :: path =>
      let child := default tree_default rac in
      TreeNode vs children any_child (Some (insert_recursive path value child))
  | [] => TreeNode ({[value]} ∪ vs) children any_child rac
  end.

Fixpoint delete_recursive (path : list InterestSegment) (value : T) t : InterestRadixTreeNode T :=
  let 'TreeNode vs children any_child rac := t in
  match path with
  | Specific seg :: path =>
      match children !! seg with
      | Some child => TreeNode vs (<[seg := delete_recursive path value child]> children) any_child rac
      | None => t
      end
  | Any :: path =>
      match any_child with
      | Some child => TreeNode vs children (Some (delete_recursive path value child)) rac
      | None => t
      end
  | RecursiveAny :: path =>
      match rac with
      | Some child => TreeNode vs children any_child (Some (delete_recursive path value child))
      | None => t
      end
  | [] => TreeNode (vs ∖ {[value]}) children any_child rac
  end.

(** The [while let] over [rest_path] runs inside [find_all_recursive]: it visits
    every proper suffix of the path after its first segment. *)
Fixpoint find_all_recursive (path : list (list u8)) t (collector : gset T) {struct path} : gset T :=
  match path with
  | seg :: path =>
      let collector :=
        match tree_recursive_any_child t with
        | Some rac =>
            (fix rest_loop (rest_path : list (list u8)) (collector : gset T) : gset T :=
               match rest_path with
               | recursive_seg :: rest_path =>
                   rest_loop rest_path
                     (match tree_children rac !! recursive_seg with
                      | Some matched => find_all_recursive rest_path matched collector
                      | None => collector
                      end)
               | [] => collector
               end) path (collector ∪ tree_value rac)
        | None => collector
        end in
      let collector :=
        match tree_any_child t with
        | Some ac => find_all_recursive path ac collector
        | None => collector
        end in
      match tree_children t !! seg with
      | Some child => find_all_recursive path child collector
      | None => collector
      end
  | [] => collector ∪ tree_value t
  end.
End RadixTree.

(** ** InterestMap *)

Record InterestMap (T : Type) `{Countable T} : Type := mkInterestMap {
  root : InterestRadixTreeNode T;
  raw : gmap T (gset Interest);
}.
Arguments mkInterestMap {T _ _} root raw.
Arguments root {T _ _} i.
Arguments raw {T _ _} i.

Section InterestMap.
Context `{HashOrder} {T : Type} `{Countable T}.

Definition interest_map_new : InterestMap T := mkInterestMap tree_default ∅.

Definition from_raw (raw0 : gmap T (gset Interest)) : InterestMap T :=
  foldl (fun map '(value, interests) =>
      let root' :=
        foldl (fun t interest => insert_recursive (as_segments interest) value t)
          (root map) (hs_iter interests) in
      mkInterestMap root' (<[value := interests]> (raw map)))
    interest_map_new (hm_iter raw0).

Definition interest_map_insert (interest : Interest) (value : T) (m : InterestMap T) : InterestMap T :=
  mkInterestMap
    (insert_recursive (as_segments interest) value (root m))
    (<[value := {[interest]} ∪ default ∅ (raw m !! value)]> (raw m)).

Definition interest_map_find (subject : Subject) (m : InterestMap T) : gset T :=
  find_all_recursive (subject_segments subject) (root m) ∅.

Definition interest_map_delete (value : T) (m : InterestMap T) : InterestMap T :=
  match raw m !! value with
  | Some interests =>
      mkInterestMap
        (foldl (fun t interest => delete_recursive (as_segments interest) value t)
           (root m) (hs_iter interests))
        (delete value (raw m))
  | None => m
  end.

Definition interest_of (value : T) (m : InterestMap T) : option (gset Interest) := raw m !! value.

(** The wire form is the [raw] map alone; reading it back rebuilds the tree. *)
Definition interest_map_serialize (m : InterestMap T) : gmap T (gset Interest) := raw m.
Definition interest_map_deserialize (r : gmap T (gset Interest)) : InterestMap T := from_raw r.
End InterestMap.

Example interest_map_test :
  let m := interest_map_insert (interest_new "event/**/user/*") 2%Z
             (interest_map_insert (interest_new "event/**/user/a") 1%Z interest_map_new) in
  interest_map_find (subject_new "event/hello-world/user/a") m = {[1; 2]}%Z.
Proof. vm_compute. reflexivity. Qed.

(** ** What a pattern matches

    [matches p s]: the tree walk accepts the segments [s] for the pattern [p].
    [**] consumes one segment and then either ends the pattern or is followed by a
    [Specific] segment found anywhere further on. *)
Inductive matches : list InterestSegment -> list (list u8) -> Prop :=
  | matches_end : matches [] []
  | matches_specific x p s : matches p s -> matches (Specific x :: p) (x :: s)
  | matches_any x p s : matches p s -> matches (Any :: p) (x :: s)
  | matches_rec_end x s : matches [RecursiveAny] (x :: s)
  | matches_rec x y p pre post :
      matches p post -> matches (RecursiveAny :: Specific x :: p) (y :: pre ++ x :: post).

(** The glob reading of a pattern: [*] is any one segment, [**] any one or more. *)
Inductive glob : list InterestSegment -> list (list u8) -> Prop :=
  | glob_end : glob [] []
  | glob_specific x p s : glob p s -> glob (Specific x :: p) (x :: s)
  | glob_any x p s : glob p s -> glob (Any :: p) (x :: s)
  | glob_rec x p pre post : glob p post -> glob (RecursiveAny :: p) (x :: pre ++ post).

(** Every [**] of the pattern ends it or is followed by a [Specific] segment. *)
Fixpoint rec_guarded (p : list InterestSegment) : bool :=
  match p with
  | RecursiveAny :: p' =>
      match p' with
      | [] => true
      | Specific _ :: _ => rec_guarded p'
      | _ => false
      end
  | _ :: p' => rec_guarded p'
  | [] => true
  end.

#[export] Hint Constructors matches glob : amq.

Lemma matches_glob p s : matches p s -> glob p s.
Proof.
  induction 1; eauto with amq.
  rewrite <-(app_nil_r s). eauto with amq.
Qed.

Lemma matches_guarded p s : matches p s -> rec_guarded p = true.
Proof. by induction 1. Qed.

Lemma glob_guarded_matches p s : rec_guarded p = true -> glob p s -> matches p s.
Proof.
  intros Hg Hm. revert Hg. induction Hm as [|x p s Hm IH|x p s Hm IH|x p pre post Hm IH];
    simpl; intros Hg; eauto with amq.
  destruct p as [|[y| |] p]; simpl in *; try done; [constructor|].
  specialize (IH Hg). inversion IH; subst. by constructor.
Qed.

(** ** Contents of the tree *)
Section RadixTreeFacts.
Context {T : Type} `{Countable T}.
Implicit Types (t : InterestRadixTreeNode T) (v w : T) (p q : list InterestSegment).

(** The value [v] sits at the node the pattern [p] leads to. *)
Fixpoint stored p t v : Prop :=
  match p with
  | [] => v ∈ tree_value t
  | Specific x :: p => exists c, tree_children t !! x = Some c /\ stored p c v
  | Any :: p => exists c, tree_any_child t = Some c /\ stored p c v
  | RecursiveAny :: p => exists c, tree_recursive_any_child t = Some c /\ stored p c v
  end.

Lemma stored_default p v : ~ stored p tree_default v.
Proof. destruct p as [|[x| |] p]; simpl; [set_solver|..]; intros (c & Hc & _); done. Qed.

Lemma stored_insert p v t q w :
  stored q (insert_recursive p v t) w <-> (q = p /\ w = v) \/ stored q t w.
Proof.
  revert t q. induction p as [|[x| |] p IH]; intros [vs cs ac rac] q; simpl.
  - destruct q as [|[y| |] q]; simpl; set_solver.
  - assert (forall child, match cs !! x with Some c => c = child | None => child = tree_default end ->
      stored q (TreeNode vs (<[x := insert_recursive p v child]> cs) ac rac) w <->
      (q = Specific x :: p /\ w = v) \/ stored q (TreeNode vs cs ac rac) w) as Hs.
    { intros child Hc. destruct q as [|[y| |] q]; simpl; [naive_solver| |naive_solver..].
      destruct (decide (x = y)) as [->|Hne].
      - setoid_rewrite lookup_insert_eq. destruct (cs !! y) as [c|]; subst.
        + setoid_rewrite (inj_iff Some). split.
          * intros (? & <- & [[-> ->]|Hq]%IH); [by left|right; eauto].
          * intros [[[= ->] ->]|(? & <- & Hq)]; eexists; (split; [done|]); apply IH; eauto.
        + split.
          * intros (? & [= <-] & [[-> ->]|Hq]%IH); [by left|by apply stored_default in Hq].
          * intros [[[= ->] ->]|(? & ? & _)]; [|done]. eexists; split; [done|]. apply IH. eauto.
      - setoid_rewrite lookup_insert_ne; [|done]. naive_solver. }
    destruct (cs !! x) as [c|] eqn:Hx; [by apply Hs|by apply Hs].
  - destruct q as [|[y| |] q]; simpl; [naive_solver|naive_solver| |naive_solver].
    split.
    + intros (? & [= <-] & [[-> ->]|Hq]%IH); [by left|]. right.
      destruct ac as [c|]; simpl in Hq; [eauto|by apply stored_default in Hq].
    + intros [[[= ->] ->]|(c & -> & Hq)]; eexists; (split; [done|]); apply IH; eauto.
  - destruct q as [|[y| |] q]; simpl; [naive_solver..|].
    split.
    + intros (? & [= <-] & [[-> ->]|Hq]%IH); [by left|]. right.
      destruct rac as [c|]; simpl in Hq; [eauto|by apply stored_default in Hq].
    + intros [[[= ->] ->]|(c & -> & Hq)]; eexists; (split; [done|]); apply IH; eauto.
Qed.

Lemma stored_delete p v t q w :
  stored q (delete_recursive p v t) w <-> stored q t w /\ ~ (q = p /\ w = v).
Proof.
  revert t q. induction p as [|[x| |] p IH]; intros [vs cs ac rac] q; simpl.
  - destruct q as [|[y| |] q]; simpl; [set_solver|naive_solver..].
  - destruct (cs !! x) as [c|] eqn:Hx; simpl.
    + destruct q as [|[y| |] q]; simpl; [naive_solver| |naive_solver..].
      destruct (decide (x = y)) as [->|Hne].
      * setoid_rewrite lookup_insert_eq. split.
        -- intros (? & [= <-] & [Hq Hne]%IH). split; [eauto|naive_solver].
        -- intros [(? & Hc & Hq) Hne]. eexists; split; [done|]. apply IH. naive_solver.
      * setoid_rewrite lookup_insert_ne; [|done]. naive_solver.
    + destruct q as [|[y| |] q]; simpl; naive_solver.
  - destruct ac as [c|]; destruct q as [|[y| |] q]; simpl; [naive_solver..| |naive_solver| | | |];
      [|naive_solver..].
    split.
    + intros (? & [= <-] & [Hq Hne]%IH). split; [eauto|naive_solver].
    + intros [(? & [= <-] & Hq) Hne]. eexists; split; [done|]. apply IH. naive_solver.
  - destruct rac as [c|]; destruct q as [|[y| |] q]; simpl; [naive_solver..| | | | |];
      [|naive_solver..].
    split.
    + intros (? & [= <-] & [Hq Hne]%IH). split; [eauto|naive_solver].
    + intros [(? & [= <-] & Hq) Hne]. eexists; split; [done|]. apply IH. naive_solver.
Qed.
End RadixTreeFacts.

(** ** What the walk collects *)
Section FindFacts.
Context {T : Type} `{Countable T}.
Implicit Types (t : InterestRadixTreeNode T) (v : T) (p : list InterestSegment) (s : list (list u8)).

(** The walk from [t] over [s] can collect [v]. *)
Definition found t s v : Prop := exists p, stored p t v /\ matches p s.

(** The part of the walk below the node's [**] child [rac], once the first
    segment is consumed. *)
Definition found_rest (rac : InterestRadixTreeNode T) s v : Prop :=
  exists pre x post c, s = pre ++ x :: post /\ tree_children rac !! x = Some c /\ found c post v.

Lemma found_nil t v : found t [] v <-> v ∈ tree_value t.
Proof.
  split.
  - intros (p & Hp & Hm). inversion Hm; subst. done.
  - intros Hv. exists []. eauto with amq.
Qed.

Lemma found_cons t x s v :
  found t (x :: s) v <->
    (exists rac, tree_recursive_any_child t = Some rac /\ (v ∈ tree_value rac \/ found_rest rac s v))
    \/ (exists ac, tree_any_child t = Some ac /\ found ac s v)
    \/ (exists c, tree_children t !! x = Some c /\ found c s v).
Proof.
  split.
  - intros (p & Hp & Hm). inversion Hm; subst; simpl in Hp.
    + right; right. destruct Hp as (c & ? & ?). exists c. unfold found. eauto.
    + right; left. destruct Hp as (c & ? & ?). exists c. unfold found. eauto.
    + left. destruct Hp as (c & ? & ?). eauto.
    + left. destruct Hp as (rac & ? & c & ? & ?). exists rac. split; [done|]. right.
      unfold found_rest, found. eauto 10.
  - intros [(rac & Hr & [Hv|(pre & y & post & c & -> & Hc & p & Hp & Hm)])
           |[(ac & Ha & p & Hp & Hm)|(c & Hc & p & Hp & Hm)]].
    + exists [RecursiveAny]. split; [simpl; eauto|constructor].
    + exists (RecursiveAny :: Specific y :: p). split; [simpl; eauto 10|by constructor].
    + exists (Any :: p). split; [simpl; eauto|by constructor].
    + exists (Specific x :: p). split; [simpl; eauto|by constructor].
Qed.

Lemma found_rest_cons rac x s v :
  found_rest rac (x :: s) v <->
    (exists c, tree_children rac !! x = Some c /\ found c s v) \/ found_rest rac s v.
Proof.
  split.
  - intros ([|y pre] & z & post & c & Heq & Hc & Hf); simplify_eq/=; [eauto|].
    right. unfold found_rest. eauto 10.
  - intros [(c & Hc & Hf)|(pre & z & post & c & -> & Hc & Hf)].
    + exists [], x, s, c. eauto.
    + exists (x :: pre), z, post, c. eauto.
Qed.

(** The [while let] loop of the walk, named. *)
Definition rest_loop (rac : InterestRadixTreeNode T) : list (list u8) -> gset T -> gset T :=
  fix rest_loop (rest_path : list (list u8)) (collector : gset T) : gset T :=
    match rest_path with
    | recursive_seg :: rest_path =>
        rest_loop rest_path
          (match tree_children rac !! recursive_seg with
           | Some matched => find_all_recursive rest_path matched collector
           | None => collector
           end)
    | [] => collector
    end.

Lemma rest_loop_spec rac s :
  (forall s' c coll v, length s' < length s ->
    v ∈ find_all_recursive s' c coll <-> v ∈ coll \/ found c s' v) ->
  forall coll v, v ∈ rest_loop rac s coll <-> v ∈ coll \/ found_rest rac s v.
Proof.
  induction s as [|x s IHs]; intros IH coll v; simpl.
  - split; [by left|]. intros [?|(pre & ? & ? & ? & Heq & _)]; [done|]. by destruct pre.
  - rewrite IHs by (intros; apply IH; simpl; lia).
    rewrite found_rest_cons. destruct (tree_children rac !! x) as [c|].
    + rewrite IH by (simpl; lia). naive_solver.
    + naive_solver.
Qed.

Lemma find_all_recursive_cons x s t coll :
  find_all_recursive (x :: s) t coll =
    let coll := match tree_recursive_any_child t with
                | Some rac => rest_loop rac s (coll ∪ tree_value rac)
                | None => coll
                end in
    let coll := match tree_any_child t with
                | Some ac => find_all_recursive s ac coll
                | None => coll
                end in
    match tree_children t !! x with
    | Some child => find_all_recursive s child coll
    | None => coll
    end.
Proof. reflexivity. Qed.

Lemma find_all_recursive_spec s t coll v :
  v ∈ find_all_recursive s t coll <-> v ∈ coll \/ found t s v.
Proof.
  revert t coll v. induction (well_founded_ltof _ (@length (list u8)) s) as [s _ IH].
  unfold ltof in IH. intros t coll v. destruct s as [|x s].
  { simpl. rewrite found_nil. set_solver. }
  rewrite find_all_recursive_cons, found_cons. cbv zeta.
  assert (forall c coll v, v ∈ find_all_recursive s c coll <-> v ∈ coll \/ found c s v) as IHs
    by (intros; apply IH; simpl; lia).
  assert (forall rac coll v, v ∈ rest_loop rac s coll <-> v ∈ coll \/ found_rest rac s v) as IHr.
  { intros rac. apply rest_loop_spec. intros. apply IH. simpl. lia. }
  destruct (tree_children t !! x) as [c|], (tree_any_child t) as [ac|],
    (tree_recursive_any_child t) as [rac|];
    rewrite ?IHs, ?IHr, ?elem_of_union; naive_solver.
Qed.
End FindFacts.

(** ** The map: the tree and [raw] agree *)
Section InterestMapFacts.
Context `{HashOrder} {T : Type} `{Countable T}.
Implicit Types (m : InterestMap T) (v w : T) (p : list InterestSegment).

(** [v] registered an interest whose segments are [p]. *)
Definition registered (r : gmap T (gset Interest)) p v : Prop :=
  exists interests i, r !! v = Some interests /\ i ∈ interests /\ as_segments i = p.

(** The representation invariant: the tree holds exactly what [raw] registers. *)
Definition map_ok m : Prop := forall p v, stored p (root m) v <-> registered (raw m) p v.

Lemma registered_insert r p v w interests :
  registered (<[w := interests]> r) p v <->
    (v = w /\ exists i, i ∈ interests /\ as_segments i = p) \/ (v <> w /\ registered r p v).
Proof.
  unfold registered. destruct (decide (v = w)) as [->|Hne].
  - rewrite lookup_insert_eq. naive_solver.
  - rewrite lookup_insert_ne by done. naive_solver.
Qed.

Lemma stored_foldl_insert v l t p w :
  stored p (foldl (fun t interest => insert_recursive (as_segments interest) v t) t l) w <->
    stored p t w \/ (w = v /\ exists i : Interest, i ∈ l /\ as_segments i = p).
Proof.
  revert t. induction l as [|i l IH]; intros t; simpl; [set_solver|].
  rewrite IH, stored_insert. setoid_rewrite elem_of_cons. naive_solver.
Qed.

Lemma stored_foldl_delete v l t p w :
  stored p (foldl (fun t interest => delete_recursive (as_segments interest) v t) t l) w <->
    stored p t w /\ ~ (w = v /\ exists i : Interest, i ∈ l /\ as_segments i = p).
Proof.
  revert t. induction l as [|i l IH]; intros t; simpl; [set_solver|].
  rewrite IH, stored_delete. setoid_rewrite elem_of_cons. naive_solver.
Qed.

Lemma map_ok_new : map_ok interest_map_new.
Proof.
  intros p v. unfold registered. simpl. split.
  - by intros ?%stored_default.
  - intros (? & ? & Hr & _). by rewrite lookup_empty in Hr.
Qed.

Lemma map_ok_insert i v m : map_ok m -> map_ok (interest_map_insert i v m).
Proof.
  intros Hm p w. cbn [interest_map_insert root raw].
  rewrite stored_insert, registered_insert, (Hm p w).
  split.
  - intros [[-> ->]|Hr]; [left; split; [done|]; exists i; set_solver|].
    destruct (decide (w = v)) as [->|]; [left|by right].
    destruct Hr as (S & j & HS & Hj & Hp). split; [done|]. rewrite HS. exists j. set_solver.
  - intros [[-> (j & Hj & Hp)]|[Hne Hr]]; [|by right].
    apply elem_of_union in Hj as [->%elem_of_singleton|Hj]; [by left|].
    right. destruct (raw m !! v) as [S|] eqn:HS; simpl in Hj; [|set_solver]. by exists S, j.
Qed.

Lemma map_ok_delete v m : map_ok m -> map_ok (interest_map_delete v m).
Proof.
  intros Hm. unfold interest_map_delete. destruct (raw m !! v) as [S|] eqn:HS; [|done].
  intros p w. cbn [root raw]. rewrite stored_foldl_delete, (Hm p w). unfold registered.
  setoid_rewrite elem_of_hs_iter.
  destruct (decide (w = v)) as [->|Hne].
  - rewrite lookup_delete_eq. naive_solver.
  - rewrite lookup_delete_ne by done. naive_solver.
Qed.

Lemma from_raw_foldl l m :
  map_ok m -> NoDup l.*1 -> (forall v S, (v, S) ∈ l -> raw m !! v = None) ->
  let m' := foldl (fun map '(value, interests) =>
      let root' :=
        foldl (fun t interest => insert_recursive (as_segments interest) value t)
          (root map) (hs_iter interests) in
      mkInterestMap root' (<[value := interests]> (raw map))) m l in
  map_ok m' /\ raw m' = list_to_map l ∪ raw m.
Proof.
  revert m. induction l as [|[v S] l IH]; intros m Hm Hnd Hf; simpl.
  { by rewrite (left_id_L ∅ (∪)). }
  apply NoDup_cons in Hnd as [Hv Hnd].
  set (m1 := mkInterestMap _ _).
  assert (map_ok m1) as Hm1.
  { intros p w. subst m1. cbn [root raw].
    rewrite stored_foldl_insert, registered_insert, (Hm p w). setoid_rewrite elem_of_hs_iter.
    assert (raw m !! v = None) as Hn by (eapply Hf; left).
    destruct (decide (w = v)) as [->|]; [|naive_solver].
    split; [|naive_solver]. intros [(? & ? & ? & _)|?]; [congruence|by left]. }
  destruct (IH m1 Hm1 Hnd) as [Hok Hraw].
  { intros w S' Hw. subst m1. cbn [raw]. rewrite lookup_insert_ne.
    - eapply Hf. by right.
    - intros ->. apply Hv. apply list_elem_of_fmap. by exists (w, S'). }
  split; [exact Hok|]. etrans; [exact Hraw|]. subst m1. cbn [raw].
  rewrite <-insert_union_r by (by apply not_elem_of_list_to_map_1).
  by rewrite insert_union_l.
Qed.

Lemma from_raw_ok r : map_ok (from_raw r) /\ raw (from_raw r) = r.
Proof.
  unfold from_raw.
  destruct (from_raw_foldl (hm_iter r) interest_map_new map_ok_new (NoDup_hm_iter_fst r)) as [Hok Hr].
  { intros; apply lookup_empty. }
  split; [exact Hok|]. etrans; [exact Hr|]. cbn [raw interest_map_new]. rewrite (right_id_L ∅ (∪)).
  rewrite (list_to_map_proper _ (map_to_list r)).
  - apply list_to_map_to_list.
  - apply NoDup_hm_iter_fst.
  - apply hm_iter_perm.
Qed.

Lemma interest_map_find_stored s m v :
  v ∈ interest_map_find s m <-> exists p, stored p (root m) v /\ matches p (subject_segments s).
Proof.
  unfold interest_map_find. rewrite find_all_recursive_spec. split; [|by right].
  by intros [?%not_elem_of_empty|?].
Qed.

Lemma interest_map_find_spec s m v :
  map_ok m ->
  v ∈ interest_map_find s m <->
    exists interests i, raw m !! v = Some interests /\ i ∈ interests /\
      matches (as_segments i) (subject_segments s).
Proof.
  intros Hm. rewrite interest_map_find_stored. setoid_rewrite (Hm _ v). unfold registered.
  naive_solver.
Qed.

Lemma raw_insert i v m w :
  raw (interest_map_insert i v m) !! w =
    if decide (w = v) then Some ({[i]} ∪ default ∅ (raw m !! v)) else raw m !! w.
Proof.
  cbn [interest_map_insert raw]. case_decide; subst; [by rewrite lookup_insert_eq|].
  by rewrite lookup_insert_ne.
Qed.

Lemma raw_delete v m : raw (interest_map_delete v m) = delete v (raw m).
Proof.
  unfold interest_map_delete. destruct (raw m !! v) eqn:Hv; [done|]. by rewrite delete_id.
Qed.
End InterestMapFacts.
#[export] Hint Resolve map_ok_new map_ok_insert map_ok_delete : amq.

(** ** The tokenisers *)

(** The non-empty parts between slashes: what [as_segments] classifies. *)
Definition nonempty_parts (bs : list u8) : list (list u8) :=
  filter (fun seg => seg <> []) (split_slash bs).

Fixpoint drop_slashes (bs : list u8) : list u8 :=
  match bs with
  | b :: rest => if decide (b = slash) then drop_slashes rest else bs
  | [] => []
  end.

Definition starts_with_slash (bs : list u8) : bool :=
  match bs with b :: _ => bool_decide (b = slash) | [] => false end.

Section Tokenisers.
Implicit Types (bs pre rest : list u8).

Lemma length_drop_slashes bs : length (drop_slashes bs) <= length bs.
Proof. induction bs as [|b bs IH]; simpl; [done|]. case_decide; simpl; lia. Qed.

Lemma drop_slashes_no_lead bs : starts_with_slash (drop_slashes bs) = false.
Proof.
  induction bs as [|b bs IH]; simpl; [done|]. case_decide; [done|]. simpl.
  by rewrite bool_decide_eq_false_2.
Qed.

Lemma split_slash_ne bs : split_slash bs <> [].
Proof. destruct bs; simpl; [done|]. case_decide; [done|]. by case_match. Qed.

Lemma split_slash_app pre rest :
  slash ∉ pre -> split_slash (pre ++ slash :: rest) = pre :: split_slash rest.
Proof.
  induction pre as [|b pre IH]; simpl; intros Hn.
  - done.
  - rewrite decide_False by set_solver. by rewrite IH by set_solver.
Qed.

Lemma split_slash_single bs : slash ∉ bs -> split_slash bs = [bs].
Proof.
  induction bs as [|b bs IH]; simpl; intros Hn; [done|].
  rewrite decide_False by set_solver. by rewrite IH by set_solver.
Qed.

Lemma nonempty_parts_drop bs : nonempty_parts (drop_slashes bs) = nonempty_parts bs.
Proof.
  induction bs as [|b bs IH]; simpl; [done|]. case_decide as Hb; [|done].
  rewrite IH. by subst b.
Qed.

Lemma nonempty_parts_app pre rest :
  slash ∉ pre -> pre <> [] -> nonempty_parts (pre ++ slash :: rest) = pre :: nonempty_parts rest.
Proof.
  intros Hn Hne. unfold nonempty_parts. by rewrite split_slash_app, filter_cons_True.
Qed.

Lemma slash_cases bs : slash ∉ bs \/ exists pre rest, bs = pre ++ slash :: rest /\ slash ∉ pre.
Proof.
  induction bs as [|b bs IH]; [left; set_solver|].
  destruct (decide (b = slash)) as [->|Hne]; [right; exists [], bs; set_solver|].
  destruct IH as [Hn|(pre & rest & -> & Hn)]; [left; set_solver|].
  right. exists (b :: pre), rest. set_solver.
Qed.

Lemma find_slash_None i bs : slash ∉ bs -> SubjectSegments.find_slash i bs = None.
Proof.
  revert i. induction bs as [|b bs IH]; simpl; intros i Hn; [done|].
  rewrite decide_False by set_solver. apply IH. set_solver.
Qed.

Lemma find_slash_Some i pre rest :
  slash ∉ pre -> SubjectSegments.find_slash i (pre ++ slash :: rest) = Some (i + length pre).
Proof.
  revert i. induction pre as [|b pre IH]; simpl; intros i Hn.
  - f_equal. lia.
  - rewrite decide_False by set_solver. rewrite IH by set_solver. f_equal. lia.
Qed.

Lemma find_next_start_spec si bias rest bs :
  drop (si + bias) bs = rest ->
  match SubjectSegments.find_next_start si bias rest with
  | Some n => drop n bs = drop_slashes rest
  | None => drop_slashes rest = []
  end.
Proof.
  revert bias. induction rest as [|b rest IH]; simpl; intros bias Hd; [done|].
  destruct (decide (b <> slash)) as [Hb|Hb].
  - by rewrite decide_False.
  - apply dec_stable in Hb. rewrite decide_True by done. apply IH.
    replace (si + S bias) with ((si + bias) + 1) by lia.
    by rewrite <-drop_drop, Hd.
Qed.

Lemma next_single bs : slash ∉ bs -> bs <> [] -> SubjectSegments.next bs = Some (bs, []).
Proof. intros Hn Hne. destruct bs; [done|]. unfold SubjectSegments.next. by rewrite find_slash_None. Qed.

Lemma next_app pre rest :
  slash ∉ pre -> SubjectSegments.next (pre ++ slash :: rest) = Some (pre, drop_slashes rest).
Proof.
  intros Hn. unfold SubjectSegments.next.
  destruct (pre ++ slash :: rest) eqn:E; [by destruct pre|]. rewrite <-E. clear E.
  rewrite find_slash_Some by done. simpl.
  rewrite take_app_length, drop_app_length.
  pose proof (find_next_start_spec (length pre) 0 (slash :: rest) (pre ++ slash :: rest)) as Hf.
  rewrite Nat.add_0_r, drop_app_length in Hf. specialize (Hf eq_refl).
  change (drop_slashes (slash :: rest)) with (drop_slashes rest) in Hf.
  destruct (SubjectSegments.find_next_start _ _ _) as [n|]; by rewrite Hf.
Qed.

Lemma collect_spec fuel bs :
  length bs < fuel ->
  SubjectSegments.collect fuel bs =
    Some ((if starts_with_slash bs then [[]] else []) ++ nonempty_parts bs).
Proof.
  revert bs. induction fuel as [|fuel IH]; intros bs Hl; [lia|]. simpl.
  destruct (slash_cases bs) as [Hn|(pre & rest & -> & Hn)].
  - destruct (decide (bs = [])) as [->|Hne]; [done|]. rewrite next_single by done. simpl.
    rewrite IH by (simpl; destruct bs; simpl in *; [done|lia]). simpl.
    unfold nonempty_parts. rewrite (split_slash_single bs) by done.
    rewrite filter_cons_True by exact Hne.
    destruct bs as [|b bs]; [done|]. simpl. rewrite bool_decide_eq_false_2 by set_solver. done.
  - rewrite next_app by done. pose proof (length_drop_slashes rest).
    rewrite length_app in Hl. simpl in Hl. rewrite IH by lia.
    rewrite drop_slashes_no_lead, nonempty_parts_drop. simpl.
    destruct pre as [|b pre].
    + simpl. unfold nonempty_parts. simpl.
      by rewrite filter_cons_False by naive_solver.
    + rewrite nonempty_parts_app by done. simpl. by rewrite bool_decide_eq_false_2 by set_solver.
Qed.

Lemma subject_segments_spec bs :
  subject_segments (mkSubject bs) =
    (if starts_with_slash bs then [[]] else []) ++ nonempty_parts bs.
Proof. unfold subject_segments. cbn [subject_bytes]. rewrite collect_spec by lia. done. Qed.

Lemma as_segments_spec bs :
  as_segments (mkInterest bs) = interest_segment_of <$> nonempty_parts bs.
Proof.
  unfold as_segments, nonempty_parts. cbn [interest_bytes].
  induction (split_slash bs) as [|seg l IH]; [done|].
  destruct seg; [by rewrite filter_cons_False by naive_solver|].
  rewrite filter_cons_True by done. simpl. f_equal. exact IH.
Qed.
End Tokenisers.

(** ** Reference semantics and properties *)

(** [matches] as a boolean, to evaluate it. *)
Fixpoint matchb (p : list InterestSegment) (s : list (list u8)) {struct s} : bool :=
  match p, s with
  | [], [] => true
  | Specific x :: p, y :: s => bool_decide (x = y) && matchb p s
  | Any :: p, _ :: s => matchb p s
  | RecursiveAny :: p, _ :: s =>
      match p with
      | [] => true
      | Specific x :: p =>
          (fix from (s : list (list u8)) : bool :=
             match s with
             | [] => false
             | y :: s => (bool_decide (x = y) && matchb p s) || from s
             end) s
      | _ => false
      end
  | _, _ => false
  end.

Lemma matchb_spec s p : matchb p s = true <-> matches p s.
Proof.
  revert p. induction (well_founded_ltof _ (@length (list u8)) s) as [s _ IH]. unfold ltof in IH.
  intros p. destruct s as [|y s].
  { destruct p as [|[] ?]; simpl; split; try done; try (by constructor); intros Hm; inversion Hm. }
  destruct p as [|[x| |] p]; simpl.
  - split; [done|]. intros Hm; inversion Hm.
  - rewrite andb_true_iff, bool_decide_eq_true, IH by (simpl; lia).
    split; [intros [-> Hm]; by constructor|intros Hm; by inversion Hm].
  - rewrite IH by (simpl; lia). split; [by constructor|intros Hm; by inversion Hm].
  - destruct p as [|[x| |] p].
    + split; [by constructor|done].
    + transitivity (exists pre post, s = pre ++ x :: post /\ matches p post).
      * assert (forall s', length s' < S (length s) -> matchb p s' = true <-> matches p s') as IHs
          by (intros; by apply IH).
        clear IH. induction s as [|z s IH']; simpl.
        { split; [done|]. intros (pre & ? & ? & _). by destruct pre. }
        rewrite orb_true_iff, andb_true_iff, bool_decide_eq_true.
        rewrite IHs by (simpl; lia). rewrite IH' by (intros; apply IHs; simpl; lia). split.
        -- intros [[-> Hm]|(pre & post & -> & Hm)]; [by exists [], s|by exists (z :: pre), post].
        -- intros ([|w pre] & post & Heq & Hm); simplify_eq/=; [by left|right; eauto].
      * split; [intros (pre & post & -> & Hm); by constructor|intros Hm; inversion Hm; subst; eauto].
    + split; [done|intros Hm; inversion Hm].
    + split; [done|intros Hm; inversion Hm].
Qed.

Section InterestProperties.
Context `{HashOrder} {T : Type} `{Countable T}.

(** The reference answer, from the registrations alone. *)
Definition find_reference (r : gmap T (gset Interest)) (s : Subject) : gset T :=
  dom (filter (fun '(_, interests) =>
    Exists (fun i => matchb (as_segments i) (subject_segments s) = true) (elements interests)) r).

Lemma elem_of_find_reference r s v :
  v ∈ find_reference r s <->
    exists interests i, r !! v = Some interests /\ i ∈ interests /\
      matches (as_segments i) (subject_segments s).
Proof.
  unfold find_reference. rewrite elem_of_dom. unfold is_Some.
  setoid_rewrite map_lookup_filter_Some. setoid_rewrite Exists_exists.
  setoid_rewrite elem_of_elements. setoid_rewrite matchb_spec. naive_solver.
Qed.

(** The operations a topic performs on its map. *)
Inductive interest_op : Type :=
  | OpInsert (i : Interest) (v : T)
  | OpDelete (v : T)
  | OpReload.

Definition interest_op_run (m : InterestMap T) (op : interest_op) : InterestMap T :=
  match op with
  | OpInsert i v => interest_map_insert i v m
  | OpDelete v => interest_map_delete v m
  | OpReload => interest_map_deserialize (interest_map_serialize m)
  end.

(** What the operations mean: a finite map from values to interest sets. *)
Definition interest_op_spec (r : gmap T (gset Interest)) (op : interest_op) : gmap T (gset Interest) :=
  match op with
  | OpInsert i v => <[v := {[i]} ∪ default ∅ (r !! v)]> r
  | OpDelete v => delete v r
  | OpReload => r
  end.

Lemma interest_op_refines m op :
  map_ok m ->
  map_ok (interest_op_run m op) /\ raw (interest_op_run m op) = interest_op_spec (raw m) op.
Proof.
  intros Hm. destruct op as [i v|v|]; simpl.
  - split; [by apply map_ok_insert|done].
  - split; [by apply map_ok_delete|apply raw_delete].
  - apply from_raw_ok.
Qed.

(** C12: the radix tree refines the finite map it indexes: after any sequence of
    inserts, deletes and serialise/deserialise cycles from the empty map, [find]
    returns exactly the values one of whose current interests matches the
    subject, and [interest_of] the interests registered. *)
Theorem interest_map_refines (ops : list interest_op) (s : Subject) :
  let m := foldl interest_op_run interest_map_new ops in
  let r := foldl interest_op_spec ∅ ops in
  interest_map_find s m = find_reference r s /\ (forall v, interest_of v m = r !! v).
Proof.
  intros m r.
  assert (map_ok m /\ raw m = r) as [Hm Hr].
  { subst m r. assert (map_ok (interest_map_new (T := T))) as Hok by apply map_ok_new.
    change (∅ : gmap T (gset Interest)) with (raw (interest_map_new (T := T))). revert Hok.
    generalize (interest_map_new (T := T)). induction ops as [|op ops IH]; intros m Hok; [done|].
    cbn [foldl]. destruct (interest_op_refines m op Hok) as [Hok' <-]. by apply IH. }
  split.
  - apply set_eq. intros v. rewrite elem_of_find_reference, <-Hr. by apply interest_map_find_spec.
  - intros v. unfold interest_of. by rewrite Hr.
Qed.

(** [delete] withdraws a value completely and nothing else: no subject finds
    it any more, every other value is found by exactly the subjects that found
    it before. *)
Theorem interest_map_delete_spec (m : InterestMap T) (v w : T) (s : Subject) :
  map_ok m ->
  w ∈ interest_map_find s (interest_map_delete v m) <-> w <> v /\ w ∈ interest_map_find s m.
Proof.
  intros Hm. rewrite !interest_map_find_spec by auto with amq. rewrite raw_delete.
  destruct (decide (w = v)) as [->|Hne].
  - rewrite lookup_delete_eq. naive_solver.
  - rewrite lookup_delete_ne by done. naive_solver.
Qed.
End InterestProperties.

Lemma interest_map_delete_spec_witness :
  let m := interest_map_insert (interest_new "event/*") 7%Z interest_map_new in
  9%Z ∈ interest_map_find (subject_new "event/a") (interest_map_delete 7%Z m) <->
    9%Z <> 7%Z /\ 9%Z ∈ interest_map_find (subject_new "event/a") m.
Proof.
  intros m. apply (interest_map_delete_spec m 7%Z 9%Z (subject_new "event/a")).
  apply map_ok_insert, map_ok_new.
Defined.

(** C34: the tree's matching is glob matching on the patterns whose every [**] ends
    the pattern or precedes a literal segment, and a pattern with a [**] followed
    by [*] or [**] matches nothing at all. *)
Theorem matches_glob_iff (p : list InterestSegment) (s : list (list u8)) :
  matches p s <-> rec_guarded p = true /\ glob p s.
Proof.
  split.
  - intros Hm. split; [by eapply matches_guarded|by apply matches_glob].
  - intros [Hg Hm]. by apply glob_guarded_matches.
Qed.

(** The subject tokeniser never runs out of calls and yields the non-empty
    parts between slashes, as the interest tokeniser does, but with an extra empty
    segment in front when the subject starts with a slash. *)
Theorem subject_segments_total (bs : list u8) :
  SubjectSegments.collect (S (length bs)) bs = Some (subject_segments (mkSubject bs)) /\
  subject_segments (mkSubject bs) =
    (if starts_with_slash bs then [[]] else []) ++ nonempty_parts bs.
Proof.
  split; [|apply subject_segments_spec].
  unfold subject_segments. cbn [subject_bytes]. by rewrite collect_spec by lia.
Qed.

Lemma nonempty_parts_ne bs seg : seg ∈ nonempty_parts bs -> seg <> [].
Proof. unfold nonempty_parts. by intros [Hne _]%list_elem_of_filter. Qed.

(** A subject written with a leading slash is never found by an interest made
    of literal segments, whatever their text: not even by the interest with that
    same text. *)
Theorem leading_slash_never_matches (i rest : list u8) :
  Forall (fun seg => exists x, interest_segment_of seg = Specific x /\ x <> []) (nonempty_parts i) ->
  ~ matches (as_segments (mkInterest i)) (subject_segments (mkSubject (slash :: rest))).
Proof.
  intros Hi. rewrite as_segments_spec, subject_segments_spec.
  replace (starts_with_slash (slash :: rest)) with true by done. simpl.
  destruct Hi as [|seg parts (x & Hx & Hne) Hi]; simpl; [by inversion 1|].
  rewrite Hx. by inversion 1.
Qed.

Lemma leading_slash_never_matches_witness :
  ~ matches (as_segments (interest_new "/event/a")) (subject_segments (subject_new "/event/a")).
Proof.
  apply (leading_slash_never_matches (String.list_byte_of_string "/event/a")
           (String.list_byte_of_string "event/a")).
  repeat constructor; eexists; split; try reflexivity; discriminate.
Defined.

(** A segment that the interest tokeniser takes literally. *)
Definition plain_segment (seg : list u8) : Prop :=
  trim_ascii seg = seg /\ seg <> star /\ seg <> star_star.

(** A subject without leading slash, made of plain segments, is found by the
    interest with the same text. *)
Theorem same_text_matches (bs : list u8) :
  starts_with_slash bs = false -> Forall plain_segment (nonempty_parts bs) ->
  matches (as_segments (mkInterest bs)) (subject_segments (mkSubject bs)).
Proof.
  intros Hs Hp. rewrite as_segments_spec, subject_segments_spec, Hs. simpl.
  induction Hp as [|seg parts (Ht & H1 & H2) Hp IH]; simpl; [constructor|].
  unfold interest_segment_of at 1. rewrite Ht, !decide_False by done. by constructor.
Qed.

Lemma same_text_matches_witness :
  matches (as_segments (interest_new "event/user//a/")) (subject_segments (subject_new "event/user//a/")).
Proof.
  apply (same_text_matches (String.list_byte_of_string "event/user//a/")); [reflexivity|].
  repeat constructor; try reflexivity; discriminate.
Defined.
