(* ===== verification/Message.v ===== *)
(** * Messages and acknowledgements (model crate)

    [model/src/{message,durable,topic,proposal}.rs]: message status kinds, headers
    and their builder, acknowledgements, wait-ack results, state updates. *)

From S2P Require Import Prelude Ids Interest.

(** ** MessageStatusKind *)

Inductive MessageStatusKind : Type :=
  | Sending
  | Unsent
  | Sent
  | Received
  | Processed
  | Failed
  | Unreachable.
#[export] Instance MessageStatusKind_eq_dec : EqDecision MessageStatusKind.
Proof. solve_decision. Defined.

(** The [repr(u8)] discriminant. *)
Definition status_kind_u8 (k : MessageStatusKind) : Z :=
  match k with
  | Sending => 0xfe
  | Unsent => 0xff
  | Sent => 0x00
  | Received => 0x01
  | Processed => 0x02
  | Failed => 0x80
  | Unreachable => 0x81
  end.

Definition status_kind_try_from_u8 (v : Z) : option MessageStatusKind :=
  if (v =? 0xfe)%Z then Some Sending
  else if (v =? 0xff)%Z then Some Unsent
  else if (v =? 0x00)%Z then Some Sent
  else if (v =? 0x01)%Z then Some Received
  else if (v =? 0x02)%Z then Some Processed
  else if (v =? 0x80)%Z then Some Failed
  else if (v =? 0x81)%Z then Some Unreachable
  else None.

Definition status_kind_display (k : MessageStatusKind) : string :=
  match k with
  | Sending => "Sending"
  | Unsent => "Unsent"
  | Sent => "Sent"
  | Received => "Received"
  | Processed => "Processed"
  | Failed => "Failed"
  | Unreachable => "Unreachable"
  end.

(** ** MessageAckExpectKind *)

Inductive MessageAckExpectKind : Type :=
  | ExpectSent
  | ExpectReceived
  | ExpectProcessed.
#[export] Instance MessageAckExpectKind_eq_dec : EqDecision MessageAckExpectKind.
Proof. solve_decision. Defined.

Definition ack_expect_default : MessageAckExpectKind := ExpectSent.

Definition ack_expect_u8 (k : MessageAckExpectKind) : Z :=
  match k with ExpectSent => 0x00 | ExpectReceived => 0x01 | ExpectProcessed => 0x02 end.

Definition ack_expect_try_from_u8 (v : Z) : option MessageAckExpectKind :=
  if (v =? 0x00)%Z then Some ExpectSent
  else if (v =? 0x01)%Z then Some ExpectReceived
  else if (v =? 0x02)%Z then Some ExpectProcessed
  else None.

Definition ack_expect_display (k : MessageAckExpectKind) : string :=
  match k with
  | ExpectSent => "Sent"
  | ExpectReceived => "Received"
  | ExpectProcessed => "Processed"
  end.

(** [From<MessageAckExpectKind> for MessageStatusKind]. *)
Definition status_of_expect (k : MessageAckExpectKind) : MessageStatusKind :=
  match k with
  | ExpectSent => Sent
  | ExpectReceived => Received
  | ExpectProcessed => Processed
  end.

Definition is_unsent (k : MessageStatusKind) : bool := bool_decide (k = Unsent).

Definition is_reached (k : MessageStatusKind) (condition : MessageAckExpectKind) : bool :=
  match condition with
  | ExpectSent =>
      bool_decide (k = Sent) || bool_decide (k = Received) || bool_decide (k = Processed)
  | ExpectReceived => bool_decide (k = Received) || bool_decide (k = Processed)
  | ExpectProcessed => bool_decide (k = Processed)
  end.

Definition is_failed (k : MessageStatusKind) : bool :=
  bool_decide (k = Failed) || bool_decide (k = Unreachable).

Definition is_resolved (k : MessageStatusKind) (condition : MessageAckExpectKind) : bool :=
  is_failed k || is_reached k condition.

(** ** MessageTargetKind *)

Inductive MessageTargetKind : Type :=
  | Durable
  | Online
  | Available
  | Push.
#[export] Instance MessageTargetKind_eq_dec : EqDecision MessageTargetKind.
Proof. solve_decision. Defined.

Definition target_kind_u8 (k : MessageTargetKind) : Z :=
  match k with Durable => 0 | Online => 1 | Available => 2 | Push => 3 end.

(** [From<u8>]: every other byte is [Push]. *)
Definition target_kind_from_u8 (kind : Z) : MessageTargetKind :=
  if (kind =? 0)%Z then Durable
  else if (kind =? 1)%Z then Online
  else if (kind =? 2)%Z then Available
  else Push.

Definition target_kind_default : MessageTargetKind := Push.

(** ** Headers and messages *)

(** [expire] is an instant in nanoseconds, [max_receiver] a [u32]. *)
Record MessageDurableConfig : Type := mkDurableConfig {
  expire : Z;
  max_receiver : option Z;
}.

Record MessageHeader : Type := mkHeader {
  message_id : MessageId;
  ack_kind : MessageAckExpectKind;
  target_kind : MessageTargetKind;
  durability : option MessageDurableConfig;
  subjects : list Subject;
}.

Record Message : Type := mkMessage {
  header : MessageHeader;
  payload : list u8;
}.

Definition message_new (header : MessageHeader) (payload : list u8) : Message :=
  mkMessage header payload.

(** [Message::id]. *)
Definition msg_id (m : Message) : MessageId := message_id (header m).

Record MessageAck : Type := mkAck {
  ack_to : MessageId;
  ack_topic_code : TopicCode;
  ack_from : EndpointAddr;
  ack_status : MessageStatusKind;
}.

Definition header_ack (h : MessageHeader) (topic_code : TopicCode) (from : EndpointAddr)
    (kind : MessageStatusKind) : MessageAck :=
  mkAck (message_id h) topic_code from kind.
Definition ack_received (h : MessageHeader) (topic_code : TopicCode) (from : EndpointAddr) : MessageAck :=
  header_ack h topic_code from Received.
Definition ack_processed (h : MessageHeader) (topic_code : TopicCode) (from : EndpointAddr) : MessageAck :=
  header_ack h topic_code from Processed.
Definition ack_failed (h : MessageHeader) (topic_code : TopicCode) (from : EndpointAddr) : MessageAck :=
  header_ack h topic_code from Failed.

(** ** MessageHeaderBuilder *)
Module HeaderBuilder.
Record MessageHeaderBuilder : Type := mkBuilder {
  b_ack_kind : MessageAckExpectKind;
  b_target_kind : MessageTargetKind;
  b_durability : option MessageDurableConfig;
  b_subjects : list Subject;
}.

Definition new (subjects : list Subject) : MessageHeaderBuilder :=
  mkBuilder ack_expect_default target_kind_default None subjects.

Definition ack_kind (k : MessageAckExpectKind) (b : MessageHeaderBuilder) : MessageHeaderBuilder :=
  mkBuilder k (b_target_kind b) (b_durability b) (b_subjects b).

Definition mode_online (b : MessageHeaderBuilder) : MessageHeaderBuilder :=
  mkBuilder (b_ack_kind b) Online (b_durability b) (b_subjects b).

Definition mode_durable (config : MessageDurableConfig) (b : MessageHeaderBuilder) : MessageHeaderBuilder :=
  mkBuilder (b_ack_kind b) Durable (Some config) (b_subjects b).

Definition mode_push (b : MessageHeaderBuilder) : MessageHeaderBuilder :=
  mkBuilder (b_ack_kind b) Push (b_durability b) (b_subjects b).

(** [build] draws the id with [MessageId::new_snowflake]. *)
Definition build (timestamp executor_digest counter : Z) (b : MessageHeaderBuilder) : MessageHeader * Z :=
  let '(id, counter) := message_id_new_snowflake timestamp executor_digest counter in
  (mkHeader id (b_ack_kind b) (b_target_kind b) (b_durability b) (b_subjects b), counter).

(** The chained calls of the builder. *)
Inductive call : Type :=
  | CallAckKind (k : MessageAckExpectKind)
  | CallOnline
  | CallDurable (config : MessageDurableConfig)
  | CallPush.
Definition run (b : MessageHeaderBuilder) (c : call) : MessageHeaderBuilder :=
  match c with
  | CallAckKind k => ack_kind k b
  | CallOnline => mode_online b
  | CallDurable config => mode_durable config b
  | CallPush => mode_push b
  end.
End HeaderBuilder.

(** ** Wait-ack results (topic.rs) *)

Inductive WaitAckErrorException : Type :=
  | MessageDropped
  | Overflow
  | NoAvailableTarget.

Record WaitAckError : Type := mkWaitAckError {
  error_status : gmap EndpointAddr MessageStatusKind;
  error_exception : option WaitAckErrorException;
}.

Record WaitAckSuccess : Type := mkWaitAckSuccess {
  success_status : gmap EndpointAddr MessageStatusKind;
}.

(** [WaitAckError::exception]. *)
Definition wait_ack_exception (e : WaitAckErrorException) : WaitAckError := mkWaitAckError ∅ (Some e).

Abbreviation WaitAckResult := (Result WaitAckSuccess WaitAckError).

(** ** Proposals shared with edge nodes (proposal.rs) *)

Record MessageStateUpdate : Type := mkStateUpdate {
  update_message_id : MessageId;
  update_status : gmap EndpointAddr MessageStatusKind;
}.
Definition state_update_new (i : MessageId) (status : gmap EndpointAddr MessageStatusKind) :
    MessageStateUpdate := mkStateUpdate i status.
Definition state_update_new_empty (i : MessageId) : MessageStateUpdate := mkStateUpdate i ∅.

Record SetState : Type := mkSetState {
  set_state_topic : TopicCode;
  set_state_update : MessageStateUpdate;
}.

Record EndpointInterest : Type := mkEndpointInterest {
  interest_topic_code : TopicCode;
  interest_endpoint : EndpointAddr;
  interest_interests : list Interest;
}.

(** ** Properties *)

Lemma status_kind_u8_range k : (0 <= status_kind_u8 k < 256)%Z.
Proof. destruct k; simpl; lia. Qed.

(** The byte encodings of status, expectation and target kinds decode to what
    was encoded, and a status byte decodes only to the kind it encodes. *)
Theorem kind_u8_roundtrip :
  (forall k v, status_kind_try_from_u8 v = Some k <-> v = status_kind_u8 k) /\
  (forall k v, ack_expect_try_from_u8 v = Some k <-> v = ack_expect_u8 k) /\
  (forall k, target_kind_from_u8 (target_kind_u8 k) = k).
Proof.
  split; [|split].
  - intros k v. unfold status_kind_try_from_u8. split.
    + repeat case_match; intros [= <-]; simpl; lia.
    + intros ->. by destruct k.
  - intros k v. unfold ack_expect_try_from_u8. split.
    + repeat case_match; intros [= <-]; simpl; lia.
    + intros ->. by destruct k.
  - by intros [].
Qed.

(** How far a delivery has come: failures are resolved for every expectation. *)
Definition progress (k : MessageStatusKind) : nat :=
  match k with
  | Unsent | Sending => 0
  | Sent => 1
  | Received => 2
  | Processed => 3
  | Failed | Unreachable => 4
  end.

Definition expected_progress (e : MessageAckExpectKind) : nat := progress (status_of_expect e).

(** A status resolves an expectation exactly when its progress reaches the
    expected one or the delivery failed, so a stricter expectation is never
    resolved before a laxer one. *)
Theorem is_resolved_progress (k : MessageStatusKind) (e : MessageAckExpectKind) :
  is_resolved k e = true <-> expected_progress e <= progress k.
Proof. destruct k, e; vm_compute; split; intros H; try done; lia. Qed.

(** However the builder's calls are chained, the header targets durable
    delivery only with the durability of the last [mode_durable] call, keeps the
    subjects it was built on, and has the id drawn last. *)
Theorem header_builder_durable (subs : list Subject) (calls : list HeaderBuilder.call)
    (timestamp executor_digest counter : Z) :
  let h := fst (HeaderBuilder.build timestamp executor_digest counter
                  (foldl HeaderBuilder.run (HeaderBuilder.new subs) calls)) in
  subjects h = subs /\
  (target_kind h = Durable -> exists config, durability h = Some config /\
     HeaderBuilder.CallDurable config ∈ calls) /\
  message_id h = fst (message_id_new_snowflake timestamp executor_digest counter).
Proof.
  cbn [HeaderBuilder.build message_id_new_snowflake fst subjects target_kind durability message_id].
  induction calls as [|c calls IH] using rev_ind; [done|].
  rewrite foldl_app. cbn [foldl]. destruct IH as (Hs & Hd & Hi).
  split; [|split; [|done]].
  - by destruct c.
  - destruct c as [k| |config|]; simpl; try done.
    + intros (config & Hc & Hin)%Hd. exists config. set_solver.
    + intros _. exists config. set_solver.
Qed.
