(* ===== verification/Proposal.v ===== *)
(** * Proposals, the node's shared state and the proposal context

    [server/src/protocol/node/raft/proposal.rs] and its submodules, the state
    they touch ([node.rs], [topic.rs], [topic/durable_message.rs]), and topic
    configuration ([state_machine/topic/config.rs]).

    A [Node] is an [Arc] of shared state.  The objects it shares (topic handles,
    edge connections, local endpoints, oneshot channels) live in the heaps of
    [Runtime] and are named by locations, so that a task that captured a handle
    and the map that now holds another one stay apart.  [tokio::spawn] appends the
    captured task to [spawned]; [Runtime.clock_reads] counts the readings of
    [Utc::now], whose values the [Clock] gives. *)

From S2P Require Import Prelude Ids Interest Message.

(** [Utc::now()] of the [chrono] crate: the instant the n-th reading returns, in
    nanoseconds. *)
Class Clock : Type := clock_at : nat -> Z.

(** ** Topic configuration (config.rs) *)

Inductive TopicOverflowPolicy : Type :=
  | RejectNew
  | DropOld.

(** [size] is a [NonZeroU32]. *)
Record TopicOverflowConfig : Type := mkOverflowConfig {
  overflow_policy : TopicOverflowPolicy;
  overflow_size : Z;
}.

(** [NonZeroU32::new(size).unwrap_or(NonZeroU32::MAX)]. *)
Definition nonzero_u32_or_max (size : Z) : Z := if (size =? 0)%Z then u32_MAX else size.

Definition new_reject_new (size : Z) : TopicOverflowConfig :=
  mkOverflowConfig RejectNew (nonzero_u32_or_max size).
Definition new_drop_old (size : Z) : TopicOverflowConfig :=
  mkOverflowConfig DropOld (nonzero_u32_or_max size).

Record TopicConfig : Type := mkTopicConfig {
  config_code : TopicCode;
  config_blocking : bool;
  overflow_config : option TopicOverflowConfig;
}.

(** [From<TopicCode> for TopicConfig]. *)
Definition topic_config_of_code (code : TopicCode) : TopicConfig := mkTopicConfig code false None.

(** ** Durable messages and commands (durable_message.rs) *)

Record DurableMessage : Type := mkDurableMessage {
  dm_message : Message;
  dm_status : gmap EndpointAddr MessageStatusKind;
  dm_time : Z;
}.

Inductive DurableCommand : Type :=
  | CmdCreate (message : Message)
  | CmdUpdateStatus (update : MessageStateUpdate)
  | CmdArchive (id : MessageId).

(** ** Proposals *)

Record DelegateMessage : Type := mkDelegateMessage {
  delegate_topic : TopicCode;
  delegate_message : Message;
}.
Record EndpointOnline : Type := mkEndpointOnline {
  online_topic_code : TopicCode;
  online_endpoint : EndpointAddr;
  online_interests : list Interest;
  online_host : NodeId;
}.
Record EndpointOffline : Type := mkEndpointOffline {
  offline_topic_code : TopicCode;
  offline_endpoint : EndpointAddr;
  offline_host : NodeId;
}.
Record LoadTopic : Type := mkLoadTopic {
  load_config : TopicConfig;
  load_queue : list DurableMessage;
}.
Record UnloadTopic : Type := mkUnloadTopic { unload_code : TopicCode }.

(** [LoadTopic::from_config]. *)
Definition load_topic_from_config (config : TopicConfig) : LoadTopic := mkLoadTopic config [].

Inductive Proposal : Type :=
  | PDelegateMessage (p : DelegateMessage)
  | PSetState (p : SetState)
  | PLoadTopic (p : LoadTopic)
  | PUnloadTopic (p : UnloadTopic)
  | PEpOnline (p : EndpointOnline)
  | PEpOffline (p : EndpointOffline)
  | PEpInterest (p : EndpointInterest).

(** ** Shared state *)

(** A location in one of the runtime's heaps. *)
Abbreviation loc := nat.

(** [TopicInner] (topic.rs): the pool maps a message to the sending half of the
    oneshot channel its sender waits on; local endpoints are weak references,
    named by address. *)
Record TopicInner : Type := mkTopicInner {
  inner_code : TopicCode;
  ack_waiting_pool : gmap MessageId loc;
  local_endpoints : gmap EndpointAddr EndpointAddr;
}.

(** A oneshot channel: waiting, answered, or closed because its sender was dropped. *)
Inductive Oneshot : Type :=
  | OneshotWaiting
  | OneshotSent (r : WaitAckResult)
  | OneshotClosed.

(** What [tokio::spawn] captured in [ProposalContext]'s methods. *)
Inductive Task : Type :=
  | TaskResolveAck (topic : loc) (id : MessageId) (result : WaitAckResult)
  | TaskDispatchMessage (topic : loc) (code : TopicCode) (message : Message) (endpoint : EndpointAddr)
  | TaskCommitDurable (code : TopicCode).

(** The fields of [NodeConfig] the modelled code reads: the node's id and whether
    a durable service is configured. *)
Record NodeConfig : Type := mkNodeConfig {
  config_id : NodeId;
  config_durable : bool;
}.

(** [NodeInner]'s fields that proposals read and write. *)
Record NodeInner : Type := mkNodeInner {
  config : NodeConfig;
  topics : gmap TopicCode loc;
  durable_commands_queue : list DurableCommand;
}.

Record Runtime : Type := mkRuntime {
  topic_heap : gmap loc TopicInner;
  oneshots : gmap loc Oneshot;
  next_loc : loc;
  spawned : list Task;
  clock_reads : nat;
}.

Record World : Type := mkWorld {
  node : NodeInner;
  runtime : Runtime;
}.

Definition world_id (w : World) : NodeId := config_id (config (node w)).

Definition set_topics (topics' : gmap TopicCode loc) (w : World) : World :=
  mkWorld (mkNodeInner (config (node w)) topics' (durable_commands_queue (node w))) (runtime w).
Definition set_durable_queue (l : list DurableCommand) (w : World) : World :=
  mkWorld (mkNodeInner (config (node w)) (topics (node w)) l) (runtime w).
Definition set_spawned (l : list Task) (w : World) : World :=
  mkWorld (node w) (mkRuntime (topic_heap (runtime w)) (oneshots (runtime w)) (next_loc (runtime w)) l
    (clock_reads (runtime w))).
Definition set_clock_reads (n : nat) (w : World) : World :=
  mkWorld (node w) (mkRuntime (topic_heap (runtime w)) (oneshots (runtime w)) (next_loc (runtime w))
    (spawned (runtime w)) n).
Definition set_topic_heap (h : gmap loc TopicInner) (w : World) : World :=
  mkWorld (node w) (mkRuntime h (oneshots (runtime w)) (next_loc (runtime w))
    (spawned (runtime w)) (clock_reads (runtime w))).

(** [tokio::spawn]. *)
Definition spawn (t : Task) (w : World) : World := set_spawned (spawned (runtime w) ++ [t]) w.

(** [Node::get_topic]: the handle the map holds now. *)
Definition get_topic (code : TopicCode) (w : World) : option loc := topics (node w) !! code.

(** [Arc::new(TopicInner { ..default })]: a fresh handle with an empty pool. *)
Definition alloc_topic (code : TopicCode) (w : World) : loc * World :=
  let l := next_loc (runtime w) in
  (l, mkWorld (node w)
        (mkRuntime (<[l := mkTopicInner code ∅ ∅]> (topic_heap (runtime w))) (oneshots (runtime w))
           (S l) (spawned (runtime w)) (clock_reads (runtime w)))).

(** [Node::push_durable_commands] and [swap_out_durable_commands]. *)
Definition push_durable_commands (commands : list DurableCommand) (w : World) : World :=
  set_durable_queue (durable_commands_queue (node w) ++ commands) w.
Definition swap_out_durable_commands (w : World) : list DurableCommand * World :=
  (durable_commands_queue (node w), set_durable_queue [] w).

(** ** ProposalContext *)

Record ProposalContext : Type := mkContext {
  ctx_world : World;
  ctx_topic_code : option TopicCode;
}.

Definition context_new (w : World) : ProposalContext := mkContext w None.
Definition set_topic_code (code : TopicCode) (ctx : ProposalContext) : ProposalContext :=
  mkContext (ctx_world ctx) (Some code).
Definition ctx_node_id (ctx : ProposalContext) : NodeId := world_id (ctx_world ctx).

(** Run an action on the node the context holds. *)
Definition ctx_map (f : World -> World) (ctx : ProposalContext) : ProposalContext :=
  mkContext (f (ctx_world ctx)) (ctx_topic_code ctx).

Definition push_durable_command (c : DurableCommand) (ctx : ProposalContext) : ProposalContext :=
  ctx_map (push_durable_commands [c]) ctx.

(** [commit_durable_commands]: nothing without a durable service; otherwise the
    topic code must be set, and the task is spawned if the topic's handle exists. *)
Definition commit_durable_commands (ctx : ProposalContext) : Outcome ProposalContext :=
  if config_durable (config (node (ctx_world ctx))) then
    topic_code ← expect (ctx_topic_code ctx);
    match get_topic topic_code (ctx_world ctx) with
    | None => Done ctx
    | Some _ => Done (ctx_map (spawn (TaskCommitDurable topic_code)) ctx)
    end
  else Done ctx.

Definition resolve_ack (id : MessageId) (result : WaitAckResult) (ctx : ProposalContext) : ProposalContext :=
  match ctx_topic_code ctx with
  | None => ctx
  | Some code =>
      match get_topic code (ctx_world ctx) with
      | None => ctx
      | Some topic => ctx_map (spawn (TaskResolveAck topic id result)) ctx
      end
  end.

Definition dispatch_message (message : Message) (endpoint : EndpointAddr) (ctx : ProposalContext) :
    ProposalContext :=
  match ctx_topic_code ctx with
  | None => ctx
  | Some code =>
      match get_topic code (ctx_world ctx) with
      | None => ctx
      | Some topic => ctx_map (spawn (TaskDispatchMessage topic code message endpoint)) ctx
      end
  end.

(** [Utc::now()]. *)
Definition utc_now `{Clock} (ctx : ProposalContext) : Z * ProposalContext :=
  let n := clock_reads (runtime (ctx_world ctx)) in
  (clock_at n, ctx_map (set_clock_reads (S n)) ctx).

(** The handle the context's topic code names now. *)
Definition ctx_topic (ctx : ProposalContext) : option loc :=
  ctx_topic_code ctx ≫= fun code => get_topic code (ctx_world ctx).

(** A task works on the handle it captured. *)
Definition task_on (topic : option loc) (t : Task) : Prop :=
  match t with
  | TaskResolveAck l _ _ | TaskDispatchMessage l _ _ _ => topic = Some l
  | TaskCommitDurable _ => True
  end.

(** ** What the context's methods may change

    They append tasks on the context's topic and durable commands and read the
    clock; they never touch the node's configuration, its topic map, the heaps or
    the topic code. *)
Record ctx_extends (ctx ctx' : ProposalContext) : Prop := mkExtends {
  ext_code : ctx_topic_code ctx' = ctx_topic_code ctx;
  ext_config : config (node (ctx_world ctx')) = config (node (ctx_world ctx));
  ext_topics : topics (node (ctx_world ctx')) = topics (node (ctx_world ctx));
  ext_heap : topic_heap (runtime (ctx_world ctx')) = topic_heap (runtime (ctx_world ctx));
  ext_oneshots : oneshots (runtime (ctx_world ctx')) = oneshots (runtime (ctx_world ctx));
  ext_next : next_loc (runtime (ctx_world ctx')) = next_loc (runtime (ctx_world ctx));
  ext_tasks : exists new, spawned (runtime (ctx_world ctx')) = spawned (runtime (ctx_world ctx)) ++ new /\
              Forall (task_on (ctx_topic ctx)) new;
  ext_durable : durable_commands_queue (node (ctx_world ctx)) `prefix_of`
                durable_commands_queue (node (ctx_world ctx'));
  ext_clock : clock_reads (runtime (ctx_world ctx)) <= clock_reads (runtime (ctx_world ctx'));
}.

#[export] Instance ctx_extends_preorder : PreOrder ctx_extends.
Proof.
  split; [intros c; split; try done; by exists []; rewrite app_nil_r|].
  intros c1 c2 c3 [] []. split; try congruence; [|by etrans|lia].
  destruct ext_tasks0 as (n1 & H1 & Hn1), ext_tasks1 as (n2 & H2 & Hn2).
  exists (n1 ++ n2). rewrite H2, H1, app_assoc. split; [done|]. apply Forall_app. split; [done|].
  unfold ctx_topic, get_topic in Hn2 |- *. by rewrite <-ext_code0, <-ext_topics0.
Qed.

Lemma extends_node_id ctx ctx' : ctx_extends ctx ctx' -> ctx_node_id ctx' = ctx_node_id ctx.
Proof. intros []. unfold ctx_node_id, world_id. by rewrite ext_config0. Qed.

Lemma extends_push_durable c ctx : ctx_extends ctx (push_durable_command c ctx).
Proof. split; try done; [by exists []; rewrite app_nil_r|by exists [c]]. Qed.

Lemma extends_spawn t ctx : task_on (ctx_topic ctx) t -> ctx_extends ctx (ctx_map (spawn t) ctx).
Proof. intros Ht. split; try done. exists [t]. by rewrite Forall_singleton. Qed.

Lemma extends_resolve_ack i r ctx : ctx_extends ctx (resolve_ack i r ctx).
Proof.
  unfold resolve_ack. destruct (ctx_topic_code ctx) eqn:Hc; [|done]. destruct (get_topic _ _) eqn:Ht; [|done].
  apply extends_spawn. cbn. unfold ctx_topic. by rewrite Hc.
Qed.

Lemma extends_dispatch m e ctx : ctx_extends ctx (dispatch_message m e ctx).
Proof.
  unfold dispatch_message. destruct (ctx_topic_code ctx) eqn:Hc; [|done]. destruct (get_topic _ _) eqn:Ht; [|done].
  apply extends_spawn. cbn. unfold ctx_topic. by rewrite Hc.
Qed.

Lemma extends_utc_now `{Clock} ctx : ctx_extends ctx (snd (utc_now ctx)).
Proof. split; try done; [by exists []; rewrite app_nil_r|simpl; lia]. Qed.

Lemma extends_commit ctx ctx' : commit_durable_commands ctx = Done ctx' -> ctx_extends ctx ctx'.
Proof.
  unfold commit_durable_commands. case_match; [|by intros [= <-]].
  intros (code & _ & Hc)%Outcome_bind_Done. destruct (get_topic _ _); simplify_eq; [|done].
  by apply extends_spawn.
Qed.

#[export] Hint Resolve extends_push_durable extends_resolve_ack extends_dispatch extends_utc_now
  extends_commit : amq.

Lemma extends_ctx_topic ctx ctx' : ctx_extends ctx ctx' -> ctx_topic ctx' = ctx_topic ctx.
Proof. intros []. unfold ctx_topic, get_topic. by rewrite ext_code0, ext_topics0. Qed.

(** The acknowledgements a list of tasks will deliver, in spawn order. *)
Definition task_ack (t : Task) : option (MessageId * WaitAckResult) :=
  match t with TaskResolveAck _ i r => Some (i, r) | _ => None end.
Definition acks_of (ctx : ProposalContext) : list (MessageId * WaitAckResult) :=
  omap task_ack (spawned (runtime (ctx_world ctx))).

(** The dispatches a list of tasks will perform, in spawn order. *)
Definition task_dispatch (t : Task) : option (MessageId * EndpointAddr) :=
  match t with TaskDispatchMessage _ _ m e => Some (msg_id m, e) | _ => None end.
Definition dispatches_of (ctx : ProposalContext) : list (MessageId * EndpointAddr) :=
  omap task_dispatch (spawned (runtime (ctx_world ctx))).

Definition commands_of (ctx : ProposalContext) : list DurableCommand :=
  durable_commands_queue (node (ctx_world ctx)).

Section Observers.
Implicit Types ctx : ProposalContext.

Lemma acks_of_resolve_ack i r ctx :
  acks_of (resolve_ack i r ctx) =
    acks_of ctx ++ match ctx_topic ctx with Some _ => [(i, r)] | None => [] end.
Proof.
  unfold acks_of, resolve_ack, ctx_topic. destruct (ctx_topic_code ctx) as [code|]; simpl.
  - destruct (get_topic code (ctx_world ctx)); simpl; [by rewrite omap_app|by rewrite app_nil_r].
  - by rewrite app_nil_r.
Qed.

Lemma acks_of_dispatch m e ctx : acks_of (dispatch_message m e ctx) = acks_of ctx.
Proof.
  unfold acks_of, dispatch_message. destruct (ctx_topic_code ctx) as [code|]; simpl; [|done].
  destruct (get_topic code (ctx_world ctx)); simpl; [|done]. by rewrite omap_app, app_nil_r.
Qed.

Lemma dispatches_of_dispatch m e ctx :
  dispatches_of (dispatch_message m e ctx) =
    dispatches_of ctx ++ match ctx_topic ctx with Some _ => [(msg_id m, e)] | None => [] end.
Proof.
  unfold dispatches_of, dispatch_message, ctx_topic. destruct (ctx_topic_code ctx) as [code|]; simpl.
  - destruct (get_topic code (ctx_world ctx)); simpl; [by rewrite omap_app|by rewrite app_nil_r].
  - by rewrite app_nil_r.
Qed.

Lemma dispatches_of_resolve_ack i r ctx : dispatches_of (resolve_ack i r ctx) = dispatches_of ctx.
Proof.
  unfold dispatches_of, resolve_ack. destruct (ctx_topic_code ctx) as [code|]; simpl; [|done].
  destruct (get_topic code (ctx_world ctx)); simpl; [|done]. by rewrite omap_app, app_nil_r.
Qed.

Lemma commands_of_resolve_ack i r ctx : commands_of (resolve_ack i r ctx) = commands_of ctx.
Proof. unfold resolve_ack. destruct (ctx_topic_code ctx); [|done]. by destruct (get_topic _ _). Qed.

Lemma commands_of_dispatch m e ctx : commands_of (dispatch_message m e ctx) = commands_of ctx.
Proof. unfold dispatch_message. destruct (ctx_topic_code ctx); [|done]. by destruct (get_topic _ _). Qed.

Lemma commands_of_push c ctx : commands_of (push_durable_command c ctx) = commands_of ctx ++ [c].
Proof. done. Qed.
Lemma acks_of_push c ctx : acks_of (push_durable_command c ctx) = acks_of ctx.
Proof. done. Qed.
Lemma dispatches_of_push c ctx : dispatches_of (push_durable_command c ctx) = dispatches_of ctx.
Proof. done. Qed.
Lemma acks_of_utc_now `{Clock} ctx : acks_of (snd (utc_now ctx)) = acks_of ctx.
Proof. done. Qed.
Lemma dispatches_of_utc_now `{Clock} ctx : dispatches_of (snd (utc_now ctx)) = dispatches_of ctx.
Proof. done. Qed.
Lemma commands_of_utc_now `{Clock} ctx : commands_of (snd (utc_now ctx)) = commands_of ctx.
Proof. done. Qed.
End Observers.
#[export] Hint Rewrite acks_of_resolve_ack acks_of_dispatch dispatches_of_dispatch
  dispatches_of_resolve_ack commands_of_resolve_ack commands_of_dispatch commands_of_push acks_of_push
  dispatches_of_push @acks_of_utc_now @dispatches_of_utc_now @commands_of_utc_now : amq.

(** ** Sample values for evaluating the definitions *)
Module Sample.
(** A clock that ticks once per reading. *)
#[export] Instance ticking : Clock := Z.of_nat.

Definition mid (b : u8) : MessageId := mkMessageId (replicate 16 b).
Definition ep (b : u8) : EndpointAddr := mkEndpointAddr (replicate 16 b).
Definition nid (b : u8) : NodeId := mkNodeId (replicate 16 b).
Definition topic : TopicCode := topic_code_new "t".
Definition msg (k : MessageTargetKind) (b : u8) : Message :=
  mkMessage (mkHeader (mid b) ExpectProcessed k None [subject_new "a/b"]) [].

(** A node without durable service that has one topic. *)
Definition world : World :=
  mkWorld (mkNodeInner (mkNodeConfig (nid x01) false) {[topic := 0]} [])
    (mkRuntime {[0 := mkTopicInner topic ∅ ∅]} ∅ 1 [] 0).
Definition ctx : ProposalContext := mkContext world (Some topic).
End Sample.
