(* ===== verification/Queue.v ===== *)
(** * Held messages and the message queue

    [server/src/protocol/node/raft/state_machine/topic/{message_queue,wait_ack}.rs]
    and [Timed] of [server/src/util.rs]. *)

From S2P Require Import Prelude Ids Interest Message Proposal.

(** ** Timed (util.rs) *)

Record Timed (T : Type) : Type := mkTimed {
  time : Z;
  data : T;
}.
Arguments mkTimed {T} time data.
Arguments time {T} t.
Arguments data {T} t.

(** [Ord::cmp] compares the times only; [BTreeSet] orders by it.  [PartialOrd] has
    another order, and [PartialEq] an equality that is finer. *)
Definition timed_cmp {T} (a b : Timed T) : comparison := (time a ?= time b)%Z.
Definition timed_partial_cmp {T} `{EqDecision T} (a b : Timed T) : option comparison :=
  if decide (data a = data b) then Some (time a ?= time b)%Z else None.
Definition timed_eq {T} `{EqDecision T} (a b : Timed T) : bool :=
  bool_decide (time a = time b) && bool_decide (data a = data b).

#[export] Instance Timed_eq_dec {T} `{EqDecision T} : EqDecision (Timed T).
Proof. solve_decision. Defined.

(** The two orders agree exactly on equal data, and [cmp] takes values for equal that
    [eq] does not: what [Ord] is documented to require fails. *)
Lemma timed_orders {T} `{EqDecision T} (a b : Timed T) :
  (timed_partial_cmp a b = Some (timed_cmp a b) <-> data a = data b) /\
  (time a = time b -> data a <> data b -> timed_cmp a b = Eq /\ timed_eq a b = false).
Proof.
  unfold timed_partial_cmp, timed_cmp, timed_eq. split; [by case_decide|].
  intros -> Hd. rewrite Z.compare_refl. split; [done|]. by rewrite (bool_decide_eq_false_2 _ Hd), andb_false_r.
Qed.

(** ** WaitAck (wait_ack.rs) *)

Record WaitAck : Type := mkWaitAck {
  expect_kind : MessageAckExpectKind;
  status : gmap EndpointAddr MessageStatusKind;
}.

(** [HashMap::from_iter] over the endpoints, all [Unsent]. *)
Definition wait_ack_new (expect : MessageAckExpectKind) (ep_list : gset EndpointAddr) : WaitAck :=
  mkWaitAck expect (set_to_map (fun ep => (ep, Unsent)) ep_list).

(** ** HoldMessage *)

Record HoldMessage : Type := mkHold {
  message : Message;
  wait_ack : WaitAck;
}.

Definition hold_id (hm : HoldMessage) : MessageId := msg_id (message hm).
Definition hold_status (hm : HoldMessage) : gmap EndpointAddr MessageStatusKind := status (wait_ack hm).
Definition with_status (st : gmap EndpointAddr MessageStatusKind) (hm : HoldMessage) : HoldMessage :=
  mkHold (message hm) (mkWaitAck (expect_kind (wait_ack hm)) st).

(** [usize]-valued [max_receiver as usize] does not truncate on 64 bits. *)
Section Queue.
Context `{HashOrder, Clock}.

(** [send_unsent]: every unsent, reachable endpoint is marked [Sending] and the
    message is dispatched to it. *)
Definition send_unsent (reachable_eps : gset EndpointAddr) (hm : HoldMessage) (ctx : ProposalContext) :
    HoldMessage * ProposalContext :=
  let '(st, ctx) :=
    hm_iter_mut (fun ep status ctx =>
        if is_unsent status && bool_decide (ep ∈ reachable_eps)
        then (Sending, dispatch_message (message hm) ep ctx)
        else (status, ctx))
      (hold_status hm) ctx in
  (with_status st hm, ctx).

(** [HoldMessage::is_resolved]: only durable messages with a durability
    configuration read the clock. *)
Definition hold_is_resolved (hm : HoldMessage) (ctx : ProposalContext) : bool * ProposalContext :=
  match target_kind (header (message hm)) with
  | Durable =>
      match durability (header (message hm)) with
      | None => (true, ctx)
      | Some durability_config =>
          let '(now, ctx) := utc_now ctx in
          if (expire durability_config <? now)%Z then (true, ctx)
          else
            match max_receiver durability_config with
            | Some max_receiver =>
                if (max_receiver <=? Z.of_nat (size (hold_status hm)))%Z then (true, ctx)
                else (false, ctx)
            | None => (false, ctx)
            end
      end
  | Online | Available | Push =>
      (forallb (fun status => is_resolved status (expect_kind (wait_ack hm)))
         (hm_iter (hold_status hm)).*2, ctx)
  end.

(** [HoldMessage::resolve]. *)
Definition hold_resolve (hm : HoldMessage) : WaitAckResult :=
  let status := hold_status hm in
  if existsb (fun '(_, ack) => is_failed ack) (hm_iter status)
  then Err (mkWaitAckError status None)
  else Ok (mkWaitAckSuccess status).

(** ** MessageQueue *)

Record MessageQueue : Type := mkQueue {
  blocking : bool;
  hold_messages : gmap MessageId HoldMessage;
  time_id : list (Timed MessageId);
  id_time : gmap MessageId Z;
  resolved : gset MessageId;
  queue_size : Z;
}.

Definition DEFAULT_CAPACITY : Z := 1024.

(** [MessageQueue::new]; the capacity only sizes the allocations. *)
Definition queue_new (blocking : bool) (capacity : Z) : MessageQueue :=
  mkQueue blocking ∅ [] ∅ ∅ 0.

Definition set_hold (hold : gmap MessageId HoldMessage) (q : MessageQueue) : MessageQueue :=
  mkQueue (blocking q) hold (time_id q) (id_time q) (resolved q) (queue_size q).
Definition set_resolved (r : gset MessageId) (q : MessageQueue) : MessageQueue :=
  mkQueue (blocking q) (hold_messages q) (time_id q) (id_time q) r (queue_size q).

Definition queue_push (message : HoldMessage) (q : MessageQueue) (ctx : ProposalContext) :
    Outcome (MessageQueue * ProposalContext) :=
  let message_id := hold_id message in
  let '(time, ctx) := utc_now ctx in
  size ← usize_add (queue_size q) 1;
  Done (mkQueue (blocking q)
          (<[message_id := message]> (hold_messages q))
          (btree_insert timed_cmp (mkTimed time message_id) (time_id q))
          (<[message_id := time]> (id_time q))
          (resolved q) size, ctx).

Definition push_durable_message (dm : DurableMessage) (q : MessageQueue) : Outcome MessageQueue :=
  let message := dm_message dm in
  let message_id := msg_id message in
  size ← usize_add (queue_size q) 1;
  Done (mkQueue (blocking q)
          (<[message_id := mkHold message
               (mkWaitAck (ack_kind (header message)) (dm_status dm))]> (hold_messages q))
          (btree_insert timed_cmp (mkTimed (dm_time dm) message_id) (time_id q))
          (<[message_id := dm_time dm]> (id_time q))
          (resolved q) size).

Definition queue_pop (q : MessageQueue) : Outcome (option HoldMessage * MessageQueue) :=
  match btree_pop_first (time_id q) with
  | Some (timed, time_id') =>
      size ← usize_sub (queue_size q) 1;
      Done (hold_messages q !! data timed,
            mkQueue (blocking q) (delete (data timed) (hold_messages q)) time_id'
              (delete (data timed) (id_time q)) (resolved q ∖ {[data timed]}) size)
  | None => Done (None, q)
  end.

Definition get_front (q : MessageQueue) : option HoldMessage :=
  btree_first (time_id q) ≫= fun timed => hold_messages q !! data timed.

Definition queue_remove (message_id : MessageId) (q : MessageQueue) :
    Outcome (option HoldMessage * MessageQueue) :=
  match hold_messages q !! message_id with
  | Some hm =>
      time ← expect (id_time q !! message_id);
      size ← usize_sub (queue_size q) 1;
      Done (Some hm,
            mkQueue (blocking q) (delete message_id (hold_messages q))
              (btree_remove timed_cmp (mkTimed time message_id) (time_id q))
              (delete message_id (id_time q)) (resolved q) size)
  | None => Done (None, q)
  end.

(** The [match] on a present status in [update_ack]: [None] is an early
    [return], otherwise the status map it leaves. *)
Definition update_ack_guarded (expect : MessageAckExpectKind) (from : EndpointAddr)
    (kind current : MessageStatusKind) (st : gmap EndpointAddr MessageStatusKind) :
    option (gmap EndpointAddr MessageStatusKind) :=
  if is_resolved current expect then None
  else
    match current with
    | Processed => None
    | Received =>
        Some (if bool_decide (kind = Processed) || bool_decide (kind = Failed)
              then <[from := kind]> st else st)
    | Sent =>
        Some (if bool_decide (kind <> Unsent) || bool_decide (kind <> Sending)
              then <[from := kind]> st else st)
    | Sending => Some (if bool_decide (kind <> Unsent) then <[from := kind]> st else st)
    | Unsent => Some (<[from := kind]> st)
    | _ => Some st
    end.

Definition update_ack (ack_to : MessageId) (from : EndpointAddr) (kind : MessageStatusKind)
    (q : MessageQueue) : MessageQueue :=
  match hold_messages q !! ack_to with
  | None => q
  | Some hm =>
      let st :=
        match hold_status hm !! from with
        | Some current =>
            update_ack_guarded (expect_kind (wait_ack hm)) from kind current (hold_status hm)
        | None => Some (hold_status hm)
        end in
      match st with
      | None => q
      | Some st => set_hold (<[ack_to := with_status (<[from := kind]> st) hm]> (hold_messages q)) q
      end
  end.

Definition poll_message_inner (id : MessageId) (reachable_eps : gset EndpointAddr)
    (q : MessageQueue) (ctx : ProposalContext) :
    option (Poll ()) * (MessageQueue * ProposalContext) :=
  let poll_held :=
    match hold_messages q !! id with
    | None => (None, (q, ctx))
    | Some message =>
        let '(message, ctx) := send_unsent reachable_eps message ctx in
        let q := set_hold (<[id := message]> (hold_messages q)) q in
        let '(is_resolved, ctx) := hold_is_resolved message ctx in
        (Some (if is_resolved then Ready () else Pending), (q, ctx))
    end in
  if blocking q then
    match get_front q with
    | None => (None, (q, ctx))
    | Some front =>
        if decide (hold_id front <> id) then (Some Pending, (q, ctx)) else poll_held
    end
  else poll_held.

Definition poll_message (id : MessageId) (reachable_eps : gset EndpointAddr)
    (q : MessageQueue) (ctx : ProposalContext) :
    option (Poll ()) * (MessageQueue * ProposalContext) :=
  if decide (id ∈ resolved q) then (Some (Ready ()), (q, ctx))
  else
    let '(r, (q, ctx)) := poll_message_inner id reachable_eps q ctx in
    match r with
    | None => (None, (q, ctx))
    | Some p => (Some p, (if is_ready p then set_resolved ({[id]} ∪ resolved q) q else q, ctx))
    end.

Definition swap_out_resolved (q : MessageQueue) : gset MessageId * MessageQueue :=
  (resolved q, set_resolved ∅ q).

Definition blocking_pop (reachable_eps : gset EndpointAddr) (q : MessageQueue) (ctx : ProposalContext) :
    Outcome (option HoldMessage * (MessageQueue * ProposalContext)) :=
  match get_front q with
  | None => Done (None, (q, ctx))
  | Some next =>
      let '(r, (q, ctx)) := poll_message (hold_id next) reachable_eps q ctx in
      match r with
      | None => Done (None, (q, ctx))
      | Some poll =>
          if is_ready poll then
            '(hm, q) ← queue_pop q;
            Done (hm, (q, ctx))
          else Done (None, (q, ctx))
      end
  end.

(** What [flush] does with a message it took out of the queue. *)
Definition finish (id : MessageId) (m : HoldMessage) (ctx : ProposalContext) : ProposalContext :=
  push_durable_command (CmdArchive id) (resolve_ack id (hold_resolve m) ctx).

(** The [while let] of a blocking flush. *)
Fixpoint flush_blocking (fuel : nat) (reachable_eps : gset EndpointAddr)
    (q : MessageQueue) (ctx : ProposalContext) : Outcome (MessageQueue * ProposalContext) :=
  match fuel with
  | O => OutOfFuel
  | S fuel =>
      '(m, (q, ctx)) ← blocking_pop reachable_eps q ctx;
      match m with
      | Some m => flush_blocking fuel reachable_eps q (finish (hold_id m) m ctx)
      | None => Done (q, ctx)
      end
  end.

(** The [for] of a non-blocking flush. *)
Fixpoint flush_ids (ids : list MessageId) (q : MessageQueue) (ctx : ProposalContext) :
    Outcome (MessageQueue * ProposalContext) :=
  match ids with
  | [] => Done (q, ctx)
  | id :: ids =>
      '(m, q) ← queue_remove id q;
      match m with
      | Some m => flush_ids ids q (finish id m ctx)
      | None => flush_ids ids q ctx
      end
  end.

(** [flush]: every turn of the blocking loop pops an entry of [time_id], so its
    length bounds the turns ([flush_total]). *)
Definition queue_flush (reachable_eps : gset EndpointAddr) (q : MessageQueue) (ctx : ProposalContext) :
    Outcome (MessageQueue * ProposalContext) :=
  if blocking q then flush_blocking (S (length (time_id q))) reachable_eps q ctx
  else
    let '(ids, q) := swap_out_resolved q in
    flush_ids (hs_iter ids) q ctx.
End Queue.

(** ** The queue's representation invariant *)

Record queue_wf (q : MessageQueue) : Prop := mkWf {
  wf_key : forall id hm, hold_messages q !! id = Some hm -> hold_id hm = id;
  wf_dom : forall id, is_Some (hold_messages q !! id) <-> is_Some (id_time q !! id);
  wf_index : forall t id, mkTimed t id ∈ time_id q <-> id_time q !! id = Some t;
  wf_sorted : btree_sorted time (time_id q);
  wf_size : queue_size q = Z.of_nat (size (hold_messages q));
  wf_resolved : resolved q ⊆ dom (hold_messages q);
}.

Lemma timed_cmp_time (a b : Timed MessageId) : timed_cmp a b = (time a ?= time b)%Z.
Proof. done. Qed.

Lemma btree_sorted_NoDup (l : list (Timed MessageId)) : btree_sorted time l -> NoDup l.
Proof.
  induction 1 as [|x l Hl IH Hx]; constructor; [|done]. intros Hin.
  rewrite Forall_forall in Hx. specialize (Hx _ Hin). lia.
Qed.

Lemma btree_sorted_time_inj (l : list (Timed MessageId)) a b :
  btree_sorted time l -> a ∈ l -> b ∈ l -> time a = time b -> a = b.
Proof.
  induction 1 as [|x l Hl IH Hx]; [by intros ?%not_elem_of_nil|].
  rewrite Forall_forall in Hx. intros [->|Ha]%elem_of_cons [->|Hb]%elem_of_cons Ht; auto.
  - specialize (Hx _ Hb). lia.
  - specialize (Hx _ Ha). lia.
Qed.

Section QueueFacts.
Context `{HashOrder, Clock}.
Implicit Types (q : MessageQueue) (ctx : ProposalContext) (hm : HoldMessage) (id : MessageId).

Lemma queue_new_wf b c : queue_wf (queue_new b c).
Proof.
  split; simpl; try done.
  - intros id. by rewrite !lookup_empty.
  - intros t id. rewrite lookup_empty. split; [by intros ?%not_elem_of_nil|done].
  - constructor.
Qed.

(** An entry of the order index names a held message. *)
Lemma wf_time_id_held q e : queue_wf q -> e ∈ time_id q -> is_Some (hold_messages q !! data e).
Proof. intros Hq He. destruct e as [t id]. apply (wf_dom q Hq). apply (wf_index q Hq) in He. eauto. Qed.

Lemma wf_get_front q :
  queue_wf q ->
  match time_id q with
  | [] => get_front q = None
  | e :: _ => exists hm, get_front q = Some hm /\ hold_messages q !! data e = Some hm /\ hold_id hm = data e
  end.
Proof.
  intros Hq. unfold get_front. destruct (time_id q) as [|e l] eqn:E; [done|]. simpl.
  destruct (wf_time_id_held q e Hq) as [hm Hhm]; [rewrite E; left|].
  exists hm. split; [done|]. split; [done|]. by eapply wf_key.
Qed.

Lemma wf_length q : queue_wf q -> length (time_id q) = size (hold_messages q).
Proof.
  intros Hq. rewrite <-(length_fmap data (time_id q)), <-size_dom.
  rewrite <-(size_list_to_set (C := gset MessageId)).
  - f_equal. apply set_eq. intros id. rewrite elem_of_list_to_set, elem_of_dom, (wf_dom q Hq).
    rewrite list_elem_of_fmap. split.
    + intros ([t id'] & -> & He). apply (wf_index q Hq) in He. eauto.
    + intros [t Ht]. exists (mkTimed t id). split; [done|]. by apply (wf_index q Hq).
  - apply NoDup_fmap_2_strong; [|by apply btree_sorted_NoDup, wf_sorted].
    intros [t1 i1] [t2 i2] H1%(wf_index q Hq) H2%(wf_index q Hq). simpl. intros ->. congruence.
Qed.

Lemma wf_empty q : queue_wf q -> time_id q = [] -> hold_messages q = ∅.
Proof.
  intros Hq He. pose proof (wf_length q Hq) as Hl. rewrite He in Hl. by apply map_size_empty_inv.
Qed.

(** *** push *)

Lemma push_wf_aux q id hm t s :
  queue_wf q -> hold_id hm = id -> hold_messages q !! id = None ->
  (forall e, e ∈ time_id q -> time e <> t) -> usize_add (queue_size q) 1 = Done s ->
  queue_wf (mkQueue (blocking q) (<[id := hm]> (hold_messages q))
    (btree_insert timed_cmp (mkTimed t id) (time_id q)) (<[id := t]> (id_time q)) (resolved q) s).
Proof.
  intros Hq Hid Hfresh Ht Hs. pose proof (wf_size q Hq).
  assert (id_time q !! id = None) as Hnone.
  { rewrite eq_None_not_Some, <-(wf_dom q Hq), Hfresh. by intros [? ?]. }
  split; simpl.
  - intros i m [[<- <-]|[_ Hm]]%lookup_insert_Some; [done|]. by apply (wf_key q Hq).
  - intros i. rewrite !lookup_insert_is_Some'. by rewrite (wf_dom q Hq).
  - intros t' i. rewrite (elem_of_btree_insert_fresh timed_cmp time timed_cmp_time) by (intros ? ?; by apply Ht).
    rewrite (wf_index q Hq). destruct (decide (i = id)) as [->|Hne].
    + rewrite lookup_insert_eq, Hnone. naive_solver.
    + rewrite lookup_insert_ne by done. naive_solver.
  - apply (btree_insert_sorted timed_cmp time timed_cmp_time), (wf_sorted q Hq).
  - unfold usize_add in Hs. case_decide; simplify_eq. rewrite map_size_insert_None by done. lia.
  - rewrite dom_insert_L. pose proof (wf_resolved q Hq). set_solver.
Qed.

(** The time the next reading of the clock gives is that of no held message. *)
Definition fresh_time q ctx : Prop :=
  forall e, e ∈ time_id q -> time e <> fst (utc_now ctx).

Lemma queue_push_wf q hm ctx q' ctx' :
  queue_wf q -> hold_messages q !! hold_id hm = None -> fresh_time q ctx ->
  queue_push hm q ctx = Done (q', ctx') -> queue_wf q'.
Proof.
  intros Hq Hid Ht. unfold queue_push. destruct (utc_now ctx) as [t c] eqn:Hc.
  intros (s & Hs & [= <- <-])%Outcome_bind_Done.
  apply push_wf_aux; try done. unfold fresh_time in Ht. by rewrite Hc in Ht.
Qed.

Lemma queue_push_extends q hm ctx q' ctx' :
  queue_push hm q ctx = Done (q', ctx') -> ctx' = snd (utc_now ctx).
Proof. unfold queue_push. simpl. by intros (s & Hs & [= <- <-])%Outcome_bind_Done. Qed.

Lemma push_durable_wf q dm q' :
  queue_wf q -> hold_messages q !! msg_id (dm_message dm) = None ->
  (forall e, e ∈ time_id q -> time e <> dm_time dm) ->
  push_durable_message dm q = Done q' -> queue_wf q'.
Proof.
  intros Hq Hid Ht. unfold push_durable_message. intros (s & Hs & [= <-])%Outcome_bind_Done.
  by apply push_wf_aux.
Qed.

(** *** pop and remove *)

Lemma queue_pop_spec q :
  queue_wf q ->
  match time_id q with
  | [] => queue_pop q = Done (None, q)
  | e :: l => exists hm q', hold_messages q !! data e = Some hm /\
      queue_pop q = Done (Some hm, q') /\ queue_wf q' /\ blocking q' = blocking q /\
      time_id q' = l /\ hold_messages q' = delete (data e) (hold_messages q) /\
      resolved q' = resolved q ∖ {[data e]}
  end.
Proof.
  intros Hq. unfold queue_pop. destruct (time_id q) as [|[t id] l] eqn:El; [done|].
  cbn [btree_pop_first data].
  destruct (wf_time_id_held q (mkTimed t id) Hq) as [hm Hhm]; [rewrite El; left|]. simpl in Hhm.
  assert (size (hold_messages q) <> 0) as Hsz.
  { intros Hz%map_size_empty_inv. by rewrite Hz, lookup_empty in Hhm. }
  pose proof (wf_size q Hq) as Hsize.
  rewrite Hhm. unfold usize_sub. rewrite decide_True by lia. simpl.
  exists hm. eexists. split_and!; try done.
  assert (id_time q !! id = Some t) as Hit by (apply (wf_index q Hq); rewrite El; left).
  pose proof (wf_sorted q Hq) as Hsort. rewrite El in Hsort. inversion Hsort as [|? ? Hl Hall]; subst.
  rewrite Forall_forall in Hall. split; simpl.
  - intros i m [_ Hm]%lookup_delete_Some. by apply (wf_key q Hq).
  - intros i. destruct (decide (i = id)) as [->|]; simplify_map_eq; [done|]. apply (wf_dom q Hq).
  - intros t' i. destruct (decide (i = id)) as [->|Hne].
    + rewrite lookup_delete_eq. split; [|done]. intros Hin. specialize (Hall _ Hin). simpl in Hall.
      assert (mkTimed t' id ∈ time_id q) as Hin' by (rewrite El; by right).
      apply (wf_index q Hq) in Hin'. simplify_eq. lia.
    + rewrite lookup_delete_ne, <-(wf_index q Hq), El, elem_of_cons by done. naive_solver.
  - done.
  - rewrite map_size_delete_Some by eauto. lia.
  - rewrite dom_delete_L. pose proof (wf_resolved q Hq). set_solver.
Qed.

Lemma queue_remove_spec q id :
  queue_wf q ->
  match hold_messages q !! id with
  | None => queue_remove id q = Done (None, q)
  | Some hm => exists q', queue_remove id q = Done (Some hm, q') /\
      (id ∉ resolved q -> queue_wf q') /\ blocking q' = blocking q /\
      hold_messages q' = delete id (hold_messages q) /\ resolved q' = resolved q /\
      id_time q' = delete id (id_time q)
  end.
Proof.
  intros Hq. unfold queue_remove. destruct (hold_messages q !! id) as [hm|] eqn:Hhm; [|done].
  destruct (proj1 (wf_dom q Hq id)) as [t Ht]; [eauto|]. rewrite Ht. cbn [expect mbind Outcome_bind].
  assert (size (hold_messages q) <> 0) as Hsz.
  { intros Hz%map_size_empty_inv. by rewrite Hz, lookup_empty in Hhm. }
  pose proof (wf_size q Hq) as Hsize.
  unfold usize_sub. rewrite decide_True by lia. cbn [mbind Outcome_bind].
  eexists. split_and!; try done. intros Hres. split; simpl.
  - intros i m [_ Hm]%lookup_delete_Some. by apply (wf_key q Hq).
  - intros i. destruct (decide (i = id)) as [->|]; simplify_map_eq; [done|]. apply (wf_dom q Hq).
  - intros t' i. rewrite (elem_of_btree_remove timed_cmp time timed_cmp_time) by apply (wf_sorted q Hq).
    rewrite (wf_index q Hq). simpl. destruct (decide (i = id)) as [->|Hne].
    + rewrite lookup_delete_eq. naive_solver.
    + rewrite lookup_delete_ne by done. split; [naive_solver|]. intros Hi. split; [done|].
      intros ->. apply Hne.
      assert (mkTimed t i ∈ time_id q) as H1 by by apply (wf_index q Hq).
      assert (mkTimed t id ∈ time_id q) as H2 by by apply (wf_index q Hq).
      pose proof (btree_sorted_time_inj _ _ _ (wf_sorted q Hq) H1 H2 eq_refl). congruence.
  - apply (btree_remove_sorted timed_cmp time), (wf_sorted q Hq).
  - rewrite map_size_delete_Some by eauto. lia.
  - rewrite dom_delete_L. pose proof (wf_resolved q Hq). set_solver.
Qed.

(** *** send_unsent *)

(** The status a reachable endpoint has after [send_unsent]. *)
Definition sent_status (reach : gset EndpointAddr) (ep : EndpointAddr) (k : MessageStatusKind) :
    MessageStatusKind := if is_unsent k && bool_decide (ep ∈ reach) then Sending else k.

Definition sent_hold (reach : gset EndpointAddr) (hm : HoldMessage) : HoldMessage :=
  with_status (map_imap (fun ep k => Some (sent_status reach ep k)) (hold_status hm)) hm.

(** The endpoints [send_unsent] dispatches to, in iteration order. *)
Definition to_send (reach : gset EndpointAddr) (hm : HoldMessage) : list EndpointAddr :=
  (filter (fun '(ep, k) => is_unsent k && bool_decide (ep ∈ reach) = true) (hm_iter (hold_status hm))).*1.

Lemma send_unsent_eq reach hm ctx :
  send_unsent reach hm ctx =
    (sent_hold reach hm,
     foldl (fun ctx ep => dispatch_message (message hm) ep ctx) ctx (to_send reach hm)).
Proof.
  unfold send_unsent.
  rewrite (hm_iter_mut_spec _ (sent_status reach)
    (fun ep k ctx => if is_unsent k && bool_decide (ep ∈ reach)
                     then dispatch_message (message hm) ep ctx else ctx)).
  - f_equal. unfold to_send. generalize (hm_iter (hold_status hm)). intros l. revert ctx.
    induction l as [|[ep k] l IH]; intros ctx; [done|]. cbn [foldl]. rewrite IH.
    destruct (is_unsent k && bool_decide (ep ∈ reach)) eqn:E.
    + by rewrite filter_cons_True by done.
    + by rewrite filter_cons_False by congruence.
  - intros ep k c _. unfold sent_status. by destruct (is_unsent k && bool_decide (ep ∈ reach)).
Qed.

Lemma NoDup_to_send reach hm : NoDup (to_send reach hm).
Proof.
  unfold to_send. eapply sublist_NoDup; [apply (NoDup_hm_iter_fst (hold_status hm))|].
  apply fmap_sublist, sublist_filter.
Qed.

Lemma elem_of_to_send reach hm ep :
  ep ∈ to_send reach hm <-> hold_status hm !! ep = Some Unsent /\ ep ∈ reach.
Proof.
  unfold to_send. rewrite list_elem_of_fmap. unfold is_unsent. split.
  - intros ([ep' k] & -> & Hf). apply list_elem_of_filter in Hf as [Hk Hl].
    apply elem_of_hm_iter in Hl. cbn [fst]. apply andb_prop in Hk as [Hk Hr].
    apply bool_decide_eq_true in Hk as ->. by apply bool_decide_eq_true in Hr.
  - intros [Hs Hr]. exists (ep, Unsent). split; [done|]. apply list_elem_of_filter.
    rewrite elem_of_hm_iter. split; [|done]. by rewrite !bool_decide_true.
Qed.

Lemma extends_foldl_dispatch m l ctx :
  ctx_extends ctx (foldl (fun ctx ep => dispatch_message m ep ctx) ctx l).
Proof.
  revert ctx. induction l as [|ep l IH]; intros ctx; simpl; [done|].
  etrans; [apply extends_dispatch|apply IH].
Qed.

Lemma acks_foldl_dispatch m l ctx :
  acks_of (foldl (fun ctx ep => dispatch_message m ep ctx) ctx l) = acks_of ctx.
Proof. revert ctx. induction l as [|ep l IH]; intros ctx; simpl; [done|]. by rewrite IH, acks_of_dispatch. Qed.

Lemma commands_foldl_dispatch m l ctx :
  commands_of (foldl (fun ctx ep => dispatch_message m ep ctx) ctx l) = commands_of ctx.
Proof.
  revert ctx. induction l as [|ep l IH]; intros ctx; simpl; [done|]. by rewrite IH, commands_of_dispatch.
Qed.

Lemma foldl_dispatch_clock m l ctx :
  clock_reads (runtime (ctx_world (foldl (fun ctx ep => dispatch_message m ep ctx) ctx l))) =
    clock_reads (runtime (ctx_world ctx)).
Proof.
  revert ctx. induction l as [|ep l IH]; intros ctx; simpl; [done|]. rewrite IH.
  unfold dispatch_message. destruct (ctx_topic_code ctx); [|done]. by destruct (get_topic _ _).
Qed.

Lemma dispatches_foldl_dispatch m l ctx t :
  ctx_topic ctx = Some t ->
  dispatches_of (foldl (fun ctx ep => dispatch_message m ep ctx) ctx l) =
    dispatches_of ctx ++ ((fun ep => (msg_id m, ep)) <$> l).
Proof.
  revert ctx. induction l as [|ep l IH]; intros ctx Ht; simpl; [by rewrite app_nil_r|].
  rewrite IH.
  - by rewrite dispatches_of_dispatch, Ht, <-app_assoc.
  - by rewrite (extends_ctx_topic ctx) by apply extends_dispatch.
Qed.

Lemma hold_is_resolved_extends hm ctx : ctx_extends ctx (snd (hold_is_resolved hm ctx)).
Proof.
  unfold hold_is_resolved. destruct (target_kind _); try done.
  destruct (durability _) as [d|]; [|done]. destruct (utc_now ctx) as [now c] eqn:E.
  assert (ctx_extends ctx c) by (replace c with (snd (utc_now ctx)) by (by rewrite E); apply extends_utc_now).
  repeat case_match; done.
Qed.

Lemma hold_is_resolved_observe hm ctx :
  acks_of (snd (hold_is_resolved hm ctx)) = acks_of ctx /\
  dispatches_of (snd (hold_is_resolved hm ctx)) = dispatches_of ctx /\
  commands_of (snd (hold_is_resolved hm ctx)) = commands_of ctx.
Proof.
  unfold hold_is_resolved. destruct (target_kind _); try done.
  destruct (durability _) as [d|]; [|done]. simpl. repeat case_match; done.
Qed.

(** *** update_ack: the effect of the whole match *)

(** A status that is already resolved stays; any other is overwritten. *)
Definition acked_status (expect : MessageAckExpectKind) (from : EndpointAddr) (kind : MessageStatusKind)
    (st : gmap EndpointAddr MessageStatusKind) : gmap EndpointAddr MessageStatusKind :=
  match st !! from with
  | Some current => if is_resolved current expect then st else <[from := kind]> st
  | None => <[from := kind]> st
  end.

Definition acked_hold (from : EndpointAddr) (kind : MessageStatusKind) (hm : HoldMessage) : HoldMessage :=
  with_status (acked_status (expect_kind (wait_ack hm)) from kind (hold_status hm)) hm.

Lemma with_status_id hm : with_status (hold_status hm) hm = hm.
Proof. by destruct hm as [m [e st]]. Qed.

Lemma set_hold_id q : set_hold (hold_messages q) q = q.
Proof. by destruct q. Qed.

Lemma update_ack_eq ack_to from kind q :
  update_ack ack_to from kind q = set_hold (alter (acked_hold from kind) ack_to (hold_messages q)) q.
Proof.
  unfold update_ack. destruct (hold_messages q !! ack_to) as [hm|] eqn:Hhm.
  2: { rewrite alter_id by (intros hm ?; congruence). by rewrite set_hold_id. }
  assert (alter (acked_hold from kind) ack_to (hold_messages q) =
          <[ack_to := acked_hold from kind hm]> (hold_messages q)) as ->.
  { apply map_eq. intros i. rewrite lookup_alter, lookup_insert.
    case_decide; subst; [by rewrite Hhm|done]. }
  unfold acked_hold, acked_status. destruct (hold_status hm !! from) as [cur|] eqn:Hc; [|done].
  unfold update_ack_guarded. destruct (is_resolved cur _) eqn:Hr.
  - by rewrite with_status_id, insert_id, set_hold_id.
  - destruct cur; try (by destruct (expect_kind (wait_ack hm)));
      repeat case_match; by rewrite ?insert_insert_eq.
Qed.

Lemma alter_hold_wf q id (f : HoldMessage -> HoldMessage) :
  queue_wf q -> (forall hm, message (f hm) = message hm) ->
  queue_wf (set_hold (alter f id (hold_messages q)) q).
Proof.
  intros Hq Hf. split; simpl.
  - intros i m. rewrite lookup_alter. case_decide; subst.
    + intros (hm & Hhm & ->)%fmap_Some_1. unfold hold_id. rewrite Hf. by apply (wf_key q Hq).
    + by apply (wf_key q Hq).
  - intros i. rewrite lookup_alter_is_Some. apply (wf_dom q Hq).
  - apply (wf_index q Hq).
  - apply (wf_sorted q Hq).
  - rewrite <-size_dom, dom_alter_L, size_dom. apply (wf_size q Hq).
  - rewrite dom_alter_L. apply (wf_resolved q Hq).
Qed.

Lemma update_ack_wf ack_to from kind q : queue_wf q -> queue_wf (update_ack ack_to from kind q).
Proof. intros Hq. rewrite update_ack_eq. by apply alter_hold_wf. Qed.

Lemma insert_hold_wf q id hm hm' :
  queue_wf q -> hold_messages q !! id = Some hm -> message hm' = message hm ->
  queue_wf (set_hold (<[id := hm']> (hold_messages q)) q).
Proof.
  intros Hq Hhm Hm. replace (<[id := hm']> (hold_messages q))
    with (alter (fun h => mkHold (message h) (wait_ack hm')) id (hold_messages q)).
  - by apply alter_hold_wf.
  - apply map_eq. intros i. rewrite lookup_alter, lookup_insert. case_decide; subst; [|done].
    rewrite Hhm. simpl. rewrite <-Hm. by destruct hm'.
Qed.

Lemma set_resolved_wf q r : queue_wf q -> r ⊆ dom (hold_messages q) -> queue_wf (set_resolved r q).
Proof. intros [] Hr. by split. Qed.

(** ** The list the queue represents

    The held messages in the order of their times. *)
Definition abs_of (hold : gmap MessageId HoldMessage) (l : list (Timed MessageId)) : list HoldMessage :=
  omap (fun e => hold !! data e) l.
Definition queue_abs q : list HoldMessage := abs_of (hold_messages q) (time_id q).

Lemma abs_of_cons hold e l :
  abs_of hold (e :: l) =
    match hold !! data e with Some hm => hm :: abs_of hold l | None => abs_of hold l end.
Proof. done. Qed.

Lemma abs_of_ext hold hold' l :
  (forall e, e ∈ l -> hold !! data e = hold' !! data e) -> abs_of hold l = abs_of hold' l.
Proof.
  induction l as [|e l IH]; intros He; simpl; [done|].
  rewrite He by left. rewrite IH; [done|]. intros. apply He. by right.
Qed.

Lemma wf_data_NoDup q e l :
  queue_wf q -> time_id q = e :: l -> forall e', e' ∈ l -> data e' <> data e.
Proof.
  intros Hq Hl [t' i'] He' Heq. destruct e as [t i]. simpl in Heq. subst i'.
  assert (mkTimed t i ∈ time_id q) as H1%(wf_index q Hq) by (rewrite Hl; left).
  assert (mkTimed t' i ∈ time_id q) as H2%(wf_index q Hq) by (rewrite Hl; by right).
  simplify_eq. pose proof (btree_sorted_NoDup _ (wf_sorted q Hq)) as Hnd. rewrite Hl in Hnd.
  by apply NoDup_cons in Hnd as [? _].
Qed.

Lemma queue_abs_cons q e l hm :
  time_id q = e :: l -> hold_messages q !! data e = Some hm ->
  queue_abs q = hm :: abs_of (hold_messages q) l.
Proof. intros Hl Hhm. unfold queue_abs. rewrite Hl. simpl. by rewrite Hhm. Qed.

(** ** Blocking pop and flush *)

(** The specification of a blocking flush, on the represented list: send the
    first message to the endpoints it has not been sent to, and if that resolves
    it, finish it and go on. *)
Fixpoint spec_flush (reach : gset EndpointAddr) (l : list HoldMessage) (ctx : ProposalContext) :
    list HoldMessage * ProposalContext :=
  match l with
  | [] => ([], ctx)
  | hm :: l' =>
      let '(hm, ctx) := send_unsent reach hm ctx in
      let '(done, ctx) := hold_is_resolved hm ctx in
      if done then spec_flush reach l' (finish (hold_id hm) hm ctx) else (hm :: l', ctx)
  end.

(** The queue after its front, seen as [hm], has been taken out. *)
Definition popped q (q' : MessageQueue) (e : Timed MessageId) (l : list (Timed MessageId)) : Prop :=
  queue_wf q' /\ blocking q' = blocking q /\ time_id q' = l /\
  hold_messages q' = delete (data e) (hold_messages q) /\ resolved q' = resolved q ∖ {[data e]}.

Lemma popped_abs q q' e l :
  queue_wf q -> time_id q = e :: l -> popped q q' e l -> queue_abs q' = abs_of (hold_messages q) l.
Proof.
  intros Hq Hl (_ & _ & Hl' & Hh & _). unfold queue_abs. rewrite Hl', Hh.
  apply abs_of_ext. intros e' He'. apply lookup_delete_ne.
  by pose proof (wf_data_NoDup q e l Hq Hl e' He').
Qed.

Lemma queue_pop_popped q e l :
  queue_wf q -> time_id q = e :: l ->
  exists hm q', hold_messages q !! data e = Some hm /\ queue_pop q = Done (Some hm, q') /\ popped q q' e l.
Proof.
  intros Hq Hl. pose proof (queue_pop_spec q Hq) as Hp. rewrite Hl in Hp.
  destruct Hp as (hm & q' & ? & ? & ? & ? & ? & ? & ?). exists hm, q'. by split_and!.
Qed.

Lemma poll_message_inner_front q e l hm reach ctx :
  queue_wf q -> blocking q = true -> time_id q = e :: l -> hold_messages q !! data e = Some hm ->
  poll_message_inner (data e) reach q ctx =
    let '(hm', ctx) := send_unsent reach hm ctx in
    let '(done, ctx) := hold_is_resolved hm' ctx in
    (Some (if done then Ready () else Pending),
     (set_hold (<[data e := hm']> (hold_messages q)) q, ctx)).
Proof.
  intros Hq Hb Hl Hhm. unfold poll_message_inner. rewrite Hb.
  pose proof (wf_get_front q Hq) as Hf. rewrite Hl in Hf. destruct Hf as (hm' & -> & Hhm' & Hid).
  simplify_eq. rewrite decide_False by (intros Hn; by apply Hn). by rewrite Hhm.
Qed.

(** The front was resolved by an earlier poll: it is popped as it is. *)
Lemma blocking_pop_cached q e l reach ctx :
  queue_wf q -> time_id q = e :: l -> data e ∈ resolved q ->
  exists hm q', hold_messages q !! data e = Some hm /\
    blocking_pop reach q ctx = Done (Some hm, (q', ctx)) /\ popped q q' e l.
Proof.
  intros Hq Hl Hr. unfold blocking_pop.
  pose proof (wf_get_front q Hq) as Hf. rewrite Hl in Hf. destruct Hf as (hm & -> & Hhm & Hid).
  unfold poll_message. rewrite Hid, decide_True by done. simpl.
  destruct (queue_pop_popped q e l Hq Hl) as (hm' & q' & Hhm' & -> & Hp).
  exists hm', q'. by split_and!.
Qed.

Lemma blocking_pop_spec q e l hm reach ctx :
  queue_wf q -> blocking q = true -> time_id q = e :: l -> hold_messages q !! data e = Some hm ->
  data e ∉ resolved q ->
  let '(hm', ctx1) := send_unsent reach hm ctx in
  let '(done, ctx2) := hold_is_resolved hm' ctx1 in
  if done then exists q', blocking_pop reach q ctx = Done (Some hm', (q', ctx2)) /\ popped q q' e l
  else blocking_pop reach q ctx =
         Done (None, (set_hold (<[data e := hm']> (hold_messages q)) q, ctx2)).
Proof.
  intros Hq Hb Hl Hhm Hr. rewrite send_unsent_eq. set (ctx1 := foldl _ _ _).
  destruct (hold_is_resolved (sent_hold reach hm) ctx1) as [done ctx2] eqn:Hres.
  assert (Hkey : hold_id hm = data e) by by apply (wf_key q Hq).
  assert (Hpop : blocking_pop reach q ctx =
    if done then '(m, q) ← queue_pop (set_resolved ({[data e]} ∪ resolved q)
          (set_hold (<[data e := sent_hold reach hm]> (hold_messages q)) q)); Done (m, (q, ctx2))
    else Done (None, (set_hold (<[data e := sent_hold reach hm]> (hold_messages q)) q, ctx2))).
  { unfold blocking_pop, get_front. rewrite Hl. simpl. rewrite Hhm. simpl.
    unfold poll_message. rewrite Hkey, decide_False by done.
    rewrite (poll_message_inner_front q e l hm) by done. rewrite send_unsent_eq. fold ctx1.
    rewrite Hres. by destruct done. }
  rewrite Hpop. destruct done; [|done].
  set (q1 := set_resolved _ _).
  assert (queue_wf q1) as Hq1.
  { apply set_resolved_wf; [by eapply insert_hold_wf|]. simpl. rewrite dom_insert_L.
    pose proof (wf_resolved q Hq). set_solver. }
  destruct (queue_pop_popped q1 e l Hq1 Hl) as (hm1 & q' & Hhm1 & Hp & (Hwf & Hb' & Hl' & Hh & Hr')).
  simpl in Hhm1, Hh, Hr'. rewrite lookup_insert_eq in Hhm1. simplify_eq. rewrite Hp.
  exists q'. split; [done|]. split_and!; try done.
  - rewrite Hh. apply delete_insert_eq.
  - rewrite Hr'. set_solver.
Qed.

(** The blocking loop computes [spec_flush] on the represented list, given as
    many turns as the queue has entries, and one more to see the end. *)
Lemma flush_blocking_spec fuel reach q ctx :
  queue_wf q -> blocking q = true -> resolved q = ∅ -> length (time_id q) < fuel ->
  exists q' ctx', flush_blocking fuel reach q ctx = Done (q', ctx') /\
    queue_wf q' /\ blocking q' = true /\ resolved q' = ∅ /\
    spec_flush reach (queue_abs q) ctx = (queue_abs q', ctx').
Proof.
  revert q ctx. induction fuel as [|fuel IH]; intros q ctx Hq Hb Hr Hlen; [lia|]. cbn [flush_blocking].
  destruct (time_id q) as [|e l] eqn:Hl.
  - assert (blocking_pop reach q ctx = Done (None, (q, ctx))) as ->.
    { unfold blocking_pop, get_front. by rewrite Hl. }
    simpl. exists q, ctx. unfold queue_abs at 1. rewrite Hl. simpl. split_and!; try done.
    unfold queue_abs. by rewrite Hl.
  - destruct (wf_time_id_held q e Hq) as [hm Hhm]; [rewrite Hl; left|].
    rewrite (queue_abs_cons q e l hm) by done. cbn [spec_flush].
    pose proof (blocking_pop_spec q e l hm reach ctx Hq Hb Hl Hhm) as Hp.
    rewrite Hr in Hp. specialize (Hp (not_elem_of_empty _)).
    destruct (send_unsent reach hm ctx) as [hm' ctx1] eqn:Hs.
    destruct (hold_is_resolved hm' ctx1) as [done ctx2] eqn:Hd. destruct done.
    + destruct Hp as (q' & -> & Hpop). cbn [mbind Outcome_bind].
      rewrite <-(popped_abs q q' e l Hq Hl Hpop). destruct Hpop as (Hq' & Hb' & Hl' & _ & Hr').
      simpl in Hlen. apply IH; [done|congruence| |rewrite Hl'; lia]. rewrite Hr', Hr. set_solver.
    + rewrite Hp. cbn [mbind Outcome_bind]. do 2 eexists. split; [done|].
      assert (message hm' = message hm) as Hm.
      { rewrite send_unsent_eq in Hs. by injection Hs as <- _. }
      split_and!; [by eapply insert_hold_wf|done|done|].
      unfold queue_abs. simpl. rewrite Hl. simpl. rewrite lookup_insert_eq. do 2 f_equal.
      apply abs_of_ext. intros e' He'. rewrite lookup_insert_ne; [done|].
      by pose proof (wf_data_NoDup q e l Hq Hl e' He').
Qed.

(** ** Non-blocking flush *)

(** What the loop does to the context: each held id is finished. *)
Definition finish_ids (hold : gmap MessageId HoldMessage) (ids : list MessageId) ctx : ProposalContext :=
  foldl (fun ctx id => match hold !! id with Some m => finish id m ctx | None => ctx end) ctx ids.

Lemma flush_ids_spec ids q ctx :
  queue_wf q -> resolved q = ∅ -> NoDup ids ->
  exists q', flush_ids ids q ctx = Done (q', finish_ids (hold_messages q) ids ctx) /\
    queue_wf q' /\ blocking q' = blocking q /\ resolved q' = ∅ /\
    hold_messages q' = foldr delete (hold_messages q) ids /\
    id_time q' = foldr delete (id_time q) ids.
Proof.
  revert q ctx. induction ids as [|id ids IH]; intros q ctx Hq Hr Hnd; cbn [flush_ids].
  { by exists q. }
  apply NoDup_cons in Hnd as [Hni Hnd].
  assert (forall V (h : gmap MessageId V),
    foldr delete (delete id h) ids = delete id (foldr delete h ids)) as Hcomm.
  { intros V h. clear. induction ids as [|j ids IH]; simpl; [done|]. by rewrite IH, delete_delete. }
  pose proof (queue_remove_spec q id Hq) as Hrm.
  destruct (hold_messages q !! id) as [hm|] eqn:Hhm.
  - destruct Hrm as (q1 & -> & Hq1 & Hb1 & Hh1 & Hr1 & Ht1). cbn [mbind Outcome_bind].
    destruct (IH q1 (finish id hm ctx)) as (q' & -> & Hq' & Hb' & Hr' & Hh' & Ht'); [|congruence|done|].
    { apply Hq1. rewrite Hr. set_solver. }
    exists q'. split_and!; try congruence.
    + f_equal. f_equal. unfold finish_ids. cbn [foldl]. rewrite Hhm. rewrite Hh1.
      clear -Hni. generalize (finish id hm ctx) as c.
      induction ids as [|j ids IH]; intros c; [done|]. cbn [foldl].
      rewrite lookup_delete_ne by set_solver. apply IH. set_solver.
    + rewrite Hh', Hh1. simpl. apply Hcomm.
    + rewrite Ht', Ht1. simpl. apply Hcomm.
  - rewrite Hrm. cbn [mbind Outcome_bind].
    destruct (IH q ctx Hq Hr Hnd) as (q' & -> & Hq' & Hb' & Hr' & Hh' & Ht').
    assert (id_time q !! id = None) as Hnone.
    { rewrite eq_None_not_Some, <-(wf_dom q Hq), Hhm. by intros [? ?]. }
    exists q'. split_and!; try done.
    + unfold finish_ids. cbn [foldl]. by rewrite Hhm.
    + rewrite Hh'. simpl. rewrite <-Hcomm, delete_id by done. done.
    + rewrite Ht'. simpl. rewrite <-Hcomm, delete_id by done. done.
Qed.

(** [flush] never panics and never runs out of turns on a well-formed queue that
    caches at most the result of the last poll. *)
Lemma extends_finish i m ctx : ctx_extends ctx (finish i m ctx).
Proof. unfold finish. etrans; [apply extends_resolve_ack|apply extends_push_durable]. Qed.

Lemma acks_of_finish i m ctx :
  acks_of (finish i m ctx) =
    acks_of ctx ++ match ctx_topic ctx with Some _ => [(i, hold_resolve m)] | None => [] end.
Proof. unfold finish. by rewrite acks_of_push, acks_of_resolve_ack. Qed.

Lemma commands_of_finish i m ctx : commands_of (finish i m ctx) = commands_of ctx ++ [CmdArchive i].
Proof. unfold finish. by rewrite commands_of_push, commands_of_resolve_ack. Qed.

(** ** The represented list under the queue's operations *)

Lemma queue_abs_held q hm :
  queue_wf q -> hm ∈ queue_abs q <-> hold_messages q !! hold_id hm = Some hm.
Proof.
  intros Hq. unfold queue_abs, abs_of. rewrite list_elem_of_omap. split.
  - intros (e & He & Hhm). by rewrite (wf_key q Hq _ _ Hhm).
  - intros Hhm. destruct (proj1 (wf_dom q Hq (hold_id hm))) as [t Ht]; [eauto|].
    exists (mkTimed t (hold_id hm)). split; [by apply (wf_index q Hq)|done].
Qed.

Lemma abs_of_ids q l :
  queue_wf q -> (forall e, e ∈ l -> e ∈ time_id q) ->
  hold_id <$> abs_of (hold_messages q) l = data <$> l.
Proof.
  intros Hq. induction l as [|e l IH]; intros Hl; [done|].
  destruct (wf_time_id_held q e Hq) as [hm Hhm]; [apply Hl; left|].
  rewrite abs_of_cons, Hhm. cbn.
  f_equal; [by apply (wf_key q Hq)|]. apply IH. intros; apply Hl; by right.
Qed.

(** The represented list has the ids of the order index, in its order. *)
Lemma queue_abs_ids q : queue_wf q -> hold_id <$> queue_abs q = data <$> time_id q.
Proof. intros Hq. by apply abs_of_ids. Qed.

Lemma queue_abs_NoDup q : queue_wf q -> NoDup (hold_id <$> queue_abs q).
Proof.
  intros Hq. rewrite queue_abs_ids by done.
  apply NoDup_fmap_2_strong; [|by apply btree_sorted_NoDup, wf_sorted].
  intros [t1 i1] [t2 i2] H1%(wf_index q Hq) H2%(wf_index q Hq). simpl. intros ->. congruence.
Qed.

Lemma length_queue_abs q : queue_wf q -> Z.of_nat (length (queue_abs q)) = queue_size q.
Proof.
  intros Hq. rewrite <-(length_fmap hold_id), queue_abs_ids, length_fmap, wf_length by done.
  symmetry. by apply wf_size.
Qed.

Lemma queue_abs_alter q id f :
  queue_wf q ->
  queue_abs (set_hold (alter f id (hold_messages q)) q) =
    (fun hm => if decide (hold_id hm = id) then f hm else hm) <$> queue_abs q.
Proof.
  intros Hq. unfold queue_abs. cbn [set_hold time_id hold_messages].
  assert (forall e, e ∈ time_id q -> is_Some (hold_messages q !! data e)) as Hheld
    by (intros; by apply wf_time_id_held).
  induction (time_id q) as [|e l IH]; [done|].
  destruct (Hheld e) as [hm Hhm]; [left|]. rewrite !abs_of_cons, lookup_alter, Hhm.
  rewrite IH by (intros; apply Hheld; by right). pose proof (wf_key q Hq _ _ Hhm) as Hk.
  rewrite fmap_cons. destruct (decide (id = data e)) as [->|Hne]; cbn.
  - by rewrite Hhm, decide_True.
  - by rewrite decide_False by congruence.
Qed.

Lemma fmap_hold_wf q (f : HoldMessage -> HoldMessage) :
  queue_wf q -> (forall hm, message (f hm) = message hm) -> queue_wf (set_hold (f <$> hold_messages q) q).
Proof.
  intros Hq Hf. split; cbn [set_hold hold_messages time_id id_time resolved queue_size].
  - intros i m. rewrite lookup_fmap. intros (hm & Hhm & ->)%fmap_Some_1.
    unfold hold_id. rewrite Hf. by apply (wf_key q Hq).
  - intros i. rewrite lookup_fmap, fmap_is_Some. apply (wf_dom q Hq).
  - apply (wf_index q Hq).
  - apply (wf_sorted q Hq).
  - rewrite map_size_fmap. apply (wf_size q Hq).
  - rewrite dom_fmap_L. apply (wf_resolved q Hq).
Qed.

Lemma queue_abs_fmap q (f : HoldMessage -> HoldMessage) :
  queue_abs (set_hold (f <$> hold_messages q) q) = f <$> queue_abs q.
Proof.
  unfold queue_abs. cbn [set_hold time_id hold_messages]. induction (time_id q) as [|e l IH]; [done|].
  rewrite !abs_of_cons, lookup_fmap, IH. by destruct (hold_messages q !! data e).
Qed.

Lemma queue_abs_sub q q' (P : MessageId -> Prop) `{forall i, Decision (P i)} :
  queue_wf q -> queue_wf q' ->
  (forall i, hold_messages q' !! i = if decide (P i) then hold_messages q !! i else None) ->
  (forall i, id_time q' !! i = if decide (P i) then id_time q !! i else None) ->
  queue_abs q' = filter (fun hm => P (hold_id hm)) (queue_abs q).
Proof.
  intros Hq Hq' Hh Ht.
  assert (time_id q' = filter (fun e => P (data e)) (time_id q)) as Htime.
  { apply (btree_sorted_ext time); [by apply wf_sorted|by apply btree_sorted_filter, wf_sorted|].
    intros [t i]. rewrite list_elem_of_filter, !wf_index by done. rewrite Ht. simpl.
    case_decide; naive_solver. }
  unfold queue_abs. rewrite Htime.
  assert (forall e, e ∈ time_id q -> is_Some (hold_messages q !! data e)) as Hheld
    by (intros; by apply wf_time_id_held).
  clear Htime. induction (time_id q) as [|e l IH]; [done|].
  destruct (Hheld e) as [hm Hhm]; [left|]. pose proof (wf_key q Hq _ _ Hhm) as Hk.
  rewrite filter_cons, abs_of_cons, Hhm, filter_cons, Hk.
  rewrite <-IH by (intros; apply Hheld; by right).
  case_decide as HP; [|done]. by rewrite abs_of_cons, Hh, decide_True, Hhm.
Qed.

Lemma queue_push_abs q hm ctx q' ctx' :
  queue_wf q -> hold_messages q !! hold_id hm = None ->
  (forall e, e ∈ time_id q -> (time e < fst (utc_now ctx))%Z) ->
  queue_push hm q ctx = Done (q', ctx') ->
  queue_abs q' = queue_abs q ++ [hm] /\ blocking q' = blocking q /\ resolved q' = resolved q.
Proof.
  intros Hq Hid Ht. unfold queue_push. destruct (utc_now ctx) as [t c] eqn:Hc. cbn [fst] in Ht.
  intros (s & Hs & [= <- <-])%Outcome_bind_Done. split; [|done].
  unfold queue_abs. cbn [time_id hold_messages].
  rewrite (btree_insert_last timed_cmp time timed_cmp_time) by done.
  unfold abs_of. rewrite omap_app. cbn. rewrite lookup_insert_eq. f_equal.
  apply abs_of_ext. intros e He. rewrite lookup_insert_ne; [done|].
  intros Heq. destruct (wf_time_id_held q e Hq He). congruence.
Qed.
End QueueFacts.

(** ** Shared consequences *)

Section FlushFacts.
Context `{HashOrder, Clock}.

(** What a non-blocking flush acknowledges: the held ones among [ids], in order. *)
Definition acks_for (hold : gmap MessageId HoldMessage) (ids : list MessageId) :
    list (MessageId * WaitAckResult) :=
  omap (fun id => (fun hm => (id, hold_resolve hm)) <$> hold !! id) ids.

Lemma finish_ids_extends hold ids ctx : ctx_extends ctx (finish_ids hold ids ctx).
Proof.
  unfold finish_ids. revert ctx. induction ids as [|i ids IH]; intros ctx; cbn [foldl]; [done|].
  destruct (hold !! i); [|done]. etrans; [apply extends_finish|apply IH].
Qed.

Lemma acks_of_finish_ids hold ids ctx t :
  ctx_topic ctx = Some t -> acks_of (finish_ids hold ids ctx) = acks_of ctx ++ acks_for hold ids.
Proof.
  unfold finish_ids. revert ctx. induction ids as [|i ids IH]; intros ctx Ht; cbn [foldl].
  { by rewrite app_nil_r. }
  unfold acks_for. cbn. destruct (hold !! i) as [m|] eqn:Hm; cbn; [|by apply IH].
  rewrite IH by (by rewrite (extends_ctx_topic ctx) by apply extends_finish).
  by rewrite acks_of_finish, Ht, <-app_assoc.
Qed.

Lemma foldr_delete_lookup {V} (m : gmap MessageId V) ids i :
  foldr delete m ids !! i = if decide (i ∈ ids) then None else m !! i.
Proof.
  induction ids as [|j ids IH]; simpl; [done|].
  destruct (decide (i = j)) as [->|Hne].
  - rewrite lookup_delete_eq, decide_True by (by left). done.
  - rewrite lookup_delete_ne, IH by done. repeat case_decide; set_solver.
Qed.

(** The non-blocking flush as an operation on the represented list. *)
Lemma flush_ids_abs ids q q' :
  queue_wf q -> queue_wf q' ->
  hold_messages q' = foldr delete (hold_messages q) ids ->
  id_time q' = foldr delete (id_time q) ids ->
  queue_abs q' = filter (fun hm => hold_id hm ∉ ids) (queue_abs q).
Proof.
  intros Hq Hq' Hh Ht.
  erewrite (queue_abs_sub q q' (fun i => i ∉ ids)); [by apply list_filter_iff|done|done|..].
  - intros i. rewrite Hh, foldr_delete_lookup. repeat case_decide; done.
  - intros i. rewrite Ht, foldr_delete_lookup. repeat case_decide; done.
Qed.

(** What a flush does, for either kind of queue, once the cache of resolved
    messages is what [update_and_flush] leaves. *)
Lemma queue_flush_nonblocking reach q ctx :
  queue_wf q -> blocking q = false ->
  exists q', queue_flush reach q ctx =
      Done (q', finish_ids (hold_messages q) (hs_iter (resolved q)) ctx) /\
    queue_wf q' /\ blocking q' = false /\ resolved q' = ∅ /\
    queue_abs q' = filter (fun hm => hold_id hm ∉ resolved q) (queue_abs q).
Proof.
  intros Hq Hb. unfold queue_flush. rewrite Hb. cbn [swap_out_resolved].
  assert (queue_wf (set_resolved ∅ q)) as Hq0 by (apply set_resolved_wf; [done|set_solver]).
  destruct (flush_ids_spec (hs_iter (resolved q)) (set_resolved ∅ q) ctx)
    as (q' & Hf & Hq' & Hb' & Hr' & Hh' & Ht'); [done|done|apply NoDup_hs_iter|].
  exists q'. split_and!; [exact Hf|done|by rewrite Hb'|done|].
  rewrite (flush_ids_abs (hs_iter (resolved q)) (set_resolved ∅ q) q') by done.
  apply list_filter_iff. intros hm. by rewrite elem_of_hs_iter.
Qed.

(** A reference for one finished message in the observed traces. *)
Lemma spec_flush_extends reach l ctx : ctx_extends ctx (snd (spec_flush reach l ctx)).
Proof.
  revert ctx. induction l as [|hm l IH]; intros ctx; [done|]. cbn [spec_flush].
  rewrite send_unsent_eq. set (ctx1 := foldl _ _ _).
  pose proof (hold_is_resolved_extends (sent_hold reach hm) ctx1) as He.
  destruct (hold_is_resolved _ _) as [done ctx2]. cbn [snd] in He.
  assert (ctx_extends ctx ctx2) by (etrans; [apply extends_foldl_dispatch|exact He]).
  destruct done; [|done]. etrans; [|apply IH]. etrans; [done|]. apply extends_finish.
Qed.

(** A blocking flush takes a prefix of the queue and answers it in order. *)
Lemma spec_flush_prefix reach l ctx t :
  ctx_topic ctx = Some t ->
  exists answered rest results,
    hold_id <$> l = answered ++ (hold_id <$> rest) /\
    fst (spec_flush reach l ctx) = rest /\ length results = length answered /\
    acks_of (snd (spec_flush reach l ctx)) = acks_of ctx ++ zip answered results /\
    commands_of (snd (spec_flush reach l ctx)) = commands_of ctx ++ (CmdArchive <$> answered).
Proof.
  revert ctx. induction l as [|hm l IH]; intros ctx Ht.
  { exists [], [], []. cbn. by rewrite !app_nil_r. }
  cbn [spec_flush]. rewrite send_unsent_eq. set (ctx1 := foldl _ _ _).
  pose proof (hold_is_resolved_extends (sent_hold reach hm) ctx1) as He.
  destruct (hold_is_resolved_observe (sent_hold reach hm) ctx1) as (Ha & _ & Hc).
  destruct (hold_is_resolved _ _) as [done ctx2]. cbn [snd] in He, Ha, Hc.
  assert (ctx_extends ctx ctx2) as He2 by (etrans; [apply extends_foldl_dispatch|exact He]).
  unfold ctx1 in Ha, Hc. rewrite acks_foldl_dispatch in Ha. rewrite commands_foldl_dispatch in Hc.
  pose proof (extends_ctx_topic _ _ He2) as Ht2. rewrite Ht in Ht2.
  change (hold_id (sent_hold reach hm)) with (hold_id hm).
  destruct done.
  - destruct (IH (finish (hold_id hm) (sent_hold reach hm) ctx2))
      as (answered & rest & results & Hl & Hr & Hlen & Hacks & Hcmds).
    { rewrite (extends_ctx_topic ctx2) by apply extends_finish. done. }
    exists (hold_id hm :: answered), rest, (hold_resolve (sent_hold reach hm) :: results).
    split_and!; [by rewrite fmap_cons, Hl|done|simpl; lia| |].
    + rewrite Hacks, acks_of_finish, Ht2, Ha. by rewrite <-app_assoc.
    + rewrite Hcmds, commands_of_finish, Hc. by rewrite <-app_assoc.
  - exists [], (sent_hold reach hm :: l), []. cbn. rewrite !app_nil_r. by split_and!.
Qed.
End FlushFacts.

(** ** Properties *)

Section QueueProperties.
Context `{HashOrder, Clock}.

(** C10: [flush] on a well-formed queue neither panics nor loops and implements
    its two specifications on the messages in the order of their times: a
    blocking queue whose resolved cache is empty runs [spec_flush] (poll the
    first, finish it if it is resolved, go on with the next), a non-blocking one
    finishes exactly the messages cached as resolved, keeps the others in order
    and empties the cache. *)
Theorem queue_flush_refines (reach : gset EndpointAddr) (q : MessageQueue) (ctx : ProposalContext)
    (Hq : queue_wf q) :
  (blocking q = true -> resolved q = ∅ ->
    exists q' ctx', queue_flush reach q ctx = Done (q', ctx') /\ queue_wf q' /\ resolved q' = ∅ /\
      spec_flush reach (queue_abs q) ctx = (queue_abs q', ctx')) /\
  (blocking q = false ->
    exists q', queue_flush reach q ctx =
        Done (q', finish_ids (hold_messages q) (hs_iter (resolved q)) ctx) /\
      queue_wf q' /\ resolved q' = ∅ /\
      queue_abs q' = filter (fun hm => hold_id hm ∉ resolved q) (queue_abs q)).
Proof.
  split.
  - intros Hb Hr. unfold queue_flush. rewrite Hb.
    destruct (flush_blocking_spec (S (length (time_id q))) reach q ctx) as (q' & ctx' & ? & ? & ? & ? & ?);
      [done..|lia|]. by exists q', ctx'.
  - intros Hb. destruct (queue_flush_nonblocking reach q ctx Hq Hb) as (q' & ? & ? & ? & ? & ?).
    by exists q'.
Qed.

(** A blocking flush answers a prefix of the queue in the order of the
    messages' times, each with an archive command, and leaves the rest: no
    message overtakes an unresolved one before it. *)
Theorem blocking_flush_in_order (reach : gset EndpointAddr) (q : MessageQueue) (ctx : ProposalContext)
    (t : loc) (Hq : queue_wf q) (Hb : blocking q = true) (Hr : resolved q = ∅)
    (Ht : ctx_topic ctx = Some t) :
  exists q' ctx' answered results,
    queue_flush reach q ctx = Done (q', ctx') /\
    hold_id <$> queue_abs q = answered ++ (hold_id <$> queue_abs q') /\
    length results = length answered /\
    acks_of ctx' = acks_of ctx ++ zip answered results /\
    commands_of ctx' = commands_of ctx ++ (CmdArchive <$> answered).
Proof.
  destruct (flush_blocking_spec (S (length (time_id q))) reach q ctx)
    as (q' & ctx' & Hf & ? & ? & ? & Hs); [done..|lia|].
  destruct (spec_flush_prefix reach (queue_abs q) ctx t Ht) as (answered & rest & results & ? & Hrest & ? & ? & ?).
  rewrite Hs in *. cbn [fst snd] in *. subst rest.
  exists q', ctx', answered, results. unfold queue_flush. rewrite Hb. by split_and!.
Qed.

(** [update_ack] replaces the status of the endpoint it is given in the
    message it is given, unless that status already resolves the message's
    expectation, whatever the branch of its [match]: the guards on the present
    status never keep an older one.  It also records endpoints that were not
    targets. Nothing else in the queue changes. *)
Theorem update_ack_overwrites (ack_to : MessageId) (from : EndpointAddr) (kind : MessageStatusKind)
    (q : MessageQueue) (id : MessageId) :
  hold_messages (update_ack ack_to from kind q) !! id =
    (fun hm =>
       if decide (id = ack_to) then
         if match hold_status hm !! from with
            | Some current => is_resolved current (expect_kind (wait_ack hm))
            | None => false
            end
         then hm else with_status (<[from := kind]> (hold_status hm)) hm
       else hm) <$> hold_messages q !! id /\
  time_id (update_ack ack_to from kind q) = time_id q /\
  id_time (update_ack ack_to from kind q) = id_time q /\
  resolved (update_ack ack_to from kind q) = resolved q.
Proof.
  rewrite update_ack_eq. split; [|done]. cbn [set_hold hold_messages]. rewrite lookup_alter.
  destruct (decide (id = ack_to)) as [->|Hne].
  2: { rewrite decide_False by congruence. by destruct (hold_messages q !! id). }
  rewrite decide_True by done. destruct (hold_messages q !! ack_to) as [hm|]; [|done]. cbn. f_equal.
  unfold acked_hold, acked_status. destruct (hold_status hm !! from) as [cur|]; [|done].
  destruct (is_resolved cur _); [|done]. by rewrite with_status_id.
Qed.

(** An acknowledgement can take a delivery back: on a message that expects
    [Processed], a late [Sent] replaces a recorded [Received], which the guards of
    [update_ack] mean to exclude. *)
Theorem update_ack_regresses (m : Message) (ep : EndpointAddr) :
  let hm := mkHold m (mkWaitAck ExpectProcessed {[ep := Received]}) in
  let q := mkQueue false {[hold_id hm := hm]} [mkTimed 0 (hold_id hm)] {[hold_id hm := 0%Z]} ∅ 1 in
  hold_messages (update_ack (hold_id hm) ep Sent q) !! hold_id hm =
    Some (mkHold m (mkWaitAck ExpectProcessed {[ep := Sent]})).
Proof.
  cbn zeta. rewrite update_ack_eq. cbn [set_hold hold_messages].
  rewrite lookup_alter, decide_True, lookup_singleton_eq by done. cbn.
  unfold acked_hold, acked_status, hold_status, with_status. cbn.
  by rewrite lookup_singleton_eq, insert_singleton_eq.
Qed.

(** [send_unsent] dispatches the message once to every endpoint that is
    unsent and reachable and to no other, marks exactly those [Sending], leaves
    the acknowledgements and the durable commands alone, and a second call has
    nothing left to dispatch. *)
Theorem send_unsent_dispatches (reach : gset EndpointAddr) (hm : HoldMessage) (ctx : ProposalContext)
    (t : loc) (Ht : ctx_topic ctx = Some t) :
  exists hm' ctx' eps,
    send_unsent reach hm ctx = (hm', ctx') /\ message hm' = message hm /\
    NoDup eps /\ (forall ep, ep ∈ eps <-> hold_status hm !! ep = Some Unsent /\ ep ∈ reach) /\
    dispatches_of ctx' = dispatches_of ctx ++ ((fun ep => (hold_id hm, ep)) <$> eps) /\
    acks_of ctx' = acks_of ctx /\ commands_of ctx' = commands_of ctx /\
    (forall ep, hold_status hm' !! ep = if decide (ep ∈ eps) then Some Sending else hold_status hm !! ep) /\
    (forall ctx2, send_unsent reach hm' ctx2 = (hm', ctx2)).
Proof.
  exists (sent_hold reach hm),
    (foldl (fun ctx ep => dispatch_message (message hm) ep ctx) ctx (to_send reach hm)), (to_send reach hm).
  pose proof (fun ep => elem_of_to_send reach hm ep) as Hin.
  assert (forall ep, hold_status (sent_hold reach hm) !! ep =
      if decide (ep ∈ to_send reach hm) then Some Sending else hold_status hm !! ep) as Hst.
  { intros ep. unfold sent_hold, hold_status at 1, with_status. cbn [wait_ack status].
    rewrite map_lookup_imap. case_decide as Hd.
    - apply Hin in Hd as [-> Hr]. cbn. unfold sent_status. by rewrite bool_decide_true.
    - destruct (hold_status hm !! ep) as [k|] eqn:Hk; [|done]. cbn. unfold sent_status, is_unsent.
      destruct (decide (k = Unsent)) as [->|Hne]; [|by rewrite (bool_decide_false (k = Unsent))].
      rewrite (bool_decide_false (ep ∈ reach)) by (intros Hr; apply Hd, Hin; done).
      by rewrite andb_false_r. }
  split_and!; [apply send_unsent_eq|done| |exact Hin|by apply (dispatches_foldl_dispatch _ _ _ t)
              |apply acks_foldl_dispatch|apply commands_foldl_dispatch|exact Hst|].
  - apply NoDup_to_send.
  - intros ctx2. rewrite send_unsent_eq.
    assert (to_send reach (sent_hold reach hm) = []) as ->.
    { apply elem_of_nil_inv. intros ep [Hs Hr]%elem_of_to_send. rewrite Hst in Hs.
      case_decide as Hd; [done|]. by apply Hd, Hin. }
    cbn [foldl]. f_equal. destruct hm as [m [e st]]. unfold sent_hold, with_status, hold_status. cbn.
    do 2 f_equal. apply map_eq. intros ep. rewrite !map_lookup_imap. destruct (st !! ep) as [k|]; [|done].
    cbn. unfold sent_status. by destruct k; cbn; try done; case_bool_decide.
Qed.

(** Two messages pushed at the same instant: the order index keeps only the
    first, so once that one is popped the queue counts and holds the second
    message but has no front, and a blocking queue never delivers it while a full
    one that drops its oldest message finds nothing to drop. *)
Theorem same_time_push_loses (b : bool) (capacity : Z) (hm1 hm2 : HoldMessage) (ctx : ProposalContext)
    (Hclock : clock_at (clock_reads (runtime (ctx_world ctx))) =
              clock_at (S (clock_reads (runtime (ctx_world ctx)))))
    (Hid : hold_id hm1 <> hold_id hm2) :
  exists q1 ctx1 q2 ctx2 q3,
    queue_push hm1 (queue_new b capacity) ctx = Done (q1, ctx1) /\
    queue_push hm2 q1 ctx1 = Done (q2, ctx2) /\
    queue_pop q2 = Done (Some hm1, q3) /\
    hold_messages q3 !! hold_id hm2 = Some hm2 /\ queue_size q3 = 1%Z /\
    get_front q3 = None /\ queue_pop q3 = Done (None, q3).
Proof.
  do 5 eexists. unfold queue_push. cbn [utc_now queue_new queue_size blocking hold_messages time_id id_time resolved].
  unfold usize_add. rewrite decide_True by done. cbn [mbind Outcome_bind].
  split; [reflexivity|]. cbn [queue_size ctx_map ctx_world set_clock_reads runtime clock_reads].
  rewrite decide_True by done. cbn [mbind Outcome_bind time_id btree_insert]. unfold timed_cmp at 1. cbn [time].
  rewrite <-Hclock, Z.compare_refl.
  split; [reflexivity|]. unfold queue_pop. cbn [time_id btree_pop_first queue_size hold_messages data].
  unfold usize_sub. rewrite decide_True by done. cbn [mbind Outcome_bind].
  rewrite lookup_insert_ne, lookup_insert_eq by done.
  split; [reflexivity|]. cbn [hold_messages queue_size get_front time_id].
  rewrite lookup_delete_ne, lookup_insert_eq by done. by split_and!.
Qed.
End QueueProperties.

Section QueueWitnesses.
Import Sample.

Definition sample_hold (b : u8) (k : MessageStatusKind) : HoldMessage :=
  mkHold (msg Online b) (mkWaitAck ExpectProcessed {[ep x05 := k]}).

Definition sample_queue (b : bool) : Outcome (MessageQueue * ProposalContext) :=
  '(q, c) ← queue_push (sample_hold x01 Processed) (queue_new b 8) ctx;
  queue_push (sample_hold x02 Unsent) q c.

Definition sample_queue_value (b : bool) : MessageQueue :=
  match sample_queue b with Done (q, _) => q | _ => queue_new b 8 end.

Lemma sample_queue_wf b : queue_wf (sample_queue_value b).
Proof.
  unfold sample_queue_value.
  destruct (sample_queue b) as [[q c]| |] eqn:E; [|apply queue_new_wf..].
  unfold sample_queue in E. apply Outcome_bind_Done in E as ([q1 c1] & H1 & H2).
  assert (queue_wf q1) as Hq1.
  { eapply queue_push_wf; [apply queue_new_wf|apply lookup_empty| |exact H1].
    by intros ? ?%not_elem_of_nil. }
  assert (hold_messages q1 !! mid x02 = None /\ time_id q1 = [mkTimed 0 (mid x01)] /\
          fst (utc_now c1) = 1%Z) as (Hh & Ht & Hc).
  { assert (match queue_push (sample_hold x01 Processed) (queue_new b 8) ctx with
      | Done (q1, c1) => hold_messages q1 !! mid x02 = None /\ time_id q1 = [mkTimed 0 (mid x01)] /\
          fst (utc_now c1) = 1%Z
      | _ => False end) as Hv by (vm_compute; split_and!; reflexivity).
    by rewrite H1 in Hv. }
  apply (queue_push_wf q1 (sample_hold x02 Unsent) c1 q c); [exact Hq1|exact Hh| |exact H2].
  intros e. rewrite Ht, Hc. by intros ->%list_elem_of_singleton.
Qed.

(** A queue whose first message a poll has found resolved. *)
Definition polled_queue : MessageQueue := set_resolved {[mid x01]} (sample_queue_value false).

Lemma polled_queue_wf : queue_wf polled_queue.
Proof.
  apply set_resolved_wf; [apply sample_queue_wf|].
  intros i ->%elem_of_singleton. apply elem_of_dom. exists (sample_hold x01 Processed). vm_compute. reflexivity.
Qed.

Lemma queue_flush_refines_witness :
  exists q', queue_flush ∅ polled_queue ctx =
      Done (q', finish_ids (hold_messages polled_queue) (hs_iter (resolved polled_queue)) ctx) /\
    queue_wf q' /\ resolved q' = ∅ /\
    queue_abs q' = filter (fun hm => hold_id hm ∉ resolved polled_queue) (queue_abs polled_queue).
Proof. apply (queue_flush_refines ∅ polled_queue ctx polled_queue_wf). vm_compute. reflexivity. Defined.

Lemma blocking_flush_in_order_witness :
  exists q' ctx' answered results,
    queue_flush ∅ (sample_queue_value true) ctx = Done (q', ctx') /\
    hold_id <$> queue_abs (sample_queue_value true) = answered ++ (hold_id <$> queue_abs q') /\
    length results = length answered /\
    acks_of ctx' = acks_of ctx ++ zip answered results /\
    commands_of ctx' = commands_of ctx ++ (CmdArchive <$> answered).
Proof.
  apply (blocking_flush_in_order ∅ (sample_queue_value true) ctx 0 (sample_queue_wf true));
    reflexivity.
Defined.

Lemma send_unsent_dispatches_witness :
  exists hm' ctx' eps,
    send_unsent {[ep x05]} (sample_hold x01 Unsent) ctx = (hm', ctx') /\
    message hm' = message (sample_hold x01 Unsent) /\
    NoDup eps /\
    (forall e, e ∈ eps <-> hold_status (sample_hold x01 Unsent) !! e = Some Unsent /\ e ∈ ({[ep x05]} : gset EndpointAddr)) /\
    dispatches_of ctx' = dispatches_of ctx ++ ((fun e => (hold_id (sample_hold x01 Unsent), e)) <$> eps) /\
    acks_of ctx' = acks_of ctx /\ commands_of ctx' = commands_of ctx /\
    (forall e, hold_status hm' !! e =
       if decide (e ∈ eps) then Some Sending else hold_status (sample_hold x01 Unsent) !! e) /\
    (forall ctx2, send_unsent {[ep x05]} hm' ctx2 = (hm', ctx2)).
Proof. apply (send_unsent_dispatches {[ep x05]} (sample_hold x01 Unsent) ctx 0). reflexivity. Defined.

(** A clock that stands still, as one of coarse resolution does between two readings. *)
Definition stopped : Clock := fun _ => 0%Z.

Lemma same_time_push_loses_witness :
  exists q1 ctx1 q2 ctx2 q3,
    @queue_push stopped (sample_hold x01 Unsent) (queue_new true 8) ctx = Done (q1, ctx1) /\
    @queue_push stopped (sample_hold x02 Unsent) q1 ctx1 = Done (q2, ctx2) /\
    queue_pop q2 = Done (Some (sample_hold x01 Unsent), q3) /\
    hold_messages q3 !! hold_id (sample_hold x02 Unsent) = Some (sample_hold x02 Unsent) /\
    queue_size q3 = 1%Z /\ get_front q3 = None /\ queue_pop q3 = Done (None, q3).
Proof.
  apply (@same_time_push_loses stopped true 8 (sample_hold x01 Unsent) (sample_hold x02 Unsent) ctx).
  - reflexivity.
  - intros Heq. vm_compute in Heq. discriminate Heq.
Defined.
End QueueWitnesses.
