(* ===== verification/Topic.v ===== *)
(** * The replicated state of a topic

    [server/src/protocol/node/raft/state_machine/topic.rs]. *)

From S2P Require Import Prelude Ids Interest Message Proposal Queue.

(** [crate::util::hash64]: the standard library's [DefaultHasher], whose algorithm
    is unspecified; its results are [u64]. *)
Class Hash64 : Type := {
  hash64_message_id : MessageId -> Z;
  hash64_endpoint : EndpointAddr -> Z;
  hash64_message_id_range : forall i, (0 <= hash64_message_id i <= u64_MAX)%Z;
  hash64_endpoint_range : forall e, (0 <= hash64_endpoint e <= u64_MAX)%Z;
}.

Record TopicData : Type := mkTopicData {
  topic_config : TopicConfig;
  ep_routing_table : gmap NodeId (gset EndpointAddr);
  ep_interest_map : InterestMap EndpointAddr;
  queue : MessageQueue;
}.

Definition set_queue (q : MessageQueue) (t : TopicData) : TopicData :=
  mkTopicData (topic_config t) (ep_routing_table t) (ep_interest_map t) q.

Section Topic.
Context `{HashOrder, Clock, Hash64}.

Fixpoint push_durable_messages (messages : list DurableMessage) (q : MessageQueue) : Outcome MessageQueue :=
  match messages with
  | [] => Done q
  | m :: messages => q ← push_durable_message m q; push_durable_messages messages q
  end.

Definition from_durable (config : TopicConfig) (messages : list DurableMessage) : Outcome TopicData :=
  let messages := sort_by_key dm_time messages in
  let queue := queue_new (config_blocking config)
    (from_option overflow_size DEFAULT_CAPACITY (overflow_config config)) in
  queue ← push_durable_messages messages queue;
  Done (mkTopicData config ∅ interest_map_new queue).

Definition collect_addr_by_subjects (subjects : list Subject) (t : TopicData) : gset EndpointAddr :=
  foldl (fun ep_collect subject => ep_collect ∪ interest_map_find subject (ep_interest_map t)) ∅ subjects.

Definition reachable_eps (node_id : NodeId) (t : TopicData) : gset EndpointAddr :=
  default ∅ (ep_routing_table t !! node_id).

Definition update_and_flush (update : MessageStateUpdate) (t : TopicData) (ctx : ProposalContext) :
    Outcome (TopicData * ProposalContext) :=
  let reachable_eps := reachable_eps (ctx_node_id ctx) t in
  let ctx := push_durable_command (CmdUpdateStatus update) ctx in
  let q := foldl (fun q '(from, status) => update_ack (update_message_id update) from status q)
             (queue t) (hm_iter (update_status update)) in
  let '(poll_result, (q, ctx)) := poll_message (update_message_id update) reachable_eps q ctx in
  match poll_result with
  | Some (Ready _) =>
      '(q, ctx) ← queue_flush reachable_eps q ctx;
      Done (set_queue q t, ctx)
  | _ => Done (set_queue q t, ctx)
  end.

(** [for id in message_need_poll { self.update_and_flush(new_empty(id), ctx) }]. *)
Fixpoint poll_all (ids : list MessageId) (t : TopicData) (ctx : ProposalContext) :
    Outcome (TopicData * ProposalContext) :=
  match ids with
  | [] => Done (t, ctx)
  | id :: ids =>
      '(t, ctx) ← update_and_flush (state_update_new_empty id) t ctx;
      poll_all ids t ctx
  end.

(** The endpoint a [Push] message goes to: the candidates in the order of their
    hashes (a stable sort of the set's iteration), indexed by the message's hash. *)
Definition hash_ring (ep_collect : gset EndpointAddr) : list (Z * EndpointAddr) :=
  sort_by_key fst ((fun ep => (hash64_endpoint ep, ep)) <$> hs_iter ep_collect).

(** The part of [hold_new_message] that picks the receivers: [None] when the
    message was answered on the spot. *)
Definition select_endpoints (message : Message) (t : TopicData) (ctx : ProposalContext) :
    Outcome (option (gset EndpointAddr) * ProposalContext) :=
  match target_kind (header message) with
  | Durable | Online => Done (Some (collect_addr_by_subjects (subjects (header message)) t), ctx)
  | Available => Panic
  | Push =>
      let message_hash := hash64_message_id (msg_id message) in
      let ring := hash_ring (collect_addr_by_subjects (subjects (header message)) t) in
      match ring with
      | [] =>
          Done (None, resolve_ack (msg_id message) (Err (wait_ack_exception NoAvailableTarget)) ctx)
      | _ =>
          ep ← expect (ring !! Z.to_nat (message_hash mod Z.of_nat (length ring)));
          Done (Some {[ep.2]}, ctx)
      end
  end.

(** The overflow check: [None] when the message was rejected. *)
Definition make_room (message : Message) (t : TopicData) (ctx : ProposalContext) :
    Outcome (option MessageQueue * ProposalContext) :=
  match overflow_config (topic_config t) with
  | None => Done (Some (queue t), ctx)
  | Some overflow_config =>
      if (overflow_size overflow_config <=? queue_size (queue t))%Z then
        match overflow_policy overflow_config with
        | RejectNew =>
            Done (None, resolve_ack (msg_id message) (Err (wait_ack_exception Overflow)) ctx)
        | DropOld =>
            '(old, q) ← queue_pop (queue t);
            old ← expect old;
            Done (Some q, resolve_ack (hold_id old) (Err (wait_ack_exception Overflow)) ctx)
        end
      else Done (Some (queue t), ctx)
  end.

Definition hold_new_message (message : Message) (t : TopicData) (ctx : ProposalContext) :
    Outcome (TopicData * ProposalContext) :=
  '(ep_collect, ctx) ← select_endpoints message t ctx;
  match ep_collect with
  | None => Done (t, ctx)
  | Some ep_collect =>
      let hold_message := mkHold message (wait_ack_new (ack_kind (header message)) ep_collect) in
      '(q, ctx) ← make_room message t ctx;
      match q with
      | None => Done (t, ctx)
      | Some q =>
          '(q, ctx) ← queue_push hold_message q ctx;
          let ctx := push_durable_command (CmdCreate message) ctx in
          update_and_flush (state_update_new_empty (msg_id message)) (set_queue q t) ctx
      end
  end.

(** The body of the loop over [hold_messages] in [update_ep_interest]: for every
    subject of a durable message that finds the endpoint. *)
Definition interest_visit (map : InterestMap EndpointAddr) (ep : EndpointAddr)
    (id : MessageId) (message : HoldMessage) (need_poll : gset MessageId) : HoldMessage * gset MessageId :=
  if decide (target_kind (header (Queue.message message)) = Durable) then
    foldl (fun '(message, need_poll) subject =>
        if decide (ep ∈ interest_map_find subject map) then
          let message :=
            match hold_status message !! ep with
            | None => with_status (<[ep := Unsent]> (hold_status message)) message
            | Some _ => message
            end in
          (message, {[id]} ∪ need_poll)
        else (message, need_poll))
      (message, need_poll) (subjects (header (Queue.message message)))
  else (message, need_poll).

Definition update_ep_interest (ep : EndpointAddr) (interests : list Interest) (t : TopicData)
    (ctx : ProposalContext) : Outcome (TopicData * ProposalContext) :=
  let map := interest_map_delete ep (ep_interest_map t) in
  let map := foldl (fun map interest => interest_map_insert interest ep map) map interests in
  let '(hold, message_need_poll) :=
    hm_iter_mut (interest_visit map ep) (hold_messages (queue t)) ∅ in
  let t := mkTopicData (topic_config t) (ep_routing_table t) map (set_hold hold (queue t)) in
  poll_all (hs_iter message_need_poll) t ctx.

(** The body of the loop over [hold_messages] in [ep_online]. *)
Definition online_visit (map : InterestMap EndpointAddr) (endpoint : EndpointAddr)
    (id : MessageId) (message : HoldMessage) (need_poll : gset MessageId) : HoldMessage * gset MessageId :=
  if decide (target_kind (header (Queue.message message)) = Durable) then
    match hold_status message !! endpoint with
    | None =>
        if existsb (fun s => bool_decide (endpoint ∈ interest_map_find s map))
             (subjects (header (Queue.message message)))
        then (with_status (<[endpoint := Unsent]> (hold_status message)) message, {[id]} ∪ need_poll)
        else (message, need_poll)
    | Some _ => (message, need_poll)
    end
  else (message, need_poll).

Definition ep_online (endpoint : EndpointAddr) (interests : list Interest) (host : NodeId)
    (t : TopicData) (ctx : ProposalContext) : Outcome (TopicData * ProposalContext) :=
  let table := <[host := {[endpoint]} ∪ default ∅ (ep_routing_table t !! host)]> (ep_routing_table t) in
  let map := foldl (fun map interest => interest_map_insert interest endpoint map)
               (ep_interest_map t) interests in
  let '(hold, message_need_poll) :=
    hm_iter_mut (online_visit map endpoint) (hold_messages (queue t)) ∅ in
  let t := mkTopicData (topic_config t) table map (set_hold hold (queue t)) in
  poll_all (hs_iter message_need_poll) t ctx.

(** The body of the loop over the values of [hold_messages] in [ep_offline]. *)
Definition offline_visit (endpoint : EndpointAddr) (_ : MessageId) (message : HoldMessage)
    (need_poll : gset MessageId) : HoldMessage * gset MessageId :=
  match hold_status message !! endpoint with
  | Some _ =>
      (with_status (<[endpoint := Unreachable]> (hold_status message)) message,
       {[hold_id message]} ∪ need_poll)
  | None => (message, need_poll)
  end.

Definition ep_offline (host : NodeId) (endpoint : EndpointAddr) (t : TopicData) (ctx : ProposalContext) :
    Outcome (TopicData * ProposalContext) :=
  let table := <[host := default ∅ (ep_routing_table t !! host) ∖ {[endpoint]}]> (ep_routing_table t) in
  let map := interest_map_delete endpoint (ep_interest_map t) in
  let '(hold, message_need_poll) :=
    hm_iter_mut (offline_visit endpoint) (hold_messages (queue t)) ∅ in
  let t := mkTopicData (topic_config t) table map (set_hold hold (queue t)) in
  poll_all (hs_iter message_need_poll) t ctx.
End Topic.

(** ** The topic's invariant and its specification *)

(** Between proposals the queue is well formed, has no cached resolutions and is
    of the configured kind, and the interest map is consistent. *)
Record topic_wf (t : TopicData) : Prop := mkTopicWf {
  twf_queue : queue_wf (queue t);
  twf_resolved : resolved (queue t) = ∅;
  twf_blocking : blocking (queue t) = config_blocking (topic_config t);
  twf_map : map_ok (ep_interest_map t);
}.

Section TopicSpec.
Context `{HashOrder, Clock, Hash64}.
Implicit Types (t : TopicData) (ctx : ProposalContext) (id : MessageId).

Definition topic_abs t : list HoldMessage := queue_abs (queue t).

(** The statuses of an update, applied to the message it names. *)
Definition spec_acks (update : MessageStateUpdate) (l : list HoldMessage) : list HoldMessage :=
  foldl (fun l '(from, status) =>
      (fun hm => if decide (hold_id hm = update_message_id update)
                 then acked_hold from status hm else hm) <$> l)
    l (hm_iter (update_status update)).

(** One message of a non-blocking topic is sent where it was not yet, and leaves
    the list, answered, when it is resolved. *)
Fixpoint spec_poll_at (reach : gset EndpointAddr) (id : MessageId) (l : list HoldMessage)
    (ctx : ProposalContext) : list HoldMessage * ProposalContext :=
  match l with
  | [] => ([], ctx)
  | hm :: l =>
      if decide (hold_id hm = id) then
        let '(hm, ctx) := send_unsent reach hm ctx in
        let '(done, ctx) := hold_is_resolved hm ctx in
        if done then (l, finish id hm ctx) else (hm :: l, ctx)
      else let '(l, ctx) := spec_poll_at reach id l ctx in (hm :: l, ctx)
  end.

(** A blocking topic polls its first message only, and goes on while it resolves. *)
Definition spec_poll (blocking : bool) (reach : gset EndpointAddr) (id : MessageId)
    (l : list HoldMessage) (ctx : ProposalContext) : list HoldMessage * ProposalContext :=
  if blocking then
    if decide (hold_id <$> head l = Some id) then spec_flush reach l ctx else (l, ctx)
  else spec_poll_at reach id l ctx.

Definition spec_update (blocking : bool) (reach : gset EndpointAddr) (update : MessageStateUpdate)
    (l : list HoldMessage) (ctx : ProposalContext) : list HoldMessage * ProposalContext :=
  spec_poll blocking reach (update_message_id update) (spec_acks update l)
    (push_durable_command (CmdUpdateStatus update) ctx).

(** ** Facts about acknowledging *)

Definition ack_all (update : MessageStateUpdate) (q : MessageQueue) : MessageQueue :=
  foldl (fun q '(from, status) => update_ack (update_message_id update) from status q)
    q (hm_iter (update_status update)).

Lemma ack_all_spec update q :
  queue_wf q ->
  queue_wf (ack_all update q) /\ blocking (ack_all update q) = blocking q /\
  resolved (ack_all update q) = resolved q /\ time_id (ack_all update q) = time_id q /\
  queue_abs (ack_all update q) = spec_acks update (queue_abs q).
Proof.
  unfold ack_all, spec_acks. generalize (hm_iter (update_status update)). intros l. revert q.
  induction l as [|[from st] l IH]; intros q Hq; [done|]. cbn [foldl].
  destruct (IH (update_ack (update_message_id update) from st q)) as (Hwf & Hb & Hr & Ht & Ha).
  { by apply update_ack_wf. }
  split_and!; [exact Hwf|by rewrite Hb, update_ack_eq|by rewrite Hr, update_ack_eq
              |by rewrite Ht, update_ack_eq|].
  by rewrite Ha, update_ack_eq, queue_abs_alter.
Qed.

Lemma spec_acks_ids update l : hold_id <$> spec_acks update l = hold_id <$> l.
Proof.
  unfold spec_acks. generalize (hm_iter (update_status update)). intros k. revert l.
  induction k as [|[from st] k IH]; intros l; [done|]. cbn [foldl]. rewrite IH.
  rewrite <-list_fmap_compose. apply list_fmap_ext. intros i hm _. cbn. by case_decide.
Qed.

(** An update without statuses only polls. *)
Lemma ack_all_empty id q : ack_all (state_update_new_empty id) q = q.
Proof.
  unfold ack_all, state_update_new_empty. cbn [update_status].
  replace (hm_iter ∅) with (@nil (EndpointAddr * MessageStatusKind)); [done|].
  symmetry. apply Permutation_nil. by rewrite hm_iter_perm, map_to_list_empty.
Qed.

Lemma spec_acks_empty id l : spec_acks (state_update_new_empty id) l = l.
Proof.
  unfold spec_acks, state_update_new_empty. cbn [update_status].
  replace (hm_iter ∅) with (@nil (EndpointAddr * MessageStatusKind)); [done|].
  symmetry. apply Permutation_nil. by rewrite hm_iter_perm, map_to_list_empty.
Qed.

(** ** Facts about polling a non-blocking queue *)

Lemma spec_poll_at_absent reach id l ctx :
  id ∉ hold_id <$> l -> spec_poll_at reach id l ctx = (l, ctx).
Proof.
  revert ctx. induction l as [|hm l IH]; intros ctx Hni; [done|]. cbn [spec_poll_at].
  rewrite fmap_cons, not_elem_of_cons in Hni. destruct Hni as [Hne Hni].
  rewrite decide_False by congruence. by rewrite IH.
Qed.

(** The poll of a held message, as a function of its queue entry. *)
Lemma spec_poll_at_held reach id l hm ctx hm' ctx1 done ctx2 :
  NoDup (hold_id <$> l) -> hm ∈ l -> hold_id hm = id ->
  send_unsent reach hm ctx = (hm', ctx1) -> hold_is_resolved hm' ctx1 = (done, ctx2) ->
  spec_poll_at reach id l ctx =
    if done then (filter (fun h => hold_id h <> id) l, finish id hm' ctx2)
    else ((fun h => if decide (hold_id h = id) then hm' else h) <$> l, ctx2).
Proof.
  intros Hnd Hin Hid Hs Hr. induction l as [|h l IH]; [by apply not_elem_of_nil in Hin|].
  cbn [spec_poll_at]. rewrite fmap_cons in Hnd. apply NoDup_cons in Hnd as [Hni Hnd].
  rewrite filter_cons, fmap_cons. destruct (decide (hold_id h = id)) as [He|Hne].
  - assert (h = hm) as ->.
    { apply elem_of_cons in Hin as [->|Hin]; [done|]. destruct Hni. rewrite He, <-Hid.
      by apply list_elem_of_fmap_2. }
    rewrite Hs, Hr, decide_False by tauto. rewrite He in Hni.
    assert (Forall (fun h => hold_id h <> id) l) as Hall.
    { apply Forall_forall. intros h Hh Hc. apply Hni. rewrite <-Hc. by apply list_elem_of_fmap_2. }
    destruct done; f_equal.
    + symmetry. by apply filter_all.
    + f_equal. rewrite <-(list_fmap_id l) at 1. apply Forall_fmap_ext_1.
      eapply Forall_impl; [exact Hall|]. intros x Hx. by rewrite decide_False.
  - rewrite decide_True by done. apply elem_of_cons in Hin as [->|Hin]; [congruence|].
    rewrite IH by done. by destruct done.
Qed.
End TopicSpec.

Section TopicRefinement.
Context `{HashOrder, Clock, Hash64}.
Implicit Types (t : TopicData) (ctx : ProposalContext) (id : MessageId) (q : MessageQueue).

(** The second half of [update_and_flush]. *)
Definition poll_flush (id : MessageId) (reach : gset EndpointAddr) (q : MessageQueue)
    (ctx : ProposalContext) : Outcome (MessageQueue * ProposalContext) :=
  let '(poll_result, (q, ctx)) := poll_message id reach q ctx in
  match poll_result with
  | Some (Ready _) => queue_flush reach q ctx
  | _ => Done (q, ctx)
  end.

Lemma update_and_flush_poll_flush update t ctx :
  update_and_flush update t ctx =
    '(q, ctx) ← poll_flush (update_message_id update) (reachable_eps (ctx_node_id ctx) t)
                 (ack_all update (queue t)) (push_durable_command (CmdUpdateStatus update) ctx);
    Done (set_queue q t, ctx).
Proof.
  unfold update_and_flush, poll_flush, ack_all.
  destruct (poll_message _ _ _ _) as [[[[]|]|] [q c]]; done.
Qed.

Lemma flush_blocking_S fuel reach q ctx :
  flush_blocking (S fuel) reach q ctx =
    '(m, (q, ctx)) ← blocking_pop reach q ctx;
    match m with
    | Some m => flush_blocking fuel reach q (finish (hold_id m) m ctx)
    | None => Done (q, ctx)
    end.
Proof. done. Qed.

(** The front of a blocking queue, polled as [hm']. *)
Lemma queue_abs_insert_front q e l hm' :
  queue_wf q -> time_id q = e :: l ->
  queue_abs (set_hold (<[data e := hm']> (hold_messages q)) q) =
    hm' :: abs_of (hold_messages q) l.
Proof.
  intros Hq Hl. unfold queue_abs. cbn [set_hold time_id hold_messages]. rewrite Hl, abs_of_cons.
  rewrite lookup_insert_eq. f_equal. apply abs_of_ext. intros e' He'. apply lookup_insert_ne.
  intros Heq. by apply (wf_data_NoDup q e l Hq Hl e' He').
Qed.

Lemma poll_flush_blocking id reach q ctx :
  queue_wf q -> resolved q = ∅ -> blocking q = true ->
  exists q' ctx', poll_flush id reach q ctx = Done (q', ctx') /\ queue_wf q' /\
    resolved q' = ∅ /\ blocking q' = true /\
    spec_poll true reach id (queue_abs q) ctx = (queue_abs q', ctx').
Proof.
  intros Hq Hr Hb. unfold poll_flush, poll_message. rewrite Hr, decide_False by set_solver.
  unfold spec_poll. destruct (time_id q) as [|e l] eqn:Hl.
  { unfold poll_message_inner, get_front. rewrite Hb, Hl. cbn. exists q, ctx.
    unfold queue_abs. rewrite Hl. by split_and!. }
  destruct (wf_time_id_held q e Hq) as [hm Hhm]; [rewrite Hl; left|].
  pose proof (wf_key q Hq _ _ Hhm) as Hkey. rewrite (queue_abs_cons q e l hm) by done.
  cbn [head fmap option_fmap option_map]. destruct (decide (Some (hold_id hm) = Some id)) as [[= He]|Hne].
  2: { assert (hold_id hm <> id) as Hne' by congruence. unfold poll_message_inner, get_front.
    rewrite Hb, Hl. cbn. rewrite Hhm. rewrite decide_True by done. exists q, ctx. cbn.
    split_and!; try done. by rewrite (queue_abs_cons q e l hm). }
  assert (id = data e) as -> by congruence.
  rewrite (poll_message_inner_front q e l hm) by done. cbn [spec_flush]. rewrite send_unsent_eq.
  set (hm' := sent_hold reach hm). set (ctx1 := foldl _ _ _).
  destruct (hold_is_resolved hm' ctx1) as [done ctx2].
  set (q1 := set_hold (<[data e := hm']> (hold_messages q)) q).
  assert (queue_wf q1) as Hq1 by by eapply insert_hold_wf.
  destruct done; cbn [is_ready].
  2: { exists q1, ctx2. split_and!; try done. unfold q1. by rewrite (queue_abs_insert_front q e l). }
  set (q2 := set_resolved _ q1).
  assert (queue_wf q2) as Hq2.
  { apply set_resolved_wf; [done|]. cbn. rewrite dom_insert_L, Hr. set_solver. }
  unfold queue_flush. change (blocking q2) with (blocking q). rewrite Hb, flush_blocking_S.
  destruct (blocking_pop_cached q2 e l reach ctx2) as (hm2 & q' & Hhm2 & -> & Hpop); [done|done|set_solver|].
  cbn in Hhm2. rewrite lookup_insert_eq in Hhm2. injection Hhm2 as <-. cbn [mbind Outcome_bind].
  pose proof (popped_abs q2 q' e l Hq2 Hl Hpop) as Habs. destruct Hpop as (Hq' & Hb' & Hl' & _ & Hr').
  destruct (flush_blocking_spec (length (time_id q2)) reach q' (finish (hold_id hm') hm' ctx2))
    as (q'' & ctx'' & -> & Hwf & ? & ? & Hspec); [done|by rewrite Hb'| | |].
  { rewrite Hr'. cbn. rewrite Hr. set_solver. }
  { rewrite Hl'. cbn [q2 q1 set_resolved set_hold time_id]. rewrite Hl. simpl. lia. }
  exists q'', ctx''. split_and!; try done. rewrite <-Hspec, Habs. f_equal.
  apply abs_of_ext. intros e' He'. cbn. symmetry. apply lookup_insert_ne.
  intros Heq. by apply (wf_data_NoDup q e l Hq Hl e' He').
Qed.

Lemma poll_flush_nonblocking id reach q ctx :
  queue_wf q -> resolved q = ∅ -> blocking q = false ->
  exists q' ctx', poll_flush id reach q ctx = Done (q', ctx') /\ queue_wf q' /\
    resolved q' = ∅ /\ blocking q' = false /\
    spec_poll false reach id (queue_abs q) ctx = (queue_abs q', ctx').
Proof.
  intros Hq Hr Hb. unfold poll_flush, poll_message. rewrite Hr, decide_False by set_solver.
  unfold spec_poll, poll_message_inner. rewrite Hb.
  destruct (hold_messages q !! id) as [hm|] eqn:Hhm.
  2: { exists q, ctx. split_and!; try done. apply spec_poll_at_absent.
    intros (hm & -> & Hin)%list_elem_of_fmap. apply queue_abs_held in Hin; [|done]. congruence. }
  pose proof (wf_key q Hq _ _ Hhm) as Hkey.
  assert (hm ∈ queue_abs q) as Hin by (apply queue_abs_held; [done|congruence]).
  destruct (send_unsent reach hm ctx) as [hm' ctx1] eqn:Hs.
  destruct (hold_is_resolved hm' ctx1) as [done ctx2] eqn:Hres.
  assert (message hm' = message hm) as Hm by (rewrite send_unsent_eq in Hs; by injection Hs as <- _).
  rewrite (spec_poll_at_held reach id (queue_abs q) hm ctx hm' ctx1 done ctx2)
    by (done || by apply queue_abs_NoDup).
  set (q1 := set_hold (<[id := hm']> (hold_messages q)) q).
  assert (queue_wf q1) as Hq1 by by eapply insert_hold_wf.
  assert (queue_abs q1 = (fun h => if decide (hold_id h = id) then hm' else h) <$> queue_abs q) as Habs1.
  { rewrite <-(queue_abs_alter q id (fun _ => hm')) by done. unfold q1. do 2 f_equal.
    apply map_eq. intros i. rewrite lookup_insert, lookup_alter. case_decide; subst; [by rewrite Hhm|done]. }
  destruct done; cbn [is_ready].
  2: { exists q1, ctx2. split_and!; try done. by rewrite Habs1. }
  set (q2 := set_resolved _ q1).
  assert (resolved q2 = {[id]}) as Hr2 by (cbn; rewrite Hr; set_solver).
  assert (queue_wf q2) as Hq2.
  { apply set_resolved_wf; [done|]. cbn. rewrite dom_insert_L, Hr. set_solver. }
  destruct (queue_flush_nonblocking reach q2 ctx2 Hq2 Hb) as (q' & -> & ? & ? & ? & Habs).
  exists q', (finish id hm' ctx2). rewrite Hr2, hs_iter_singleton. split_and!; try done.
  - do 2 f_equal. cbn. by rewrite lookup_insert_eq.
  - f_equal. rewrite Habs, Hr2. change (queue_abs q2) with (queue_abs q1). rewrite Habs1.
    assert (hold_id hm' = id) as Hid' by (unfold hold_id; rewrite Hm; exact Hkey).
    clear -Hid'. induction (queue_abs q) as [|h l IH]; [done|].
    rewrite fmap_cons, !filter_cons, <-IH. destruct (decide (hold_id h = id)) as [He|Hne].
    + rewrite (decide_False (P := hold_id h <> id)) by tauto.
      by rewrite decide_False by (rewrite Hid'; set_solver).
    + rewrite (decide_True (P := hold_id h <> id)) by done.
      by rewrite decide_True by set_solver.
Qed.

(** [update_and_flush] preserves the invariant and implements its specification
    on the list of held messages. *)
Lemma update_and_flush_spec update t ctx :
  topic_wf t ->
  exists t' ctx', update_and_flush update t ctx = Done (t', ctx') /\ topic_wf t' /\
    topic_config t' = topic_config t /\ ep_routing_table t' = ep_routing_table t /\
    ep_interest_map t' = ep_interest_map t /\
    spec_update (config_blocking (topic_config t)) (reachable_eps (ctx_node_id ctx) t) update
      (topic_abs t) ctx = (topic_abs t', ctx').
Proof.
  intros [Hq Hr Hb Hm]. rewrite update_and_flush_poll_flush.
  destruct (ack_all_spec update (queue t) Hq) as (Hq1 & Hb1 & Hr1 & _ & Ha1).
  unfold spec_update, topic_abs. rewrite <-Ha1, <-Hb, <-Hb1. set (ctx1 := push_durable_command _ _).
  destruct (blocking (ack_all update (queue t))) eqn:Hbl.
  1: destruct (poll_flush_blocking (update_message_id update) (reachable_eps (ctx_node_id ctx) t)
       (ack_all update (queue t)) ctx1) as (q' & ctx' & -> & Hq' & Hr' & Hb' & ->); [done|congruence|done|].
  2: destruct (poll_flush_nonblocking (update_message_id update) (reachable_eps (ctx_node_id ctx) t)
       (ack_all update (queue t)) ctx1) as (q' & ctx' & -> & Hq' & Hr' & Hb' & ->); [done|congruence|done|].
  all: cbn [mbind Outcome_bind]; exists (set_queue q' t), ctx'; split_and!; try done;
    split; cbn; try done; congruence.
Qed.

(** ** What an update does to the context *)

Lemma spec_poll_at_extends reach id l ctx : ctx_extends ctx (snd (spec_poll_at reach id l ctx)).
Proof.
  revert ctx. induction l as [|hm l IH]; intros ctx; [done|]. cbn [spec_poll_at]. case_decide.
  - rewrite send_unsent_eq. set (ctx1 := foldl _ _ _).
    pose proof (hold_is_resolved_extends (sent_hold reach hm) ctx1) as He.
    destruct (hold_is_resolved _ _) as [done ctx2]. cbn [snd] in He.
    assert (ctx_extends ctx ctx2) by (etrans; [apply extends_foldl_dispatch|exact He]).
    destruct done; [|done]. etrans; [done|]. apply extends_finish.
  - specialize (IH ctx). by destruct (spec_poll_at reach id l ctx).
Qed.

Lemma spec_poll_extends b reach id l ctx : ctx_extends ctx (snd (spec_poll b reach id l ctx)).
Proof.
  unfold spec_poll. destruct b; [|apply spec_poll_at_extends]. case_decide; [|done]. apply spec_flush_extends.
Qed.

Lemma spec_update_extends b reach update l ctx : ctx_extends ctx (snd (spec_update b reach update l ctx)).
Proof.
  etrans; [apply (extends_push_durable (CmdUpdateStatus update))|]. apply spec_poll_extends.
Qed.

(** The messages an update leaves are among those that were held. *)
Lemma spec_flush_ids reach l ctx : hold_id <$> fst (spec_flush reach l ctx) `suffix_of` hold_id <$> l.
Proof.
  revert ctx. induction l as [|hm l IH]; intros ctx; [done|]. cbn [spec_flush].
  rewrite send_unsent_eq. destruct (hold_is_resolved _ _) as [[] ctx2]; [|done].
  rewrite fmap_cons. by apply suffix_cons_r.
Qed.

Lemma spec_poll_at_ids reach id l ctx :
  hold_id <$> fst (spec_poll_at reach id l ctx) `sublist_of` hold_id <$> l.
Proof.
  revert ctx. induction l as [|hm l IH]; intros ctx; [done|]. cbn [spec_poll_at]. case_decide.
  - rewrite send_unsent_eq. destruct (hold_is_resolved _ _) as [[] ctx2]; [|done].
    rewrite fmap_cons. by apply sublist_cons.
  - specialize (IH ctx). destruct (spec_poll_at reach id l ctx). cbn [fst] in *.
    rewrite !fmap_cons. by apply sublist_skip.
Qed.

Lemma spec_update_ids b reach update l ctx :
  hold_id <$> fst (spec_update b reach update l ctx) `sublist_of` hold_id <$> l.
Proof.
  rewrite <-(spec_acks_ids update l). unfold spec_update, spec_poll.
  destruct b; [|apply spec_poll_at_ids]. case_decide; [|done].
  destruct (spec_flush_ids reach (spec_acks update l) (push_durable_command (CmdUpdateStatus update) ctx))
    as [k ->]. by apply sublist_inserts_l.
Qed.

(** ** Polling a set of messages *)

(** A poll of several messages, one after the other. *)
Definition spec_poll_all (blocking : bool) (reach : gset EndpointAddr) (ids : list MessageId)
    (l : list HoldMessage) (ctx : ProposalContext) : list HoldMessage * ProposalContext :=
  foldl (fun '(l, ctx) id => spec_update blocking reach (state_update_new_empty id) l ctx) (l, ctx) ids.

Lemma poll_all_spec ids t ctx :
  topic_wf t ->
  exists t' ctx', poll_all ids t ctx = Done (t', ctx') /\ topic_wf t' /\
    topic_config t' = topic_config t /\ ep_routing_table t' = ep_routing_table t /\
    ep_interest_map t' = ep_interest_map t /\ ctx_extends ctx ctx' /\
    (topic_abs t', ctx') = spec_poll_all (config_blocking (topic_config t))
      (reachable_eps (ctx_node_id ctx) t) ids (topic_abs t) ctx.
Proof.
  unfold spec_poll_all.
  revert t ctx. induction ids as [|id ids IH]; intros t ctx Ht; cbn [poll_all foldl].
  { by exists t, ctx. }
  destruct (update_and_flush_spec (state_update_new_empty id) t ctx Ht)
    as (t1 & ctx1 & -> & Ht1 & Hc1 & Hr1 & Hm1 & Hs). cbn [mbind Outcome_bind].
  destruct (IH t1 ctx1 Ht1) as (t' & ctx' & -> & Ht' & Hc' & Hr' & Hm' & He & Hs').
  assert (ctx_extends ctx ctx1) as He1.
  { replace ctx1 with (snd (spec_update (config_blocking (topic_config t))
      (reachable_eps (ctx_node_id ctx) t) (state_update_new_empty id) (topic_abs t) ctx)) by by rewrite Hs.
    apply spec_update_extends. }
  exists t', ctx'. split_and!; try done; try congruence; [by etrans|].
  rewrite Hs, Hs'. unfold reachable_eps. by rewrite Hc1, Hr1, (extends_node_id ctx ctx1).
Qed.
End TopicRefinement.

(** ** Loops over the held messages *)

Section TopicVisits.
Context `{HashOrder, Clock, Hash64}.
Implicit Types (t : TopicData) (ctx : ProposalContext) (id : MessageId) (q : MessageQueue).

(** A message an endpoint joins: the new entry is [Unsent]. *)
Definition join_hold (endpoint : EndpointAddr) (hm : HoldMessage) : HoldMessage :=
  match hold_status hm !! endpoint with
  | None => with_status (<[endpoint := Unsent]> (hold_status hm)) hm
  | Some _ => hm
  end.

(** A durable message one of whose subjects finds the endpoint. *)
Definition concerns (map : InterestMap EndpointAddr) (endpoint : EndpointAddr) (hm : HoldMessage) : bool :=
  bool_decide (target_kind (header (message hm)) = Durable) &&
  existsb (fun s => bool_decide (endpoint ∈ interest_map_find s map)) (subjects (header (message hm))).

Definition knows (endpoint : EndpointAddr) (hm : HoldMessage) : bool :=
  bool_decide (is_Some (hold_status hm !! endpoint)).

(** The endpoint is gone from the message's receivers for good. *)
Definition leave_hold (endpoint : EndpointAddr) (hm : HoldMessage) : HoldMessage :=
  if knows endpoint hm then with_status (<[endpoint := Unreachable]> (hold_status hm)) hm else hm.

Lemma online_visit_eq map ep id hm np :
  online_visit map ep id hm np =
    (if concerns map ep hm && negb (knows ep hm)
     then (join_hold ep hm, {[id]} ∪ np) else (hm, np)).
Proof.
  unfold online_visit, concerns, knows, join_hold. case_decide as Hk.
  - rewrite (bool_decide_true _ Hk). cbn. destruct (hold_status hm !! ep); cbn.
    + by rewrite andb_false_r.
    + rewrite andb_true_r. by destruct (existsb _ _).
  - by rewrite (bool_decide_false _ Hk).
Qed.

Lemma offline_visit_eq ep id hm np :
  offline_visit ep id hm np =
    (leave_hold ep hm, if knows ep hm then {[hold_id hm]} ∪ np else np).
Proof. unfold offline_visit, leave_hold, knows. by destruct (hold_status hm !! ep). Qed.

Lemma join_hold_idemp ep hm : join_hold ep (join_hold ep hm) = join_hold ep hm.
Proof.
  unfold join_hold. destruct (hold_status hm !! ep) as [k|] eqn:E; [by rewrite E|].
  unfold hold_status at 1, with_status. cbn. by rewrite lookup_insert_eq.
Qed.

Lemma interest_visit_eq map ep id hm np :
  interest_visit map ep id hm np =
    (if concerns map ep hm then (join_hold ep hm, {[id]} ∪ np) else (hm, np)).
Proof.
  unfold interest_visit, concerns. case_decide as Hk.
  2: by rewrite (bool_decide_false _ Hk).
  rewrite (bool_decide_true _ Hk). cbn [andb]. generalize (subjects (header (message hm))). intros subs.
  assert (forall m np, foldl (fun '(m, np) subject =>
      if decide (ep ∈ interest_map_find subject map) then (join_hold ep m, {[id]} ∪ np) else (m, np))
      (m, np) subs =
    (if existsb (fun s => bool_decide (ep ∈ interest_map_find s map)) subs
     then (join_hold ep m, {[id]} ∪ np) else (m, np))) as ->; [|done].
  induction subs as [|s subs IH]; intros m np'; [done|]. cbn [foldl existsb].
  destruct (decide (ep ∈ interest_map_find s map)) as [Hs|Hs];
    [rewrite (bool_decide_true _ Hs)|rewrite (bool_decide_false _ Hs)]; cbn [orb]; rewrite IH; [|done].
  destruct (existsb _ _); [|done]. rewrite join_hold_idemp. f_equal. set_solver.
Qed.

(** A loop that rewrites each message by [f] and collects the ids of those in [p]. *)
Lemma visit_loop (body : MessageId -> HoldMessage -> gset MessageId -> HoldMessage * gset MessageId)
    (f : HoldMessage -> HoldMessage) (p : HoldMessage -> bool) q :
  (forall id hm np, hold_messages q !! id = Some hm ->
    body id hm np = (f hm, if p hm then {[id]} ∪ np else np)) ->
  (forall hm, message (f hm) = message hm) -> queue_wf q ->
  exists hold need_poll,
    hm_iter_mut body (hold_messages q) ∅ = (hold, need_poll) /\
    queue_wf (set_hold hold q) /\ queue_abs (set_hold hold q) = f <$> queue_abs q /\
    (forall id, id ∈ need_poll <-> exists hm, hm ∈ queue_abs q /\ hold_id hm = id /\ p hm = true).
Proof.
  intros Hbody Hf Hq. exists (f <$> hold_messages q).
  set (g := fun (np : gset MessageId) '((id, hm) : MessageId * HoldMessage) =>
    if p hm then {[id]} ∪ np else np).
  exists (foldl g ∅ (hm_iter (hold_messages q))).
  assert (Hg : forall l np id, id ∈ foldl g np l <->
      id ∈ np \/ exists hm, (id, hm) ∈ l /\ p hm = true).
  { induction l as [|[i hm] l IH]; intros np id; cbn [foldl]; [set_solver|].
    rewrite IH. unfold g at 1. setoid_rewrite elem_of_cons.
    destruct (p hm) eqn:Hp; rewrite ?elem_of_union, ?elem_of_singleton; split.
    - intros [[->|?]|(hm' & ? & ?)]; eauto.
    - intros [?|(hm' & [[= -> ->]|?] & ?)]; eauto.
    - intros [?|(hm' & ? & ?)]; eauto.
    - intros [?|(hm' & [[= -> ->]|?] & ?)]; [eauto|congruence|eauto]. }
  split_and!.
  - rewrite (hm_iter_mut_spec body (fun _ => f) (fun id hm np => g np (id, hm))).
    + f_equal. apply map_eq. intros i. rewrite map_lookup_imap, lookup_fmap. by destruct (hold_messages q !! i).
    + intros id hm np Hhm. by apply Hbody.
  - by apply fmap_hold_wf.
  - by apply queue_abs_fmap.
  - intros id. rewrite Hg. split.
    + intros [?%elem_of_empty|(hm & Hin%elem_of_hm_iter & Hp)]; [done|]. exists hm.
      pose proof (wf_key q Hq _ _ Hin) as Hk. split_and!; [|done|done].
      apply queue_abs_held; [done|]. congruence.
    + intros (hm & Hin & <- & Hp). right. exists hm. split; [|done].
      apply elem_of_hm_iter. by apply queue_abs_held.
Qed.
End TopicVisits.

(** ** Specifications of the topic's handlers *)

Section TopicHandlers.
Context `{HashOrder, Clock, Hash64}.
Implicit Types (t : TopicData) (ctx : ProposalContext) (id : MessageId) (q : MessageQueue).

(** What the three endpoint handlers share: rewrite the interest map and the
    routing table, visit the held messages, poll those the visit collected. *)
Lemma visit_and_poll t ctx table map
    (body : MessageId -> HoldMessage -> gset MessageId -> HoldMessage * gset MessageId)
    (f : HoldMessage -> HoldMessage) (p : HoldMessage -> bool) :
  topic_wf t -> map_ok map ->
  (forall id hm np, hold_messages (queue t) !! id = Some hm ->
    body id hm np = (f hm, if p hm then {[id]} ∪ np else np)) ->
  (forall hm, message (f hm) = message hm) ->
  exists ids t' ctx',
    (let '(hold, message_need_poll) := hm_iter_mut body (hold_messages (queue t)) ∅ in
     poll_all (hs_iter message_need_poll)
       (mkTopicData (topic_config t) table map (set_hold hold (queue t))) ctx) = Done (t', ctx') /\
    topic_wf t' /\ topic_config t' = topic_config t /\ ep_routing_table t' = table /\
    ep_interest_map t' = map /\ NoDup ids /\
    (forall id, id ∈ ids <-> exists hm, hm ∈ topic_abs t /\ hold_id hm = id /\ p hm = true) /\
    ctx_extends ctx ctx' /\
    (topic_abs t', ctx') = spec_poll_all (config_blocking (topic_config t))
      (default ∅ (table !! ctx_node_id ctx)) ids (f <$> topic_abs t) ctx.
Proof.
  intros [Hq Hr Hb _] Hmap Hbody Hf.
  destruct (visit_loop body f p (queue t) Hbody Hf Hq) as (hold & np & -> & Hwf & Habs & Hnp).
  destruct (poll_all_spec (hs_iter np) (mkTopicData (topic_config t) table map (set_hold hold (queue t))) ctx)
    as (t' & ctx' & Hp & Ht' & Hc & Ht & Hm & He & Hs); [by split|].
  exists (hs_iter np), t', ctx'. split_and!; try done.
  - apply NoDup_hs_iter.
  - intros id. rewrite elem_of_hs_iter. apply Hnp.
  - rewrite Hs. unfold topic_abs. cbn [topic_config queue]. by rewrite Habs.
Qed.

Lemma map_ok_foldl_insert interests ep (map : InterestMap EndpointAddr) :
  map_ok map -> map_ok (foldl (fun map interest => interest_map_insert interest ep map) map interests).
Proof.
  revert map. induction interests as [|i l IH]; intros map Hm; [done|]. apply IH. by apply map_ok_insert.
Qed.

Lemma raw_foldl_insert interests ep (map : InterestMap EndpointAddr) e :
  raw (foldl (fun map interest => interest_map_insert interest ep map) map interests) !! e =
    if decide (e = ep) then
      match interests with
      | [] => raw map !! ep
      | _ => Some (list_to_set interests ∪ default ∅ (raw map !! ep))
      end
    else raw map !! e.
Proof.
  revert map. induction interests as [|i l IH]; intros map; cbn [foldl]; [by case_decide; subst|].
  rewrite IH, !raw_insert. case_decide as He; [|done]. rewrite decide_True by done.
  destruct l as [|j l]; f_equal; cbn [default from_option].
  - set_solver.
  - rewrite (list_to_set_cons i). generalize (list_to_set (C := gset Interest) (j :: l)) as k. set_solver.
Qed.

Lemma join_hold_message ep hm : message (join_hold ep hm) = message hm.
Proof. unfold join_hold. by destruct (hold_status hm !! ep). Qed.

Lemma leave_hold_message ep hm : message (leave_hold ep hm) = message hm.
Proof. unfold leave_hold. by destruct (knows ep hm). Qed.

Lemma join_hold_known ep hm : knows ep hm = true -> join_hold ep hm = hm.
Proof. unfold knows, join_hold. rewrite bool_decide_eq_true. by intros [k ->]. Qed.

(** ** Statuses that an update without statuses keeps *)

(** [P] of a message survives being sent. *)
Definition send_closed (P : HoldMessage -> Prop) : Prop :=
  forall reach hm, P hm -> P (sent_hold reach hm).

Lemma spec_flush_Forall P reach l ctx :
  send_closed P -> Forall P l -> Forall P (fst (spec_flush reach l ctx)).
Proof.
  intros HP Hl. revert ctx. induction Hl as [|hm l Hhm Hl IH]; intros ctx; [constructor|]. cbn [spec_flush].
  rewrite send_unsent_eq. destruct (hold_is_resolved _ _) as [[] ctx2]; [apply IH|].
  constructor; [by apply HP|done].
Qed.

Lemma spec_poll_at_Forall P reach id l ctx :
  send_closed P -> Forall P l -> Forall P (fst (spec_poll_at reach id l ctx)).
Proof.
  intros HP Hl. revert ctx. induction Hl as [|hm l Hhm Hl IH]; intros ctx; [constructor|]. cbn [spec_poll_at].
  case_decide.
  - rewrite send_unsent_eq. destruct (hold_is_resolved _ _) as [[] ctx2]; [done|].
    constructor; [by apply HP|done].
  - specialize (IH ctx). destruct (spec_poll_at reach id l ctx). by constructor.
Qed.

Lemma spec_poll_all_Forall P b reach ids l ctx :
  send_closed P -> Forall P l -> Forall P (fst (spec_poll_all b reach ids l ctx)).
Proof.
  intros HP. unfold spec_poll_all. revert l ctx. induction ids as [|i ids IH]; intros l ctx Hl; [done|].
  cbn [foldl]. destruct (spec_update b reach (state_update_new_empty i) l ctx) as [l1 ctx1] eqn:E.
  apply IH. replace l1 with (fst (spec_update b reach (state_update_new_empty i) l ctx)) by by rewrite E.
  unfold spec_update. rewrite spec_acks_empty. unfold spec_poll. destruct b.
  - case_decide; [by apply spec_flush_Forall|done].
  - by apply spec_poll_at_Forall.
Qed.

(** No delivery to [ep] is outstanding: it is no receiver or [Unreachable]. *)
Definition gone (ep : EndpointAddr) (hm : HoldMessage) : Prop :=
  hold_status hm !! ep = None \/ hold_status hm !! ep = Some Unreachable.

Lemma gone_send_closed ep : send_closed (gone ep).
Proof.
  intros reach hm. unfold gone. change (hold_status (sent_hold reach hm))
    with (map_imap (fun ep k => Some (sent_status reach ep k)) (hold_status hm)).
  rewrite map_lookup_imap. intros [->| ->]; cbn; [by left|by right].
Qed.

Lemma leave_hold_gone ep hm : gone ep (leave_hold ep hm).
Proof.
  unfold leave_hold, knows, gone. case_bool_decide as E.
  - right. unfold hold_status, with_status. cbn. by rewrite lookup_insert_eq.
  - left. by apply eq_None_not_Some.
Qed.
(** Who is reachable after [ep_offline]. *)
Lemma ep_offline_reachable host endpoint t ctx :
  topic_wf t ->
  exists t' ctx', ep_offline host endpoint t ctx = Done (t', ctx') /\
    forall n e, e ∈ reachable_eps n t' <-> e ∈ reachable_eps n t /\ ~ (n = host /\ e = endpoint).
Proof.
  intros Ht. unfold ep_offline. set (table := <[host := _]> (ep_routing_table t)).
  destruct (visit_and_poll t ctx table (interest_map_delete endpoint (ep_interest_map t))
    (offline_visit endpoint) (leave_hold endpoint) (knows endpoint))
    as (ids & t' & ctx' & Hr & _ & _ & Htab & _); [done|apply map_ok_delete, Ht| |apply leave_hold_message|].
  - intros id hm np Hhm. rewrite offline_visit_eq. by rewrite (wf_key _ (twf_queue t Ht) _ _ Hhm).
  - exists t', ctx'. split; [exact Hr|]. intros n e. unfold reachable_eps. rewrite Htab. unfold table.
    rewrite lookup_insert. case_decide; subst; cbn; [|naive_solver].
    rewrite elem_of_difference, elem_of_singleton. naive_solver.
Qed.
End TopicHandlers.

(** ** Accepting a new message *)

Section TopicHold.
Context `{HashOrder, Clock, Hash64}.
Implicit Types (t : TopicData) (ctx : ProposalContext) (message : Message).

(** The message fits the topic's overflow configuration, or what gives way. *)
Inductive room : Type := RoomFree | RoomReject | RoomDropOld.
Definition room_of t : room :=
  match overflow_config (topic_config t) with
  | Some c =>
      if (overflow_size c <=? Z.of_nat (length (topic_abs t)))%Z then
        match overflow_policy c with RejectNew => RoomReject | DropOld => RoomDropOld end
      else RoomFree
  | None => RoomFree
  end.

(** The message goes behind the held ones with its receivers, all [Unsent], and
    is polled. *)
Definition spec_append message (receivers : gset EndpointAddr) t (l : list HoldMessage) ctx :
    list HoldMessage * ProposalContext :=
  spec_update (config_blocking (topic_config t)) (reachable_eps (ctx_node_id ctx) t)
    (state_update_new_empty (msg_id message))
    (l ++ [mkHold message (wait_ack_new (ack_kind (header message)) receivers)])
    (push_durable_command (CmdCreate message) (snd (utc_now ctx))).

Definition spec_hold message (receivers : gset EndpointAddr) t ctx : list HoldMessage * ProposalContext :=
  match room_of t, topic_abs t with
  | RoomFree, l => spec_append message receivers t l ctx
  | RoomReject, l => (l, resolve_ack (msg_id message) (Err (wait_ack_exception Overflow)) ctx)
  | RoomDropOld, old :: l =>
      spec_append message receivers t l (resolve_ack (hold_id old) (Err (wait_ack_exception Overflow)) ctx)
  | RoomDropOld, [] => ([], ctx)
  end.

(** A configured capacity is a [NonZeroU32]. *)
Definition config_ok (c : TopicConfig) : Prop :=
  forall o, overflow_config c = Some o -> (1 <= overflow_size o <= u32_MAX)%Z.

(** The message is new to the queue and the clock has moved on. *)
Record hold_ready message t ctx : Prop := mkReady {
  ready_id : msg_id message ∉ hold_id <$> topic_abs t;
  ready_time : forall e, e ∈ time_id (queue t) -> (time e < fst (utc_now ctx))%Z;
  ready_size : (queue_size (queue t) < usize_MAX)%Z;
  ready_config : config_ok (topic_config t);
}.

Lemma utc_now_resolve_ack i r ctx : fst (utc_now (resolve_ack i r ctx)) = fst (utc_now ctx).
Proof. unfold resolve_ack. destruct (ctx_topic_code ctx); [|done]. by destruct (get_topic _ _). Qed.

(** The body of [hold_new_message] from the push on. *)
Definition push_and_poll message (receivers : gset EndpointAddr) (q : MessageQueue) t ctx :
    Outcome (TopicData * ProposalContext) :=
  '(q, ctx) ← queue_push (mkHold message (wait_ack_new (ack_kind (header message)) receivers)) q ctx;
  let ctx := push_durable_command (CmdCreate message) ctx in
  update_and_flush (state_update_new_empty (msg_id message)) (set_queue q t) ctx.

Lemma push_and_poll_spec message receivers q t ctx :
  topic_wf t -> queue_wf q -> blocking q = blocking (queue t) -> resolved q = ∅ ->
  msg_id message ∉ hold_id <$> queue_abs q ->
  (forall e, e ∈ time_id q -> (time e < fst (utc_now ctx))%Z) -> (queue_size q < usize_MAX)%Z ->
  exists t' ctx', push_and_poll message receivers q t ctx = Done (t', ctx') /\ topic_wf t' /\
    topic_config t' = topic_config t /\ ep_routing_table t' = ep_routing_table t /\
    ep_interest_map t' = ep_interest_map t /\
    (topic_abs t', ctx') = spec_append message receivers t (queue_abs q) ctx.
Proof.
  intros Ht Hq Hb Hr Hid Htime Hsize. unfold push_and_poll.
  set (hm := mkHold message _).
  assert (hold_messages q !! hold_id hm = None) as Hnone.
  { apply eq_None_not_Some. intros [hm' Hhm']. apply Hid. rewrite queue_abs_ids by done.
    destruct (proj1 (wf_dom q Hq (hold_id hm))) as [t0 Ht0]; [eauto|].
    apply list_elem_of_fmap. exists (mkTimed t0 (hold_id hm)). split; [done|]. by apply (wf_index q Hq). }
  destruct (queue_push hm q ctx) as [[q' ctx1]| |] eqn:Hp.
  2,3: unfold queue_push, usize_add in Hp; rewrite decide_True in Hp by lia; discriminate Hp.
  pose proof (queue_push_extends q hm ctx q' ctx1 Hp) as ->.
  destruct (queue_push_abs q hm ctx q' _ Hq Hnone Htime Hp) as (Habs & Hb' & Hr').
  assert (queue_wf q') as Hq'.
  { eapply queue_push_wf; [exact Hq|exact Hnone| |exact Hp]. intros e He Heq. specialize (Htime e He). lia. }
  cbn [mbind Outcome_bind].
  destruct (update_and_flush_spec (state_update_new_empty (msg_id message)) (set_queue q' t)
    (push_durable_command (CmdCreate message) (snd (utc_now ctx))))
    as (t' & ctx' & Hu & Hwf & Hc & Htab & Hm & Hs).
  { destruct Ht as [? ? ? ?]. split; cbn; try done; congruence. }
  exists t', ctx'. split_and!; try done. rewrite <-Hs. unfold spec_append, topic_abs. cbn [set_queue queue].
  by rewrite Habs.
Qed.

Lemma room_of_queue t :
  topic_wf t ->
  room_of t = match overflow_config (topic_config t) with
    | Some c =>
        if (overflow_size c <=? queue_size (queue t))%Z then
          match overflow_policy c with RejectNew => RoomReject | DropOld => RoomDropOld end
        else RoomFree
    | None => RoomFree
    end.
Proof. intros Ht. unfold room_of, topic_abs. by rewrite length_queue_abs by apply Ht. Qed.

(** The queue after its oldest message was dropped. *)
Lemma drop_old_spec t ctx message c :
  topic_wf t -> overflow_config (topic_config t) = Some c -> overflow_policy c = DropOld ->
  (overflow_size c <= queue_size (queue t))%Z -> (1 <= overflow_size c)%Z ->
  exists old l q', topic_abs t = old :: l /\
    make_room message t ctx =
      Done (Some q', resolve_ack (hold_id old) (Err (wait_ack_exception Overflow)) ctx) /\
    queue_wf q' /\ blocking q' = blocking (queue t) /\ resolved q' = ∅ /\ queue_abs q' = l /\
    (forall e, e ∈ time_id q' -> e ∈ time_id (queue t)) /\ (queue_size q' < queue_size (queue t))%Z.
Proof.
  intros Ht Hc Hp Hfull Hpos. pose proof (twf_queue t Ht) as Hq.
  unfold make_room. rewrite Hc, Hp, Zle_imp_le_bool by done.
  pose proof (length_queue_abs (queue t) Hq) as Hlen.
  destruct (time_id (queue t)) as [|e l] eqn:Hl.
  { unfold queue_abs in Hlen. rewrite Hl in Hlen. cbn in Hlen. lia. }
  destruct (queue_pop_popped (queue t) e l Hq Hl) as (old & q' & Hold & -> & Hpop).
  pose proof (popped_abs _ _ _ _ Hq Hl Hpop) as Habs. destruct Hpop as (Hq' & Hb' & Hl' & _ & Hr').
  cbn [mbind Outcome_bind expect].
  exists old, (abs_of (hold_messages (queue t)) l), q'. unfold topic_abs.
  rewrite (queue_abs_cons (queue t) e l old) in * by done. split_and!; try done.
  - rewrite Hr', (twf_resolved t Ht). set_solver.
  - intros e' He'. rewrite Hl' in He'. by right.
  - pose proof (length_queue_abs q' Hq') as Hlen'. rewrite Habs in Hlen'. cbn [length] in Hlen. lia.
Qed.

(** [hold_new_message] once the receivers are chosen. *)
Lemma hold_selected_spec message receivers t ctx ctx0 :
  select_endpoints message t ctx = Done (Some receivers, ctx0) ->
  topic_wf t -> hold_ready message t ctx0 ->
  exists t' ctx', hold_new_message message t ctx = Done (t', ctx') /\ topic_wf t' /\
    topic_config t' = topic_config t /\ ep_routing_table t' = ep_routing_table t /\
    ep_interest_map t' = ep_interest_map t /\
    (topic_abs t', ctx') = spec_hold message receivers t ctx0.
Proof.
  intros Hsel Ht [Hid Htime Hsize Hcfg]. unfold hold_new_message. rewrite Hsel. cbn [mbind Outcome_bind].
  unfold spec_hold. rewrite room_of_queue by done.
  assert (make_room message t ctx0 = Done (Some (queue t), ctx0) ->
    exists t' ctx', ('(q, ctx) ← make_room message t ctx0;
      match q with None => Done (t, ctx) | Some q => push_and_poll message receivers q t ctx end)
        = Done (t', ctx') /\ topic_wf t' /\ topic_config t' = topic_config t /\
      ep_routing_table t' = ep_routing_table t /\ ep_interest_map t' = ep_interest_map t /\
      (topic_abs t', ctx') = spec_append message receivers t (topic_abs t) ctx0) as Hfree.
  { intros ->. cbn [mbind Outcome_bind]. apply push_and_poll_spec; try done; by destruct Ht. }
  unfold make_room in Hfree |- *. specialize (Hcfg).
  destruct (overflow_config (topic_config t)) as [c|] eqn:Hc; [|by apply Hfree].
  destruct (overflow_size c <=? queue_size (queue t))%Z eqn:Hfull; [|by apply Hfree].
  destruct (overflow_policy c) eqn:Hp.
  - cbn [mbind Outcome_bind]. by exists t, (resolve_ack (msg_id message) (Err (wait_ack_exception Overflow)) ctx0).
  - apply Z.leb_le in Hfull.
    destruct (drop_old_spec t ctx0 message c) as (old & l & q' & Habs & Hmk & Hq' & Hb' & Hr' & Ha' & Hin & Hlt);
      [done|done|done|done|by apply Hcfg|].
    unfold make_room in Hmk. rewrite Hc, Zle_imp_le_bool, Hp in Hmk by done. rewrite Hmk, Habs.
    cbn [mbind Outcome_bind]. rewrite <-Ha'. apply push_and_poll_spec; try done.
    + intros Hc'. apply Hid. rewrite Habs, <-Ha'. by right.
    + intros e He. rewrite utc_now_resolve_ack. by apply Htime, Hin.
    + lia.
Qed.
(** The endpoints a message's subjects find. *)
Lemma elem_of_collect subs t e :
  e ∈ collect_addr_by_subjects subs t <->
    exists s, s ∈ subs /\ e ∈ interest_map_find s (ep_interest_map t).
Proof.
  unfold collect_addr_by_subjects.
  assert (forall acc, e ∈ foldl (fun ep_collect subject => ep_collect ∪
      interest_map_find subject (ep_interest_map t)) acc subs <->
    e ∈ acc \/ exists s, s ∈ subs /\ e ∈ interest_map_find s (ep_interest_map t)) as Hf.
  { induction subs as [|s subs IH]; intros acc; cbn [foldl]; [set_solver|]. rewrite IH. set_solver. }
  rewrite Hf. set_solver.
Qed.

Lemma hash_ring_snd eps : (hash_ring eps).*2 ≡ₚ hs_iter eps.
Proof.
  unfold hash_ring. rewrite sort_by_key_perm, <-list_fmap_compose. by rewrite list_fmap_id.
Qed.

Lemma hash_ring_nil eps : hash_ring eps = [] <-> eps = ∅.
Proof.
  split.
  - intros He. pose proof (hash_ring_snd eps) as Hp. rewrite He in Hp.
    apply set_eq. intros e. rewrite <-elem_of_hs_iter, <-Hp. set_solver.
  - intros ->. unfold hash_ring. by rewrite hs_iter_empty.
Qed.

(** The receiver of a [Push] message. *)
Definition push_choice message t : option EndpointAddr :=
  let ring := hash_ring (collect_addr_by_subjects (subjects (header message)) t) in
  snd <$> ring !! Z.to_nat (hash64_message_id (msg_id message) mod Z.of_nat (length ring)).

Lemma push_choice_Some message t :
  collect_addr_by_subjects (subjects (header message)) t <> ∅ ->
  exists e, push_choice message t = Some e /\
    e ∈ collect_addr_by_subjects (subjects (header message)) t.
Proof.
  set (eps := collect_addr_by_subjects _ t). intros Hne. unfold push_choice. fold eps.
  assert (length (hash_ring eps) <> 0) as Hlen.
  { intros Hz%nil_length_inv%hash_ring_nil. done. }
  destruct (lookup_lt_is_Some_2 (hash_ring eps)
    (Z.to_nat (hash64_message_id (msg_id message) mod Z.of_nat (length (hash_ring eps))))) as [[h e] He].
  { pose proof (Z.mod_pos_bound (hash64_message_id (msg_id message)) (Z.of_nat (length (hash_ring eps)))). lia. }
  exists e. rewrite He. split; [done|]. apply elem_of_hs_iter. rewrite <-hash_ring_snd.
  apply list_elem_of_fmap. exists (h, e). split; [done|]. by eapply list_elem_of_lookup_2.
Qed.

Lemma select_push message t ctx :
  target_kind (header message) = Push ->
  select_endpoints message t ctx =
    match push_choice message t with
    | Some e => Done (Some {[e]}, ctx)
    | None => Done (None, resolve_ack (msg_id message) (Err (wait_ack_exception NoAvailableTarget)) ctx)
    end.
Proof.
  intros Hk. unfold select_endpoints. rewrite Hk. unfold push_choice.
  destruct (hash_ring _) as [|x ring] eqn:Hr; [done|]. rewrite <-Hr.
  set (i := Z.to_nat _). destruct (lookup_lt_is_Some_2 (hash_ring
    (collect_addr_by_subjects (subjects (header message)) t)) i) as [[h e] He].
  { subst i. rewrite Hr. cbn [length].
    pose proof (Z.mod_pos_bound (hash64_message_id (msg_id message)) (Z.of_nat (S (length ring)))). lia. }
  by rewrite He.
Qed.

Lemma push_choice_None message t :
  push_choice message t = None <-> collect_addr_by_subjects (subjects (header message)) t = ∅.
Proof.
  split.
  - intros Hn. destruct (decide (collect_addr_by_subjects (subjects (header message)) t = ∅)) as [|Hne]; [done|].
    apply push_choice_Some in Hne as (e & He & _). congruence.
  - intros He. unfold push_choice. rewrite He. by rewrite (proj2 (hash_ring_nil ∅)).
Qed.

Lemma length_spec_append message receivers t l ctx :
  length (fst (spec_append message receivers t l ctx)) <= S (length l).
Proof.
  unfold spec_append. pose proof (spec_update_ids (config_blocking (topic_config t))
    (reachable_eps (ctx_node_id ctx) t) (state_update_new_empty (msg_id message))
    (l ++ [mkHold message (wait_ack_new (ack_kind (header message)) receivers)])
    (push_durable_command (CmdCreate message) (snd (utc_now ctx)))) as Hs%sublist_length.
  rewrite !length_fmap, length_app in Hs. cbn in *. lia.
Qed.

Lemma length_spec_hold message receivers t ctx c :
  overflow_config (topic_config t) = Some c ->
  (Z.of_nat (length (fst (spec_hold message receivers t ctx))) <=
     Z.max (overflow_size c) (Z.of_nat (length (topic_abs t))))%Z.
Proof.
  intros Hc. unfold spec_hold, room_of. rewrite Hc.
  destruct (overflow_size c <=? Z.of_nat (length (topic_abs t)))%Z eqn:Hfull.
  - destruct (overflow_policy c); [cbn [fst]; lia|]. destruct (topic_abs t) as [|old l] eqn:Hl; [cbn [fst]; lia|].
    pose proof (length_spec_append message receivers t l
      (resolve_ack (hold_id old) (Err (wait_ack_exception Overflow)) ctx)). cbn [length]. lia.
  - pose proof (length_spec_append message receivers t (topic_abs t) ctx). lia.
Qed.

(** ** Loading durable messages *)

Definition durable_hold (dm : DurableMessage) : HoldMessage :=
  mkHold (dm_message dm) (mkWaitAck (ack_kind (header (dm_message dm))) (dm_status dm)).

Lemma push_durable_messages_spec messages q :
  queue_wf q ->
  NoDup ((hold_id <$> queue_abs q) ++ ((fun m => msg_id (dm_message m)) <$> messages)) ->
  StronglySorted (fun a b => (a < b)%Z) ((time <$> time_id q) ++ (dm_time <$> messages)) ->
  (queue_size q + Z.of_nat (length messages) <= usize_MAX)%Z ->
  exists q', push_durable_messages messages q = Done q' /\ queue_wf q' /\ blocking q' = blocking q /\
    resolved q' = resolved q /\ queue_abs q' = queue_abs q ++ (durable_hold <$> messages).
Proof.
  revert q. induction messages as [|m messages IH]; intros q Hq Hnd Hs Hsize; cbn [push_durable_messages].
  { exists q. rewrite app_nil_r. by split_and!. }
  rewrite fmap_cons in Hnd. rewrite fmap_cons in Hs. cbn [length] in Hsize.
  assert (forall e, e ∈ time_id q -> (time e < dm_time m)%Z) as Htime.
  { intros e He. apply (list_elem_of_fmap_2 time) in He. revert He Hs. clear.
    induction (time <$> time_id q) as [|x l IH]; [by intros ?%not_elem_of_nil|].
    intros Hx [Hs Hall]%StronglySorted_inv. apply elem_of_cons in Hx as [->|Hx]; [|by apply IH].
    rewrite Forall_app, Forall_cons in Hall. by apply Hall. }
  assert (hold_messages q !! msg_id (dm_message m) = None) as Hnone.
  { apply eq_None_not_Some. intros [hm Hhm].
    apply NoDup_app in Hnd as (_ & Hd & _). apply (Hd (msg_id (dm_message m))); [|by left].
    apply list_elem_of_fmap. exists hm. pose proof (wf_key q Hq _ _ Hhm) as Hk. split; [done|].
    apply queue_abs_held; [done|]. by rewrite Hk. }
  destruct (push_durable_message m q) as [q1| |] eqn:Hp.
  2,3: unfold push_durable_message, usize_add in Hp; rewrite decide_True in Hp by lia; discriminate Hp.
  assert (queue_wf q1) as Hq1.
  { eapply push_durable_wf; [exact Hq|exact Hnone| |exact Hp]. intros e He Heq. specialize (Htime e He). lia. }
  unfold push_durable_message in Hp. apply Outcome_bind_Done in Hp as (s & Hs' & [= <-]).
  unfold usize_add in Hs'. case_decide; simplify_eq. cbn [mbind Outcome_bind].
  set (q1 := mkQueue _ _ _ _ _ _) in *.
  assert (time_id q1 = time_id q ++ [mkTimed (dm_time m) (msg_id (dm_message m))]) as Ht1
    by by apply (btree_insert_last timed_cmp time timed_cmp_time).
  assert (queue_abs q1 = queue_abs q ++ [durable_hold m]) as Ha1.
  { unfold queue_abs. rewrite Ht1. unfold abs_of. rewrite omap_app. cbn. rewrite lookup_insert_eq. f_equal.
    apply abs_of_ext. intros e He. rewrite lookup_insert_ne; [done|].
    intros Heq. destruct (wf_time_id_held q e Hq He). congruence. }
  destruct (IH q1 Hq1) as (q' & -> & Hq' & Hb' & Hr' & Ha').
  - rewrite Ha1, fmap_app, <-app_assoc. exact Hnd.
  - rewrite Ht1, fmap_app, <-app_assoc. exact Hs.
  - cbn. lia.
  - exists q'. split_and!; try done. by rewrite Ha', Ha1, <-app_assoc.
Qed.

Lemma from_durable_spec (config : TopicConfig) (messages : list DurableMessage) :
  NoDup ((fun m => msg_id (dm_message m)) <$> messages) -> NoDup (dm_time <$> messages) ->
  (Z.of_nat (length messages) <= usize_MAX)%Z ->
  exists t, from_durable config messages = Done t /\ topic_wf t /\ topic_config t = config /\
    (forall n, reachable_eps n t = ∅) /\ topic_abs t = durable_hold <$> sort_by_key dm_time messages.
Proof.
  intros Hids Htimes Hsize.
  unfold from_durable. pose proof (sort_by_key_perm dm_time messages) as Hperm.
  destruct (push_durable_messages_spec (sort_by_key dm_time messages)
    (queue_new (config_blocking config) (from_option overflow_size DEFAULT_CAPACITY (overflow_config config))))
    as (q & -> & Hq & Hb & Hr & Ha); cbn [queue_new queue_size time_id fmap list_fmap app].
  - apply queue_new_wf.
  - unfold queue_abs. cbn. by rewrite Hperm.
  - apply sort_by_key_strict. by rewrite Hperm.
  - by rewrite Hperm.
  - cbn [mbind Outcome_bind]. eexists. split; [done|]. unfold topic_abs. cbn [queue topic_config].
    rewrite Ha. cbn [queue_abs queue_new time_id hold_messages abs_of omap list_omap app].
    split_and!; try done.
    split; cbn; try done. apply map_ok_new.
Qed.
End TopicHold.

(** ** Properties *)

Section TopicProperties.
Context `{HashOrder, Clock, Hash64}.

(** C5: on a well-formed topic [update_and_flush] returns, keeps the topic well
    formed and implements [spec_update] on the messages in queue order: the
    statuses are recorded in the message the update names; a non-blocking topic
    then sends that message where it was not yet sent and answers and archives it
    if that resolves it; a blocking one does so only when it is first, and then
    goes on with the messages behind it as long as they resolve. *)
Theorem update_and_flush_refines (update : MessageStateUpdate) (t : TopicData) (ctx : ProposalContext)
    (Ht : topic_wf t) :
  exists t' ctx', update_and_flush update t ctx = Done (t', ctx') /\ topic_wf t' /\
    ep_routing_table t' = ep_routing_table t /\ ep_interest_map t' = ep_interest_map t /\
    (topic_abs t', ctx') = spec_update (config_blocking (topic_config t))
      (reachable_eps (ctx_node_id ctx) t) update (topic_abs t) ctx.
Proof.
  destruct (update_and_flush_spec update t ctx Ht) as (t' & ctx' & ? & ? & ? & ? & ? & ?).
  by exists t', ctx'.
Qed.

(** C30: [ep_online] adds the endpoint to its host's row and its interests to the
    map, makes it an [Unsent] receiver of exactly the held durable messages it is
    interested in and was no receiver of, and polls exactly those. *)
Theorem ep_online_refines (endpoint : EndpointAddr) (interests : list Interest) (host : NodeId)
    (t : TopicData) (ctx : ProposalContext) (Ht : topic_wf t) :
  let map := foldl (fun map interest => interest_map_insert interest endpoint map)
               (ep_interest_map t) interests in
  exists ids t' ctx', ep_online endpoint interests host t ctx = Done (t', ctx') /\ topic_wf t' /\
    ep_interest_map t' = map /\
    (forall n e, e ∈ reachable_eps n t' <-> (n = host /\ e = endpoint) \/ e ∈ reachable_eps n t) /\
    NoDup ids /\
    (forall id, id ∈ ids <-> exists hm, hm ∈ topic_abs t /\ hold_id hm = id /\
       concerns map endpoint hm && negb (knows endpoint hm) = true) /\
    (topic_abs t', ctx') = spec_poll_all (config_blocking (topic_config t))
      (reachable_eps (ctx_node_id ctx) t') ids
      ((fun hm => if concerns map endpoint hm then join_hold endpoint hm else hm) <$> topic_abs t) ctx.
Proof.
  intros map. unfold ep_online. fold map.
  set (table := <[host := _]> (ep_routing_table t)).
  destruct (visit_and_poll t ctx table map (online_visit map endpoint)
    (fun hm => if concerns map endpoint hm then join_hold endpoint hm else hm)
    (fun hm => concerns map endpoint hm && negb (knows endpoint hm)))
    as (ids & t' & ctx' & -> & Hwf & Hc & Hr & Hm & Hnd & Hids & _ & Hs); [done|..].
  - apply map_ok_foldl_insert, Ht.
  - intros id hm np _. rewrite online_visit_eq. destruct (concerns map endpoint hm); [|done].
    destruct (knows endpoint hm) eqn:Hk; [|done]. cbn. by rewrite join_hold_known.
  - intros hm. destruct (concerns map endpoint hm); [apply join_hold_message|done].
  - exists ids, t', ctx'. split_and!; try done; [|rewrite Hs; unfold reachable_eps; by rewrite Hr].
    intros n e. unfold reachable_eps. rewrite Hr. unfold table. rewrite lookup_insert. case_decide; subst; cbn.
    + rewrite elem_of_union, elem_of_singleton. naive_solver.
    + naive_solver.
Qed.

(** C29: [ep_offline] takes the endpoint out of its host's row and out of the
    interest map, so that no subject finds it and the others are found as before;
    it polls exactly the held messages the endpoint was a receiver of, and in
    every message still held afterwards no delivery to it is outstanding. *)
Theorem ep_offline_refines (host : NodeId) (endpoint : EndpointAddr) (t : TopicData)
    (ctx : ProposalContext) (Ht : topic_wf t) :
  exists ids t' ctx', ep_offline host endpoint t ctx = Done (t', ctx') /\ topic_wf t' /\
    (forall s e, e ∈ interest_map_find s (ep_interest_map t') <->
       e <> endpoint /\ e ∈ interest_map_find s (ep_interest_map t)) /\
    (forall n e, e ∈ reachable_eps n t' <-> e ∈ reachable_eps n t /\ ~ (n = host /\ e = endpoint)) /\
    NoDup ids /\
    (forall id, id ∈ ids <-> exists hm, hm ∈ topic_abs t /\ hold_id hm = id /\ knows endpoint hm = true) /\
    (topic_abs t', ctx') = spec_poll_all (config_blocking (topic_config t))
      (reachable_eps (ctx_node_id ctx) t') ids (leave_hold endpoint <$> topic_abs t) ctx /\
    Forall (gone endpoint) (topic_abs t').
Proof.
  unfold ep_offline. set (table := <[host := _]> (ep_routing_table t)).
  destruct (visit_and_poll t ctx table (interest_map_delete endpoint (ep_interest_map t))
    (offline_visit endpoint) (leave_hold endpoint) (knows endpoint))
    as (ids & t' & ctx' & -> & Hwf & Hc & Hr & Hm & Hnd & Hids & _ & Hs); [done|..].
  - apply map_ok_delete, Ht.
  - intros id hm np Hhm. rewrite offline_visit_eq. by rewrite (wf_key _ (twf_queue t Ht) _ _ Hhm).
  - apply leave_hold_message.
  - exists ids, t', ctx'. split_and!; try done.
    + intros s e. rewrite Hm. pose proof (twf_map t Ht) as Hok.
      rewrite !interest_map_find_spec by auto with amq. rewrite raw_delete.
      destruct (decide (e = endpoint)) as [->|Hne].
      * rewrite lookup_delete_eq. naive_solver.
      * rewrite lookup_delete_ne by done. naive_solver.
    + intros n e. unfold reachable_eps. rewrite Hr. unfold table. rewrite lookup_insert. case_decide; subst; cbn.
      * rewrite elem_of_difference, elem_of_singleton. naive_solver.
      * naive_solver.
    + rewrite Hs. unfold reachable_eps. by rewrite Hr.
    + replace (topic_abs t') with (fst (topic_abs t', ctx')) by done. rewrite Hs.
      apply spec_poll_all_Forall; [apply gone_send_closed|]. apply Forall_fmap, Forall_true.
      intros hm. apply leave_hold_gone.
Qed.

(** C31: [update_ep_interest] replaces all interests of the endpoint by the given
    ones, makes it an [Unsent] receiver of the held durable messages it is now
    interested in unless it already is one, and polls exactly those messages; it
    stays a receiver of those it lost interest in. *)
Theorem update_ep_interest_refines (ep : EndpointAddr) (interests : list Interest) (t : TopicData)
    (ctx : ProposalContext) (Ht : topic_wf t) :
  exists ids t' ctx', update_ep_interest ep interests t ctx = Done (t', ctx') /\ topic_wf t' /\
    (interests <> [] -> interest_of ep (ep_interest_map t') = Some (list_to_set interests)) /\
    (forall e, e <> ep -> interest_of e (ep_interest_map t') = interest_of e (ep_interest_map t)) /\
    ep_routing_table t' = ep_routing_table t /\ NoDup ids /\
    (forall id, id ∈ ids <-> exists hm, hm ∈ topic_abs t /\ hold_id hm = id /\
       concerns (ep_interest_map t') ep hm = true) /\
    (topic_abs t', ctx') = spec_poll_all (config_blocking (topic_config t))
      (reachable_eps (ctx_node_id ctx) t) ids
      ((fun hm => if concerns (ep_interest_map t') ep hm then join_hold ep hm else hm) <$> topic_abs t) ctx.
Proof.
  unfold update_ep_interest.
  set (map := foldl _ (interest_map_delete ep (ep_interest_map t)) interests).
  assert (forall e, raw map !! e = if decide (e = ep) then
      match interests with [] => None | _ => Some (list_to_set interests ∪ ∅) end
      else raw (ep_interest_map t) !! e) as Hraw.
  { intros e. unfold map. rewrite raw_foldl_insert, raw_delete. case_decide; subst.
    - by rewrite lookup_delete_eq.
    - by rewrite lookup_delete_ne. }
  destruct (visit_and_poll t ctx (ep_routing_table t) map (interest_visit map ep)
    (fun hm => if concerns map ep hm then join_hold ep hm else hm) (concerns map ep))
    as (ids & t' & ctx' & -> & Hwf & Hc & Hr & Hm & Hnd & Hids & _ & Hs); [done|..].
  - apply map_ok_foldl_insert, map_ok_delete, Ht.
  - intros id hm np _. rewrite interest_visit_eq. by destruct (concerns map ep hm).
  - intros hm. destruct (concerns map ep hm); [apply join_hold_message|done].
  - exists ids, t', ctx'. unfold interest_of. rewrite Hm. split_and!; try done.
    + intros Hne. rewrite Hraw, decide_True by done. destruct interests; [done|]. f_equal. set_solver.
    + intros e Hne. by rewrite Hraw, decide_False.
Qed.

(** C11: [hold_new_message] for a message new to the topic, by delivery mode.
    [Available] panics.  [Push] without a candidate is answered
    [NoAvailableTarget] and leaves the topic alone; otherwise it has exactly one
    receiver, one of the endpoints its subjects find.  [Durable] and [Online] go
    to all endpoints their subjects find.  Then [spec_hold]: a full topic answers
    [Overflow] to the new message or to the oldest, as configured, and an accepted
    message is queued behind all others and polled. *)
Theorem hold_new_message_refines (message : Message) (t : TopicData) (ctx : ProposalContext)
    (Ht : topic_wf t) (Hready : hold_ready message t ctx) :
  let found := collect_addr_by_subjects (subjects (header message)) t in
  let holds receivers := exists t' ctx', hold_new_message message t ctx = Done (t', ctx') /\ topic_wf t' /\
    ep_routing_table t' = ep_routing_table t /\ ep_interest_map t' = ep_interest_map t /\
    (topic_abs t', ctx') = spec_hold message receivers t ctx in
  match target_kind (header message) with
  | Available => hold_new_message message t ctx = Panic
  | Durable | Online => holds found
  | Push =>
      (found = ∅ -> hold_new_message message t ctx =
         Done (t, resolve_ack (msg_id message) (Err (wait_ack_exception NoAvailableTarget)) ctx)) /\
      (found <> ∅ -> exists e, e ∈ found /\ holds {[e]})
  end.
Proof.
  cbn zeta.
  assert (forall receivers, select_endpoints message t ctx = Done (Some receivers, ctx) ->
    exists t' ctx', hold_new_message message t ctx = Done (t', ctx') /\ topic_wf t' /\
    ep_routing_table t' = ep_routing_table t /\ ep_interest_map t' = ep_interest_map t /\
    (topic_abs t', ctx') = spec_hold message receivers t ctx) as Hsel.
  { intros receivers Hs. destruct (hold_selected_spec message receivers t ctx ctx Hs Ht Hready)
      as (t' & ctx' & ? & ? & ? & ? & ? & ?). by exists t', ctx'. }
  destruct (target_kind (header message)) eqn:Hk.
  - apply Hsel. unfold select_endpoints. by rewrite Hk.
  - apply Hsel. unfold select_endpoints. by rewrite Hk.
  - unfold hold_new_message, select_endpoints. by rewrite Hk.
  - split.
    + intros He%push_choice_None. unfold hold_new_message. rewrite (select_push _ _ _ Hk), He. done.
    + intros (e & He & Hin)%push_choice_Some. exists e. split; [done|]. apply Hsel.
      by rewrite (select_push _ _ _ Hk), He.
Qed.

(** Loading a topic from the durable store restores its messages in the order
    of their times, with the statuses they were stored with, in a well-formed
    topic without endpoints; the order the store lists them in is irrelevant. *)
Theorem from_durable_restores (config : TopicConfig) (messages : list DurableMessage)
    (Hids : NoDup ((fun m => msg_id (dm_message m)) <$> messages))
    (Htimes : NoDup (dm_time <$> messages))
    (Hsize : (Z.of_nat (length messages) <= usize_MAX)%Z) :
  exists t, from_durable config messages = Done t /\ topic_wf t /\ topic_config t = config /\
    (forall n, reachable_eps n t = ∅) /\
    topic_abs t ≡ₚ durable_hold <$> messages /\
    topic_abs t = durable_hold <$> sort_by_key dm_time messages.
Proof.
  destruct (from_durable_spec config messages Hids Htimes Hsize) as (t & ? & ? & ? & ? & Habs).
  exists t. split_and!; try done. by rewrite Habs, sort_by_key_perm.
Qed.
End TopicProperties.

(** The ring of candidates does not depend on the order they are visited in. *)
Lemma hash_ring_order `{Hash64} (o1 o2 : HashOrder) (eps : gset EndpointAddr) :
  (forall e1 e2, e1 ∈ eps -> e2 ∈ eps -> hash64_endpoint e1 = hash64_endpoint e2 -> e1 = e2) ->
  @hash_ring o1 _ eps = @hash_ring o2 _ eps.
Proof.
  intros Hinj. unfold hash_ring. apply sort_by_key_unique.
  - apply fmap_Permutation. unfold hs_iter. by rewrite !hash_order_perm.
  - rewrite <-list_fmap_compose. cbn. apply NoDup_fmap_2_strong; [|apply NoDup_hs_iter].
    intros e1 e2 H1%elem_of_hs_iter H2%elem_of_hs_iter. by apply Hinj.
Qed.

(** The receiver of a [Push] message does not depend on the iteration order of
      the hash set the candidates are collected in, as long as no two candidates
      have the same hash: replicas that apply the same message choose alike. *)
Theorem push_choice_deterministic `{Hash64} (o1 o2 : HashOrder) (message : Message) (t : TopicData)
    (Hinj : forall e1 e2, e1 ∈ collect_addr_by_subjects (subjects (header message)) t ->
      e2 ∈ collect_addr_by_subjects (subjects (header message)) t ->
      hash64_endpoint e1 = hash64_endpoint e2 -> e1 = e2) :
  @push_choice o1 _ message t = @push_choice o2 _ message t.
Proof. unfold push_choice. by rewrite (hash_ring_order o1 o2). Qed.

(** The handlers read the local clock, so replicas can come apart: on two
    replicas with the same empty topic, applying the same durable message answers
    and drops it on the one whose clock is past the message's expiry and keeps it
    on the other. *)
Theorem replicas_diverge_on_expiry `{HashOrder, Hash64} (c1 c2 : Clock) (message : Message)
    (durable : MessageDurableConfig) (config : TopicConfig) (ctx : ProposalContext)
    (Hk : target_kind (header message) = Durable) (Hd : durability (header message) = Some durable)
    (Hm : max_receiver durable = None) (Hb : config_blocking config = false)
    (Ho : overflow_config config = None)
    (Hpast : (expire durable < c1 (S (clock_reads (runtime (ctx_world ctx)))))%Z)
    (Hnot : (c2 (S (clock_reads (runtime (ctx_world ctx)))) <= expire durable)%Z) :
  exists t t1 ctx1 t2 ctx2, from_durable config [] = Done t /\
    @hold_new_message _ c1 _ message t ctx = Done (t1, ctx1) /\
    @hold_new_message _ c2 _ message t ctx = Done (t2, ctx2) /\
    topic_abs t1 = [] /\ hold_id <$> topic_abs t2 = [msg_id message].
Proof.
  set (t := mkTopicData config ∅ interest_map_new (queue_new (config_blocking config) DEFAULT_CAPACITY)).
  assert (from_durable config [] = Done t) as Hload by (unfold from_durable; by rewrite Ho).
  assert (topic_wf t) as Ht by (split; [apply queue_new_wf|done|done|apply map_ok_new]).
  assert (forall c, exists t' ctx', @hold_new_message _ c _ message t ctx = Done (t', ctx') /\
    hold_id <$> topic_abs t' =
      if (expire durable <? c (S (clock_reads (runtime (ctx_world ctx)))))%Z then [] else [msg_id message]) as Hc.
  { intros c.
    destruct (@hold_selected_spec _ c _ message (collect_addr_by_subjects (subjects (header message)) t) t ctx ctx)
      as (t' & ctx' & Hr & _ & _ & _ & _ & Hs).
    - unfold select_endpoints. by rewrite Hk.
    - done.
    - split; [by intros ?%not_elem_of_nil|by intros ? ?%not_elem_of_nil|done|]. intros o Hc. cbn in Hc. congruence.
    - exists t', ctx'. split; [exact Hr|]. replace (topic_abs t') with (fst (topic_abs t', ctx')) by done.
      rewrite Hs. unfold spec_hold, room_of. cbn [topic_config t]. rewrite Ho.
      unfold spec_append, spec_update. rewrite spec_acks_empty. unfold spec_poll. cbn [topic_config t].
      rewrite Hb. cbn [spec_poll_at topic_abs t queue queue_abs time_id queue_new abs_of omap list_omap app].
      rewrite decide_True by done. rewrite send_unsent_eq. cbn [hold_messages queue_new].
      set (hm := sent_hold _ _). set (ctx1 := foldl _ _ _).
      assert (clock_reads (runtime (ctx_world ctx1)) = S (clock_reads (runtime (ctx_world ctx)))) as Hclk.
      { unfold ctx1. by rewrite foldl_dispatch_clock. }
      unfold hold_is_resolved. change (Queue.message hm) with message. rewrite Hk, Hd. cbn [utc_now].
      rewrite Hclk, Hm. unfold clock_at. by destruct (expire durable <? _)%Z. }
  destruct (Hc c1) as (t1 & ctx1 & H1 & Ha1). destruct (Hc c2) as (t2 & ctx2 & H2 & Ha2).
  exists t, t1, ctx1, t2, ctx2. split_and!; [done|exact H1|exact H2| |].
  - apply Z.ltb_lt in Hpast. rewrite Hpast in Ha1. by apply fmap_nil_inv in Ha1.
  - apply Z.ltb_ge in Hnot. by rewrite Hnot in Ha2.
Qed.

Section TopicWitnesses.
Import Sample.

Definition first_byte (bs : list u8) : Z := byte_to_Z (default x00 (head bs)).

Lemma first_byte_range bs : (0 <= first_byte bs <= u64_MAX)%Z.
Proof. unfold first_byte, u64_MAX. pose proof (byte_to_Z_range (default x00 (head bs))). lia. Qed.

#[local] Instance sample_hash : Hash64 := {|
  hash64_message_id i := first_byte (message_id_bytes i);
  hash64_endpoint e := first_byte (endpoint_addr_bytes e);
  hash64_message_id_range i := first_byte_range _;
  hash64_endpoint_range e := first_byte_range _;
|}.

(** Two held messages, at most two allowed, one endpoint online. *)
Definition sample_topic : TopicData :=
  mkTopicData (mkTopicConfig topic false (Some (mkOverflowConfig DropOld 2)))
    {[nid x01 := {[ep x05]}]}
    (interest_map_insert (interest_new "a/*") (ep x05) interest_map_new) (sample_queue_value false).

Lemma sample_topic_wf : topic_wf sample_topic.
Proof.
  split; [apply sample_queue_wf|vm_compute; reflexivity|vm_compute; reflexivity|].
  apply map_ok_insert, map_ok_new.
Qed.

Definition later : ProposalContext := ctx_map (set_clock_reads 5) ctx.

Definition sample_update : MessageStateUpdate := mkStateUpdate (mid x02) {[ep x05 := Processed]}.

Lemma update_and_flush_refines_witness :
  exists t' ctx', update_and_flush sample_update sample_topic later = Done (t', ctx') /\ topic_wf t' /\
    ep_routing_table t' = ep_routing_table sample_topic /\
    ep_interest_map t' = ep_interest_map sample_topic /\
    (topic_abs t', ctx') = spec_update (config_blocking (topic_config sample_topic))
      (reachable_eps (ctx_node_id later) sample_topic) sample_update (topic_abs sample_topic) later.
Proof. apply (update_and_flush_refines sample_update sample_topic later sample_topic_wf). Defined.

Lemma ep_online_refines_witness :
  let map := foldl (fun map interest => interest_map_insert interest (ep x06) map)
               (ep_interest_map sample_topic) [interest_new "a/b"] in
  exists ids t' ctx', ep_online (ep x06) [interest_new "a/b"] (nid x02) sample_topic later = Done (t', ctx') /\
    topic_wf t' /\ ep_interest_map t' = map /\
    (forall n e, e ∈ reachable_eps n t' <-> (n = nid x02 /\ e = ep x06) \/ e ∈ reachable_eps n sample_topic) /\
    NoDup ids /\
    (forall id, id ∈ ids <-> exists hm, hm ∈ topic_abs sample_topic /\ hold_id hm = id /\
       concerns map (ep x06) hm && negb (knows (ep x06) hm) = true) /\
    (topic_abs t', ctx') = spec_poll_all (config_blocking (topic_config sample_topic))
      (reachable_eps (ctx_node_id later) t') ids
      ((fun hm => if concerns map (ep x06) hm then join_hold (ep x06) hm else hm) <$> topic_abs sample_topic) later.
Proof. apply (ep_online_refines (ep x06) [interest_new "a/b"] (nid x02) sample_topic later sample_topic_wf). Defined.

Lemma ep_offline_refines_witness :
  exists ids t' ctx', ep_offline (nid x01) (ep x05) sample_topic later = Done (t', ctx') /\ topic_wf t' /\
    (forall s e, e ∈ interest_map_find s (ep_interest_map t') <->
       e <> ep x05 /\ e ∈ interest_map_find s (ep_interest_map sample_topic)) /\
    (forall n e, e ∈ reachable_eps n t' <->
       e ∈ reachable_eps n sample_topic /\ ~ (n = nid x01 /\ e = ep x05)) /\
    NoDup ids /\
    (forall id, id ∈ ids <-> exists hm, hm ∈ topic_abs sample_topic /\ hold_id hm = id /\ knows (ep x05) hm = true) /\
    (topic_abs t', ctx') = spec_poll_all (config_blocking (topic_config sample_topic))
      (reachable_eps (ctx_node_id later) t') ids (leave_hold (ep x05) <$> topic_abs sample_topic) later /\
    Forall (gone (ep x05)) (topic_abs t').
Proof. apply (ep_offline_refines (nid x01) (ep x05) sample_topic later sample_topic_wf). Defined.

Lemma update_ep_interest_refines_witness :
  exists ids t' ctx', update_ep_interest (ep x05) [interest_new "b"] sample_topic later = Done (t', ctx') /\
    topic_wf t' /\
    ([interest_new "b"] <> [] ->
       interest_of (ep x05) (ep_interest_map t') = Some (list_to_set [interest_new "b"])) /\
    (forall e, e <> ep x05 ->
       interest_of e (ep_interest_map t') = interest_of e (ep_interest_map sample_topic)) /\
    ep_routing_table t' = ep_routing_table sample_topic /\ NoDup ids /\
    (forall id, id ∈ ids <-> exists hm, hm ∈ topic_abs sample_topic /\ hold_id hm = id /\
       concerns (ep_interest_map t') (ep x05) hm = true) /\
    (topic_abs t', ctx') = spec_poll_all (config_blocking (topic_config sample_topic))
      (reachable_eps (ctx_node_id later) sample_topic) ids
      ((fun hm => if concerns (ep_interest_map t') (ep x05) hm then join_hold (ep x05) hm else hm)
         <$> topic_abs sample_topic) later.
Proof. apply (update_ep_interest_refines (ep x05) [interest_new "b"] sample_topic later sample_topic_wf). Defined.

Lemma sample_hold_ready : hold_ready (msg Push x03) sample_topic later.
Proof.
  split.
  - apply (bool_decide_unpack _). vm_compute. exact I.
  - apply (Forall_forall (fun e => (time e < fst (utc_now later))%Z)), (bool_decide_unpack _). vm_compute. exact I.
  - vm_compute. reflexivity.
  - intros o [= <-]. vm_compute. split; discriminate.
Qed.

Lemma hold_new_message_refines_witness :
  collect_addr_by_subjects (subjects (header (msg Push x03))) sample_topic <> ∅ /\
  exists e, e ∈ collect_addr_by_subjects (subjects (header (msg Push x03))) sample_topic /\
    exists t' ctx', hold_new_message (msg Push x03) sample_topic later = Done (t', ctx') /\ topic_wf t' /\
      ep_routing_table t' = ep_routing_table sample_topic /\
      ep_interest_map t' = ep_interest_map sample_topic /\
      (topic_abs t', ctx') = spec_hold (msg Push x03) {[e]} sample_topic later.
Proof.
  assert (collect_addr_by_subjects (subjects (header (msg Push x03))) sample_topic <> ∅) as Hne.
  { apply (bool_decide_unpack _). vm_compute. exact I. }
  split; [exact Hne|].
  exact (proj2 (hold_new_message_refines (msg Push x03) sample_topic later sample_topic_wf sample_hold_ready) Hne).
Defined.

Definition sample_durable (b : u8) (t : Z) : DurableMessage :=
  mkDurableMessage (msg Durable b) {[ep x05 := Sent]} t.

Lemma from_durable_restores_witness :
  exists t, from_durable (topic_config_of_code topic) [sample_durable x02 9; sample_durable x01 4] = Done t /\
    topic_wf t /\ topic_config t = topic_config_of_code topic /\
    (forall n, reachable_eps n t = ∅) /\
    topic_abs t ≡ₚ durable_hold <$> [sample_durable x02 9; sample_durable x01 4] /\
    topic_abs t = durable_hold <$> sort_by_key dm_time [sample_durable x02 9; sample_durable x01 4].
Proof.
  apply (from_durable_restores (topic_config_of_code topic) [sample_durable x02 9; sample_durable x01 4]).
  - apply (bool_decide_unpack _). vm_compute. exact I.
  - apply (bool_decide_unpack _). vm_compute. exact I.
  - vm_compute. discriminate.
Defined.

(** An order different from the one the elements are stored in. *)
Definition hash_order_rev : HashOrder :=
  {| hash_order := fun _ l => reverse l; hash_order_perm := fun _ l => reverse_Permutation l |}.

Lemma push_choice_deterministic_witness :
  @push_choice hash_order_id _ (msg Push x03) sample_topic = @push_choice hash_order_rev _ (msg Push x03) sample_topic.
Proof.
  apply (push_choice_deterministic hash_order_id hash_order_rev (msg Push x03) sample_topic).
  assert (collect_addr_by_subjects (subjects (header (msg Push x03))) sample_topic = {[ep x05]}) as ->.
  { apply (bool_decide_unpack _). vm_compute. exact I. }
  intros e1 e2 ->%elem_of_singleton ->%elem_of_singleton _. reflexivity.
Defined.
Definition sample_expiring : Message :=
  mkMessage (mkHeader (mid x03) ExpectReceived Durable (Some (mkDurableConfig 10 None)) [subject_new "a/b"]) [].

Lemma replicas_diverge_on_expiry_witness :
  exists t t1 ctx1 t2 ctx2, from_durable (topic_config_of_code topic) [] = Done t /\
    @hold_new_message _ (fun _ => 20%Z) _ sample_expiring t ctx = Done (t1, ctx1) /\
    @hold_new_message _ (fun _ => 5%Z) _ sample_expiring t ctx = Done (t2, ctx2) /\
    topic_abs t1 = [] /\ hold_id <$> topic_abs t2 = [msg_id sample_expiring].
Proof.
  apply (replicas_diverge_on_expiry (fun _ => 20%Z) (fun _ => 5%Z) sample_expiring (mkDurableConfig 10 None)
    (topic_config_of_code topic) ctx); reflexivity || (cbn; lia).
Defined.
End TopicWitnesses.
