(* ===== verification/Delivery.v ===== *)
(** * Every message is answered once

    The handlers of a topic, taken as calls on the replicated topic state, and the
    conservation of messages across them: a message is held, or it was answered,
    and never both. *)

From S2P Require Import Prelude Ids Interest Message Proposal Queue Topic.

(** The calls [NodeData] makes on a topic. *)
Inductive topic_call : Type :=
  | CallHold (message : Message)
  | CallUpdate (update : MessageStateUpdate)
  | CallOnline (endpoint : EndpointAddr) (interests : list Interest) (host : NodeId)
  | CallOffline (host : NodeId) (endpoint : EndpointAddr)
  | CallInterest (endpoint : EndpointAddr) (interests : list Interest).

(** The message a call brings. *)
Definition call_id (c : topic_call) : list MessageId :=
  match c with CallHold m => [msg_id m] | _ => [] end.

Section Delivery.
Context `{HashOrder, Clock, Hash64}.
Implicit Types (t : TopicData) (ctx : ProposalContext) (l : list HoldMessage).

Definition run_call (c : topic_call) (t : TopicData) (ctx : ProposalContext) :
    Outcome (TopicData * ProposalContext) :=
  match c with
  | CallHold m => hold_new_message m t ctx
  | CallUpdate u => update_and_flush u t ctx
  | CallOnline e i h => ep_online e i h t ctx
  | CallOffline h e => ep_offline h e t ctx
  | CallInterest e i => update_ep_interest e i t ctx
  end.

Fixpoint run_calls (cs : list topic_call) (t : TopicData) (ctx : ProposalContext) :
    Outcome (TopicData * ProposalContext) :=
  match cs with
  | [] => Done (t, ctx)
  | c :: cs => '(t, ctx) ← run_call c t ctx; run_calls cs t ctx
  end.

(** A message brought is new, its mode is supported and the clock has moved on. *)
Definition call_ready (c : topic_call) (t : TopicData) (ctx : ProposalContext) : Prop :=
  match c with
  | CallHold m => target_kind (header m) <> Available /\ hold_ready m t ctx
  | _ => True
  end.

Fixpoint calls_ready (cs : list topic_call) (t : TopicData) (ctx : ProposalContext) : Prop :=
  match cs with
  | [] => True
  | c :: cs => call_ready c t ctx /\
      forall t' ctx', run_call c t ctx = Done (t', ctx') -> calls_ready cs t' ctx'
  end.

(** From [l] to [l'], the messages [new] came in, and each of them or of [l] that
    is not in [l'] was answered once. *)
Definition conserved (new : list MessageId) l ctx l' ctx' : Prop :=
  exists answers, acks_of ctx' = acks_of ctx ++ answers /\
    new ++ (hold_id <$> l) ≡ₚ answers.*1 ++ (hold_id <$> l').

Lemma conserved_refl l l' ctx ctx' :
  acks_of ctx' = acks_of ctx -> hold_id <$> l = hold_id <$> l' -> conserved [] l ctx l' ctx'.
Proof. intros Ha Hl. exists []. rewrite app_nil_r. cbn. by rewrite Hl. Qed.

Lemma conserved_trans n1 n2 l1 l2 l3 ctx1 ctx2 ctx3 :
  conserved n1 l1 ctx1 l2 ctx2 -> conserved n2 l2 ctx2 l3 ctx3 -> conserved (n2 ++ n1) l1 ctx1 l3 ctx3.
Proof.
  intros (a1 & Ha1 & Hp1) (a2 & Ha2 & Hp2). exists (a1 ++ a2). split.
  - by rewrite Ha2, Ha1, app_assoc.
  - rewrite <-app_assoc, Hp1, fmap_app, <-app_assoc. rewrite <-Hp2. solve_Permutation.
Qed.

Lemma spec_flush_conserved reach l ctx tl :
  ctx_topic ctx = Some tl ->
  conserved [] l ctx (fst (spec_flush reach l ctx)) (snd (spec_flush reach l ctx)).
Proof.
  intros Ht. destruct (spec_flush_prefix reach l ctx tl Ht) as (ans & rest & res & Hl & Hr & Hlen & Ha & _).
  exists (zip ans res). split; [done|]. rewrite Hr. cbn. rewrite Hl. by rewrite fst_zip by lia.
Qed.

Lemma spec_poll_at_conserved reach id l ctx tl :
  ctx_topic ctx = Some tl ->
  conserved [] l ctx (fst (spec_poll_at reach id l ctx)) (snd (spec_poll_at reach id l ctx)).
Proof.
  revert ctx. induction l as [|hm l IH]; intros ctx Ht; [by apply conserved_refl|]. cbn [spec_poll_at].
  case_decide as Hid.
  - rewrite send_unsent_eq. set (ctx1 := foldl _ _ _).
    pose proof (hold_is_resolved_extends (sent_hold reach hm) ctx1) as He.
    destruct (hold_is_resolved_observe (sent_hold reach hm) ctx1) as (Ha & _ & _).
    destruct (hold_is_resolved _ _) as [done ctx2]. cbn [snd] in He, Ha.
    unfold ctx1 in Ha. rewrite acks_foldl_dispatch in Ha.
    assert (ctx_topic ctx2 = Some tl) as Ht2.
    { rewrite (extends_ctx_topic ctx); [done|]. etrans; [apply extends_foldl_dispatch|exact He]. }
    destruct done; cbn [fst snd].
    + exists [(id, hold_resolve (sent_hold reach hm))]. rewrite acks_of_finish, Ht2, Ha. split; [done|].
      cbn. by rewrite Hid.
    + by apply conserved_refl.
  - destruct (IH ctx Ht) as (ans & Ha & Hp). destruct (spec_poll_at reach id l ctx) as [l' ctx'].
    cbn [fst snd] in *. exists ans. split; [done|]. cbn in *. rewrite Hp. solve_Permutation.
Qed.

Lemma spec_update_conserved b reach update l ctx tl :
  ctx_topic ctx = Some tl ->
  conserved [] l ctx (fst (spec_update b reach update l ctx)) (snd (spec_update b reach update l ctx)).
Proof.
  intros Ht. apply (conserved_trans [] [] _ (spec_acks update l) _ _
    (push_durable_command (CmdUpdateStatus update) ctx)).
  - apply conserved_refl; [done|]. by rewrite spec_acks_ids.
  - unfold spec_update, spec_poll. destruct b; [case_decide|].
    + by apply (spec_flush_conserved _ _ _ tl).
    + by apply conserved_refl.
    + by apply (spec_poll_at_conserved _ _ _ _ tl).
Qed.

Lemma spec_poll_all_conserved b reach ids l ctx tl :
  ctx_topic ctx = Some tl ->
  conserved [] l ctx (fst (spec_poll_all b reach ids l ctx)) (snd (spec_poll_all b reach ids l ctx)).
Proof.
  unfold spec_poll_all. revert l ctx. induction ids as [|i ids IH]; intros l ctx Ht; cbn [foldl].
  { by apply conserved_refl. }
  pose proof (spec_update_conserved b reach (state_update_new_empty i) l ctx tl Ht) as Hc.
  pose proof (spec_update_extends b reach (state_update_new_empty i) l ctx) as He.
  destruct (spec_update b reach (state_update_new_empty i) l ctx) as [l1 ctx1]. cbn [fst snd] in Hc, He.
  apply (conserved_trans [] [] _ l1 _ _ ctx1); [done|]. apply IH.
  by rewrite (extends_ctx_topic ctx).
Qed.

Lemma ctx_topic_resolve_ack i r ctx : ctx_topic (resolve_ack i r ctx) = ctx_topic ctx.
Proof. apply extends_ctx_topic, extends_resolve_ack. Qed.

Lemma spec_append_conserved m receivers t l ctx tl :
  ctx_topic ctx = Some tl ->
  conserved [msg_id m] l ctx (fst (spec_append m receivers t l ctx)) (snd (spec_append m receivers t l ctx)).
Proof.
  intros Ht. unfold spec_append. set (hm := mkHold m _).
  apply (conserved_trans [msg_id m] [] _ (l ++ [hm]) _ _ (push_durable_command (CmdCreate m) (snd (utc_now ctx)))).
  - exists []. rewrite app_nil_r. split; [done|]. rewrite fmap_app. cbn.
    change (hold_id hm) with (msg_id m). solve_Permutation.
  - by apply (spec_update_conserved _ _ _ _ _ tl).
Qed.

Lemma spec_hold_conserved m receivers t ctx tl :
  ctx_topic ctx = Some tl -> (room_of t = RoomDropOld -> topic_abs t <> []) ->
  conserved [msg_id m] (topic_abs t) ctx (fst (spec_hold m receivers t ctx)) (snd (spec_hold m receivers t ctx)).
Proof.
  intros Ht Hne. unfold spec_hold. destruct (room_of t) eqn:Hroom.
  - by apply (spec_append_conserved _ _ _ _ _ tl).
  - cbn [fst snd]. exists [(msg_id m, Err (wait_ack_exception Overflow))].
    by rewrite acks_of_resolve_ack, Ht.
  - destruct (topic_abs t) as [|old l] eqn:Hl; [by destruct Hne|].
    apply (conserved_trans [] [msg_id m] _ l _ _ (resolve_ack (hold_id old) (Err (wait_ack_exception Overflow)) ctx)).
    + exists [(hold_id old, Err (wait_ack_exception Overflow))]. by rewrite acks_of_resolve_ack, Ht.
    + apply (spec_append_conserved _ _ _ _ _ tl). by rewrite ctx_topic_resolve_ack.
Qed.

Lemma spec_poll_all_extends b reach ids l ctx : ctx_extends ctx (snd (spec_poll_all b reach ids l ctx)).
Proof.
  unfold spec_poll_all. revert l ctx. induction ids as [|i ids IH]; intros l ctx; cbn [foldl]; [done|].
  pose proof (spec_update_extends b reach (state_update_new_empty i) l ctx) as He.
  destruct (spec_update b reach (state_update_new_empty i) l ctx) as [l1 ctx1]. etrans; [exact He|apply IH].
Qed.

Lemma spec_append_extends m receivers t l ctx : ctx_extends ctx (snd (spec_append m receivers t l ctx)).
Proof.
  unfold spec_append. etrans; [apply extends_utc_now|]. etrans; [apply (extends_push_durable (CmdCreate m))|].
  apply spec_update_extends.
Qed.

Lemma spec_hold_extends m receivers t ctx : ctx_extends ctx (snd (spec_hold m receivers t ctx)).
Proof.
  unfold spec_hold. destruct (room_of t).
  - apply spec_append_extends.
  - apply extends_resolve_ack.
  - destruct (topic_abs t); [done|]. etrans; [apply extends_resolve_ack|apply spec_append_extends].
Qed.

Lemma room_drop_nonempty t : config_ok (topic_config t) -> room_of t = RoomDropOld -> topic_abs t <> [].
Proof.
  intros Hcfg Hr Hnil. unfold room_of in Hr. rewrite Hnil in Hr.
  destruct (overflow_config (topic_config t)) as [c|] eqn:Hc; [|done]. specialize (Hcfg c Hc).
  destruct (overflow_size c <=? Z.of_nat (length []))%Z eqn:He; [|done].
  apply Z.leb_le in He. cbn [length] in He. lia.
Qed.

Lemma fmap_hold_id (f : HoldMessage -> HoldMessage) l :
  (forall hm, message (f hm) = message hm) -> hold_id <$> l = hold_id <$> (f <$> l).
Proof.
  intros Hf. rewrite <-list_fmap_compose. apply list_fmap_ext. intros i hm _. cbn.
  unfold hold_id. by rewrite Hf.
Qed.

(** A message no endpoint's coming, going or change of interests concerns. *)
Definition idle (hm : HoldMessage) : Prop :=
  target_kind (header (message hm)) <> Durable /\ hold_status hm = ∅.

(** The routing table after a call. *)
Definition call_table (c : topic_call) t : gmap NodeId (gset EndpointAddr) :=
  match c with
  | CallOnline e _ h => <[h := {[e]} ∪ default ∅ (ep_routing_table t !! h)]> (ep_routing_table t)
  | CallOffline h e => <[h := default ∅ (ep_routing_table t !! h) ∖ {[e]}]> (ep_routing_table t)
  | _ => ep_routing_table t
  end.

(** What the endpoint handlers write for [ep] on a message, where [k] stood: the
    endpoint that comes or changes its interests may become a receiver, the one
    that goes is out of reach. *)
Definition visited (c : topic_call) (ep : EndpointAddr) (k k' : option MessageStatusKind) : Prop :=
  match c with
  | CallOnline e _ _ | CallInterest e _ => k' = k \/ (ep = e /\ k = None /\ k' = Some Unsent)
  | CallOffline _ e => if decide (ep = e) then k' = (fun _ => Unreachable) <$> k else k' = k
  | CallHold _ | CallUpdate _ => False
  end.

Lemma join_hold_visits e hm ep :
  let k := hold_status hm !! ep in
  let k' := hold_status (join_hold e hm) !! ep in k' = k \/ (ep = e /\ k = None /\ k' = Some Unsent).
Proof.
  cbn. unfold join_hold. destruct (hold_status hm !! e) eqn:He; [by left|]. cbn.
  destruct (decide (ep = e)) as [->|Hne]; [right; by rewrite lookup_insert_eq|left; by rewrite lookup_insert_ne].
Qed.

Lemma leave_hold_visits e hm ep :
  if decide (ep = e) then hold_status (leave_hold e hm) !! ep = (fun _ => Unreachable) <$> hold_status hm !! ep
  else hold_status (leave_hold e hm) !! ep = hold_status hm !! ep.
Proof.
  unfold leave_hold, knows. case_bool_decide as Hk; cbn.
  - destruct Hk as [k Hk]. case_decide; [subst; by rewrite Hk, lookup_insert_eq|by apply lookup_insert_ne].
  - apply eq_None_not_Some in Hk. case_decide; [subst; by rewrite Hk|done].
Qed.

(** What a call does to the list of held messages: it holds a message, refuses
    one, records an update, or rewrites the statuses of all and polls some. *)
Inductive call_shape t ctx l' ctx' : topic_call -> Prop :=
  | shape_hold m receivers : (l', ctx') = spec_hold m receivers t ctx -> call_shape t ctx l' ctx' (CallHold m)
  | shape_refused m :
      (l', ctx') = (topic_abs t, resolve_ack (msg_id m) (Err (wait_ack_exception NoAvailableTarget)) ctx) ->
      call_shape t ctx l' ctx' (CallHold m)
  | shape_update u :
      (l', ctx') = spec_update (config_blocking (topic_config t)) (reachable_eps (ctx_node_id ctx) t) u
                     (topic_abs t) ctx ->
      call_shape t ctx l' ctx' (CallUpdate u)
  | shape_visit c f ids :
      call_id c = [] -> (forall hm, message (f hm) = message hm) -> (forall hm, idle hm -> f hm = hm) ->
      (forall hm ep, visited c ep (hold_status hm !! ep) (hold_status (f hm) !! ep)) ->
      (forall id, id ∈ ids -> exists hm, hm ∈ topic_abs t /\ hold_id hm = id /\ ~ idle hm) ->
      (l', ctx') = spec_poll_all (config_blocking (topic_config t)) (default ∅ (call_table c t !! ctx_node_id ctx))
                     ids (f <$> topic_abs t) ctx ->
      call_shape t ctx l' ctx' c.

Definition call_done c t ctx (t' : TopicData) ctx' : Prop :=
  topic_wf t' /\ topic_config t' = topic_config t /\ ep_routing_table t' = call_table c t /\
  call_shape t ctx (topic_abs t') ctx' c.

Lemma idle_concerns map ep hm : idle hm -> concerns map ep hm = false.
Proof. intros [Hk _]. unfold concerns. by rewrite bool_decide_false. Qed.

Lemma idle_knows ep hm : idle hm -> knows ep hm = false.
Proof. intros [_ Hs]. unfold knows. rewrite Hs, lookup_empty. apply bool_decide_false. by intros [? ?]. Qed.

(** The three endpoint handlers. *)
Lemma visit_done c t ctx map
    (body : MessageId -> HoldMessage -> gset MessageId -> HoldMessage * gset MessageId)
    (f : HoldMessage -> HoldMessage) (p : HoldMessage -> bool) :
  call_id c = [] -> topic_wf t -> map_ok map ->
  (forall id hm np, hold_messages (queue t) !! id = Some hm ->
    body id hm np = (f hm, if p hm then {[id]} ∪ np else np)) ->
  (forall hm, message (f hm) = message hm) -> (forall hm, idle hm -> f hm = hm /\ p hm = false) ->
  (forall hm ep, visited c ep (hold_status hm !! ep) (hold_status (f hm) !! ep)) ->
  exists t' ctx',
    (let '(hold, message_need_poll) := hm_iter_mut body (hold_messages (queue t)) ∅ in
     poll_all (hs_iter message_need_poll)
       (mkTopicData (topic_config t) (call_table c t) map (set_hold hold (queue t))) ctx) = Done (t', ctx') /\
    call_done c t ctx t' ctx'.
Proof.
  intros Hc Hwf Hmap Hbody Hf Hidle Hvisit.
  destruct (visit_and_poll t ctx (call_table c t) map body f p Hwf Hmap Hbody Hf)
    as (ids & t' & ctx' & Hr & Hwf' & Hcfg & Htable & _ & _ & Hids & _ & Hs).
  exists t', ctx'. split; [exact Hr|]. split_and!; [done|done|done|].
  eapply shape_visit; [done|done|by apply Hidle|done| |done].
  intros id (hm & Hhm & Hid & Hp)%Hids. exists hm. split_and!; [done|done|].
  intros Hi%Hidle. destruct Hi as [_ Hi]. congruence.
Qed.

Lemma run_call_done c t ctx :
  topic_wf t -> call_ready c t ctx ->
  exists t' ctx', run_call c t ctx = Done (t', ctx') /\ call_done c t ctx t' ctx'.
Proof.
  intros Ht Hready. destruct c as [m|u|e i h|h e|e i]; cbn [run_call].
  - destruct Hready as [Hk Hready].
    assert (exists o ctx0, select_endpoints m t ctx = Done (o, ctx0) /\
      match o with
      | Some receivers => ctx0 = ctx
      | None => ctx0 = resolve_ack (msg_id m) (Err (wait_ack_exception NoAvailableTarget)) ctx
      end) as (o & ctx0 & Hsel & Ho).
    { destruct (target_kind (header m)) eqn:Hkind; [| |done|].
      1,2: unfold select_endpoints; rewrite Hkind; by eexists (Some _), ctx.
      rewrite (select_push _ _ _ Hkind). destruct (push_choice m t); [by eexists (Some _), ctx|].
      by eexists None, _. }
    destruct o as [receivers|]; subst ctx0.
    + destruct (hold_selected_spec m receivers t ctx ctx Hsel Ht Hready) as (t' & ctx' & Hr & Hwf & Hcfg & Htable & _ & Hs).
      exists t', ctx'. split; [done|]. split_and!; [done|done|done|]. by eapply shape_hold.
    + exists t, (resolve_ack (msg_id m) (Err (wait_ack_exception NoAvailableTarget)) ctx).
      split; [unfold hold_new_message; by rewrite Hsel|]. split_and!; [done|done|done|by apply shape_refused].
  - destruct (update_and_flush_spec u t ctx Ht) as (t' & ctx' & Hr & Hwf & Hcfg & Htable & _ & Hs).
    exists t', ctx'. split; [done|]. split_and!; [done|done|done|by apply shape_update].
  - unfold ep_online. set (map := foldl _ _ i).
    apply (visit_done (CallOnline e i h) t ctx map (online_visit map e)
      (fun hm => if concerns map e hm then join_hold e hm else hm)
      (fun hm => concerns map e hm && negb (knows e hm))); [done|done|apply map_ok_foldl_insert, Ht| | | |].
    + intros id hm np _. rewrite online_visit_eq. destruct (concerns map e hm); [|done].
      destruct (knows e hm) eqn:Hk; [|done]. cbn. by rewrite join_hold_known.
    + intros hm. destruct (concerns map e hm); [apply join_hold_message|done].
    + intros hm Hi. by rewrite idle_concerns.
    + intros hm ep. destruct (concerns map e hm); [apply join_hold_visits|by left].
  - unfold ep_offline.
    apply (visit_done (CallOffline h e) t ctx (interest_map_delete e (ep_interest_map t))
      (offline_visit e) (leave_hold e) (knows e)); [done|done|apply map_ok_delete, Ht| |apply leave_hold_message| |apply leave_hold_visits].
    + intros id hm np Hhm. rewrite offline_visit_eq. by rewrite (wf_key _ (twf_queue t Ht) _ _ Hhm).
    + intros hm Hi. unfold leave_hold. by rewrite idle_knows.
  - unfold update_ep_interest. set (map := foldl _ _ i).
    apply (visit_done (CallInterest e i) t ctx map (interest_visit map e)
      (fun hm => if concerns map e hm then join_hold e hm else hm) (concerns map e));
      [done|done|apply map_ok_foldl_insert, map_ok_delete, Ht| | | |].
    + intros id hm np _. rewrite interest_visit_eq. by destruct (concerns map e hm).
    + intros hm. destruct (concerns map e hm); [apply join_hold_message|done].
    + intros hm Hi. by rewrite idle_concerns.
    + intros hm ep. destruct (concerns map e hm); [apply join_hold_visits|by left].
Qed.

(** What every handler guarantees about one call. *)
Definition call_outcome (c : topic_call) t ctx t' ctx' : Prop :=
  topic_wf t' /\ topic_config t' = topic_config t /\ ctx_extends ctx ctx' /\
  (is_Some (ctx_topic ctx) -> conserved (call_id c) (topic_abs t) ctx (topic_abs t') ctx').

Lemma shape_extends c t ctx l' ctx' : call_shape t ctx l' ctx' c -> ctx_extends ctx ctx'.
Proof.
  destruct 1 as [m receivers Hs|m Hs|u Hs|c f ids _ _ _ _ _ Hs]; apply (f_equal snd) in Hs; cbn [snd] in Hs; subst ctx'.
  - apply spec_hold_extends.
  - apply extends_resolve_ack.
  - apply spec_update_extends.
  - apply spec_poll_all_extends.
Qed.

Lemma shape_conserved c t ctx l' ctx' tl :
  call_shape t ctx l' ctx' c -> call_ready c t ctx -> ctx_topic ctx = Some tl ->
  conserved (call_id c) (topic_abs t) ctx l' ctx'.
Proof.
  intros Hshape Hready Htl. destruct Hshape as [m receivers Hs|m Hs|u Hs|c f ids Hc Hf _ _ _ Hs]; cbn [call_id].
  - pose proof (spec_hold_conserved m receivers t ctx tl Htl) as Hcons. rewrite <-Hs in Hcons. apply Hcons.
    apply room_drop_nonempty, Hready.
  - injection Hs as -> ->. exists [(msg_id m, Err (wait_ack_exception NoAvailableTarget))]. by rewrite acks_of_resolve_ack, Htl.
  - pose proof (spec_update_conserved (config_blocking (topic_config t)) (reachable_eps (ctx_node_id ctx) t)
      u (topic_abs t) ctx tl Htl) as Hcons. by rewrite <-Hs in Hcons.
  - rewrite Hc. apply (conserved_trans [] [] _ (f <$> topic_abs t) _ _ ctx).
    + apply conserved_refl; [done|]. by apply fmap_hold_id.
    + pose proof (spec_poll_all_conserved (config_blocking (topic_config t)) (default ∅ (call_table c t !! ctx_node_id ctx)) ids (f <$> topic_abs t) ctx tl Htl)
        as Hcons. by rewrite <-Hs in Hcons.
Qed.

Lemma run_call_ok c t ctx :
  topic_wf t -> call_ready c t ctx ->
  exists t' ctx', run_call c t ctx = Done (t', ctx') /\ call_outcome c t ctx t' ctx'.
Proof.
  intros Ht Hready. destruct (run_call_done c t ctx Ht Hready) as (t' & ctx' & Hr & Hwf & Hcfg & _ & Hshape).
  exists t', ctx'. split; [done|]. split_and!; [done|done|by eapply shape_extends|].
  intros [tl Htl]. by eapply shape_conserved.
Qed.

Lemma spec_poll_all_length b reach ids l ctx : length (fst (spec_poll_all b reach ids l ctx)) <= length l.
Proof.
  unfold spec_poll_all. revert l ctx. induction ids as [|i ids IH]; intros l ctx; cbn [foldl]; [done|].
  pose proof (spec_update_ids b reach (state_update_new_empty i) l ctx) as Hs%sublist_length. rewrite !length_fmap in Hs.
  destruct (spec_update b reach (state_update_new_empty i) l ctx) as [l1 ctx1]. cbn [fst] in Hs.
  specialize (IH l1 ctx1). lia.
Qed.

Lemma shape_length c t ctx l' ctx' o :
  overflow_config (topic_config t) = Some o -> call_shape t ctx l' ctx' c ->
  (Z.of_nat (length l') <= Z.max (overflow_size o) (Z.of_nat (length (topic_abs t))))%Z.
Proof.
  intros Ho. destruct 1 as [m receivers Hs|m Hs|u Hs|c f ids _ _ _ _ _ Hs]; apply (f_equal fst) in Hs; cbn [fst] in Hs; subst l'.
  - by apply length_spec_hold.
  - lia.
  - pose proof (spec_update_ids (config_blocking (topic_config t)) (reachable_eps (ctx_node_id ctx) t) u (topic_abs t) ctx)
      as Hs%sublist_length. rewrite !length_fmap in Hs. lia.
  - pose proof (spec_poll_all_length (config_blocking (topic_config t)) (default ∅ (call_table c t !! ctx_node_id ctx))
      ids (f <$> topic_abs t) ctx) as Hs. rewrite length_fmap in Hs. lia.
Qed.

(** C9: across any sequence of handler calls on a well-formed topic, nothing is
    lost and nothing is answered twice, as long as each message brought has an id
    that is not held, a supported mode, and a later time than those held
    ([calls_ready]; of two messages of one instant the second is lost, as
    [Queue.same_time_push_loses] says).  Every call returns, the topic stays well
    formed, and the messages held at the start together with those brought by
    [hold_new_message] are, as a multiset, the messages answered by the calls
    together with those still held. *)
Theorem messages_conserved (cs : list topic_call) (t : TopicData) (ctx : ProposalContext) (tl : loc)
    (Ht : topic_wf t) (Hctx : ctx_topic ctx = Some tl) (Hready : calls_ready cs t ctx) :
  exists t' ctx' answers, run_calls cs t ctx = Done (t', ctx') /\ topic_wf t' /\
    acks_of ctx' = acks_of ctx ++ answers /\
    (cs ≫= call_id) ++ (hold_id <$> topic_abs t) ≡ₚ answers.*1 ++ (hold_id <$> topic_abs t').
Proof.
  revert t ctx Ht Hctx Hready. induction cs as [|c cs IH]; intros t ctx Ht Hctx Hready; cbn [run_calls].
  { exists t, ctx, []. rewrite app_nil_r. by split_and!. }
  destruct Hready as [Hc Hcs].
  destruct (run_call_ok c t ctx Ht Hc) as (t1 & ctx1 & Hr & Hwf & _ & He & Hcons).
  rewrite Hr. cbn [mbind Outcome_bind]. destruct (Hcons ltac:(eauto)) as (a1 & Ha1 & Hp1).
  destruct (IH t1 ctx1) as (t' & ctx' & a2 & -> & Hwf' & Ha2 & Hp2);
    [done|by rewrite (extends_ctx_topic ctx)|by apply Hcs|].
  exists t', ctx', (a1 ++ a2). split_and!; [done|done|by rewrite Ha2, Ha1, app_assoc|].
  rewrite fmap_app. cbn [mbind list_bind]. rewrite <-!app_assoc, <-Hp2.
  rewrite (app_assoc a1.*1). rewrite (Permutation_app_comm a1.*1), <-app_assoc, <-Hp1. solve_Permutation.
Qed.

(** C32: No sequence of calls takes a topic over its overflow capacity: whatever the
    policy, the delivery modes, the kind and the acknowledgements, it ends with no
    more messages than the capacity allows, or than it began with.  (A topic loaded
    from the durable store may begin with more: the load checks no capacity; the
    theorem says that no call adds to the excess.) *)
Theorem calls_within_capacity (cs : list topic_call) (t : TopicData) (ctx : ProposalContext) (o : TopicOverflowConfig)
    (Ht : topic_wf t) (Hready : calls_ready cs t ctx) (Ho : overflow_config (topic_config t) = Some o) :
  exists t' ctx', run_calls cs t ctx = Done (t', ctx') /\
    (Z.of_nat (length (topic_abs t')) <= Z.max (overflow_size o) (Z.of_nat (length (topic_abs t))))%Z.
Proof.
  revert t ctx Ht Hready Ho. induction cs as [|c cs IH]; intros t ctx Ht Hready Ho; cbn [run_calls].
  { exists t, ctx. split; [done|lia]. }
  destruct Hready as [Hc Hcs]. destruct (run_call_done c t ctx Ht Hc) as (t1 & ctx1 & Hr & Hwf & Hcfg & _ & Hshape).
  pose proof (shape_length c t ctx _ _ o Ho Hshape) as Hlen.
  destruct (IH t1 ctx1 Hwf) as (t' & ctx' & Hr' & Hlen'); [by apply Hcs|by rewrite Hcfg|].
  exists t', ctx'. rewrite Hr. cbn [mbind Outcome_bind]. split; [done|lia].
Qed.
End Delivery.

Section DeliveryWitnesses.
Import Sample.
#[local] Existing Instance sample_hash.

(** A message comes in, drops the oldest, another is processed, the endpoint leaves. *)
Definition sample_calls : list topic_call :=
  [CallHold (msg Push x03); CallUpdate sample_update; CallOffline (nid x01) (ep x05)].

Lemma messages_conserved_witness :
  exists t' ctx' answers, run_calls sample_calls sample_topic later = Done (t', ctx') /\ topic_wf t' /\
    acks_of ctx' = acks_of later ++ answers /\
    (sample_calls ≫= call_id) ++ (hold_id <$> topic_abs sample_topic) ≡ₚ
      answers.*1 ++ (hold_id <$> topic_abs t').
Proof.
  apply (messages_conserved sample_calls sample_topic later 0 sample_topic_wf).
  - vm_compute. reflexivity.
  - split; [split; [discriminate|exact sample_hold_ready]|].
    intros t1 c1 _. split; [exact I|]. intros t2 c2 _. split; [exact I|]. intros t3 c3 _. exact I.
Defined.

Lemma calls_within_capacity_witness :
  exists t' ctx', run_calls sample_calls sample_topic later = Done (t', ctx') /\
    (Z.of_nat (length (topic_abs t')) <= Z.max 2 (Z.of_nat (length (topic_abs sample_topic))))%Z.
Proof.
  apply (calls_within_capacity sample_calls sample_topic later (mkOverflowConfig DropOld 2) sample_topic_wf);
    [|reflexivity].
  split; [split; [discriminate|exact sample_hold_ready]|].
  intros t1 c1 _. split; [exact I|]. intros t2 c2 _. split; [exact I|]. intros t3 c3 _. exact I.
Defined.
End DeliveryWitnesses.
