(* ===== verification/Replica.v ===== *)
(** * What the replicas of a topic agree on

    Every node applies the same log to its own copy of the topics, with its own
    clock, its own hash order, and its own idea of which endpoints it can reach: a
    delivery a node has started is [Sending] there and still [Unsent] elsewhere.
    Up to that, the copies agree.  This file states what is shared, gives the
    handlers of a topic as functions of the shared state alone, and shows that
    each handler, on whatever node, implements its function. *)

From S2P Require Import Prelude Ids Interest Message Proposal Queue Topic Delivery.

(** ** The shared state *)

(** Whether a delivery has been started is a node's own affair. *)
Definition settle (k : MessageStatusKind) : MessageStatusKind :=
  match k with Sending => Unsent | k => k end.

Definition shared_hold (hm : HoldMessage) : HoldMessage := with_status (settle <$> hold_status hm) hm.

Record Shared : Type := mkShared {
  shared_config : TopicConfig;
  shared_routing : gmap NodeId (gset EndpointAddr);
  shared_interests : gmap EndpointAddr (gset Interest);
  shared_held : list HoldMessage;
}.

Definition shared_topic (t : TopicData) : Shared :=
  mkShared (topic_config t) (ep_routing_table t) (raw (ep_interest_map t)) (shared_hold <$> topic_abs t).

(** ** The handlers on the shared state

    [past] says which expiry times have passed. *)
Section SharedCalls.
Context `{Hash64} (past : Z -> bool).
Implicit Types (l : list HoldMessage) (r : gmap EndpointAddr (gset Interest)).

Definition shared_done (hm : HoldMessage) : bool :=
  match target_kind (header (message hm)) with
  | Durable =>
      match durability (header (message hm)) with
      | None => true
      | Some d =>
          past (expire d) ||
          from_option (fun n => n <=? Z.of_nat (size (hold_status hm)))%Z false (max_receiver d)
      end
  | _ => bool_decide (map_Forall (fun _ k => is_resolved k (expect_kind (wait_ack hm)) = true) (hold_status hm))
  end.

(** The acknowledgements of an update, each against the status before it. *)
Definition ack_into (e : MessageAckExpectKind) (new old : option MessageStatusKind) : option MessageStatusKind :=
  match new, old with
  | Some k, Some cur => Some (if is_resolved cur e then cur else k)
  | Some k, None => Some k
  | None, _ => old
  end.
Definition acked_by (u : gmap EndpointAddr MessageStatusKind) (hm : HoldMessage) : HoldMessage :=
  with_status (merge (ack_into (expect_kind (wait_ack hm))) u (hold_status hm)) hm.
Definition shared_acks (u : MessageStateUpdate) l : list HoldMessage :=
  (fun hm => if decide (hold_id hm = update_message_id u)
             then shared_hold (acked_by (update_status u) hm) else hm) <$> l.

Fixpoint shared_flush l : list HoldMessage :=
  match l with
  | [] => []
  | hm :: l' => if shared_done hm then shared_flush l' else l
  end.

(** Polling the messages of [ids], in whatever order. *)
Definition shared_poll (blocking : bool) (ids : gset MessageId) l : list HoldMessage :=
  if blocking then
    match l with
    | [] => []
    | hm :: _ => if decide (hold_id hm ∈ ids) then shared_flush l else l
    end
  else filter (fun hm => ~ (hold_id hm ∈ ids /\ shared_done hm = true)) l.

(** The endpoints interested in one of the subjects. *)
Definition shared_find r (subs : list Subject) : gset EndpointAddr :=
  foldl (fun found s => found ∪ find_reference r s) ∅ subs.

Definition shared_push r (m : Message) : option EndpointAddr :=
  let ring := hash_ring (shared_find r (subjects (header m))) in
  snd <$> ring !! Z.to_nat (hash64_message_id (msg_id m) mod Z.of_nat (length ring)).

Definition shared_receivers r (m : Message) : option (gset EndpointAddr) :=
  match target_kind (header m) with
  | Durable | Online => Some (shared_find r (subjects (header m)))
  | Available => None
  | Push => (fun e => {[e]}) <$> shared_push r m
  end.

Definition shared_room (c : TopicConfig) (held : nat) : room :=
  match overflow_config c with
  | Some c =>
      if (overflow_size c <=? Z.of_nat held)%Z then
        match overflow_policy c with RejectNew => RoomReject | DropOld => RoomDropOld end
      else RoomFree
  | None => RoomFree
  end.

Definition shared_append (c : TopicConfig) (m : Message) (receivers : gset EndpointAddr) l : list HoldMessage :=
  shared_poll (config_blocking c) {[msg_id m]}
    (l ++ [mkHold m (wait_ack_new (ack_kind (header m)) receivers)]).

Definition set_shared_held l (s : Shared) : Shared :=
  mkShared (shared_config s) (shared_routing s) (shared_interests s) l.

Definition shared_new_message (m : Message) (s : Shared) : Shared :=
  match shared_receivers (shared_interests s) m with
  | None => s
  | Some receivers =>
      match shared_room (shared_config s) (length (shared_held s)) with
      | RoomFree => set_shared_held (shared_append (shared_config s) m receivers (shared_held s)) s
      | RoomReject => s
      | RoomDropOld => set_shared_held (shared_append (shared_config s) m receivers (tail (shared_held s))) s
      end
  end.

Definition shared_concerns r (ep : EndpointAddr) (hm : HoldMessage) : bool :=
  bool_decide (target_kind (header (message hm)) = Durable) &&
  existsb (fun s => bool_decide (ep ∈ find_reference r s)) (subjects (header (message hm))).

(** Rewrite the messages by [f] and poll those [p] holds of. *)
Definition shared_visit (f : HoldMessage -> HoldMessage) (p : HoldMessage -> bool) (blocking : bool) l :
    list HoldMessage :=
  shared_poll blocking (list_to_set (hold_id <$> filter (fun hm => p hm = true) l)) (f <$> l).

Definition shared_join r (ep : EndpointAddr) (hm : HoldMessage) : HoldMessage :=
  if shared_concerns r ep hm then join_hold ep hm else hm.

Definition raw_insert_all (ep : EndpointAddr) (interests : list Interest) r : gmap EndpointAddr (gset Interest) :=
  foldl (fun r i => <[ep := {[i]} ∪ default ∅ (r !! ep)]> r) r interests.

(** The handlers [NodeData] calls on a topic. *)
Definition shared_call (c : topic_call) (s : Shared) : Shared :=
  let blocking := config_blocking (shared_config s) in
  match c with
  | CallHold m => shared_new_message m s
  | CallUpdate u =>
      set_shared_held (shared_poll blocking {[update_message_id u]} (shared_acks u (shared_held s))) s
  | CallOnline ep interests host =>
      let r := raw_insert_all ep interests (shared_interests s) in
      mkShared (shared_config s)
        (<[host := {[ep]} ∪ default ∅ (shared_routing s !! host)]> (shared_routing s)) r
        (shared_visit (shared_join r ep) (fun hm => shared_concerns r ep hm && negb (knows ep hm))
           blocking (shared_held s))
  | CallOffline host ep =>
      mkShared (shared_config s)
        (<[host := default ∅ (shared_routing s !! host) ∖ {[ep]}]> (shared_routing s))
        (delete ep (shared_interests s))
        (shared_visit (leave_hold ep) (knows ep) blocking (shared_held s))
  | CallInterest ep interests =>
      let r := raw_insert_all ep interests (delete ep (shared_interests s)) in
      mkShared (shared_config s) (shared_routing s) r
        (shared_visit (shared_join r ep) (shared_concerns r ep) blocking (shared_held s))
  end.
End SharedCalls.

(** ** Facts about the shared statuses *)

Section ReplicaFacts.
Context `{HashOrder, Clock, Hash64}.
Implicit Types (hm : HoldMessage) (l : list HoldMessage) (ctx : ProposalContext) (t : TopicData).

Lemma settle_is_resolved k e : is_resolved (settle k) e = is_resolved k e.
Proof. by destruct k, e. Qed.

Lemma shared_hold_id hm : hold_id (shared_hold hm) = hold_id hm.
Proof. done. Qed.

Lemma shared_hold_status hm ep : hold_status (shared_hold hm) !! ep = settle <$> hold_status hm !! ep.
Proof. apply lookup_fmap. Qed.

Lemma hold_status_with st hm : hold_status (with_status st hm) = st.
Proof. done. Qed.

Lemma hold_ext hm hm' :
  message hm = message hm' -> expect_kind (wait_ack hm) = expect_kind (wait_ack hm') ->
  (forall ep, hold_status hm !! ep = hold_status hm' !! ep) -> hm = hm'.
Proof.
  destruct hm as [m [e st]], hm' as [m' [e' st']]. cbn. intros -> -> Hst. do 2 f_equal. by apply map_eq.
Qed.

Lemma shared_ids l : hold_id <$> (shared_hold <$> l) = hold_id <$> l.
Proof. by rewrite <-list_fmap_compose. Qed.

Lemma shared_sent reach hm : shared_hold (sent_hold reach hm) = shared_hold hm.
Proof.
  apply hold_ext; [done|done|]. intros ep. rewrite !shared_hold_status.
  unfold sent_hold, with_status, hold_status at 1. cbn. rewrite map_lookup_imap.
  destruct (hold_status hm !! ep) as [k|]; [|done]. cbn. unfold sent_status, is_unsent.
  destruct (decide (k = Unsent)) as [->|Hne]; [|by rewrite (bool_decide_false (k = Unsent))].
  by destruct (bool_decide (ep ∈ reach)).
Qed.

Lemma shared_new m receivers :
  shared_hold (mkHold m (wait_ack_new (ack_kind (header m)) receivers)) =
    mkHold m (wait_ack_new (ack_kind (header m)) receivers).
Proof.
  apply hold_ext; [done|done|]. intros ep. rewrite shared_hold_status. unfold hold_status. cbn.
  destruct (set_to_map _ _ !! ep) as [k|] eqn:Hk; [|done].
  apply lookup_set_to_map in Hk as (x & _ & [= -> <-]); done.
Qed.

(** *** Acknowledgements *)

Lemma lookup_acked_by u hm ep :
  hold_status (acked_by u hm) !! ep =
    ack_into (expect_kind (wait_ack hm)) (u !! ep) (hold_status hm !! ep).
Proof.
  unfold acked_by, with_status, hold_status at 1. cbn. rewrite lookup_merge.
  by destruct (u !! ep), (hold_status hm !! ep).
Qed.

Lemma acked_fold (u : list (EndpointAddr * MessageStatusKind)) hm :
  NoDup u.*1 ->
  foldl (fun hm '(from, k) => acked_hold from k hm) hm u = acked_by (list_to_map u) hm.
Proof.
  revert hm. induction u as [|[from k] u IH]; intros hm Hnd.
  { apply hold_ext; [done|done|]. intros ep. by rewrite lookup_acked_by, list_to_map_nil, lookup_empty. }
  apply NoDup_cons in Hnd as [Hni Hnd]. cbn [foldl]. rewrite IH by done.
  apply hold_ext; [done|done|]. intros ep. rewrite !lookup_acked_by.
  change (list_to_map ((from, k) :: u)) with (<[from := k]> (list_to_map u) : gmap EndpointAddr MessageStatusKind).
  change (hold_status (acked_hold from k hm)) with (acked_status (expect_kind (wait_ack hm)) from k (hold_status hm)).
  change (expect_kind (wait_ack (acked_hold from k hm))) with (expect_kind (wait_ack hm)).
  unfold acked_status. destruct (decide (ep = from)) as [->|Hne].
  - rewrite lookup_insert_eq, not_elem_of_list_to_map_1 by done.
    destruct (hold_status hm !! from) as [cur|] eqn:Hcur; cbn; [|by rewrite lookup_insert_eq].
    destruct (is_resolved cur _); [by rewrite Hcur|by rewrite lookup_insert_eq].
  - rewrite lookup_insert_ne by done.
    assert (forall st, match hold_status hm !! from with
        | Some cur => if is_resolved cur (expect_kind (wait_ack hm)) then hold_status hm else <[from := k]> st
        | None => <[from := k]> st end !! ep =
      match hold_status hm !! from with
        | Some cur => if is_resolved cur (expect_kind (wait_ack hm)) then hold_status hm !! ep else st !! ep
        | None => st !! ep end) as ->.
    { intros st. destruct (hold_status hm !! from) as [cur|]; [destruct (is_resolved cur _); [done|]|];
        by rewrite lookup_insert_ne by done. }
    by destruct (hold_status hm !! from) as [cur|]; [destruct (is_resolved cur _)|].
Qed.

Lemma spec_acks_eq (u : MessageStateUpdate) l :
  spec_acks u l =
    (fun hm => if decide (hold_id hm = update_message_id u) then acked_by (update_status u) hm else hm) <$> l.
Proof.
  unfold spec_acks.
  transitivity ((fun hm => if decide (hold_id hm = update_message_id u)
      then foldl (fun hm '(from, k) => acked_hold from k hm) hm (hm_iter (update_status u)) else hm) <$> l).
  - generalize (hm_iter (update_status u)). intros us. revert l.
    induction us as [|[from k] us IH]; intros l; cbn [foldl].
    + rewrite <-(list_fmap_id l) at 1. apply list_fmap_ext. intros i hm _. by case_decide.
    + rewrite IH, <-list_fmap_compose. apply list_fmap_ext. intros i hm _. cbn.
      destruct (decide (hold_id hm = update_message_id u)) as [He|Hne]; [|by rewrite decide_False].
      by rewrite decide_True.
  - apply list_fmap_ext. intros i hm _. case_decide; [|done]. rewrite acked_fold by apply NoDup_hm_iter_fst.
    f_equal. rewrite (list_to_map_proper _ (map_to_list (update_status u))); [apply list_to_map_to_list| |].
    + apply NoDup_hm_iter_fst.
    + apply hm_iter_perm.
Qed.

Lemma shared_acked u hm : shared_hold (acked_by u hm) = shared_hold (acked_by u (shared_hold hm)).
Proof.
  apply hold_ext; [done|done|]. intros ep. rewrite !shared_hold_status, !lookup_acked_by, shared_hold_status.
  change (expect_kind (wait_ack (shared_hold hm))) with (expect_kind (wait_ack hm)).
  destruct (u !! ep) as [k|], (hold_status hm !! ep) as [cur|]; try done; cbn.
  - rewrite settle_is_resolved. destruct (is_resolved cur _); [by destruct cur|done].
  - by destruct cur.
Qed.

Lemma shared_spec_acks u l : shared_hold <$> spec_acks u l = shared_acks u (shared_hold <$> l).
Proof.
  rewrite spec_acks_eq. unfold shared_acks. rewrite <-!list_fmap_compose. apply list_fmap_ext. intros i hm _. cbn.
  rewrite shared_hold_id. case_decide; [apply shared_acked|done].
Qed.

(** *** Joining and leaving *)

Lemma shared_join_hold ep hm : shared_hold (join_hold ep hm) = join_hold ep (shared_hold hm).
Proof.
  unfold join_hold. rewrite shared_hold_status. destruct (hold_status hm !! ep) as [k|] eqn:Hk; [done|].
  cbn [fmap option_fmap option_map].
  apply hold_ext; [done|done|]. intros e. rewrite shared_hold_status, !hold_status_with.
  destruct (decide (e = ep)) as [->|Hne]; [by rewrite !lookup_insert_eq|].
  rewrite !lookup_insert_ne by done. by rewrite <-?shared_hold_status, ?lookup_fmap.
Qed.

Lemma shared_knows ep hm : knows ep (shared_hold hm) = knows ep hm.
Proof. unfold knows. rewrite shared_hold_status. apply bool_decide_ext. apply fmap_is_Some. Qed.

Lemma shared_leave_hold ep hm : shared_hold (leave_hold ep hm) = leave_hold ep (shared_hold hm).
Proof.
  unfold leave_hold. rewrite shared_knows. destruct (knows ep hm); [|done].
  apply hold_ext; [done|done|]. intros e. rewrite shared_hold_status, !hold_status_with.
  destruct (decide (e = ep)) as [->|Hne]; [by rewrite !lookup_insert_eq|].
  rewrite !lookup_insert_ne by done. by rewrite <-?shared_hold_status, ?lookup_fmap.
Qed.
End ReplicaFacts.

(** ** Polling

    The readings a replica's clock gives during a call, those from [lo] up to
    [hi], are all on the same side of the expiry of a message. *)

Definition reads (ctx : ProposalContext) : nat := clock_reads (runtime (ctx_world ctx)).

Definition on_side `{Clock} (past : Z -> bool) (lo hi : nat) (m : Message) : Prop :=
  forall d n, durability (header m) = Some d -> lo <= n < hi -> (expire d <? clock_at n)%Z = past (expire d).

Section PollFacts.
Context `{HashOrder, Clock, Hash64}.
Context (past : Z -> bool) (lo hi : nat).
Implicit Types (hm : HoldMessage) (l : list HoldMessage) (ctx : ProposalContext) (ids : gset MessageId).

Definition sided hm : Prop := on_side past lo hi (message hm).

Lemma sided_send_closed : send_closed sided.
Proof. by intros reach hm. Qed.

Lemma reads_extends ctx ctx' : ctx_extends ctx ctx' -> reads ctx <= reads ctx'.
Proof. apply ext_clock. Qed.

Lemma forallb_settled hm :
  forallb (fun k => is_resolved k (expect_kind (wait_ack hm))) (hm_iter (hold_status hm)).*2 =
    bool_decide (map_Forall (fun _ k => is_resolved k (expect_kind (wait_ack hm)) = true)
      (hold_status (shared_hold hm))).
Proof.
  apply eq_true_iff_eq. rewrite bool_decide_eq_true, forallb_forall. split.
  - intros Hall ep k Hk. rewrite shared_hold_status in Hk. apply fmap_Some_1 in Hk as (k0 & Hk & ->).
    rewrite settle_is_resolved. apply Hall, list_elem_of_In, list_elem_of_fmap.
    exists (ep, k0). split; [done|]. by apply elem_of_hm_iter.
  - intros Hall k Hin%list_elem_of_In. apply list_elem_of_fmap in Hin as ([ep k'] & -> & Hin).
    apply elem_of_hm_iter in Hin. rewrite <-settle_is_resolved. apply (Hall ep).
    by rewrite shared_hold_status, Hin.
Qed.

Lemma hold_is_resolved_shared hm ctx :
  sided hm -> lo <= reads ctx -> reads (snd (hold_is_resolved hm ctx)) <= hi ->
  fst (hold_is_resolved hm ctx) = shared_done past (shared_hold hm).
Proof.
  intros Hside Hlo Hhi. unfold hold_is_resolved, shared_done in *.
  change (message (shared_hold hm)) with (message hm).
  change (expect_kind (wait_ack (shared_hold hm))) with (expect_kind (wait_ack hm)).
  destruct (target_kind (header (message hm))); [|apply forallb_settled..].
  destruct (durability (header (message hm))) as [d|] eqn:Hd; [|done].
  cbn [utc_now] in *. change (clock_reads (runtime (ctx_world ctx))) with (reads ctx) in *.
  assert ((expire d <? clock_at (reads ctx))%Z = past (expire d)) as Hp.
  { apply (Hside d); [done|]. split; [done|].
    destruct (expire d <? clock_at (reads ctx))%Z, (max_receiver d) as [n|];
      try destruct (n <=? _)%Z; cbn in Hhi; unfold reads in *; cbn in Hhi; lia. }
  rewrite Hp. unfold hold_status, shared_hold, with_status at 1. cbn [wait_ack status].
  rewrite map_size_fmap. destruct (past (expire d)); [done|]. cbn.
  destruct (max_receiver d) as [n|]; [|done]. cbn. by destruct (n <=? _)%Z.
Qed.

(** A send and the test that follows it. *)
Lemma poll_one_shared reach hm ctx hm' ctx1 done ctx2 :
  sided hm -> lo <= reads ctx -> reads ctx2 <= hi ->
  send_unsent reach hm ctx = (hm', ctx1) -> hold_is_resolved hm' ctx1 = (done, ctx2) ->
  done = shared_done past (shared_hold hm) /\ shared_hold hm' = shared_hold hm /\ message hm' = message hm /\
  ctx_extends ctx ctx2.
Proof.
  intros Hside Hlo Hhi Hs Hr. rewrite send_unsent_eq in Hs. injection Hs as <- <-.
  pose proof (extends_foldl_dispatch (message hm) (to_send reach hm) ctx) as He1.
  pose proof (hold_is_resolved_extends (sent_hold reach hm)
    (foldl (fun ctx ep => dispatch_message (message hm) ep ctx) ctx (to_send reach hm))) as He2.
  rewrite Hr in He2. pose proof (reads_extends _ _ He1).
  split_and!; [|apply shared_sent|done|by etrans].
  rewrite <-(shared_sent reach). rewrite <-(hold_is_resolved_shared (sent_hold reach hm)
    (foldl (fun ctx ep => dispatch_message (message hm) ep ctx) ctx (to_send reach hm)));
    [by rewrite Hr|done|lia|by rewrite Hr].
Qed.

Lemma spec_flush_shared reach l ctx :
  Forall sided l -> lo <= reads ctx -> reads (snd (spec_flush reach l ctx)) <= hi ->
  shared_hold <$> fst (spec_flush reach l ctx) = shared_flush past (shared_hold <$> l).
Proof.
  intros Hl. revert ctx. induction Hl as [|hm l Hhm Hl IH]; intros ctx Hlo Hhi; [done|].
  cbn [spec_flush] in *. rewrite fmap_cons. cbn [shared_flush].
  destruct (send_unsent reach hm ctx) as [hm' ctx1] eqn:Hs.
  destruct (hold_is_resolved hm' ctx1) as [done ctx2] eqn:Hr.
  assert (reads ctx2 <= hi) as Hhi2.
  { etrans; [|exact Hhi]. destruct done; [|done].
    apply reads_extends. etrans; [apply extends_finish|apply spec_flush_extends]. }
  destruct (poll_one_shared _ _ _ _ _ _ _ Hhm Hlo Hhi2 Hs Hr) as (Hd & Hm & _ & He). rewrite <-Hd.
  destruct done.
  - apply IH; [|done]. etrans; [exact Hlo|]. apply reads_extends. etrans; [exact He|apply extends_finish].
  - cbn [fst]. by rewrite fmap_cons, Hm.
Qed.

Lemma spec_poll_at_shared reach id l ctx :
  Forall sided l -> NoDup (hold_id <$> l) -> lo <= reads ctx ->
  reads (snd (spec_poll_at reach id l ctx)) <= hi ->
  shared_hold <$> fst (spec_poll_at reach id l ctx) = shared_poll past false {[id]} (shared_hold <$> l).
Proof.
  intros Hl Hnd Hlo. unfold shared_poll. revert ctx Hlo.
  induction Hl as [|hm l Hhm Hl IH]; intros ctx Hlo Hhi; [done|].
  rewrite fmap_cons in Hnd. apply NoDup_cons in Hnd as [Hni Hnd]. specialize (IH Hnd).
  cbn [spec_poll_at] in *. rewrite fmap_cons, filter_cons, shared_hold_id.
  destruct (decide (hold_id hm = id)) as [Hid|Hne].
  - assert (filter (fun h => ~ (hold_id h ∈ ({[id]} : gset MessageId) /\ shared_done past h = true)) (shared_hold <$> l) =
      shared_hold <$> l) as Hrest.
    { apply filter_all, Forall_forall. intros h (h0 & -> & Hh)%list_elem_of_fmap [Hin%elem_of_singleton _].
      apply Hni. rewrite Hid, <-Hin, shared_hold_id. by apply list_elem_of_fmap_2. }
    destruct (send_unsent reach hm ctx) as [hm' ctx1] eqn:Hs.
    destruct (hold_is_resolved hm' ctx1) as [done ctx2] eqn:Hr.
    assert (reads ctx2 <= hi) as Hhi2.
    { etrans; [|exact Hhi]. destruct done; [|done]. apply reads_extends, extends_finish. }
    destruct (poll_one_shared _ _ _ _ _ _ _ Hhm Hlo Hhi2 Hs Hr) as (Hd & Hm & _ & He). rewrite <-Hd.
    destruct done; cbn [fst].
    + rewrite decide_False by (intros Hc; apply Hc; split; [set_solver|done]). by rewrite Hrest.
    + rewrite decide_True by (by intros [_ ?]). by rewrite fmap_cons, Hm, Hrest.
  - rewrite decide_True by (by intros [?%elem_of_singleton _]).
    destruct (spec_poll_at reach id l ctx) as [l' ctx'] eqn:Hp. cbn [fst snd] in *.
    specialize (IH ctx Hlo). rewrite Hp in IH. rewrite fmap_cons. f_equal. by apply IH.
Qed.

Lemma shared_flush_idemp l : shared_flush past (shared_flush past l) = shared_flush past l.
Proof.
  induction l as [|hm l IH]; [done|]. cbn [shared_flush]. destruct (shared_done past hm) eqn:Hd; [done|].
  cbn [shared_flush]. by rewrite Hd.
Qed.

Lemma spec_poll_shared b reach id l ctx :
  Forall sided l -> NoDup (hold_id <$> l) -> lo <= reads ctx ->
  reads (snd (spec_poll b reach id l ctx)) <= hi ->
  shared_hold <$> fst (spec_poll b reach id l ctx) = shared_poll past b {[id]} (shared_hold <$> l).
Proof.
  intros Hl Hnd Hlo Hhi. unfold spec_poll in *. destruct b; [|by apply spec_poll_at_shared].
  destruct l as [|hm l]; [by destruct (decide _)|]. cbn [head fmap option_fmap option_map list_fmap shared_poll] in *.
  rewrite shared_hold_id. destruct (decide (Some (hold_id hm) = Some id)) as [Hid|Hne].
  - rewrite decide_True by (apply elem_of_singleton; congruence). by apply spec_flush_shared.
  - rewrite decide_False by (intros Hc%elem_of_singleton; congruence). done.
Qed.

(** Polling one after the other is polling all of them. *)
Lemma shared_poll_union b ids1 ids2 l :
  shared_poll past b ids2 (shared_poll past b ids1 l) = shared_poll past b (ids1 ∪ ids2) l.
Proof.
  unfold shared_poll. destruct b.
  - destruct l as [|hm l]; [done|]. destruct (decide (hold_id hm ∈ ids1)) as [Hin|Hin].
    + rewrite decide_True by set_solver. pose proof (shared_flush_idemp (hm :: l)) as Hi.
      destruct (shared_flush past (hm :: l)) as [|h f]; [done|]. by case_decide.
    + by destruct (decide (hold_id hm ∈ ids2)); [rewrite decide_True by set_solver|rewrite decide_False by set_solver].
  - rewrite list_filter_filter. apply list_filter_iff. intros h. set_solver.
Qed.

Lemma shared_poll_empty b l : shared_poll past b ∅ l = l.
Proof.
  unfold shared_poll. destruct b; [by destruct l|]. apply filter_all, Forall_forall. set_solver.
Qed.

Lemma spec_poll_all_shared b reach (ids : list MessageId) l ctx :
  Forall sided l -> NoDup (hold_id <$> l) -> lo <= reads ctx ->
  reads (snd (spec_poll_all b reach ids l ctx)) <= hi ->
  shared_hold <$> fst (spec_poll_all b reach ids l ctx) =
    shared_poll past b (list_to_set ids) (shared_hold <$> l).
Proof.
  unfold spec_poll_all. revert l ctx. induction ids as [|id ids IH]; intros l ctx Hl Hnd Hlo Hhi; cbn [foldl].
  { by rewrite shared_poll_empty. }
  cbn [foldl] in Hhi. fold (spec_poll_all b reach ids) in *.
  pose proof (spec_update_extends b reach (state_update_new_empty id) l ctx) as He.
  pose proof (spec_update_ids b reach (state_update_new_empty id) l ctx) as Hids.
  assert (Forall sided (fst (spec_update b reach (state_update_new_empty id) l ctx))) as Hl1.
  { apply (spec_poll_all_Forall sided b reach [id] l ctx sided_send_closed Hl). }
  assert (shared_hold <$> fst (spec_update b reach (state_update_new_empty id) l ctx) =
    shared_poll past b {[id]} (shared_hold <$> l)) as Hs.
  { unfold spec_update in *. rewrite spec_acks_empty in *. apply spec_poll_shared; [done|done|done|].
    etrans; [|exact Hhi]. destruct (spec_poll _ _ _ _ _) as [l1 c1]. apply reads_extends, spec_poll_all_extends. }
  destruct (spec_update b reach (state_update_new_empty id) l ctx) as [l1 ctx1]. cbn [fst snd] in *.
  rewrite IH; [|done|by eapply sublist_NoDup|by etrans; [|apply reads_extends]|done].
  rewrite Hs, shared_poll_union. cbn [list_to_set]. done.
Qed.
End PollFacts.

(** ** The handlers *)

Section CallFacts.
Context `{HashOrder, Clock, Hash64}.
Implicit Types (hm : HoldMessage) (l : list HoldMessage) (ctx : ProposalContext) (t : TopicData).

Lemma interest_map_find_reference (map : InterestMap EndpointAddr) s :
  map_ok map -> interest_map_find s map = find_reference (raw map) s.
Proof.
  intros Hok. apply set_eq. intros e. by rewrite interest_map_find_spec, elem_of_find_reference.
Qed.

Lemma shared_find_spec subs t :
  topic_wf t -> collect_addr_by_subjects subs t = shared_find (raw (ep_interest_map t)) subs.
Proof.
  intros Ht. unfold collect_addr_by_subjects, shared_find. generalize (∅ : gset EndpointAddr).
  induction subs as [|s subs IH]; intros found; [done|]. cbn [foldl].
  by rewrite IH, interest_map_find_reference by apply Ht.
Qed.

Lemma shared_concerns_spec (map : InterestMap EndpointAddr) ep hm :
  map_ok map -> concerns map ep hm = shared_concerns (raw map) ep (shared_hold hm).
Proof.
  intros Hok. unfold concerns, shared_concerns. change (message (shared_hold hm)) with (message hm).
  f_equal. induction (subjects (header (message hm))) as [|s subs IH]; [done|]. cbn [existsb].
  by rewrite IH, interest_map_find_reference.
Qed.

(** The candidates of a [Push] message have distinct hashes. *)
Definition distinct_hashes (r : gmap EndpointAddr (gset Interest)) (m : Message) : Prop :=
  forall e1 e2, e1 ∈ shared_find r (subjects (header m)) -> e2 ∈ shared_find r (subjects (header m)) ->
    hash64_endpoint e1 = hash64_endpoint e2 -> e1 = e2.

Lemma shared_push_spec m t :
  topic_wf t -> distinct_hashes (raw (ep_interest_map t)) m ->
  push_choice m t = shared_push (raw (ep_interest_map t)) m.
Proof.
  intros Ht Hd. unfold push_choice, shared_push. rewrite shared_find_spec by done.
  by rewrite (hash_ring_order _ hash_order_id) by exact Hd.
Qed.

Lemma raw_insert_all_spec ep interests (map : InterestMap EndpointAddr) :
  raw (foldl (fun map i => interest_map_insert i ep map) map interests) =
    raw_insert_all ep interests (raw map).
Proof.
  unfold raw_insert_all. revert map. induction interests as [|i interests IH]; intros map; [done|].
  cbn [foldl]. by rewrite IH.
Qed.

(** The clock readings of a call, for every message it looks at. *)
Definition call_messages (c : topic_call) : list Message :=
  match c with CallHold m => [m] | _ => [] end.

Definition call_sided (past : Z -> bool) (c : topic_call) t ctx ctx' : Prop :=
  forall m, m ∈ call_messages c ++ (message <$> topic_abs t) -> on_side past (reads ctx) (reads ctx') m.

Lemma call_sided_held past c t ctx ctx' :
  call_sided past c t ctx ctx' -> Forall (sided past (reads ctx) (reads ctx')) (topic_abs t).
Proof.
  intros Hs. apply Forall_forall. intros hm Hhm. apply Hs, elem_of_app. right. by apply list_elem_of_fmap_2.
Qed.

(** The endpoint handlers. *)
Lemma visit_shared past t ctx t' ctx' table map
    (body : MessageId -> HoldMessage -> gset MessageId -> HoldMessage * gset MessageId)
    (f f' : HoldMessage -> HoldMessage) (p p' : HoldMessage -> bool) :
  topic_wf t -> map_ok map ->
  (forall id hm np, hold_messages (queue t) !! id = Some hm ->
    body id hm np = (f hm, if p hm then {[id]} ∪ np else np)) ->
  (forall hm, message (f hm) = message hm) ->
  (forall hm, shared_hold (f hm) = f' (shared_hold hm)) -> (forall hm, p hm = p' (shared_hold hm)) ->
  Forall (sided past (reads ctx) (reads ctx')) (topic_abs t) ->
  (let '(hold, message_need_poll) := hm_iter_mut body (hold_messages (queue t)) ∅ in
   poll_all (hs_iter message_need_poll)
     (mkTopicData (topic_config t) table map (set_hold hold (queue t))) ctx) = Done (t', ctx') ->
  shared_topic t' =
    mkShared (topic_config t) table (raw map)
      (shared_visit past f' p' (config_blocking (topic_config t)) (shared_held (shared_topic t))).
Proof.
  intros Ht Hmap Hbody Hf Hff Hpp Hsided Hrun.
  destruct (visit_and_poll t ctx table map body f p Ht Hmap Hbody Hf)
    as (ids & t1 & ctx1 & Hr & _ & Hcfg & Htab & Hm & _ & Hids & _ & Hs).
  rewrite Hr in Hrun. injection Hrun as -> ->. unfold shared_topic at 1. rewrite Hcfg, Htab, Hm. f_equal.
  assert (Forall (sided past (reads ctx) (reads ctx')) (f <$> topic_abs t)) as Hsf.
  { apply Forall_fmap. eapply Forall_impl; [exact Hsided|]. intros hm. cbn. unfold sided. by rewrite Hf. }
  replace (topic_abs t') with (fst (topic_abs t', ctx')) by done. rewrite Hs.
  rewrite (spec_poll_all_shared past (reads ctx) (reads ctx')); [|done| |done|by rewrite <-Hs].
  - unfold shared_visit. cbn [shared_held shared_topic]. f_equal.
    + apply set_eq. intros id. rewrite !elem_of_list_to_set, Hids, list_elem_of_fmap.
      setoid_rewrite list_elem_of_filter. setoid_rewrite list_elem_of_fmap. split.
      * intros (hm & Hhm & <- & Hp). exists (shared_hold hm). rewrite <-Hpp. naive_solver.
      * intros (_ & -> & Hp & hm & -> & Hhm). exists hm. by rewrite Hpp.
    + rewrite <-!list_fmap_compose. apply list_fmap_ext. intros i hm _. apply Hff.
  - rewrite <-(fmap_hold_id f) by done. apply queue_abs_NoDup, Ht.
Qed.

Lemma shared_join_spec (map : InterestMap EndpointAddr) ep hm :
  map_ok map ->
  shared_hold (if concerns map ep hm then join_hold ep hm else hm) =
    shared_join (raw map) ep (shared_hold hm).
Proof.
  intros Hok. unfold shared_join. rewrite <-shared_concerns_spec by done.
  destruct (concerns map ep hm); [apply shared_join_hold|done].
Qed.

(** Accepting a message. *)
Lemma spec_append_shared past m receivers t l ctx ctx' lo :
  Forall (sided past lo (reads ctx')) l -> on_side past lo (reads ctx') m ->
  NoDup (msg_id m :: (hold_id <$> l)) -> lo <= reads ctx ->
  reads (snd (spec_append m receivers t l ctx)) <= reads ctx' ->
  shared_hold <$> fst (spec_append m receivers t l ctx) =
    shared_append past (topic_config t) m receivers (shared_hold <$> l).
Proof.
  intros Hl Hm Hnd Hlo Hhi. unfold spec_append, spec_update in *. rewrite spec_acks_empty in *.
  rewrite (spec_poll_shared past lo (reads ctx')); [| | | |exact Hhi].
  - unfold shared_append. cbn [state_update_new_empty update_message_id]. f_equal.
    rewrite fmap_app. cbn [fmap list_fmap]. by rewrite shared_new.
  - apply Forall_app. split; [done|]. by constructor.
  - rewrite fmap_app, Permutation_app_comm. exact Hnd.
  - etrans; [exact Hlo|]. apply reads_extends. etrans; [apply extends_utc_now|].
    etrans; [apply (extends_push_durable (CmdCreate m))|]. apply (extends_push_durable (CmdUpdateStatus _)).
Qed.

Lemma hold_shared past m t ctx t' ctx' :
  topic_wf t -> call_ready (CallHold m) t ctx -> distinct_hashes (raw (ep_interest_map t)) m ->
  call_sided past (CallHold m) t ctx ctx' -> hold_new_message m t ctx = Done (t', ctx') ->
  shared_topic t' = shared_new_message past m (shared_topic t).
Proof.
  intros Ht [Hk Hready] Hdist Hsided Hrun.
  pose proof (call_sided_held _ _ _ _ _ Hsided) as Hl.
  assert (on_side past (reads ctx) (reads ctx') m) as Hm by (apply Hsided; left).
  assert (match shared_receivers (raw (ep_interest_map t)) m with
    | Some receivers => select_endpoints m t ctx = Done (Some receivers, ctx)
    | None => exists ctx0, select_endpoints m t ctx = Done (None, ctx0)
    end) as Hsel.
  { unfold shared_receivers. destruct (target_kind (header m)) eqn:Hkind; [| |done|].
    1,2: unfold select_endpoints; by rewrite Hkind, shared_find_spec.
    rewrite <-shared_push_spec, (select_push _ _ _ Hkind) by done.
    destruct (push_choice m t); [done|]. cbn. eauto. }
  unfold shared_new_message. cbn [shared_topic shared_interests shared_config shared_held].
  destruct (shared_receivers _ m) as [receivers|].
  2: { destruct Hsel as [ctx0 Hsel]. unfold hold_new_message in Hrun. rewrite Hsel in Hrun. by injection Hrun as <- _. }
  destruct (hold_selected_spec m receivers t ctx ctx Hsel Ht Hready) as (t1 & ctx1 & Hr & _ & Hcfg & Htab & Hmap & Hs).
  rewrite Hr in Hrun. injection Hrun as -> ->.
  unfold set_shared_held, shared_topic at 1. rewrite Hcfg, Htab, Hmap. cbn [shared_routing shared_interests shared_config].
  assert (NoDup (msg_id m :: (hold_id <$> topic_abs t))) as Hnd.
  { constructor; [apply Hready|apply queue_abs_NoDup, Ht]. }
  assert (shared_hold <$> topic_abs t' =
    match room_of t with
    | RoomFree => shared_append past (topic_config t) m receivers (shared_hold <$> topic_abs t)
    | RoomReject => shared_hold <$> topic_abs t
    | RoomDropOld => shared_append past (topic_config t) m receivers (tail (shared_hold <$> topic_abs t))
    end) as ->.
  2: { unfold room_of, shared_room. rewrite length_fmap. destruct (overflow_config _) as [c|]; [|done].
       destruct (overflow_size c <=? _)%Z; [|done]. by destruct (overflow_policy c). }
  replace (topic_abs t') with (fst (topic_abs t', ctx')) by done. rewrite Hs.
  assert (reads (snd (spec_hold m receivers t ctx)) <= reads ctx') as Hhi by by rewrite <-Hs.
  pose proof (room_drop_nonempty t (ready_config _ _ _ Hready)) as Hne.
  clear Hs Hr Hsided. unfold spec_hold in *. destruct (room_of t); [|done|].
  - by apply (spec_append_shared past _ _ _ _ _ ctx' (reads ctx)).
  - destruct (topic_abs t) as [|old l]; [by destruct Hne|]. cbn [fmap list_fmap tail].
    rewrite !fmap_cons in Hnd. apply NoDup_cons in Hnd as [Hni [_ Hnd]%NoDup_cons].
    apply (spec_append_shared past _ _ _ _ _ ctx' (reads ctx)); [by inversion Hl|done| | |done].
    + constructor; [set_solver|done].
    + apply reads_extends, extends_resolve_ack.
Qed.

(** Whatever its node, hash order and clock, a replica's handler is the function
    [shared_call] on what is shared. *)
Lemma run_call_shared past c t ctx t' ctx' :
  topic_wf t -> call_ready c t ctx -> Forall (distinct_hashes (raw (ep_interest_map t))) (call_messages c) ->
  call_sided past c t ctx ctx' -> run_call c t ctx = Done (t', ctx') ->
  shared_topic t' = shared_call past c (shared_topic t).
Proof.
  intros Ht Hready Hdist Hsided Hrun. pose proof (call_sided_held _ _ _ _ _ Hsided) as Hl.
  destruct c as [m|u|e i h|h e|e i]; cbn [run_call shared_call] in *.
  - apply (hold_shared past m t ctx t' ctx'); try done. by inversion Hdist.
  - destruct (update_and_flush_spec u t ctx Ht) as (t1 & ctx1 & Hr & _ & Hcfg & Htab & Hmap & Hs).
    rewrite Hr in Hrun. injection Hrun as -> ->. unfold set_shared_held, shared_topic at 1.
    rewrite Hcfg, Htab, Hmap. cbn [shared_topic shared_config shared_routing shared_interests shared_held]. f_equal.
    replace (topic_abs t') with (fst (topic_abs t', ctx')) by done. rewrite <-Hs. unfold spec_update in *.
    rewrite (spec_poll_shared past (reads ctx) (reads ctx')); [by rewrite shared_spec_acks| | |done|by rewrite Hs].
    + rewrite spec_acks_eq. apply Forall_fmap. eapply Forall_impl; [exact Hl|]. intros hm Hhm. cbn. by case_decide.
    + rewrite spec_acks_ids. apply queue_abs_NoDup, Ht.
  - unfold ep_online in Hrun. set (map := foldl _ _ i) in Hrun.
    assert (map_ok map) as Hok by apply map_ok_foldl_insert, Ht.
    etrans; [eapply (visit_shared past t ctx t' ctx' _ map (online_visit map e)
      (fun hm => if concerns map e hm then join_hold e hm else hm) (shared_join (raw map) e)
      (fun hm => concerns map e hm && negb (knows e hm))
      (fun hm => shared_concerns (raw map) e hm && negb (knows e hm)) Ht Hok); [| | | |exact Hl|exact Hrun]|].
    + intros id hm np _. rewrite online_visit_eq. destruct (concerns map e hm); [|done].
      destruct (knows e hm) eqn:Hk; [|done]. cbn. by rewrite join_hold_known.
    + intros hm. destruct (concerns map e hm); [apply join_hold_message|done].
    + intros hm. by apply shared_join_spec.
    + intros hm. by rewrite shared_concerns_spec, shared_knows.
    + unfold map. by rewrite raw_insert_all_spec.
  - unfold ep_offline in Hrun. set (map := interest_map_delete e (ep_interest_map t)) in Hrun.
    assert (map_ok map) as Hok by apply map_ok_delete, Ht.
    etrans; [eapply (visit_shared past t ctx t' ctx' _ map (offline_visit e) (leave_hold e) (leave_hold e)
      (knows e) (knows e) Ht Hok); [| | | |exact Hl|exact Hrun]|].
    + intros id hm np Hhm. rewrite offline_visit_eq. by rewrite (wf_key _ (twf_queue t Ht) _ _ Hhm).
    + apply leave_hold_message.
    + apply shared_leave_hold.
    + intros hm. by rewrite shared_knows.
    + unfold map. by rewrite raw_delete.
  - unfold update_ep_interest in Hrun. set (map := foldl _ _ i) in Hrun.
    assert (map_ok map) as Hok by apply map_ok_foldl_insert, map_ok_delete, Ht.
    etrans; [eapply (visit_shared past t ctx t' ctx' _ map (interest_visit map e)
      (fun hm => if concerns map e hm then join_hold e hm else hm) (shared_join (raw map) e)
      (concerns map e) (shared_concerns (raw map) e) Ht Hok); [| | | |exact Hl|exact Hrun]|].
    + intros id hm np _. rewrite interest_visit_eq. by destruct (concerns map e hm).
    + intros hm. destruct (concerns map e hm); [apply join_hold_message|done].
    + intros hm. by apply shared_join_spec.
    + intros hm. by rewrite shared_concerns_spec.
    + unfold map. by rewrite raw_insert_all_spec, raw_delete.
Qed.
End CallFacts.
