(* ===== verification/NodeData.v ===== *)
(** * The replicated state of a node: applying proposals

    [server/src/protocol/node/raft/state_machine/node.rs]: one handler per kind of
    proposal, over the topics the node has loaded. *)

From S2P Require Import Prelude Ids Interest Message Proposal Queue Topic Delivery.

Record NodeData : Type := mkNodeData { nd_topics : gmap TopicCode TopicData }.

(** [NodeData::default]. *)
Definition node_data_default : NodeData := mkNodeData ∅.

Section NodeData.
Context `{HashOrder, Clock, Hash64}.

(** [if let Some(topic) = self.topics.get_mut(&code) { body(topic, ctx) }]: the
    topic is changed in place. *)
Definition with_topic (code : TopicCode)
    (body : TopicData -> ProposalContext -> Outcome (TopicData * ProposalContext))
    (nd : NodeData) (ctx : ProposalContext) : Outcome (NodeData * ProposalContext) :=
  match nd_topics nd !! code with
  | Some topic =>
      '(topic, ctx) ← body topic ctx;
      Done (mkNodeData (<[code := topic]> (nd_topics nd)), ctx)
  | None => Done (nd, ctx)
  end.

Definition apply_delegate_message (p : DelegateMessage) (nd : NodeData) (ctx : ProposalContext) :
    Outcome (NodeData * ProposalContext) :=
  let ctx := set_topic_code (delegate_topic p) ctx in
  '(nd, ctx) ← with_topic (delegate_topic p) (hold_new_message (delegate_message p)) nd ctx;
  ctx ← commit_durable_commands ctx;
  Done (nd, ctx).

Definition apply_load_topic (p : LoadTopic) (nd : NodeData) (ctx : ProposalContext) :
    Outcome (NodeData * ProposalContext) :=
  let code := config_code (load_config p) in
  match nd_topics nd !! code with
  | Some _ => Done (nd, ctx)
  | None =>
      let queue := sort_by_key dm_time (load_queue p) in
      let ctx := set_topic_code code ctx in
      topic ← from_durable (load_config p) queue;
      let nd := mkNodeData (<[code := topic]> (nd_topics nd)) in
      let '(handle, w) := alloc_topic code (ctx_world ctx) in
      let ctx := mkContext (set_topics (<[code := handle]> (topics (node w))) w) (ctx_topic_code ctx) in
      ctx ← commit_durable_commands ctx;
      Done (nd, ctx)
  end.

Definition apply_set_state (p : SetState) (nd : NodeData) (ctx : ProposalContext) :
    Outcome (NodeData * ProposalContext) :=
  let ctx := set_topic_code (set_state_topic p) ctx in
  '(nd, ctx) ← with_topic (set_state_topic p) (update_and_flush (set_state_update p)) nd ctx;
  ctx ← commit_durable_commands ctx;
  Done (nd, ctx).

Definition apply_unload_topic (p : UnloadTopic) (nd : NodeData) : NodeData :=
  mkNodeData (delete (unload_code p) (nd_topics nd)).

(** The endpoint handlers return early, before setting the topic code, when the
    topic is not loaded. *)
Definition apply_ep_online (p : EndpointOnline) (nd : NodeData) (ctx : ProposalContext) :
    Outcome (NodeData * ProposalContext) :=
  match nd_topics nd !! online_topic_code p with
  | None => Done (nd, ctx)
  | Some topic =>
      let ctx := set_topic_code (online_topic_code p) ctx in
      '(topic, ctx) ← ep_online (online_endpoint p) (online_interests p) (online_host p) topic ctx;
      ctx ← commit_durable_commands ctx;
      Done (mkNodeData (<[online_topic_code p := topic]> (nd_topics nd)), ctx)
  end.

Definition apply_ep_offline (p : EndpointOffline) (nd : NodeData) (ctx : ProposalContext) :
    Outcome (NodeData * ProposalContext) :=
  match nd_topics nd !! offline_topic_code p with
  | None => Done (nd, ctx)
  | Some topic =>
      let ctx := set_topic_code (offline_topic_code p) ctx in
      '(topic, ctx) ← ep_offline (offline_host p) (offline_endpoint p) topic ctx;
      ctx ← commit_durable_commands ctx;
      Done (mkNodeData (<[offline_topic_code p := topic]> (nd_topics nd)), ctx)
  end.

Definition apply_ep_interest (p : EndpointInterest) (nd : NodeData) (ctx : ProposalContext) :
    Outcome (NodeData * ProposalContext) :=
  match nd_topics nd !! interest_topic_code p with
  | None => Done (nd, ctx)
  | Some topic =>
      let ctx := set_topic_code (interest_topic_code p) ctx in
      '(topic, ctx) ← update_ep_interest (interest_endpoint p) (interest_interests p) topic ctx;
      ctx ← commit_durable_commands ctx;
      Done (mkNodeData (<[interest_topic_code p := topic]> (nd_topics nd)), ctx)
  end.

(** The [match proposal] of [RaftStateMachine::apply]. *)
Definition apply_proposal (p : Proposal) (nd : NodeData) (ctx : ProposalContext) :
    Outcome (NodeData * ProposalContext) :=
  match p with
  | PDelegateMessage p => apply_delegate_message p nd ctx
  | PSetState p => apply_set_state p nd ctx
  | PLoadTopic p => apply_load_topic p nd ctx
  | PUnloadTopic p => Done (apply_unload_topic p nd, ctx)
  | PEpOnline p => apply_ep_online p nd ctx
  | PEpOffline p => apply_ep_offline p nd ctx
  | PEpInterest p => apply_ep_interest p nd ctx
  end.
End NodeData.

(** The topic a proposal is about. *)
Definition proposal_code (p : Proposal) : TopicCode :=
  match p with
  | PDelegateMessage p => delegate_topic p
  | PSetState p => set_state_topic p
  | PLoadTopic p => config_code (load_config p)
  | PUnloadTopic p => unload_code p
  | PEpOnline p => online_topic_code p
  | PEpOffline p => offline_topic_code p
  | PEpInterest p => interest_topic_code p
  end.

(** The call a proposal makes on its topic, when it makes one. *)
Definition proposal_call (p : Proposal) : option topic_call :=
  match p with
  | PDelegateMessage p => Some (CallHold (delegate_message p))
  | PSetState p => Some (CallUpdate (set_state_update p))
  | PEpOnline p => Some (CallOnline (online_endpoint p) (online_interests p) (online_host p))
  | PEpOffline p => Some (CallOffline (offline_host p) (offline_endpoint p))
  | PEpInterest p => Some (CallInterest (interest_endpoint p) (interest_interests p))
  | PLoadTopic _ | PUnloadTopic _ => None
  end.

(** Every loaded topic is well formed, stored under its code, with a legal configuration. *)
Definition node_wf (nd : NodeData) : Prop :=
  map_Forall (fun code t => topic_wf t /\ config_code (topic_config t) = code /\
                            config_ok (topic_config t)) (nd_topics nd).

Section NodeFacts.
Context `{HashOrder, Clock, Hash64}.
Implicit Types (nd : NodeData) (ctx : ProposalContext) (code : TopicCode).

(** What a proposal assumes of the state it is applied to: a message it brings is
    new to its topic and of a supported mode, the messages a load restores are
    distinct and at distinct times. *)
Definition proposal_ready (p : Proposal) nd ctx : Prop :=
  match p with
  | PLoadTopic p =>
      NoDup ((fun m => msg_id (dm_message m)) <$> load_queue p) /\
      NoDup (dm_time <$> load_queue p) /\
      (Z.of_nat (length (load_queue p)) <= usize_MAX)%Z /\ config_ok (load_config p)
  | _ =>
      match proposal_call p, nd_topics nd !! proposal_code p with
      | Some c, Some t => call_ready c t ctx
      | _, _ => True
      end
  end.

Lemma commit_done ctx code :
  ctx_topic_code ctx = Some code ->
  exists ctx', commit_durable_commands ctx = Done ctx' /\ ctx_extends ctx ctx' /\
    acks_of ctx' = acks_of ctx /\ dispatches_of ctx' = dispatches_of ctx /\ commands_of ctx' = commands_of ctx.
Proof.
  intros Hc.
  assert (exists ctx', commit_durable_commands ctx = Done ctx' /\
    acks_of ctx' = acks_of ctx /\ dispatches_of ctx' = dispatches_of ctx /\
    commands_of ctx' = commands_of ctx) as (ctx' & Hr & ? & ? & ?).
  { unfold commit_durable_commands. rewrite Hc. cbn [expect mbind Outcome_bind].
    destruct (config_durable _); [|by exists ctx].
    destruct (get_topic code (ctx_world ctx)) as [l|]; [|by exists ctx].
    eexists. split; [done|]. unfold acks_of, dispatches_of. cbn. rewrite !omap_app. cbn.
    by rewrite !app_nil_r. }
  exists ctx'. split_and!; [done|by eapply extends_commit|done..].
Qed.

Lemma call_ready_set_code c t ctx code : call_ready c t ctx -> call_ready c t (set_topic_code code ctx).
Proof.
  destruct c as [m| | | |]; try done. intros [Hk Hr]. split; [done|]. destruct Hr.
  by split.
Qed.

(** A proposal that calls its topic: the topic's handler runs under the topic's
    code and the durable commands are committed. *)
Lemma apply_call_spec p c nd ctx :
  proposal_call p = Some c -> node_wf nd -> proposal_ready p nd ctx ->
  match nd_topics nd !! proposal_code p with
  | None => exists ctx', apply_proposal p nd ctx = Done (nd, ctx') /\
      acks_of ctx' = acks_of ctx /\ dispatches_of ctx' = dispatches_of ctx /\
      commands_of ctx' = commands_of ctx /\
      (ctx' = ctx \/ ctx_extends (set_topic_code (proposal_code p) ctx) ctx')
  | Some t => exists t' ctx1 ctx',
      run_call c t (set_topic_code (proposal_code p) ctx) = Done (t', ctx1) /\
      call_outcome c t (set_topic_code (proposal_code p) ctx) t' ctx1 /\
      commit_durable_commands ctx1 = Done ctx' /\
      apply_proposal p nd ctx = Done (mkNodeData (<[proposal_code p := t']> (nd_topics nd)), ctx')
  end.
Proof.
  intros Hc Hwf Hready. destruct (nd_topics nd !! proposal_code p) as [t|] eqn:Ht.
  - assert (call_ready c t ctx) as Hcr.
    { unfold proposal_ready in Hready. destruct p; try discriminate Hc; rewrite Hc, Ht in Hready; done. }
    destruct (run_call_ok c t (set_topic_code (proposal_code p) ctx)) as (t' & ctx1 & Hr & Ho).
    { by destruct (Hwf _ _ Ht). }
    { by apply call_ready_set_code. }
    destruct (commit_done ctx1 (proposal_code p)) as (ctx' & Hcm & _).
    { destruct Ho as (_ & _ & He & _). by rewrite (ext_code _ _ He). }
    exists t', ctx1, ctx'. split_and!; [done|done|done|].
    destruct p; try discriminate Hc; injection Hc as <-; cbn [proposal_code run_call apply_proposal] in *;
      unfold apply_delegate_message, apply_set_state, apply_ep_online, apply_ep_offline, apply_ep_interest, with_topic;
      rewrite ?Ht; cbn [mbind Outcome_bind]; rewrite Hr; cbn [mbind Outcome_bind]; rewrite Hcm; done.
  - destruct p; try discriminate Hc; cbn [proposal_code apply_proposal] in *;
      unfold apply_delegate_message, apply_set_state, apply_ep_online, apply_ep_offline, apply_ep_interest, with_topic;
      rewrite ?Ht; cbn [mbind Outcome_bind]; try (exists ctx; split_and!; try done; by left).
    all: match goal with |- context [set_topic_code ?code ?c] =>
           destruct (commit_done (set_topic_code code c) code eq_refl) as (ctx' & -> & ? & ? & ? & ?) end.
    all: exists ctx'; split_and!; try done; by right.
Qed.

(** A load of a topic that is not loaded. *)
Lemma apply_load_spec p nd ctx :
  nd_topics nd !! config_code (load_config p) = None -> proposal_ready (PLoadTopic p) nd ctx ->
  exists t ctx', apply_load_topic p nd ctx = Done (mkNodeData (<[config_code (load_config p) := t]> (nd_topics nd)), ctx') /\
    topic_wf t /\ topic_config t = load_config p /\
    topic_abs t = durable_hold <$> sort_by_key dm_time (load_queue p) /\
    topics (node (ctx_world ctx')) =
      <[config_code (load_config p) := next_loc (runtime (ctx_world ctx))]> (topics (node (ctx_world ctx))) /\
    topic_heap (runtime (ctx_world ctx')) =
      <[next_loc (runtime (ctx_world ctx)) := mkTopicInner (config_code (load_config p)) ∅ ∅]>
        (topic_heap (runtime (ctx_world ctx))).
Proof.
  intros Hnone (Hids & Htimes & Hsize & _). unfold apply_load_topic. rewrite Hnone.
  pose proof (sort_by_key_perm dm_time (load_queue p)) as Hperm.
  destruct (from_durable_spec (load_config p) (sort_by_key dm_time (load_queue p)))
    as (t & -> & Hwf & Hcfg & _ & Habs); [by rewrite Hperm|by rewrite Hperm|by rewrite Hperm|].
  cbn [mbind Outcome_bind alloc_topic]. set (ctx1 := mkContext _ _).
  destruct (commit_done ctx1 (config_code (load_config p)) eq_refl) as (ctx' & -> & He & _).
  exists t, ctx'. split_and!; try done.
  - rewrite Habs. f_equal. apply sort_by_key_unique; [done|by rewrite Hperm].
  - by rewrite (ext_topics _ _ He).
  - by rewrite (ext_heap _ _ He).
Qed.
Lemma apply_proposal_ok (p : Proposal) (nd : NodeData) (ctx : ProposalContext)
    (Hwf : node_wf nd) (Hready : proposal_ready p nd ctx) :
  exists nd' ctx', apply_proposal p nd ctx = Done (nd', ctx') /\ node_wf nd' /\
    (forall code, code <> proposal_code p -> nd_topics nd' !! code = nd_topics nd !! code) /\
    (nd_topics nd !! proposal_code p = None -> is_Some (proposal_call p) ->
       nd' = nd /\ acks_of ctx' = acks_of ctx /\ dispatches_of ctx' = dispatches_of ctx).
Proof.
  destruct (proposal_call p) as [c|] eqn:Hc.
  - pose proof (apply_call_spec p c nd ctx Hc Hwf Hready) as Hs.
    destruct (nd_topics nd !! proposal_code p) as [t|] eqn:Ht.
    + destruct Hs as (t' & ctx1 & ctx' & _ & (Hwf' & Hcfg & _) & _ & ->).
      do 2 eexists. split; [done|]. split_and!; [|intros code Hne; by apply lookup_insert_ne|done].
      apply map_Forall_insert_2; [|done]. destruct (Hwf _ _ Ht) as (_ & ? & ?). by rewrite Hcfg.
    + destruct Hs as (ctx' & -> & ? & ? & ?). by exists nd, ctx'.
  - destruct p as [| |p|p| | |]; try discriminate Hc; cbn [apply_proposal proposal_code].
    + destruct (nd_topics nd !! config_code (load_config p)) as [t|] eqn:Ht.
      { unfold apply_load_topic. rewrite Ht. exists nd, ctx. by split_and!. }
      destruct (apply_load_spec p nd ctx Ht Hready) as (t & ctx' & -> & Hwf' & Hcfg & _).
      do 2 eexists. split; [done|]. split_and!; [|intros code Hne; by apply lookup_insert_ne|by intros _ [? ?]].
      apply map_Forall_insert_2; [|done]. rewrite Hcfg. split_and!; [done|done|]. by destruct Hready as (_ & _ & _ & ?).
    + do 2 eexists. split; [done|]. split_and!; [|intros code Hne; by apply lookup_delete_ne|by intros _ [? ?]].
      by apply map_Forall_delete.
Qed.
(** A status update of a loaded topic leaves its durable command in the node's queue. *)
Lemma apply_set_state_commands p nd ctx t :
  node_wf nd -> nd_topics nd !! set_state_topic p = Some t ->
  exists nd' ctx', apply_set_state p nd ctx = Done (nd', ctx') /\ node_wf nd' /\
    (forall code, is_Some (nd_topics nd !! code) -> is_Some (nd_topics nd' !! code)) /\
    commands_of ctx ++ [CmdUpdateStatus (set_state_update p)] `prefix_of` commands_of ctx'.
Proof.
  intros Hwf Ht. destruct (Hwf _ _ Ht) as (Htwf & Hcode & Hcfg).
  set (ctx0 := set_topic_code (set_state_topic p) ctx).
  destruct (update_and_flush_spec (set_state_update p) t ctx0 Htwf) as (t' & ctx1 & Hr & Hwf' & Hc' & _ & _ & Hs).
  assert (ctx_extends (push_durable_command (CmdUpdateStatus (set_state_update p)) ctx0) ctx1) as He.
  { replace ctx1 with (snd (topic_abs t', ctx1)) by done. rewrite <-Hs. apply spec_poll_extends. }
  destruct (commit_done ctx1 (set_state_topic p)) as (ctx' & Hcm & _ & _ & _ & Hcmd); [by rewrite (ext_code _ _ He)|].
  eexists _, ctx'. unfold apply_set_state, with_topic. fold ctx0. rewrite Ht. cbn [mbind Outcome_bind].
  rewrite Hr. cbn [mbind Outcome_bind]. rewrite Hcm. split; [done|]. split_and!.
  - apply map_Forall_insert_2; [|done]. split; [done|]. by rewrite Hc'.
  - intros code Hl. cbn [nd_topics]. rewrite lookup_insert. case_decide; [eauto|done].
  - rewrite Hcmd. exact (ext_durable _ _ He).
Qed.
End NodeFacts.

(** ** Properties *)

Section NodeProperties.
Context `{HashOrder, Clock, Hash64}.

(** C13: applying a proposal never panics on a well-formed node state when the
    message it brings is new and supported: it returns a well-formed state in
    which only the topic the proposal names may differ; a proposal about a topic
    that is not loaded changes no topic and answers no message. *)
Theorem apply_proposal_total (p : Proposal) (nd : NodeData) (ctx : ProposalContext)
    (Hwf : node_wf nd) (Hready : proposal_ready p nd ctx) :
  exists nd' ctx', apply_proposal p nd ctx = Done (nd', ctx') /\ node_wf nd' /\
    (forall code, code <> proposal_code p -> nd_topics nd' !! code = nd_topics nd !! code) /\
    (nd_topics nd !! proposal_code p = None -> is_Some (proposal_call p) ->
       nd' = nd /\ acks_of ctx' = acks_of ctx /\ dispatches_of ctx' = dispatches_of ctx).
Proof. exact (apply_proposal_ok p nd ctx Hwf Hready). Qed.

(** Loading a topic that is not loaded creates its replicated state from the
    stored messages in time order, and replaces the node's handle by a fresh one
    with no waiting senders; loading one that is loaded changes nothing at all. *)
Theorem apply_load_topic_spec (p : LoadTopic) (nd : NodeData) (ctx : ProposalContext)
    (Hready : proposal_ready (PLoadTopic p) nd ctx) :
  (is_Some (nd_topics nd !! config_code (load_config p)) -> apply_load_topic p nd ctx = Done (nd, ctx)) /\
  (nd_topics nd !! config_code (load_config p) = None ->
    exists t ctx', apply_load_topic p nd ctx =
        Done (mkNodeData (<[config_code (load_config p) := t]> (nd_topics nd)), ctx') /\
      topic_abs t = durable_hold <$> sort_by_key dm_time (load_queue p) /\
      exists handle, get_topic (config_code (load_config p)) (ctx_world ctx') = Some handle /\
        topic_heap (runtime (ctx_world ctx')) !! handle =
          Some (mkTopicInner (config_code (load_config p)) ∅ ∅)).
Proof.
  split.
  - intros [t Ht]. unfold apply_load_topic. by rewrite Ht.
  - intros Ht. destruct (apply_load_spec p nd ctx Ht Hready) as (t & ctx' & Hr & _ & _ & Habs & Htop & Hheap).
    exists t, ctx'. split; [done|]. split; [done|]. eexists. unfold get_topic. rewrite Htop, Hheap.
    by rewrite !lookup_insert_eq.
Qed.

(** Unloading a topic drops its replicated state but not the node's handle: a
    message delegated to it afterwards is neither held nor answered, while
    [get_topic] still finds the topic. *)
Theorem unload_leaves_handle (code : TopicCode) (m : Message) (nd : NodeData) (ctx : ProposalContext) :
  let nd' := apply_unload_topic (mkUnloadTopic code) nd in
  exists ctx', apply_delegate_message (mkDelegateMessage code m) nd' ctx = Done (nd', ctx') /\
    acks_of ctx' = acks_of ctx /\ nd_topics nd' !! code = None /\
    get_topic code (ctx_world ctx') = get_topic code (ctx_world ctx).
Proof.
  intros nd'. assert (nd_topics nd' !! code = None) as Hnone by apply lookup_delete_eq.
  unfold apply_delegate_message, with_topic. cbn [delegate_topic delegate_message]. rewrite Hnone.
  cbn [mbind Outcome_bind].
  destruct (commit_done (set_topic_code code ctx) code eq_refl) as (ctx' & -> & He & Ha & _).
  exists ctx'. split_and!; try done. unfold get_topic. by rewrite (ext_topics _ _ He).
Qed.
End NodeProperties.

Section NodeWitnesses.
Import Sample.
#[local] Existing Instance sample_hash.

Definition sample_node : NodeData := mkNodeData {[topic := sample_topic]}.

Lemma sample_node_wf : node_wf sample_node.
Proof.
  apply map_Forall_singleton. split_and!; [exact sample_topic_wf|reflexivity|].
  intros o [= <-]. vm_compute. split; discriminate.
Qed.

Definition sample_delegate : Proposal := PDelegateMessage (mkDelegateMessage topic (msg Push x03)).

Lemma sample_lookup : nd_topics sample_node !! topic = Some sample_topic.
Proof. apply lookup_singleton_eq. Qed.

Lemma apply_proposal_total_witness :
  exists nd' ctx', apply_proposal sample_delegate sample_node later = Done (nd', ctx') /\ node_wf nd' /\
    (forall code, code <> proposal_code sample_delegate -> nd_topics nd' !! code = nd_topics sample_node !! code) /\
    (nd_topics sample_node !! proposal_code sample_delegate = None -> is_Some (proposal_call sample_delegate) ->
       nd' = sample_node /\ acks_of ctx' = acks_of later /\ dispatches_of ctx' = dispatches_of later).
Proof.
  apply (apply_proposal_total sample_delegate sample_node later sample_node_wf).
  unfold proposal_ready, sample_delegate. cbn [proposal_call proposal_code delegate_topic delegate_message].
  rewrite sample_lookup. split; [discriminate|exact sample_hold_ready].
Defined.

Definition sample_load : LoadTopic :=
  mkLoadTopic (topic_config_of_code (topic_code_new "u")) [sample_durable x02 9; sample_durable x01 4].

Lemma apply_load_topic_spec_witness :
  (is_Some (nd_topics sample_node !! config_code (load_config sample_load)) ->
     apply_load_topic sample_load sample_node ctx = Done (sample_node, ctx)) /\
  (nd_topics sample_node !! config_code (load_config sample_load) = None ->
    exists t ctx', apply_load_topic sample_load sample_node ctx =
        Done (mkNodeData (<[config_code (load_config sample_load) := t]> (nd_topics sample_node)), ctx') /\
      topic_abs t = durable_hold <$> sort_by_key dm_time (load_queue sample_load) /\
      exists handle, get_topic (config_code (load_config sample_load)) (ctx_world ctx') = Some handle /\
        topic_heap (runtime (ctx_world ctx')) !! handle =
          Some (mkTopicInner (config_code (load_config sample_load)) ∅ ∅)).
Proof.
  apply (apply_load_topic_spec sample_load sample_node ctx).
  split; [apply (bool_decide_unpack _); vm_compute; exact I|].
  split; [apply (bool_decide_unpack _); vm_compute; exact I|].
  split; [vm_compute; discriminate|]. intros o [=].
Defined.
End NodeWitnesses.
