(* ===== verification/StateMachine.v ===== *)
(** * The Raft state machine

    [server/src/protocol/node/raft/state_machine.rs]: applying log entries,
    building, reading and installing snapshots. *)

From S2P Require Import Prelude Ids Interest Message Proposal Queue Topic Delivery NodeData.
From stdpp Require Import pretty.

(** What the state machine uses of the [openraft] crate: leader ids and their
    [Display], memberships, [StoredMembership] with its constructor and default. *)
Class Openraft : Type := {
  LeaderId : Type;
  leader_id_display : LeaderId -> string;
  Membership : Type;
  StoredMembership : Type;
}.

(** [LogId]: the leader that created an entry and the entry's index, a [u64]. *)
Record LogId `{Openraft} : Type := mkLogId {
  leader_id : LeaderId;
  index : Z;
}.

(** [StoredMembership::new] and [Default]. *)
Class OpenraftMembership `{Openraft} : Type := {
  stored_membership_new : option LogId -> Membership -> StoredMembership;
  stored_membership_default : StoredMembership;
}.

(** [RaftResponse] (response.rs). *)
Record RaftResponse : Type := mkRaftResponse { response_result : Result () () }.

Inductive EntryPayload `{Openraft} : Type :=
  | Blank
  | Normal (proposal : Proposal)
  | MembershipEntry (mem : Membership).

Record Entry `{Openraft} : Type := mkEntry {
  log_id : LogId;
  entry_payload : EntryPayload;
}.

Record SnapshotMeta `{Openraft} : Type := mkSnapshotMeta {
  last_log_id : option LogId;
  meta_membership : StoredMembership;
  snapshot_id : string;
}.

Arguments mkLogId {_} leader_id index.
Arguments Blank {_}.
Arguments Normal {_} proposal.
Arguments MembershipEntry {_} mem.
Arguments mkEntry {_} log_id entry_payload.
Arguments mkSnapshotMeta {_} last_log_id meta_membership snapshot_id.

(** The value [bincode] writes for a topic: [InterestMap] serialises its [raw] map
    only, the other fields as they are. *)
Record TopicSerial : Type := mkTopicSerial {
  serial_config : TopicConfig;
  serial_routing : gmap NodeId (gset EndpointAddr);
  serial_interests : gmap EndpointAddr (gset Interest);
  serial_queue : MessageQueue;
}.

(** [bincode::serialize] and [deserialize_from] on the serialised node state; all
    that is used of them is that reading gives back what was written. *)
Class Bincode : Type := {
  bincode_serialize : gmap TopicCode TopicSerial -> list u8;
  bincode_deserialize : list u8 -> option (gmap TopicCode TopicSerial);
  bincode_roundtrip : forall s, bincode_deserialize (bincode_serialize s) = Some s;
}.

Section StateMachine.
Context `{HashOrder, Clock, Hash64, OpenraftMembership, Bincode}.

Record StoredSnapshot : Type := mkStoredSnapshot {
  snapshot_meta : SnapshotMeta;
  snapshot_data : NodeData;
}.

Record StateMachineData : Type := mkStateMachineData {
  last_applied_log : option LogId;
  last_membership : StoredMembership;
  sm_node : NodeData;
}.

(** [StateMachineData::default]. *)
Definition state_machine_default : StateMachineData :=
  mkStateMachineData None stored_membership_default node_data_default.

Record StateMachineStore : Type := mkStore {
  state_machine : StateMachineData;
  snapshot_idx : Z;
  current_snapshot : option StoredSnapshot;
}.

(** [StateMachineStore::new].  The [node_ref] is the [option World] the
    operations below take: the node, while it is alive. *)
Definition store_new : StateMachineStore := mkStore state_machine_default 0 None.

(** ** apply *)

(** The body of the [for] loop of [apply]. *)
Definition apply_entry (entry : Entry) (sm : StateMachineData) (node_ref : option World) :
    Outcome (RaftResponse * (StateMachineData * option World)) :=
  let sm := mkStateMachineData (Some (log_id entry)) (last_membership sm) (sm_node sm) in
  match entry_payload entry with
  | Blank => Done (mkRaftResponse (Ok ()), (sm, node_ref))
  | Normal proposal =>
      match node_ref with
      | None => Done (mkRaftResponse (Err ()), (sm, node_ref))
      | Some node =>
          '(nd, ctx) ← apply_proposal proposal (sm_node sm) (context_new node);
          Done (mkRaftResponse (Ok ()),
                (mkStateMachineData (last_applied_log sm) (last_membership sm) nd,
                 Some (ctx_world ctx)))
      end
  | MembershipEntry mem =>
      Done (mkRaftResponse (Ok ()),
            (mkStateMachineData (last_applied_log sm)
               (stored_membership_new (Some (log_id entry)) mem) (sm_node sm), node_ref))
  end.

Fixpoint apply_entries (entries : list Entry) (sm : StateMachineData) (node_ref : option World) :
    Outcome (list RaftResponse * (StateMachineData * option World)) :=
  match entries with
  | [] => Done ([], (sm, node_ref))
  | entry :: entries =>
      '(r, (sm, node_ref)) ← apply_entry entry sm node_ref;
      '(rs, s) ← apply_entries entries sm node_ref;
      Done (r :: rs, s)
  end.

Definition applied_state (s : StateMachineStore) : option LogId * StoredMembership :=
  (last_applied_log (state_machine s), last_membership (state_machine s)).

(** ** Snapshots *)

(** The serialised node state, and the state read back from it. *)
Definition topic_serial (t : TopicData) : TopicSerial :=
  mkTopicSerial (topic_config t) (ep_routing_table t)
    (interest_map_serialize (ep_interest_map t)) (queue t).
Definition topic_of_serial (s : TopicSerial) : TopicData :=
  mkTopicData (serial_config s) (serial_routing s)
    (interest_map_deserialize (serial_interests s)) (serial_queue s).
Definition serialize_node (nd : NodeData) : list u8 := bincode_serialize (topic_serial <$> nd_topics nd).
Definition deserialize_node (bytes : list u8) : option NodeData :=
  (fun s => mkNodeData (topic_of_serial <$> s)) <$> bincode_deserialize bytes.

(** [format!] of the snapshot id. *)
Definition snapshot_id_of (last_applied : option LogId) (idx : Z) : string :=
  match last_applied with
  | Some last =>
      leader_id_display (leader_id last) +:+ "-" +:+ pretty (Z.to_N (index last)) +:+ "-" +:+ pretty (Z.to_N idx)
  | None => "--" +:+ pretty (Z.to_N idx)
  end.

(** [build_snapshot]: the counter wraps in [fetch_add], the [+ 1] is checked. *)
Definition build_snapshot (s : StateMachineStore) :
    Outcome ((SnapshotMeta * list u8) * StateMachineStore) :=
  let snapshot := sm_node (state_machine s) in
  let last_applied_log := last_applied_log (state_machine s) in
  let last_membership := last_membership (state_machine s) in
  idx ← usize_add (snapshot_idx s) 1;
  let meta := mkSnapshotMeta last_applied_log last_membership (snapshot_id_of last_applied_log idx) in
  Done ((meta, serialize_node snapshot),
        mkStore (state_machine s) ((snapshot_idx s + 1) mod 2 ^ 64)
          (Some (mkStoredSnapshot meta snapshot))).

(** [begin_receiving_snapshot]: an empty buffer. *)
Definition begin_receiving_snapshot : list u8 := [].

Definition get_current_snapshot (s : StateMachineStore) : option (SnapshotMeta * list u8) :=
  (fun snapshot => (snapshot_meta snapshot, serialize_node (snapshot_data snapshot))) <$> current_snapshot s.

(** The loop of [sync_node_from_snapshot]: a fresh handle for every topic. *)
Definition sync_topics (codes : list TopicCode) (node : World) : World :=
  foldl (fun w code =>
      let '(handle, w) := alloc_topic code w in
      set_topics (<[code := handle]> (topics (Proposal.node w))) w)
    node codes.

Definition sync_node_from_snapshot (data : NodeData) (node_ref : option World) : option World :=
  (fun node => sync_topics (hm_iter (nd_topics data)).*1 node) <$> node_ref.

(** [install_snapshot]: a buffer that does not decode is an error and changes nothing. *)
Definition install_snapshot (meta : SnapshotMeta) (snapshot : list u8)
    (s : StateMachineStore) (node_ref : option World) :
    Result () () * (StateMachineStore * option World) :=
  match deserialize_node snapshot with
  | None => (Err (), (s, node_ref))
  | Some new_data =>
      let new_snapshot := mkStoredSnapshot meta new_data in
      let sm := mkStateMachineData (last_log_id meta) (meta_membership meta) new_data in
      (Ok (), (mkStore sm (snapshot_idx s) (Some new_snapshot),
               sync_node_from_snapshot new_data node_ref))
  end.
End StateMachine.

(** ** Facts *)

Section StateMachineFacts.
Context `{HashOrder, Clock, Hash64, OpenraftMembership, Bincode}.
Implicit Types (sm : StateMachineData) (w : option World).

(** Each proposal of the log is ready in the state it is applied to. *)
Fixpoint entries_ready (entries : list Entry) sm w : Prop :=
  match entries with
  | [] => True
  | e :: entries =>
      match entry_payload e, w with
      | Normal p, Some node => proposal_ready p (sm_node sm) (context_new node)
      | _, _ => True
      end /\
      forall r sm' w', apply_entry e sm w = Done (r, (sm', w')) -> entries_ready entries sm' w'
  end.

(** The response an entry gets. *)
Definition entry_response (e : Entry) (w : option World) : RaftResponse :=
  match entry_payload e, w with
  | Normal _, None => mkRaftResponse (Err ())
  | _, _ => mkRaftResponse (Ok ())
  end.

Lemma apply_entry_spec e sm w r sm' w' :
  apply_entry e sm w = Done (r, (sm', w')) ->
  r = entry_response e w /\ last_applied_log sm' = Some (log_id e) /\ (is_Some w <-> is_Some w').
Proof.
  unfold apply_entry, entry_response. destruct (entry_payload e) as [|p|mem].
  - by intros [= <- <- <-].
  - destruct w as [node|]; [|by intros [= <- <- <-]].
    intros ([nd ctx] & _ & [= <- <- <-])%Outcome_bind_Done. split_and!; [done|done|]. split; eauto.
  - by intros [= <- <- <-].
Qed.

Lemma apply_entry_total e sm w :
  node_wf (sm_node sm) -> entries_ready [e] sm w ->
  exists r sm' w', apply_entry e sm w = Done (r, (sm', w')) /\ node_wf (sm_node sm').
Proof.
  intros Hwf [Hready _]. unfold apply_entry. destruct (entry_payload e) as [|p|mem].
  - do 3 eexists. by split.
  - destruct w as [node|]; [|do 3 eexists; by split].
    destruct (apply_proposal_ok p (sm_node sm) (context_new node) Hwf Hready) as (nd' & ctx' & Hr & Hwf' & _).
    cbn [sm_node]. rewrite Hr. cbn [mbind Outcome_bind]. do 3 eexists. split; [done|exact Hwf'].
  - do 3 eexists. by split.
Qed.

(** ** Serialisation *)

(** The topics agree in everything but the shape of the interest tree. *)
Record topic_equiv (t t' : TopicData) : Prop := mkTopicEquiv {
  teq_config : topic_config t' = topic_config t;
  teq_routing : ep_routing_table t' = ep_routing_table t;
  teq_raw : raw (ep_interest_map t') = raw (ep_interest_map t);
  teq_queue : queue t' = queue t;
}.

Definition node_equiv (nd nd' : NodeData) : Prop :=
  forall code, option_Forall2 topic_equiv (nd_topics nd !! code) (nd_topics nd' !! code).

Lemma topic_reload_equiv t : topic_equiv t (topic_of_serial (topic_serial t)).
Proof.
  split; try done. cbn. unfold interest_map_deserialize, interest_map_serialize. by apply from_raw_ok.
Qed.

Lemma topic_reload_wf t : topic_wf t -> topic_wf (topic_of_serial (topic_serial t)).
Proof. intros [? ? ? _]. split; cbn; try done. by apply from_raw_ok. Qed.

Lemma deserialize_serialize nd :
  deserialize_node (serialize_node nd) =
    Some (mkNodeData ((fun t => topic_of_serial (topic_serial t)) <$> nd_topics nd)).
Proof.
  unfold deserialize_node, serialize_node. rewrite bincode_roundtrip. cbn. by rewrite <-map_fmap_compose.
Qed.

Lemma reload_equiv nd : node_equiv nd (mkNodeData ((fun t => topic_of_serial (topic_serial t)) <$> nd_topics nd)).
Proof.
  intros code. cbn [nd_topics]. rewrite lookup_fmap.
  destruct (nd_topics nd !! code); constructor. apply topic_reload_equiv.
Qed.

Lemma reload_wf nd :
  node_wf nd -> node_wf (mkNodeData ((fun t => topic_of_serial (topic_serial t)) <$> nd_topics nd)).
Proof.
  intros Hwf code t. cbn [nd_topics]. rewrite lookup_fmap. intros (t0 & Ht & ->)%fmap_Some_1.
  destruct (Hwf _ _ Ht) as (? & ? & ?). split_and!; try done. by apply topic_reload_wf.
Qed.

Lemma topic_equiv_find t t' s :
  topic_wf t -> topic_wf t' -> topic_equiv t t' ->
  interest_map_find s (ep_interest_map t') = interest_map_find s (ep_interest_map t).
Proof.
  intros Hwf Hwf' Heq. apply set_eq. intros v.
  rewrite !interest_map_find_spec by (apply Hwf || apply Hwf'). by rewrite (teq_raw _ _ Heq).
Qed.

Lemma serialize_reload nd :
  serialize_node (mkNodeData ((fun t => topic_of_serial (topic_serial t)) <$> nd_topics nd)) = serialize_node nd.
Proof.
  unfold serialize_node. cbn [nd_topics]. rewrite <-map_fmap_compose. f_equal. apply map_fmap_ext.
  intros code t _. cbn. unfold topic_serial. cbn.
  by rewrite (teq_raw _ _ (topic_reload_equiv t)) || (f_equal; apply from_raw_ok).
Qed.

(** ** Fresh handles *)

Lemma sync_topics_spec codes node0 :
  NoDup codes ->
  let node1 := sync_topics codes node0 in
  next_loc (runtime node1) = next_loc (runtime node0) + length codes /\
  (forall code, code ∉ codes -> get_topic code node1 = get_topic code node0) /\
  (forall l, l < next_loc (runtime node0) ->
     topic_heap (runtime node1) !! l = topic_heap (runtime node0) !! l) /\
  (forall code, code ∈ codes -> exists l, get_topic code node1 = Some l /\
     next_loc (runtime node0) <= l < next_loc (runtime node1) /\
     topic_heap (runtime node1) !! l = Some (mkTopicInner code ∅ ∅)).
Proof.
  cbn zeta. revert node0. induction codes as [|c codes IH]; intros node0 Hnd.
  { cbn. split_and!; [lia|done|done|]. by intros c ?%not_elem_of_nil. }
  apply NoDup_cons in Hnd as [Hni Hnd]. unfold sync_topics. cbn [foldl]. fold sync_topics.
  cbn [alloc_topic]. set (w1 := set_topics _ _).
  change (foldl _ w1 codes) with (sync_topics codes w1).
  destruct (IH w1 Hnd) as (Hn & Hother & Hheap & Hin).
  assert (next_loc (runtime w1) = S (next_loc (runtime node0))) as Hn1 by done.
  split_and!.
  - rewrite Hn, Hn1. cbn [length]. lia.
  - intros code Hc. rewrite not_elem_of_cons in Hc. destruct Hc as [Hne Hc].
    rewrite Hother by done. unfold get_topic. cbn. by rewrite lookup_insert_ne by done.
  - intros l Hl. rewrite Hheap by lia. cbn. rewrite lookup_insert_ne by lia. done.
  - intros code [->|Hc]%elem_of_cons.
    + exists (next_loc (runtime node0)). split_and!; [|lia|rewrite Hn, Hn1; lia|].
      * rewrite Hother by done. unfold get_topic. cbn. by rewrite lookup_insert_eq.
      * rewrite Hheap by lia. cbn. by rewrite lookup_insert_eq.
    + destruct (Hin code Hc) as (l & ? & ? & ?). exists l. split_and!; [done|lia|lia|done].
Qed.
End StateMachineFacts.

(** ** Properties *)

Section StateMachineProperties.
Context `{HashOrder, Clock, Hash64, OpenraftMembership, Bincode}.

Lemma apply_entries_app (e1 e2 : list Entry) sm w :
  apply_entries (e1 ++ e2) sm w =
    '(r1, (sm, w)) ← apply_entries e1 sm w;
    '(r2, s) ← apply_entries e2 sm w;
    Done (r1 ++ r2, s).
Proof.
  revert sm w. induction e1 as [|e e1 IH]; intros sm w; cbn [apply_entries app mbind Outcome_bind].
  { by destruct (apply_entries e2 sm w) as [[r2 s]| |]. }
  destruct (apply_entry e sm w) as [[r [sm1 w1]]| |]; [|done|done]. cbn [mbind Outcome_bind]. rewrite IH.
  destruct (apply_entries e1 sm1 w1) as [[r1 [sm2 w2]]| |]; [|done|done]. cbn [mbind Outcome_bind].
  by destruct (apply_entries e2 sm2 w2) as [[r2 s]| |].
Qed.

(** The membership after an entry: an entry that carries one sets it, stored under
    the entry's log id. *)
Definition entry_membership (m : StoredMembership) (e : Entry) : StoredMembership :=
  match entry_payload e with
  | MembershipEntry mem => stored_membership_new (Some (log_id e)) mem
  | Blank | Normal _ => m
  end.

Lemma apply_entry_membership e sm w r sm' w' :
  apply_entry e sm w = Done (r, (sm', w')) -> last_membership sm' = entry_membership (last_membership sm) e.
Proof.
  unfold apply_entry, entry_membership. destruct (entry_payload e) as [|p|mem].
  - by intros [= _ <- _].
  - destruct w as [node|]; [|by intros [= _ <- _]]. by intros ([nd ctx] & _ & [= _ <- _])%Outcome_bind_Done.
  - by intros [= _ <- _].
Qed.

Lemma apply_entries_membership (entries : list Entry) sm w rs sm' w' :
  apply_entries entries sm w = Done (rs, (sm', w')) ->
  last_membership sm' = foldl entry_membership (last_membership sm) entries.
Proof.
  revert sm w rs. induction entries as [|e entries IH]; intros sm w rs; [by intros [= <- <- <-]|].
  cbn [apply_entries]. intros ([r1 [sm1 w1]] & He & Hr)%Outcome_bind_Done.
  apply Outcome_bind_Done in Hr as ([rs2 s2] & Hr & [= <- ->]). cbn [foldl].
  by rewrite <-(apply_entry_membership _ _ _ _ _ _ He), (IH _ _ _ Hr).
Qed.

Lemma apply_entries_responses (entries : list Entry) sm w rs sm' w' :
  apply_entries entries sm w = Done (rs, (sm', w')) ->
  rs = (fun e => entry_response e w) <$> entries /\
  last_applied_log sm' = from_option (fun e => Some (log_id e)) (last_applied_log sm) (last entries).
Proof.
  revert sm w rs. induction entries as [|e entries IH]; intros sm w rs.
  { by intros [= <- <- <-]. }
  cbn [apply_entries]. intros ([r1 [sm1 w1]] & He & Hr)%Outcome_bind_Done.
  apply Outcome_bind_Done in Hr as ([rs2 s2] & Hr & [= <- ->]).
  destruct (apply_entry_spec _ _ _ _ _ _ He) as (-> & Hlast & Hw).
  destruct (IH _ _ _ Hr) as [-> ->]. split.
  - rewrite fmap_cons. f_equal. apply list_fmap_ext. intros i x _. unfold entry_response.
    destruct (entry_payload x); [done| |done].
    destruct w, w1; try done; destruct Hw as [Hw1 Hw2]; [destruct Hw1|destruct Hw2]; done || eauto.
  - rewrite last_cons, Hlast. by destruct (last entries).
Qed.

(** C18: [apply] answers every entry of a batch in order ([Err] exactly for the
    proposals that arrive when the node is gone), records the last entry's log id
    as applied, and keeps the membership of the last entry that carries one, with
    that entry's log id; splitting a batch changes nothing. *)
Theorem apply_answers_every_entry (e1 e2 : list Entry) (sm sm' : StateMachineData)
    (w w' : option World) (rs : list RaftResponse)
    (Hrun : apply_entries (e1 ++ e2) sm w = Done (rs, (sm', w'))) :
  rs = (fun e => entry_response e w) <$> (e1 ++ e2) /\
  last_applied_log sm' = from_option (fun e => Some (log_id e)) (last_applied_log sm) (last (e1 ++ e2)) /\
  last_membership sm' = foldl entry_membership (last_membership sm) (e1 ++ e2) /\
  exists r1 r2 sm1 w1, apply_entries e1 sm w = Done (r1, (sm1, w1)) /\
    apply_entries e2 sm1 w1 = Done (r2, (sm', w')) /\ rs = r1 ++ r2.
Proof.
  destruct (apply_entries_responses _ _ _ _ _ _ Hrun) as [Hrs Hlast].
  split_and!; [done|done|by eapply apply_entries_membership|]. rewrite apply_entries_app in Hrun.
  apply Outcome_bind_Done in Hrun as ([r1 [sm1 w1]] & He1 & Hrun).
  apply Outcome_bind_Done in Hrun as ([r2 [sm2 w2]] & He2 & [= <- -> ->]).
  by exists r1, r2, sm1, w1.
Qed.

(** C14: a log whose proposals are ready when their turn comes is applied to the
    end without a panic, and leaves every topic well formed. *)
Theorem apply_total (entries : list Entry) (sm : StateMachineData) (w : option World)
    (Hwf : node_wf (sm_node sm)) (Hready : entries_ready entries sm w) :
  exists rs sm' w', apply_entries entries sm w = Done (rs, (sm', w')) /\ node_wf (sm_node sm').
Proof.
  revert sm w Hwf Hready. induction entries as [|e entries IH]; intros sm w Hwf Hready; cbn [apply_entries].
  { by exists [], sm, w. }
  destruct (apply_entry_total e sm w Hwf) as (r & sm1 & w1 & He & Hwf1).
  { split; [apply Hready|done]. }
  destruct (IH sm1 w1 Hwf1) as (rs & sm' & w' & Hr & Hwf'); [by eapply Hready|].
  rewrite He. cbn [mbind Outcome_bind]. rewrite Hr. cbn [mbind Outcome_bind]. by exists (r :: rs), sm', w'.
Qed.

(** C19: a snapshot built by one replica and installed by another makes the second
    agree with the first: same applied log id and membership, the same topics with
    the same queues, routing tables and interests, found by the same subjects
    although the interest tree travels as its raw map and is rebuilt; the second
    serves the very bytes it installed. *)
Theorem snapshot_transfer (s1 s2 : StateMachineStore) (w : option World)
    (Hwf : node_wf (sm_node (state_machine s1))) (Hidx : (0 <= snapshot_idx s1 < u64_MAX)%Z) :
  exists meta bytes s1' s2' w',
    build_snapshot s1 = Done ((meta, bytes), s1') /\
    get_current_snapshot s1' = Some (meta, bytes) /\
    install_snapshot meta bytes s2 w = (Ok (), (s2', w')) /\
    applied_state s2' = applied_state s1 /\
    node_equiv (sm_node (state_machine s1)) (sm_node (state_machine s2')) /\
    node_wf (sm_node (state_machine s2')) /\
    (forall code t t' s, nd_topics (sm_node (state_machine s1)) !! code = Some t ->
       nd_topics (sm_node (state_machine s2')) !! code = Some t' ->
       interest_map_find s (ep_interest_map t') = interest_map_find s (ep_interest_map t)) /\
    get_current_snapshot s2' = Some (meta, bytes).
Proof.
  unfold build_snapshot, usize_add. rewrite decide_True by (unfold usize_MAX, u64_MAX in *; lia).
  cbn [mbind Outcome_bind]. do 5 eexists. split; [reflexivity|]. split; [reflexivity|].
  unfold install_snapshot. rewrite deserialize_serialize. split; [reflexivity|].
  split; [reflexivity|]. split; [apply reload_equiv|]. split; [by apply reload_wf|]. split.
  - intros code t t' s Ht Ht'. pose proof (reload_wf _ Hwf _ _ Ht') as (Hwf' & _).
    apply topic_equiv_find; [by apply (Hwf code)|done|].
    pose proof (reload_equiv (sm_node (state_machine s1)) code) as Heq. cbn in Ht'.
    rewrite Ht in Heq. cbn [nd_topics] in Heq. rewrite Ht' in Heq. by inversion Heq.
  - unfold get_current_snapshot. cbn. by rewrite serialize_reload.
Qed.

(** Installing a snapshot gives every topic in it a new handle with no waiting
    senders: an acknowledgement for a topic of the snapshot is from then on
    delivered to the new handle, while the old handle keeps its waiters, whom
    nothing answers as long as the handle is held, which an edge request does while
    it waits. *)
Theorem install_orphans_waiters (meta : SnapshotMeta) (bytes : list u8) (s s' : StateMachineStore)
    (node node' : World) (code : TopicCode) (old : loc) (i : MessageId) (r : WaitAckResult)
    (Hrun : install_snapshot meta bytes s (Some node) = (Ok (), (s', Some node')))
    (Hcode : is_Some (nd_topics (sm_node (state_machine s')) !! code))
    (Hold : get_topic code node = Some old) (Halloc : old < next_loc (runtime node)) :
  topic_heap (runtime node') !! old = topic_heap (runtime node) !! old /\
  exists new, new <> old /\
    topic_heap (runtime node') !! new = Some (mkTopicInner code ∅ ∅) /\
    spawned (runtime (ctx_world (resolve_ack i r (set_topic_code code (context_new node'))))) =
      spawned (runtime node') ++ [TaskResolveAck new i r].
Proof.
  unfold install_snapshot in Hrun. destruct (deserialize_node bytes) as [nd|]; [|done].
  cbn [sync_node_from_snapshot fmap option_fmap option_map] in Hrun. injection Hrun as <- <-.
  cbn [state_machine sm_node] in Hcode. destruct Hcode as [t Ht].
  destruct (sync_topics_spec (hm_iter (nd_topics nd)).*1 node (NoDup_hm_iter_fst _)) as (_ & _ & Hheap & Hin).
  split; [by apply Hheap|]. destruct (Hin code) as (new & Hnew & Hrange & Hinner).
  { apply list_elem_of_fmap. exists (code, t). split; [done|]. by apply elem_of_hm_iter. }
  exists new. split_and!; [lia|done|]. unfold resolve_ack. cbn [ctx_topic_code set_topic_code ctx_world context_new].
  by rewrite Hnew.
Qed.
End StateMachineProperties.

(** ** A concrete Raft for evaluation: leaders are terms, memberships sets of nodes *)
Module SampleRaft.
#[export] Instance sample_openraft : Openraft := {|
  LeaderId := N;
  leader_id_display := fun n => pretty n;
  Membership := gset NodeId;
  StoredMembership := gset NodeId;
|}.
#[export] Instance sample_openraft_membership : OpenraftMembership := {|
  stored_membership_new _ m := m;
  stored_membership_default := ∅;
|}.

Definition sample_log_id (i : Z) : LogId := mkLogId (H := sample_openraft) 1%N i.
End SampleRaft.
