(* ===== verification/Wire.v ===== *)
(** * A concrete serialisation of the replicated state

    The state machine is proved against any [bincode] that reads back what it
    wrote ([StateMachine.Bincode]); this file shows that there is one, by
    enumerating the serialised types ([Countable]) and writing the bits. *)

From S2P Require Import Prelude Ids Interest Message Proposal Queue Topic Delivery NodeData StateMachine.

(** A positive number as bytes, one per bit, the lowest first. *)
Fixpoint pos_bytes (p : positive) : list u8 :=
  match p with
  | xH => []
  | xO p => x00 :: pos_bytes p
  | xI p => x01 :: pos_bytes p
  end.

Fixpoint bytes_pos (bs : list u8) : positive :=
  match bs with
  | [] => xH
  | x00 :: bs => xO (bytes_pos bs)
  | _ :: bs => xI (bytes_pos bs)
  end.

Lemma bytes_pos_bytes p : bytes_pos (pos_bytes p) = p.
Proof. induction p; simpl; by f_equal. Qed.

(** ** The serialised types are countable *)

#[export] Instance durable_config_eq_dec : EqDecision MessageDurableConfig.
Proof. solve_decision. Defined.
#[export] Program Instance durable_config_countable : Countable MessageDurableConfig :=
  inj_countable' (fun c => (expire c, max_receiver c)) (fun '(a, b) => mkDurableConfig a b) _.
Next Obligation. by intros []. Qed.

#[export] Program Instance status_kind_countable : Countable MessageStatusKind :=
  inj_countable status_kind_u8 status_kind_try_from_u8 _.
Next Obligation. by intros []. Qed.

#[export] Program Instance ack_expect_countable : Countable MessageAckExpectKind :=
  inj_countable ack_expect_u8 ack_expect_try_from_u8 _.
Next Obligation. by intros []. Qed.

#[export] Program Instance target_kind_countable : Countable MessageTargetKind :=
  inj_countable' target_kind_u8 target_kind_from_u8 _.
Next Obligation. by intros []. Qed.

#[export] Instance header_eq_dec : EqDecision MessageHeader.
Proof. solve_decision. Defined.
#[export] Program Instance header_countable : Countable MessageHeader :=
  inj_countable' (fun h => (message_id h, ack_kind h, target_kind h, durability h, subjects h))
    (fun '(a, b, c, d, e) => mkHeader a b c d e) _.
Next Obligation. by intros []. Qed.

#[export] Instance message_eq_dec : EqDecision Message.
Proof. solve_decision. Defined.
#[export] Program Instance message_countable : Countable Message :=
  inj_countable' (fun m => (header m, payload m)) (fun '(a, b) => mkMessage a b) _.
Next Obligation. by intros []. Qed.

#[export] Instance wait_ack_eq_dec : EqDecision WaitAck.
Proof. solve_decision. Defined.
#[export] Program Instance wait_ack_countable : Countable WaitAck :=
  inj_countable' (fun w => (expect_kind w, status w)) (fun '(a, b) => mkWaitAck a b) _.
Next Obligation. by intros []. Qed.

#[export] Instance hold_eq_dec : EqDecision HoldMessage.
Proof. solve_decision. Defined.
#[export] Program Instance hold_countable : Countable HoldMessage :=
  inj_countable' (fun h => (Queue.message h, wait_ack h)) (fun '(a, b) => mkHold a b) _.
Next Obligation. by intros []. Qed.

#[export] Program Instance timed_countable {T} `{Countable T} : Countable (Timed T) :=
  inj_countable' (fun t => (time t, data t)) (fun '(a, b) => mkTimed a b) _.
Next Obligation. by intros ? ? ? []. Qed.

#[export] Instance queue_eq_dec : EqDecision MessageQueue.
Proof. solve_decision. Defined.
#[export] Program Instance queue_countable : Countable MessageQueue :=
  inj_countable' (fun q => (blocking q, hold_messages q, time_id q, id_time q, resolved q, queue_size q))
    (fun '(a, b, c, d, e, f) => mkQueue a b c d e f) _.
Next Obligation. by intros []. Qed.

#[export] Instance overflow_policy_eq_dec : EqDecision TopicOverflowPolicy.
Proof. solve_decision. Defined.
#[export] Program Instance overflow_policy_countable : Countable TopicOverflowPolicy :=
  inj_countable' (fun p => match p with RejectNew => true | DropOld => false end)
    (fun b : bool => if b then RejectNew else DropOld) _.
Next Obligation. by intros []. Qed.

#[export] Instance overflow_config_eq_dec : EqDecision TopicOverflowConfig.
Proof. solve_decision. Defined.
#[export] Program Instance overflow_config_countable : Countable TopicOverflowConfig :=
  inj_countable' (fun c => (overflow_policy c, overflow_size c)) (fun '(a, b) => mkOverflowConfig a b) _.
Next Obligation. by intros []. Qed.

#[export] Instance topic_config_eq_dec : EqDecision TopicConfig.
Proof. solve_decision. Defined.
#[export] Program Instance topic_config_countable : Countable TopicConfig :=
  inj_countable' (fun c => (config_code c, config_blocking c, overflow_config c))
    (fun '(a, b, c) => mkTopicConfig a b c) _.
Next Obligation. by intros []. Qed.

#[export] Instance topic_serial_eq_dec : EqDecision TopicSerial.
Proof. solve_decision. Defined.
#[export] Program Instance topic_serial_countable : Countable TopicSerial :=
  inj_countable' (fun s => (serial_config s, serial_routing s, serial_interests s, serial_queue s))
    (fun '(a, b, c, d) => mkTopicSerial a b c d) _.
Next Obligation. by intros []. Qed.

(** ** The serialisation *)

Lemma bincode_concrete_ok (s : gmap TopicCode TopicSerial) :
  decode (bytes_pos (pos_bytes (encode s))) = Some s.
Proof. rewrite bytes_pos_bytes. apply decode_encode. Qed.

Definition bincode_concrete : Bincode := {|
  bincode_serialize s := pos_bytes (encode s);
  bincode_deserialize bs := decode (bytes_pos bs);
  bincode_roundtrip := bincode_concrete_ok;
|}.

(** ** A concrete Raft, and the witnesses of the state machine's theorems *)

Section StateMachineWitnesses.
Import Sample SampleRaft.
#[local] Existing Instance sample_hash.
#[local] Existing Instance bincode_concrete.


Definition sample_entry : Entry := mkEntry (H := sample_openraft) (sample_log_id 7) (Normal sample_delegate).
Definition blank_entry : Entry := mkEntry (H := sample_openraft) (sample_log_id 8) Blank.

Definition sample_sm : StateMachineData :=
  mkStateMachineData None stored_membership_default sample_node.
Definition sample_store : StateMachineStore := mkStore sample_sm 3 None.

Lemma sample_entries_ready : entries_ready [sample_entry; blank_entry] sample_sm (Some (ctx_world later)).
Proof.
  split; [|intros; split; [exact I|intros; exact I]].
  cbn [entry_payload sample_entry sample_sm sm_node proposal_ready sample_delegate proposal_call proposal_code
       delegate_topic delegate_message].
  rewrite sample_lookup. split; [discriminate|]. destruct sample_hold_ready as [H1 H2 H3 H4].
  split; [exact H1|exact H2|exact H3|exact H4].
Qed.

Lemma apply_total_witness :
  exists rs sm' w', apply_entries [sample_entry; blank_entry] sample_sm (Some (ctx_world later)) =
      Done (rs, (sm', w')) /\ node_wf (sm_node sm').
Proof.
  apply (apply_total [sample_entry; blank_entry] sample_sm (Some (ctx_world later)) sample_node_wf
    sample_entries_ready).
Defined.

(** An entry that carries a membership comes between the two. *)
Definition membership_entry : Entry := mkEntry (H := sample_openraft) (sample_log_id 9) (MembershipEntry ({[nid x01; nid x02]} : gset NodeId)).

Lemma apply_answers_every_entry_witness :
  exists rs sm' w',
    rs = (fun e => entry_response e None) <$> ([sample_entry; membership_entry] ++ [blank_entry]) /\
    last_applied_log sm' = from_option (fun e => Some (log_id e)) (last_applied_log sample_sm)
      (last ([sample_entry; membership_entry] ++ [blank_entry])) /\
    last_membership sm' = foldl entry_membership (last_membership sample_sm)
      ([sample_entry; membership_entry] ++ [blank_entry]) /\
    exists r1 r2 sm1 w1, apply_entries [sample_entry; membership_entry] sample_sm None = Done (r1, (sm1, w1)) /\
      apply_entries [blank_entry] sm1 w1 = Done (r2, (sm', w')) /\ rs = r1 ++ r2.
Proof.
  do 3 eexists.
  apply (apply_answers_every_entry [sample_entry; membership_entry] [blank_entry] sample_sm _ None _ _). reflexivity.
Defined.

Lemma snapshot_transfer_witness :
  exists meta bytes s1' s2' w',
    build_snapshot sample_store = Done ((meta, bytes), s1') /\
    get_current_snapshot s1' = Some (meta, bytes) /\
    install_snapshot meta bytes store_new (Some world) = (Ok (), (s2', w')) /\
    applied_state s2' = applied_state sample_store /\
    node_equiv (sm_node (state_machine sample_store)) (sm_node (state_machine s2')) /\
    node_wf (sm_node (state_machine s2')) /\
    (forall code t t' s, nd_topics (sm_node (state_machine sample_store)) !! code = Some t ->
       nd_topics (sm_node (state_machine s2')) !! code = Some t' ->
       interest_map_find s (ep_interest_map t') = interest_map_find s (ep_interest_map t)) /\
    get_current_snapshot s2' = Some (meta, bytes).
Proof.
  apply (snapshot_transfer sample_store store_new (Some world) sample_node_wf). split; [vm_compute; discriminate|reflexivity].
Defined.

(** A snapshot of the sample topic, installed on the sample node. *)
Definition sample_bytes : list u8 := serialize_node sample_node.
Definition sample_meta : SnapshotMeta := mkSnapshotMeta (H := sample_openraft) None stored_membership_default "s".

Lemma install_orphans_waiters_witness :
  exists s' node', install_snapshot sample_meta sample_bytes store_new (Some world) = (Ok (), (s', Some node')) /\
    topic_heap (runtime node') !! 0 = topic_heap (runtime world) !! 0 /\
    exists new, new <> 0 /\
      topic_heap (runtime node') !! new = Some (mkTopicInner topic ∅ ∅) /\
      spawned (runtime (ctx_world (resolve_ack (mid x01) (Err (wait_ack_exception Overflow))
          (set_topic_code topic (context_new node'))))) =
        spawned (runtime node') ++ [TaskResolveAck new (mid x01) (Err (wait_ack_exception Overflow))].
Proof.
  assert (exists s' node', install_snapshot sample_meta sample_bytes store_new (Some world) =
      (Ok (), (s', Some node')) /\ is_Some (nd_topics (sm_node (state_machine s')) !! topic))
    as (s' & node' & Hrun & Hcode).
  { unfold install_snapshot, sample_bytes. rewrite deserialize_serialize. do 2 eexists. split; [reflexivity|].
    cbn [state_machine sm_node nd_topics sample_node]. rewrite lookup_fmap, lookup_singleton_eq. eexists. reflexivity. }
  exists s', node'. split; [exact Hrun|].
  apply (install_orphans_waiters sample_meta sample_bytes store_new s' world node' topic 0 (mid x01)
    (Err (wait_ack_exception Overflow)) Hrun Hcode).
  - reflexivity.
  - vm_compute. apply le_n.
Defined.
End StateMachineWitnesses.
