(* ===== verification/Agreement.v ===== *)
(** * Replicas that apply the same log agree

    The shared state of [Replica], lifted to a node's topics and to its Raft state
    machine: every replica implements one function on the shared state, so two
    replicas that start in agreement and apply the same entries stay in agreement,
    and a replica that takes a snapshot of another and applies the rest of the log
    ends where the other does. *)

From S2P Require Import Prelude Ids Interest Message Proposal Queue Topic Delivery Replica NodeData StateMachine Wire.

(** ** Topics *)

Definition shared_node (nd : NodeData) : gmap TopicCode Shared := shared_topic <$> nd_topics nd.

Section SharedProposals.
Context `{Hash64} (past : Z -> bool).

Definition shared_load (p : LoadTopic) : Shared :=
  mkShared (load_config p) ∅ ∅
    ((fun dm => shared_hold (durable_hold dm)) <$> sort_by_key dm_time (load_queue p)).

(** A proposal, as a function of the shared topics. *)
Definition shared_proposal (p : Proposal) (s : gmap TopicCode Shared) : gmap TopicCode Shared :=
  match p with
  | PLoadTopic p =>
      match s !! config_code (load_config p) with
      | Some _ => s
      | None => <[config_code (load_config p) := shared_load p]> s
      end
  | PUnloadTopic p => delete (unload_code p) s
  | _ =>
      match proposal_call p with
      | Some c => alter (shared_call past c) (proposal_code p) s
      | None => s
      end
  end.
End SharedProposals.

Section AgreementFacts.
Context `{HashOrder, Clock, Hash64}.
Implicit Types (nd : NodeData) (ctx : ProposalContext).

(** The replica's clock stays on one side of every expiry while the proposal is
    applied, and the candidates of a [Push] message have distinct hashes. *)
Definition proposal_sided (past : Z -> bool) (p : Proposal) nd ctx : Prop :=
  match proposal_call p, nd_topics nd !! proposal_code p with
  | Some c, Some t =>
      Forall (distinct_hashes (raw (ep_interest_map t))) (call_messages c) /\
      forall t' ctx', run_call c t (set_topic_code (proposal_code p) ctx) = Done (t', ctx') ->
        call_sided past c t (set_topic_code (proposal_code p) ctx) ctx'
  | _, _ => True
  end.

Lemma from_durable_empty config messages t :
  from_durable config messages = Done t -> ep_routing_table t = ∅ /\ raw (ep_interest_map t) = ∅.
Proof. unfold from_durable. by intros (q & _ & [= <-])%Outcome_bind_Done. Qed.

Lemma apply_load_shared p nd ctx nd' ctx' :
  proposal_ready (PLoadTopic p) nd ctx -> apply_load_topic p nd ctx = Done (nd', ctx') ->
  shared_node nd' =
    match shared_node nd !! config_code (load_config p) with
    | Some _ => shared_node nd
    | None => <[config_code (load_config p) := shared_load p]> (shared_node nd)
    end.
Proof.
  intros Hready Hrun. unfold shared_node at 2. rewrite lookup_fmap.
  unfold apply_load_topic in Hrun. destruct (nd_topics nd !! config_code (load_config p)) eqn:Hnone.
  { by injection Hrun as <- _. }
  apply Outcome_bind_Done in Hrun as (t & Ht & Hrun).
  apply Outcome_bind_Done in Hrun as (c & _ & [= <- _]).
  unfold shared_node. cbn [nd_topics fmap option_fmap option_map]. rewrite fmap_insert. f_equal.
  destruct (from_durable_empty _ _ _ Ht) as [Hroute Hraw].
  destruct Hready as (Hids & Htimes & Hsize & _).
  pose proof (sort_by_key_perm dm_time (load_queue p)) as Hperm.
  destruct (from_durable_spec (load_config p) (sort_by_key dm_time (load_queue p)))
    as (t1 & Ht1 & _ & Hcfg & _ & Habs); [by rewrite Hperm|by rewrite Hperm|by rewrite Hperm|].
  rewrite Ht1 in Ht. injection Ht as ->. unfold shared_topic, shared_load. rewrite Hcfg, Hroute, Hraw, Habs.
  f_equal. rewrite <-list_fmap_compose. f_equal. apply sort_by_key_unique; [done|by rewrite Hperm].
Qed.

(** On every replica a proposal is the function [shared_proposal]. *)
Lemma apply_proposal_shared past p nd ctx nd' ctx' :
  node_wf nd -> proposal_ready p nd ctx -> proposal_sided past p nd ctx ->
  apply_proposal p nd ctx = Done (nd', ctx') ->
  shared_node nd' = shared_proposal past p (shared_node nd).
Proof.
  intros Hwf Hready Hsided Hrun. destruct (proposal_call p) as [c|] eqn:Hc.
  - assert (shared_proposal past p (shared_node nd) =
      alter (shared_call past c) (proposal_code p) (shared_node nd)) as ->.
    { by destruct p; cbn in Hc |- *; simplify_eq. }
    pose proof (apply_call_spec p c nd ctx Hc Hwf Hready) as Hs.
    destruct (nd_topics nd !! proposal_code p) as [t|] eqn:Ht.
    + destruct Hs as (t' & ctx1 & ctx2 & Hr & _ & _ & Ha). rewrite Ha in Hrun. injection Hrun as <- _.
      unfold proposal_sided in Hsided. rewrite Hc, Ht in Hsided. destruct Hsided as [Hd Hside].
      assert (call_ready c t ctx) as Hcr.
      { unfold proposal_ready in Hready. destruct p; try discriminate Hc; rewrite Hc, Ht in Hready; done. }
      destruct (Hwf _ _ Ht) as (Htwf & _).
      unfold shared_node. cbn [nd_topics]. rewrite fmap_insert.
      rewrite (run_call_shared past c t (set_topic_code (proposal_code p) ctx) t' ctx1);
        [|done|by apply call_ready_set_code|done|by apply (Hside t')|done].
      apply map_eq. intros code. destruct (decide (code = proposal_code p)) as [->|Hne].
      * by rewrite lookup_insert_eq, lookup_alter_eq, lookup_fmap, Ht.
      * by rewrite lookup_insert_ne, lookup_alter_ne.
    + destruct Hs as (ctx1 & Ha & _). rewrite Ha in Hrun. injection Hrun as <- _.
      apply map_eq. intros code. destruct (decide (code = proposal_code p)) as [->|Hne].
      * unfold shared_node. by rewrite lookup_alter_eq, lookup_fmap, Ht.
      * by rewrite lookup_alter_ne.
  - destruct p as [| |p|p| | |]; try discriminate Hc; cbn [apply_proposal shared_proposal] in *.
    + by apply (apply_load_shared p nd ctx nd' ctx').
    + injection Hrun as <- _. unfold shared_node, apply_unload_topic. cbn [nd_topics]. by rewrite fmap_delete.
Qed.
End AgreementFacts.

(** ** State machines *)

Section AgreedState.
Context `{Hash64, OpenraftMembership}.

Record Agreed : Type := mkAgreed {
  agreed_log : option LogId;
  agreed_membership : StoredMembership;
  agreed_topics : gmap TopicCode Shared;
}.

Definition agreed (sm : StateMachineData) : Agreed :=
  mkAgreed (last_applied_log sm) (last_membership sm) (shared_node (sm_node sm)).

(** An entry, as a function of the agreed state, with the expiries that have
    passed when it is applied. *)
Definition agreed_entry (s : Agreed) (x : Entry * (Z -> bool)) : Agreed :=
  let '(e, past) := x in
  match entry_payload e with
  | Blank => mkAgreed (Some (log_id e)) (agreed_membership s) (agreed_topics s)
  | Normal p => mkAgreed (Some (log_id e)) (agreed_membership s) (shared_proposal past p (agreed_topics s))
  | MembershipEntry m =>
      mkAgreed (Some (log_id e)) (stored_membership_new (Some (log_id e)) m) (agreed_topics s)
  end.
End AgreedState.

Section LogAgreement.
Context `{HashOrder, Clock, Hash64, OpenraftMembership}.
Implicit Types (sm : StateMachineData).

(** Each proposal of the log is ready when its turn comes, and the clock is on the
    side of the expiries that [past] gives for the entry. *)
Fixpoint log_ready (es : list (Entry * (Z -> bool))) sm (node : World) : Prop :=
  match es with
  | [] => True
  | (e, past) :: es =>
      match entry_payload e with
      | Normal p =>
          proposal_ready p (sm_node sm) (context_new node) /\
          proposal_sided past p (sm_node sm) (context_new node)
      | _ => True
      end /\
      forall r sm' node', apply_entry e sm (Some node) = Done (r, (sm', Some node')) ->
        log_ready es sm' node'
  end.

Lemma apply_entry_agreed e past sm node :
  node_wf (sm_node sm) -> log_ready [(e, past)] sm node ->
  exists r sm' node', apply_entry e sm (Some node) = Done (r, (sm', Some node')) /\
    node_wf (sm_node sm') /\ agreed sm' = agreed_entry (agreed sm) (e, past).
Proof.
  intros Hwf [Hready _]. unfold apply_entry, agreed_entry. destruct (entry_payload e) as [|p|mem].
  - do 3 eexists. split; [done|]. by split.
  - destruct Hready as [Hready Hsided].
    destruct (apply_proposal_ok p (sm_node sm) (context_new node) Hwf Hready) as (nd' & ctx' & Hr & Hwf' & _).
    cbn [sm_node]. rewrite Hr. cbn [mbind Outcome_bind]. do 3 eexists. split; [done|]. split; [exact Hwf'|].
    unfold agreed. cbn [last_applied_log last_membership sm_node agreed_membership agreed_topics].
    by rewrite (apply_proposal_shared past p _ _ _ _ Hwf Hready Hsided Hr).
  - do 3 eexists. split; [done|]. by split.
Qed.

(** A replica applies a log as [agreed_entry] does. *)
Lemma apply_entries_agreed (es : list (Entry * (Z -> bool))) sm node :
  node_wf (sm_node sm) -> log_ready es sm node ->
  exists rs sm' node', apply_entries es.*1 sm (Some node) = Done (rs, (sm', Some node')) /\
    node_wf (sm_node sm') /\ agreed sm' = foldl agreed_entry (agreed sm) es.
Proof.
  revert sm node. induction es as [|[e past] es IH]; intros sm node Hwf Hready.
  { exists [], sm, node. by split_and!. }
  destruct (apply_entry_agreed e past sm node Hwf) as (r & sm1 & node1 & He & Hwf1 & Ha).
  { split; [apply Hready|done]. }
  destruct (IH sm1 node1 Hwf1) as (rs & sm' & node' & Hr & Hwf' & Ha'); [by eapply Hready|].
  exists (r :: rs), sm', node'. cbn [apply_entries fmap list_fmap fst foldl]. rewrite He. cbn [mbind Outcome_bind].
  rewrite Hr. split; [done|]. split; [done|]. by rewrite Ha', Ha.
Qed.
End LogAgreement.

(** A snapshot carries what is shared. *)
Lemma snapshot_agreed `{HashOrder, Hash64, OpenraftMembership, Bincode} (s1 s2 s1' : StateMachineStore)
    (w : option World) (meta : SnapshotMeta) (bytes : list u8) :
  node_wf (sm_node (state_machine s1)) -> build_snapshot s1 = Done ((meta, bytes), s1') ->
  exists s2' w', install_snapshot meta bytes s2 w = (Ok (), (s2', w')) /\
    node_wf (sm_node (state_machine s2')) /\ (is_Some w -> is_Some w') /\
    agreed (state_machine s2') = agreed (state_machine s1).
Proof.
  intros Hwf Hb. unfold build_snapshot in Hb. apply Outcome_bind_Done in Hb as (idx & _ & [= <- <- _]).
  unfold install_snapshot. rewrite deserialize_serialize. do 2 eexists. split; [reflexivity|].
  split; [by apply reload_wf|]. split; [by intros [? ->]|]. unfold agreed. cbn [state_machine sm_node last_applied_log
    last_membership last_log_id meta_membership]. f_equal.
  unfold shared_node. cbn [nd_topics]. rewrite <-map_fmap_compose. apply map_fmap_ext. intros code t _. cbn.
  unfold shared_topic, topic_abs. pose proof (topic_reload_equiv t) as [Hc Hr Hraw Hq].
  by rewrite Hc, Hr, Hraw, Hq.
Qed.

(** ** Properties *)



Section AgreementWitnesses.
Import Sample SampleRaft.
#[local] Existing Instance sample_hash.
#[local] Existing Instance bincode_concrete.

Definition never : Z -> bool := fun _ => false.
Definition sample_log : list (Entry * (Z -> bool)) := [(sample_entry, never); (blank_entry, never)].

(** Any replica whose copy of the sample topic has the sample's queue is ready. *)
Lemma sample_log_ready (o : HashOrder) (c : Clock) (sm : StateMachineData) (w : World) (t : TopicData) :
  nd_topics (sm_node sm) !! topic = Some t -> topic_config t = topic_config sample_topic ->
  queue t = queue sample_topic -> raw (ep_interest_map t) = raw (ep_interest_map sample_topic) ->
  (1 < c (clock_reads (runtime w)))%Z ->
  @log_ready o c _ _ _ sample_log sm w.
Proof.
  intros Ht Hcfg Hq Hraw Hclk.
  assert (topic_abs t = topic_abs sample_topic) as Habs by (unfold topic_abs; by rewrite Hq).
  split; [|intros r sm' w' _; split; [exact I|intros; exact I]].
  cbn [sample_entry entry_payload]. unfold proposal_ready, proposal_sided, sample_delegate.
  cbn [proposal_call proposal_code delegate_topic delegate_message]. rewrite Ht.
  split; [split; [discriminate|split]|split].
  - rewrite Habs. apply sample_hold_ready.
  - rewrite Hq. intros e He.
    assert (Forall (fun e => (time e <= 1)%Z) (time_id (queue sample_topic))) as Hall
      by (apply (bool_decide_unpack _); vm_compute; exact I).
    rewrite Forall_forall in Hall. specialize (Hall e He). cbn. unfold clock_at. lia.
  - rewrite Hq. vm_compute. reflexivity.
  - rewrite Hcfg. apply (ready_config _ _ _ sample_hold_ready).
  - apply Forall_singleton. unfold distinct_hashes. rewrite Hraw.
    assert (shared_find (raw (ep_interest_map sample_topic)) (subjects (header (msg Push x03))) = {[ep x05]}) as ->.
    { apply (bool_decide_unpack _). vm_compute. exact I. }
    intros e1 e2 ->%elem_of_singleton ->%elem_of_singleton _. reflexivity.
  - intros t' ctx' _ m Hm d n Hd. exfalso. rewrite Habs in Hm.
    assert (Forall (fun m => durability (header m) = None) (msg Push x03 :: (message <$> topic_abs sample_topic))) as Hall.
    { repeat constructor. }
    rewrite Forall_forall in Hall. rewrite (Hall m Hm) in Hd. discriminate Hd.
Qed.

(** Another node, on which no endpoint of the sample is reachable, with a clock and
    a hash order of its own. *)
Definition other_world : World :=
  mkWorld (mkNodeInner (mkNodeConfig (nid x02) true) {[topic := 0]} [])
    (mkRuntime {[0 := mkTopicInner topic ∅ ∅]} ∅ 1 [] 0).
Definition other_clock : Clock := fun n => (1000 + 7 * Z.of_nat n)%Z.


End AgreementWitnesses.
