(* ===== verification/Placement.v ===== *)
(** * Where and how often a message is delivered

    Every replica applies the same proposals and spawns the deliveries of the
    endpoints that its routing table gives to its own node.  This file follows
    the deliveries a replica spawns through a call, an entry and a log, and shows
    for two nodes of a cluster that no message goes twice to an endpoint. *)

From S2P Require Import Prelude Ids Interest Message Proposal Queue Topic Delivery Replica NodeData StateMachine Wire Agreement.

(** ** Deliveries *)

(** The deliveries a node has spawned: topic, message and endpoint, in order. *)
Definition task_delivery (t : Task) : option (TopicCode * MessageId * EndpointAddr) :=
  match t with TaskDispatchMessage _ code m ep => Some (code, msg_id m, ep) | _ => None end.
Definition deliveries (w : World) : list (TopicCode * MessageId * EndpointAddr) :=
  omap task_delivery (spawned (runtime w)).

Notation delivered ctx := (deliveries (ctx_world ctx)).

(** What the handlers may do to a status while they send: start a delivery that
    was waiting, to an endpoint of this node. *)
Definition started (reach : gset EndpointAddr) (ep : EndpointAddr) (k k' : option MessageStatusKind) : Prop :=
  k' = k \/ (k = Some Unsent /\ k' = Some Sending /\ ep ∈ reach).

(** A delivery spawned while the held messages [l] became [l']: to an endpoint
    within reach which had not been sent to, and is being sent to from then on. *)
Definition sent_from (reach : gset EndpointAddr) (ctx : ProposalContext) (l l' : list HoldMessage)
    (d : TopicCode * MessageId * EndpointAddr) : Prop :=
  let '(code, id, ep) := d in
  ctx_topic_code ctx = Some code /\ ep ∈ reach /\
  (exists hm, hm ∈ l /\ hold_id hm = id /\ hold_status hm !! ep = Some Unsent) /\
  (forall hm, hm ∈ l' -> hold_id hm = id -> hold_status hm !! ep = Some Sending).

Record sends (reach : gset EndpointAddr) (l : list HoldMessage) (ctx : ProposalContext)
    (l' : list HoldMessage) (ctx' : ProposalContext) : Prop := mkSends {
  sends_extends : ctx_extends ctx ctx';
  sends_new : exists new, delivered ctx' = delivered ctx ++ new /\ NoDup new /\ Forall (sent_from reach ctx l l') new;
  sends_old : forall hm', hm' ∈ l' -> exists hm, hm ∈ l /\ hold_id hm = hold_id hm' /\
    forall ep, started reach ep (hold_status hm !! ep) (hold_status hm' !! ep);
}.

Section SendFacts.
Context `{HashOrder, Clock, Hash64}.
Implicit Types (hm : HoldMessage) (l : list HoldMessage) (ctx : ProposalContext) (reach : gset EndpointAddr).

Lemma delivered_dispatch m ep ctx :
  delivered (dispatch_message m ep ctx) = delivered ctx ++
    match ctx_topic_code ctx, ctx_topic ctx with Some code, Some _ => [(code, msg_id m, ep)] | _, _ => [] end.
Proof.
  unfold dispatch_message, ctx_topic. destruct (ctx_topic_code ctx) as [code|]; cbn; [|by rewrite app_nil_r].
  destruct (get_topic code (ctx_world ctx)); [|by rewrite app_nil_r]. unfold deliveries. cbn. by rewrite omap_app.
Qed.

Lemma delivered_dispatches m eps ctx :
  delivered (foldl (fun ctx ep => dispatch_message m ep ctx) ctx eps) = delivered ctx ++
    match ctx_topic_code ctx, ctx_topic ctx with
    | Some code, Some _ => (fun ep => (code, msg_id m, ep)) <$> eps
    | _, _ => []
    end.
Proof.
  revert ctx. induction eps as [|ep eps IH]; intros ctx; cbn [foldl fmap list_fmap].
  { by repeat case_match; rewrite app_nil_r. }
  rewrite IH, delivered_dispatch, (ext_code _ _ (extends_dispatch m ep ctx)),
    (extends_ctx_topic _ _ (extends_dispatch m ep ctx)), <-app_assoc. by repeat case_match.
Qed.

Lemma delivered_resolve_ack i r ctx : delivered (resolve_ack i r ctx) = delivered ctx.
Proof.
  unfold resolve_ack. destruct (ctx_topic_code ctx); [|done]. destruct (get_topic _ _); [|done].
  unfold deliveries. cbn. by rewrite omap_app, app_nil_r.
Qed.

Lemma delivered_resolved hm ctx : delivered (snd (hold_is_resolved hm ctx)) = delivered ctx.
Proof.
  unfold hold_is_resolved. destruct (target_kind _); try done. destruct (durability _) as [d|]; [|done].
  cbn. repeat case_match; done.
Qed.

Lemma delivered_commit ctx ctx' : commit_durable_commands ctx = Done ctx' -> delivered ctx' = delivered ctx.
Proof.
  unfold commit_durable_commands. case_match; [|by intros [= <-]].
  intros (code & _ & Hc)%Outcome_bind_Done. destruct (get_topic _ _); simplify_eq; [|done].
  unfold deliveries. cbn. by rewrite omap_app, app_nil_r.
Qed.

(** Nothing is sent. *)
Lemma sends_none reach l l' ctx ctx' :
  ctx_extends ctx ctx' -> delivered ctx' = delivered ctx -> l' ⊆ l -> sends reach l ctx l' ctx'.
Proof.
  intros He Hd Hl. split; [done| |].
  - exists []. rewrite app_nil_r. split_and!; [done|constructor|constructor].
  - intros hm Hhm. exists hm. split_and!; [by apply Hl|done|by left].
Qed.

Lemma sends_trans reach l1 l2 l3 ctx1 ctx2 ctx3 :
  sends reach l1 ctx1 l2 ctx2 -> sends reach l2 ctx2 l3 ctx3 -> sends reach l1 ctx1 l3 ctx3.
Proof.
  intros [He1 (n1 & Hd1 & Hnd1 & Hf1) Ho1] [He2 (n2 & Hd2 & Hnd2 & Hf2) Ho2]. rewrite Forall_forall in Hf1, Hf2.
  split; [by etrans| |].
  - exists (n1 ++ n2). rewrite Hd2, Hd1, app_assoc. split; [done|]. split.
    + apply NoDup_app. split_and!; [done| |done]. intros [[code id] ep] Hd1' Hd2'.
      destruct (Hf1 _ Hd1') as (_ & _ & _ & Hs). destruct (Hf2 _ Hd2') as (_ & _ & (hm & Hin & Hid & Hu) & _).
      rewrite (Hs hm Hin Hid) in Hu. discriminate Hu.
    + apply Forall_app. split; apply Forall_forall; intros [[code id] ep] Hd.
      * destruct (Hf1 _ Hd) as (Hc & Hr & Hu & Hs). split_and!; [done..|]. intros hm3 Hin3 Hid3.
        destruct (Ho2 hm3 Hin3) as (hm2 & Hin2 & Hid2 & Hst). specialize (Hs hm2 Hin2 ltac:(congruence)).
        destruct (Hst ep) as [->|[Hc2 _]]; [done|congruence].
      * destruct (Hf2 _ Hd) as (Hc & Hr & (hm2 & Hin2 & Hid2 & Hu) & Hs).
        split_and!; [by rewrite <-(ext_code _ _ He1)|done| |done].
        destruct (Ho1 hm2 Hin2) as (hm1 & Hin1 & Hid1 & Hst). exists hm1. split_and!; [done|congruence|].
        destruct (Hst ep) as [<-|(_ & Hc2 & _)]; [done|congruence].
  - intros hm3 Hin3. destruct (Ho2 hm3 Hin3) as (hm2 & Hin2 & Hid2 & Hst2).
    destruct (Ho1 hm2 Hin2) as (hm1 & Hin1 & Hid1 & Hst1). exists hm1. split_and!; [done|congruence|].
    intros ep. destruct (Hst2 ep) as [->|(Hb & Ha & Hr)]; [apply Hst1|].
    destruct (Hst1 ep) as [Heq|(_ & Hc & _)]; [|congruence]. right. by rewrite <-Heq.
Qed.

(** A message that is not polled. *)
Lemma sends_frame reach hm l l' ctx ctx' :
  hold_id hm ∉ hold_id <$> l -> sends reach l ctx l' ctx' -> sends reach (hm :: l) ctx (hm :: l') ctx'.
Proof.
  intros Hni [He (new & Hd & Hnd & Hf) Ho]. split; [done| |].
  - exists new. split_and!; [done|done|]. eapply Forall_impl; [exact Hf|].
    intros [[code id] ep] (Hc & Hr & (h & Hin & Hid & Hu) & Hs). split_and!; [done|done| |].
    + exists h. split_and!; [by right|done|done].
    + intros h' [->|Hin']%elem_of_cons Hid'; [|by apply Hs]. destruct Hni. rewrite Hid', <-Hid.
      by apply list_elem_of_fmap_2.
  - intros h' [->|Hin']%elem_of_cons.
    + exists hm. split_and!; [by left|done|by left].
    + destruct (Ho h' Hin') as (h & Hin & Hid & Hs). exists h. split_and!; [by right|done|done].
Qed.

Lemma sent_hold_started reach hm ep :
  started reach ep (hold_status hm !! ep) (hold_status (sent_hold reach hm) !! ep).
Proof.
  change (hold_status (sent_hold reach hm)) with (map_imap (fun ep k => Some (sent_status reach ep k)) (hold_status hm)).
  rewrite map_lookup_imap. unfold started. destruct (hold_status hm !! ep) as [k|]; [|by left].
  unfold sent_status, is_unsent. cbn. repeat case_bool_decide; naive_solver.
Qed.

Lemma sent_hold_sent reach hm ep : ep ∈ to_send reach hm -> hold_status (sent_hold reach hm) !! ep = Some Sending.
Proof.
  intros [Hu Hr]%elem_of_to_send. destruct (sent_hold_started reach hm ep) as [Heq|(_ & Hs & _)]; [|done].
  change (hold_status (sent_hold reach hm)) with (map_imap (fun ep k => Some (sent_status reach ep k)) (hold_status hm)).
  rewrite map_lookup_imap, Hu. cbn. unfold sent_status, is_unsent. by rewrite !bool_decide_true.
Qed.

(** One message is sent where it was not yet. *)
Lemma send_sends reach hm l ctx :
  hold_id hm ∉ hold_id <$> l ->
  sends reach (hm :: l) ctx (fst (send_unsent reach hm ctx) :: l) (snd (send_unsent reach hm ctx)).
Proof.
  intros Hni. rewrite send_unsent_eq. cbn [fst snd].
  split; [apply extends_foldl_dispatch| |].
  - rewrite delivered_dispatches. eexists. split; [done|]. pose proof (NoDup_to_send reach hm) as Hnd.
    destruct (ctx_topic_code ctx) as [code|] eqn:Hc; [|split; constructor].
    destruct (ctx_topic ctx); [|split; constructor]. split; [apply NoDup_fmap_2; [by intros ?? [=]|done]|].
    apply Forall_fmap, Forall_forall. intros ep Hep. cbn. pose proof Hep as [Hu Hr]%elem_of_to_send.
    split_and!; [done|done| |].
    + exists hm. split_and!; [by left|done|done].
    + intros h [->|Hin]%elem_of_cons Hid; [by apply sent_hold_sent|].
      destruct Hni. change (hold_id hm) with (msg_id (message hm)). rewrite <-Hid. by apply list_elem_of_fmap_2.
  - intros h [->|Hin]%elem_of_cons.
    + exists hm. split_and!; [by left|done|apply sent_hold_started].
    + exists h. split_and!; [by right|done|by left].
Qed.

(** A message is polled: it stays, or it is finished. *)
Lemma polled_sends reach hm l ctx :
  hold_id hm ∉ hold_id <$> l ->
  let '(hm1, ctx1) := send_unsent reach hm ctx in
  let '(done, ctx2) := hold_is_resolved hm1 ctx1 in
  sends reach (hm :: l) ctx (hm1 :: l) ctx2 /\ forall i, sends reach (hm :: l) ctx l (finish i hm1 ctx2).
Proof.
  intros Hni. pose proof (send_sends reach hm l ctx Hni) as Hs. destruct (send_unsent reach hm ctx) as [hm1 ctx1].
  cbn [fst snd] in Hs. pose proof (delivered_resolved hm1 ctx1) as Hd. pose proof (hold_is_resolved_extends hm1 ctx1) as He.
  destruct (hold_is_resolved hm1 ctx1) as [done ctx2]. cbn [snd] in Hd, He. split.
  - eapply sends_trans; [exact Hs|]. by apply sends_none.
  - intros i. eapply sends_trans; [exact Hs|].
    unfold finish. set (ctx3 := resolve_ack i _ ctx2). apply sends_none; [| |set_solver].
    + etrans; [exact He|]. etrans; [apply (extends_resolve_ack i (hold_resolve hm1))|apply extends_push_durable].
    + change (delivered ctx3 = delivered ctx1). unfold ctx3. by rewrite delivered_resolve_ack.
Qed.

Lemma spec_flush_sends reach l ctx :
  NoDup (hold_id <$> l) -> sends reach l ctx (fst (spec_flush reach l ctx)) (snd (spec_flush reach l ctx)).
Proof.
  revert ctx. induction l as [|hm l IH]; intros ctx; [by intros; apply sends_none|].
  rewrite fmap_cons. intros [Hni Hnd]%NoDup_cons. cbn [spec_flush].
  pose proof (polled_sends reach hm l ctx Hni) as Hp. destruct (send_unsent reach hm ctx) as [hm1 ctx1].
  destruct (hold_is_resolved hm1 ctx1) as [[] ctx2]; destruct Hp as [Hp Hf]; [|exact Hp].
  eapply sends_trans; [apply Hf|by apply IH].
Qed.

Lemma spec_poll_at_sends reach id l ctx :
  NoDup (hold_id <$> l) -> sends reach l ctx (fst (spec_poll_at reach id l ctx)) (snd (spec_poll_at reach id l ctx)).
Proof.
  revert ctx. induction l as [|hm l IH]; intros ctx; [by intros; apply sends_none|].
  rewrite fmap_cons. intros [Hni Hnd]%NoDup_cons. cbn [spec_poll_at]. case_decide.
  - pose proof (polled_sends reach hm l ctx Hni) as Hp. destruct (send_unsent reach hm ctx) as [hm1 ctx1].
    destruct (hold_is_resolved hm1 ctx1) as [[] ctx2]; destruct Hp as [Hp Hf]; [apply Hf|exact Hp].
  - specialize (IH ctx Hnd). destruct (spec_poll_at reach id l ctx) as [l' ctx']. by apply sends_frame.
Qed.

Lemma spec_update_sends b reach u l ctx :
  NoDup (hold_id <$> l) ->
  sends reach (spec_acks u l) ctx (fst (spec_update b reach u l ctx)) (snd (spec_update b reach u l ctx)).
Proof.
  intros Hnd. assert (NoDup (hold_id <$> spec_acks u l)) as Hnd' by by rewrite spec_acks_ids.
  unfold spec_update, spec_poll. set (ctx1 := push_durable_command _ ctx).
  eapply (sends_trans _ _ (spec_acks u l) _ _ ctx1).
  { apply sends_none; [apply extends_push_durable|done|done]. }
  destruct b; [case_decide; [by apply spec_flush_sends|by apply sends_none]|by apply spec_poll_at_sends].
Qed.

Lemma spec_poll_all_sends b reach ids l ctx :
  NoDup (hold_id <$> l) -> sends reach l ctx (fst (spec_poll_all b reach ids l ctx)) (snd (spec_poll_all b reach ids l ctx)).
Proof.
  unfold spec_poll_all. revert l ctx. induction ids as [|i ids IH]; intros l ctx Hnd; [by apply sends_none|].
  cbn [foldl]. pose proof (spec_update_sends b reach (state_update_new_empty i) l ctx Hnd) as Hs.
  pose proof (spec_update_ids b reach (state_update_new_empty i) l ctx) as Hids. rewrite spec_acks_empty in Hs.
  destruct (spec_update b reach (state_update_new_empty i) l ctx) as [l1 ctx1]. cbn [fst snd] in *.
  eapply sends_trans; [exact Hs|]. apply IH. by eapply sublist_NoDup.
Qed.
End SendFacts.

(** ** One call *)

(** A report of statuses that deliveries and endpoints make: a delivery is not
    begun again by it, nor marked as begun. *)
Definition quiet_call (c : topic_call) : Prop :=
  match c with
  | CallUpdate u => forall ep k, update_status u !! ep = Some k -> k <> Unsent /\ k <> Sending
  | _ => True
  end.

(** What a call writes where a status was [k], before it sends anything. *)
Definition written (c : topic_call) (ep : EndpointAddr) (k k' : option MessageStatusKind) : Prop :=
  (k' = k \/ (k = None /\ k' = Some Unsent) \/ (exists r, k' = Some r /\ r <> Unsent /\ r <> Sending)) /\
  (forall h, c = CallOffline h ep -> k' <> Some Unsent /\ k' <> Some Sending).

(** The held messages a call begins to send from: those of the topic, with the
    statuses it writes, and the one it brings. *)
Definition prepared (c : topic_call) t (l : list HoldMessage) : Prop :=
  NoDup (hold_id <$> l) /\
  forall hm', hm' ∈ l ->
    (exists hm, hm ∈ topic_abs t /\ hold_id hm = hold_id hm' /\
       forall ep, written c ep (hold_status hm !! ep) (hold_status hm' !! ep)) \/
    (hold_id hm' ∈ call_id c /\ forall ep, hold_status hm' !! ep <> Some Sending).

(** A delivery a call spawned on the node [x]. *)
Definition call_delivery (c : topic_call) (code : TopicCode) (x : NodeId) (t t' : TopicData)
    (d : TopicCode * MessageId * EndpointAddr) : Prop :=
  let '(code', id, ep) := d in
  code' = code /\ ep ∈ reachable_eps x t' /\ (forall h, c <> CallOffline h ep) /\
  ((exists hm, hm ∈ topic_abs t /\ hold_id hm = id /\
      (hold_status hm !! ep = None \/ hold_status hm !! ep = Some Unsent)) \/ id ∈ call_id c) /\
  (forall hm, hm ∈ topic_abs t' -> hold_id hm = id -> hold_status hm !! ep = Some Sending).

Record call_places (c : topic_call) (code : TopicCode) (x : NodeId) t t' (before after : World) : Prop := mkCallPlaces {
  places_new : exists new, deliveries after = deliveries before ++ new /\ NoDup new /\
    Forall (call_delivery c code x t t') new;
  places_held : forall hm', hm' ∈ topic_abs t' ->
    (exists hm, hm ∈ topic_abs t /\ hold_id hm = hold_id hm' /\
       forall ep,
         (forall k, hold_status hm !! ep = Some k -> k <> Unsent ->
            exists k', hold_status hm' !! ep = Some k' /\ k' <> Unsent) /\
         (hold_status hm' !! ep = Some Sending ->
            ep ∈ reachable_eps x t' \/ (hold_status hm !! ep = Some Sending /\ forall h, c <> CallOffline h ep))) \/
    (hold_id hm' ∈ call_id c /\
     forall ep, hold_status hm' !! ep = Some Sending -> ep ∈ reachable_eps x t');
}.

Section CallFacts.
Context `{HashOrder, Clock, Hash64}.
Implicit Types (hm : HoldMessage) (l : list HoldMessage) (ctx : ProposalContext).

Lemma prepared_same c t l :
  NoDup (hold_id <$> topic_abs t) -> (forall h ep, c <> CallOffline h ep) -> l `sublist_of` topic_abs t -> prepared c t l.
Proof.
  intros Hnd Hc Hl. split; [eapply sublist_NoDup; [exact Hnd|by apply fmap_sublist]|].
  intros hm Hin. left. exists hm. split_and!; [by eapply elem_of_sublist|done|].
  intros ep. split; [by left|]. intros h Hh. by destruct (Hc h ep).
Qed.

Lemma prepared_append m receivers t l :
  NoDup (hold_id <$> topic_abs t) -> msg_id m ∉ hold_id <$> topic_abs t -> l `sublist_of` topic_abs t ->
  prepared (CallHold m) t (l ++ [mkHold m (wait_ack_new (ack_kind (header m)) receivers)]).
Proof.
  intros Hnd Hni Hl. destruct (prepared_same (CallHold m) t l Hnd ltac:(done) Hl) as [Hnd' Hall]. split.
  - rewrite fmap_app. apply NoDup_app. split_and!; [done| |apply NoDup_singleton].
    intros i Hi ->%list_elem_of_singleton. apply Hni. by eapply elem_of_sublist, fmap_sublist.
  - intros hm [Hin| ->%list_elem_of_singleton]%elem_of_app; [by apply Hall|]. right. split; [by left|].
    intros ep Hs. apply lookup_set_to_map in Hs; [|done]. by destruct Hs as (? & _ & [=]).
Qed.

Lemma prepared_acks u t :
  NoDup (hold_id <$> topic_abs t) -> quiet_call (CallUpdate u) -> prepared (CallUpdate u) t (spec_acks u (topic_abs t)).
Proof.
  intros Hnd Hq. split; [by rewrite spec_acks_ids|]. rewrite spec_acks_eq.
  intros hm' (hm & -> & Hin)%list_elem_of_fmap. left. exists hm. split; [done|]. split; [by case_decide|].
  intros ep. split; [|done]. case_decide; [|by left]. unfold acked_by. cbn [with_status hold_status wait_ack].
  change (hold_status (with_status ?st hm)) with st. rewrite lookup_merge.
  destruct (update_status u !! ep) as [k|] eqn:Hk; [|left; by destruct (hold_status hm !! ep)].
  destruct (Hq ep k Hk) as [Hu Hs]. destruct (hold_status hm !! ep) as [cur|]; cbn; [|naive_solver].
  destruct (is_resolved cur _); [by left|naive_solver].
Qed.

Lemma prepared_visited c f t :
  NoDup (hold_id <$> topic_abs t) -> (forall hm, message (f hm) = message hm) ->
  (forall hm ep, visited c ep (hold_status hm !! ep) (hold_status (f hm) !! ep)) -> prepared c t (f <$> topic_abs t).
Proof.
  intros Hnd Hf Hvisit. split; [by rewrite <-fmap_hold_id|].
  intros hm' (hm & -> & Hin)%list_elem_of_fmap. left. exists hm. split; [done|].
  split; [unfold hold_id; by rewrite Hf|]. intros ep. specialize (Hvisit hm ep). unfold visited in Hvisit.
  destruct c as [| |e i h|h e|e i]; try done.
  - split; [naive_solver|done].
  - case_decide as He; [subst e|split; [by left|naive_solver]]. rewrite Hvisit.
    destruct (hold_status hm !! ep); cbn; split; naive_solver.
  - split; [naive_solver|done].
Qed.

Lemma shape_prepared c t ctx l' ctx' :
  topic_wf t -> call_ready c t ctx -> quiet_call c -> call_shape t ctx l' ctx' c ->
  exists l1 ctx1, prepared c t l1 /\ ctx_extends ctx ctx1 /\ delivered ctx1 = delivered ctx /\
    sends (default ∅ (call_table c t !! ctx_node_id ctx)) l1 ctx1 l' ctx'.
Proof.
  intros Ht Hready Hq Hshape. pose proof (queue_abs_NoDup _ (twf_queue t Ht)) as Hnd.
  assert (forall m receivers l ctx1, msg_id m ∉ hold_id <$> topic_abs t -> l `sublist_of` topic_abs t ->
    ctx_extends ctx ctx1 -> delivered ctx1 = delivered ctx ->
    exists l1 ctx2, prepared (CallHold m) t l1 /\ ctx_extends ctx ctx2 /\ delivered ctx2 = delivered ctx /\
      sends (reachable_eps (ctx_node_id ctx) t) l1 ctx2
        (fst (spec_append m receivers t l ctx1)) (snd (spec_append m receivers t l ctx1))) as Happend.
  { intros m receivers l ctx1 Hni Hl He Hd. pose proof (prepared_append m receivers t l Hnd Hni Hl) as Hp.
    unfold spec_append. set (l1 := l ++ _) in *. set (ctx2 := push_durable_command _ (snd (utc_now ctx1))).
    exists l1, ctx2. split_and!; [done| |done|].
    - etrans; [exact He|]. etrans; [apply extends_utc_now|apply extends_push_durable].
    - rewrite <-(spec_acks_empty (msg_id m) l1) at 1. rewrite <-(extends_node_id ctx ctx1) by done.
      apply spec_update_sends, Hp. }
  destruct Hshape as [m receivers Hs|m Hs|u Hs|c f ids Hc Hf _ Hvisit _ Hs].
  - destruct Hready as [_ Hready]. unfold spec_hold in Hs. destruct (room_of t) eqn:Hroom.
    + destruct (Happend m receivers (topic_abs t) ctx (ready_id _ _ _ Hready)) as (l1 & ctx2 & Hp); [done..|].
      rewrite <-Hs in Hp. by exists l1, ctx2.
    + injection Hs as -> ->. exists (topic_abs t), ctx. split_and!; [by apply prepared_same; [..|reflexivity]|done|done|].
      apply sends_none; [apply extends_resolve_ack|apply delivered_resolve_ack|done].
    + destruct (topic_abs t) as [|old l] eqn:Habs.
      { injection Hs as -> ->. exists [], ctx. split_and!; [|done|done|by apply sends_none].
        apply prepared_same; [|done|by apply sublist_nil_l]. rewrite Habs. constructor. }
      destruct (Happend m receivers l (resolve_ack (hold_id old) (Err (wait_ack_exception Overflow)) ctx))
        as (l1 & ctx2 & Hp).
      * rewrite <-Habs. apply (ready_id _ _ _ Hready).
      * by apply sublist_cons.
      * apply extends_resolve_ack.
      * apply delivered_resolve_ack.
      * rewrite <-Hs in Hp. by exists l1, ctx2.
  - injection Hs as -> ->. exists (topic_abs t), ctx. split_and!; [by apply prepared_same; [..|reflexivity]|done|done|].
    apply sends_none; [apply extends_resolve_ack|apply delivered_resolve_ack|done].
  - exists (spec_acks u (topic_abs t)), ctx. split_and!; [by apply prepared_acks|done|done|].
    pose proof (spec_update_sends (config_blocking (topic_config t)) (reachable_eps (ctx_node_id ctx) t)
      u (topic_abs t) ctx Hnd) as Hsend. by rewrite <-Hs in Hsend.
  - exists (f <$> topic_abs t), ctx. split_and!; [by apply prepared_visited|done|done|].
    pose proof (spec_poll_all_sends (config_blocking (topic_config t)) (default ∅ (call_table c t !! ctx_node_id ctx))
      ids (f <$> topic_abs t) ctx ltac:(by rewrite <-fmap_hold_id)) as Hsend. by rewrite <-Hs in Hsend.
Qed.
(** What is sent from prepared messages is what the call delivers. *)
Lemma prepared_delivery c t t' l1 ctx1 code d :
  prepared c t l1 -> ctx_topic_code ctx1 = Some code ->
  sent_from (reachable_eps (ctx_node_id ctx1) t') ctx1 l1 (topic_abs t') d ->
  call_delivery c code (ctx_node_id ctx1) t t' d.
Proof.
  intros [_ Hprep] Hcode. destruct d as [[code' id] ep]. intros (Hc & Hr & (hm1 & Hin1 & Hid1 & Hu) & Hs).
  assert ((forall h, c <> CallOffline h ep) /\
    ((exists hm, hm ∈ topic_abs t /\ hold_id hm = id /\
        (hold_status hm !! ep = None \/ hold_status hm !! ep = Some Unsent)) \/ id ∈ call_id c)) as [Hoff Hold].
  { destruct (Hprep hm1 Hin1) as [(hm & Hin & Hid & Hw)|[Hnew _]].
    - destruct (Hw ep) as [Hk Hoff]. split; [intros h Hh; by destruct (Hoff h Hh)|]. left. exists hm.
      split_and!; [done|congruence|]. rewrite Hu in Hk. naive_solver.
    - split; [|right; congruence]. intros h ->. by apply not_elem_of_nil in Hnew. }
  split_and!; [congruence|done..].
Qed.

Lemma written_started c reach ep k k1 k' :
  written c ep k k1 -> started reach ep k1 k' ->
  (forall r, k = Some r -> r <> Unsent -> exists r', k' = Some r' /\ r' <> Unsent) /\
  (k' = Some Sending -> ep ∈ reach \/ (k = Some Sending /\ forall h, c <> CallOffline h ep)).
Proof.
  intros [Hk Hoff] Hst. split.
  - intros r -> Hr. destruct Hk as [->|[[Hn _]|(r1 & -> & Hu & _)]]; [|discriminate Hn|].
    + destruct Hst as [->|([= ->] & _)]; [by exists r|done].
    + destruct Hst as [->|([= ->] & _)]; [by exists r1|done].
  - intros ->. destruct Hst as [<-|(_ & _ & ?)]; [|by left]. right.
    split; [|intros h Hh; by destruct (Hoff h Hh)].
    destruct Hk as [<-|[[_ [=]]|(r1 & [= <-] & _ & Hs)]]; [done|by destruct Hs].
Qed.

Lemma run_call_places c t ctx code :
  topic_wf t -> call_ready c t ctx -> quiet_call c -> ctx_topic_code ctx = Some code ->
  exists t' ctx', run_call c t ctx = Done (t', ctx') /\ ep_routing_table t' = call_table c t /\
    call_places c code (ctx_node_id ctx) t t' (ctx_world ctx) (ctx_world ctx').
Proof.
  intros Ht Hready Hq Hcode. destruct (run_call_done c t ctx Ht Hready) as (t' & ctx' & Hr & _ & _ & Htable & Hshape).
  destruct (shape_prepared c t ctx (topic_abs t') ctx' Ht Hready Hq Hshape) as (l1 & ctx1 & Hprep & He & Hd & Hsend).
  exists t', ctx'. split_and!; [done|done|]. rewrite <-Htable in Hsend. rewrite <-(extends_node_id ctx ctx1) in * by done.
  destruct Hsend as [_ (new & Hnew & Hnd & Hall) Hold]. split.
  - exists new. split_and!; [by rewrite Hnew, Hd|done|]. eapply Forall_impl; [exact Hall|]. intros d.
    apply prepared_delivery; [done|]. by rewrite (ext_code _ _ He).
  - intros hm' Hin'. destruct (Hold hm' Hin') as (hm1 & Hin1 & Hid1 & Hst). destruct Hprep as [_ Hprep].
    destruct (Hprep hm1 Hin1) as [(hm & Hin & Hid & Hw)|[Hbrought Hs]]; [left|right].
    + exists hm. split_and!; [done|congruence|]. intros ep. exact (written_started _ _ _ _ _ _ (Hw ep) (Hst ep)).
    + split; [congruence|]. intros ep Hst'. destruct (Hst ep) as [Heq|(_ & _ & ?)]; [|done]. by destruct (Hs ep); congruence.
Qed.
End CallFacts.

(** ** One proposal *)

(** The messages a proposal brings into the topics. *)
Definition brought (p : Proposal) (s : gmap TopicCode Shared) : list (TopicCode * MessageId) :=
  match proposal_call p with
  | Some c => pair (proposal_code p) <$> call_id c
  | None =>
      match p with
      | PLoadTopic p =>
          match s !! config_code (load_config p) with
          | Some _ => []
          | None => (fun dm => (config_code (load_config p), msg_id (dm_message dm))) <$> load_queue p
          end
      | _ => []
      end
  end.

(** Messages come under ids not seen before, an endpoint comes online where no
    other node hosts it, and statuses are reported and stored as deliveries leave
    them. *)
Definition proposal_placed (seen : list (TopicCode * MessageId)) (p : Proposal) (s : gmap TopicCode Shared) : Prop :=
  Forall (fun x => x ∉ seen) (brought p s) /\
  match proposal_call p with
  | Some c =>
      quiet_call c /\
      forall e i h sh n, c = CallOnline e i h -> s !! proposal_code p = Some sh ->
        e ∈ default ∅ (shared_routing sh !! n) -> n = h
  | None =>
      match p with
      | PLoadTopic p => Forall (fun dm => forall ep, dm_status dm !! ep <> Some Sending) (load_queue p)
      | _ => True
      end
  end.

(** No endpoint is hosted by two nodes. *)
Definition one_host (nd : NodeData) : Prop :=
  forall code t n n' ep, nd_topics nd !! code = Some t ->
    ep ∈ reachable_eps n t -> ep ∈ reachable_eps n' t -> n = n'.

(** Hosts of [ep] at [code] are hosts afterwards. *)
Definition keeps_hosts (nd nd' : NodeData) (code : TopicCode) (ep : EndpointAddr) : Prop :=
  forall t t' n, nd_topics nd !! code = Some t -> nd_topics nd' !! code = Some t' ->
    ep ∈ reachable_eps n t -> ep ∈ reachable_eps n t'.

(** A delivery a proposal spawned on the node [x]. *)
Definition node_delivery (p : Proposal) (x : NodeId) (nd nd' : NodeData) (d : TopicCode * MessageId * EndpointAddr) : Prop :=
  let '(code, id, ep) := d in
  keeps_hosts nd nd' code ep /\
  ((exists t hm, nd_topics nd !! code = Some t /\ hm ∈ topic_abs t /\ hold_id hm = id /\
      (hold_status hm !! ep = None \/ hold_status hm !! ep = Some Unsent)) \/
   (code, id) ∈ brought p (shared_node nd)) /\
  exists t', nd_topics nd' !! code = Some t' /\ ep ∈ reachable_eps x t' /\
    forall hm, hm ∈ topic_abs t' -> hold_id hm = id -> hold_status hm !! ep = Some Sending.

(** What a proposal does to the statuses of a message held afterwards. *)
Definition node_held (p : Proposal) (x : NodeId) (nd nd' : NodeData) (code : TopicCode) (t' : TopicData) (hm' : HoldMessage) : Prop :=
  (exists t hm, nd_topics nd !! code = Some t /\ hm ∈ topic_abs t /\ hold_id hm = hold_id hm' /\
     forall ep,
       (forall k, hold_status hm !! ep = Some k -> k <> Unsent ->
          exists k', hold_status hm' !! ep = Some k' /\ k' <> Unsent) /\
       (hold_status hm' !! ep = Some Sending ->
          ep ∈ reachable_eps x t' \/ (hold_status hm !! ep = Some Sending /\ keeps_hosts nd nd' code ep))) \/
  ((code, hold_id hm') ∈ brought p (shared_node nd) /\
   forall ep, hold_status hm' !! ep = Some Sending -> ep ∈ reachable_eps x t').

Record node_places (p : Proposal) (x : NodeId) (nd nd' : NodeData) (before after : World) : Prop := mkNodePlaces {
  np_id : world_id after = world_id before;
  np_new : exists new, deliveries after = deliveries before ++ new /\ NoDup new /\ Forall (node_delivery p x nd nd') new;
  np_held : forall code t' hm', nd_topics nd' !! code = Some t' -> hm' ∈ topic_abs t' ->
    node_held p x nd nd' code t' hm';
  np_hosts : forall code t' n ep, nd_topics nd' !! code = Some t' -> ep ∈ reachable_eps n t' ->
    (exists t, nd_topics nd !! code = Some t /\ ep ∈ reachable_eps n t) \/
    (exists i, proposal_call p = Some (CallOnline ep i n) /\ proposal_code p = code);
}.

Section ProposalFacts.
Context `{HashOrder, Clock, Hash64}.
Implicit Types (nd : NodeData) (ctx : ProposalContext).

Lemma call_table_keeps c t t' n ep :
  ep_routing_table t' = call_table c t -> (forall h, c <> CallOffline h ep) ->
  ep ∈ reachable_eps n t -> ep ∈ reachable_eps n t'.
Proof.
  intros Ht Hc. unfold reachable_eps. rewrite Ht. destruct c as [| |e i h|h e|e i]; try done; cbn.
  - destruct (decide (n = h)) as [->|Hne]; [rewrite lookup_insert_eq; set_solver|by rewrite lookup_insert_ne].
  - destruct (decide (n = h)) as [->|Hne]; [rewrite lookup_insert_eq|by rewrite lookup_insert_ne].
    assert (ep <> e) by (intros ->; by destruct (Hc h)). set_solver.
Qed.

Lemma call_table_new c t t' n ep :
  ep_routing_table t' = call_table c t -> ep ∈ reachable_eps n t' ->
  ep ∈ reachable_eps n t \/ exists i, c = CallOnline ep i n.
Proof.
  intros Ht. unfold reachable_eps. rewrite Ht. destruct c as [| |e i h|h e|e i]; cbn; try (by left).
  - destruct (decide (n = h)) as [->|Hne]; [rewrite lookup_insert_eq|rewrite lookup_insert_ne by done; by left].
    cbn. rewrite elem_of_union, elem_of_singleton. intros [->|?]; [right; by exists i|by left].
  - destruct (decide (n = h)) as [->|Hne]; [rewrite lookup_insert_eq|rewrite lookup_insert_ne by done; by left].
    left. set_solver.
Qed.

(** A message whose topic the proposal leaves alone. *)
Lemma node_held_same p x nd nd' code t hm :
  nd_topics nd !! code = Some t -> nd_topics nd' !! code = Some t -> hm ∈ topic_abs t -> node_held p x nd nd' code t hm.
Proof.
  intros Ht Ht' Hin. left. exists t, hm. split_and!; [done..|]. intros ep. split; [by eauto|].
  intros Hs. right. split; [done|]. intros t1 t2 n Ht1 Ht2. by simplify_eq.
Qed.

Lemma node_places_idle p x nd nd' before after :
  world_id after = world_id before -> deliveries after = deliveries before ->
  nd_topics nd' ⊆ nd_topics nd -> node_places p x nd nd' before after.
Proof.
  intros Hid Hd Hsub. split; [done| | |].
  - exists []. rewrite app_nil_r. split_and!; [done|constructor|constructor].
  - intros code t hm Ht Hin. apply (node_held_same p); [|done..]. by eapply lookup_weaken.
  - intros code t n ep Ht Hep. left. exists t. split; [|done]. by eapply lookup_weaken.
Qed.

Lemma call_node_places p c nd t t' x ctx ctx1 ctx2 :
  proposal_call p = Some c -> nd_topics nd !! proposal_code p = Some t -> ep_routing_table t' = call_table c t ->
  call_places c (proposal_code p) x t t' (ctx_world ctx) (ctx_world ctx1) ->
  world_id (ctx_world ctx2) = world_id (ctx_world ctx) -> delivered ctx2 = delivered ctx1 ->
  node_places p x nd (mkNodeData (<[proposal_code p := t']> (nd_topics nd))) (ctx_world ctx) (ctx_world ctx2).
Proof.
  intros Hc Ht Htable [(new & Hnew & Hnd & Hall) Hheld] Hid Hd.
  set (code := proposal_code p) in *. set (nd' := mkNodeData _).
  assert (nd_topics nd' !! code = Some t') as Ht' by apply lookup_insert_eq.
  assert (forall id, id ∈ call_id c -> (code, id) ∈ brought p (shared_node nd)) as Hb.
  { intros id Hin. unfold brought. rewrite Hc. by apply list_elem_of_fmap_2. }
  assert (forall ep, (forall h, c <> CallOffline h ep) -> keeps_hosts nd nd' code ep) as Hkeep.
  { intros ep Hoff t1 t2 n Ht1 Ht2. simplify_eq. by eapply call_table_keeps. }
  split; [done| | |].
  - exists new. split_and!; [by rewrite Hd|done|]. eapply Forall_impl; [exact Hall|].
    intros [[code' id] ep] (-> & Hr & Hoff & Hold & Hs). split_and!; [by apply Hkeep| |by exists t'].
    destruct Hold as [(hm & Hin & Hi & Hk)|Hin]; [left; by exists t, hm|right; by apply Hb].
  - intros code' t1 hm' Ht1 Hin. destruct (decide (code' = code)) as [->|Hne].
    2: { assert (nd_topics nd !! code' = Some t1) as Ht0 by (rewrite <-Ht1; symmetry; by apply lookup_insert_ne).
         by apply node_held_same. }
    assert (t1 = t') as -> by congruence. destruct (Hheld hm' Hin) as [(hm & Hin0 & Hi & Hst)|[Hin0 Hs]].
    + left. exists t, hm. split_and!; [done..|]. intros ep. destruct (Hst ep) as [Hk Hs]. split; [done|].
      intros [?|[? Hoff]]%Hs; [by left|right]. split; [done|]. by apply Hkeep.
    + right. split; [by apply Hb|done].
  - intros code' t1 n ep Ht1 Hep. destruct (decide (code' = code)) as [->|Hne].
    + assert (t1 = t') as -> by congruence. destruct (call_table_new c t t' n ep Htable Hep) as [?|[i ->]]; [left; by exists t|right; by exists i].
    + left. exists t1. split; [|done]. rewrite <-Ht1. symmetry. by apply lookup_insert_ne.
Qed.

Lemma delivered_none ctx ctx' :
  ctx_extends ctx ctx' -> dispatches_of ctx' = dispatches_of ctx -> delivered ctx' = delivered ctx.
Proof.
  intros He. destruct (ext_tasks _ _ He) as (new & Hnew & _). unfold dispatches_of, deliveries. rewrite Hnew, !omap_app.
  rewrite <-(app_nil_r (omap task_dispatch (spawned _))) at 2. intros Hd%app_inv_head. rewrite (omap_none task_delivery new), app_nil_r; [done|].
  intros [] Hin; try done. exfalso. eapply not_elem_of_nil. rewrite <-Hd. apply list_elem_of_omap. by eexists.
Qed.

(** Loading a topic delivers nothing. *)
Lemma load_places p nd ctx nd' ctx' :
  Forall (fun dm => forall ep, dm_status dm !! ep <> Some Sending) (load_queue p) ->
  proposal_ready (PLoadTopic p) nd ctx -> apply_load_topic p nd ctx = Done (nd', ctx') ->
  node_places (PLoadTopic p) (ctx_node_id ctx) nd nd' (ctx_world ctx) (ctx_world ctx').
Proof.
  intros Hquiet Hready Hrun. destruct (nd_topics nd !! config_code (load_config p)) as [t|] eqn:Ht.
  { unfold apply_load_topic in Hrun. rewrite Ht in Hrun. injection Hrun as <- <-. by apply node_places_idle. }
  destruct (apply_load_spec p nd ctx Ht Hready) as (t & ctx1 & Hr & _ & _ & Habs & _).
  pose proof Hrun as Hload. unfold apply_load_topic in Hload. rewrite Ht in Hload.
  apply Outcome_bind_Done in Hload as (t1 & Ht1 & Hload). apply Outcome_bind_Done in Hload as (ctx2 & Hcommit & [= Hnd <-]).
  rewrite Hr in Hrun. injection Hrun as <- ->. apply (f_equal nd_topics) in Hnd. cbn in Hnd.
  assert (t1 = t) as ->.
  { apply (f_equal (lookup (config_code (load_config p)))) in Hnd. rewrite !lookup_insert_eq in Hnd. by injection Hnd. }
  destruct (from_durable_empty _ _ _ Ht1) as [Hroute _]. pose proof (sort_by_key_perm dm_time (load_queue p)) as Hperm.
  split.
  - apply extends_commit, extends_node_id in Hcommit. exact Hcommit.
  - exists []. rewrite (delivered_commit _ _ Hcommit), app_nil_r. split_and!; [done|constructor|constructor].
  - intros code t' hm' Ht' Hin. cbn in Ht'. apply lookup_insert_Some in Ht' as [[<- <-]|[Hne Ht']].
    + right. rewrite Habs in Hin. apply list_elem_of_fmap in Hin as (dm & -> & Hin). rewrite Hperm in Hin. split.
      * unfold brought, shared_node. cbn [proposal_call]. rewrite lookup_fmap, Ht. cbn [fmap option_fmap option_map]. apply list_elem_of_fmap. by exists dm.
      * rewrite Forall_forall in Hquiet. intros ep Hs. by destruct (Hquiet dm Hin ep).
    + apply node_held_same; [done| |done]. cbn. by rewrite lookup_insert_ne.
  - intros code t' n ep Ht' Hep. cbn in Ht'. apply lookup_insert_Some in Ht' as [[<- <-]|[Hne Ht']].
    + unfold reachable_eps in Hep. rewrite Hroute, lookup_empty in Hep. set_solver.
    + left. by exists t'.
Qed.

(** What applying a proposal does to the node's deliveries. *)
Lemma apply_proposal_places p seen nd ctx nd' ctx' :
  node_wf nd -> proposal_ready p nd ctx -> proposal_placed seen p (shared_node nd) ->
  apply_proposal p nd ctx = Done (nd', ctx') ->
  node_places p (ctx_node_id ctx) nd nd' (ctx_world ctx) (ctx_world ctx').
Proof.
  intros Hwf Hready [_ Hplaced] Hrun. destruct (proposal_call p) as [c|] eqn:Hc.
  - destruct Hplaced as [Hq _]. pose proof (apply_call_spec p c nd ctx Hc Hwf Hready) as Hs.
    destruct (nd_topics nd !! proposal_code p) as [t|] eqn:Ht.
    + destruct Hs as (t1 & ctx1 & ctx2 & Hr & (_ & _ & He & _) & Hcommit & Ha).
      rewrite Ha in Hrun. injection Hrun as <- <-.
      assert (call_ready c t ctx) as Hcr.
      { unfold proposal_ready in Hready. destruct p; try discriminate Hc; rewrite Hc, Ht in Hready; done. }
      destruct (run_call_places c t (set_topic_code (proposal_code p) ctx) (proposal_code p))
        as (t' & ctx1' & Hr' & Htable & Hplaces); [by destruct (Hwf _ _ Ht)|by apply call_ready_set_code|done|done|].
      rewrite Hr' in Hr. injection Hr as -> ->.
      apply (call_node_places p c nd t t1 _ ctx ctx1 ctx2); [done..| |by eapply delivered_commit].
      change (ctx_node_id ctx2 = ctx_node_id (set_topic_code (proposal_code p) ctx)). apply extends_node_id.
      etrans; [exact He|by eapply extends_commit].
    + destruct Hs as (ctx2 & Ha & _ & Hd & _ & He). rewrite Ha in Hrun. injection Hrun as <- <-.
      destruct He as [->|He]; [by apply node_places_idle|]. apply node_places_idle; [|by apply delivered_none in He|done].
      apply extends_node_id in He. exact He.
  - destruct p as [| |p|p| | |]; try discriminate Hc; cbn [apply_proposal] in Hrun.
    + by apply load_places.
    + injection Hrun as <- <-. apply node_places_idle; [done|done|]. apply delete_subseteq.
Qed.
End ProposalFacts.

(** ** Two replicas and one proposal *)

(** What a replica on node [x] that has spawned the deliveries [sent] knows: held
    messages have been seen, deliveries in progress are to its own endpoints, and
    what it has sent is not waiting to be sent again. *)
Record delivering (x : NodeId) (seen : list (TopicCode * MessageId)) (nd : NodeData)
    (sent : list (TopicCode * MessageId * EndpointAddr)) : Prop := mkDelivering {
  del_seen : forall code t hm, nd_topics nd !! code = Some t -> hm ∈ topic_abs t -> (code, hold_id hm) ∈ seen;
  del_here : forall code t hm ep, nd_topics nd !! code = Some t -> hm ∈ topic_abs t ->
    hold_status hm !! ep = Some Sending -> ep ∈ reachable_eps x t;
  del_sent : forall code id ep, (code, id, ep) ∈ sent -> (code, id) ∈ seen /\
    forall t hm, nd_topics nd !! code = Some t -> hm ∈ topic_abs t -> hold_id hm = id ->
      exists k, hold_status hm !! ep = Some k /\ k <> Unsent;
}.

Section Twins.
Implicit Types (nd : NodeData).

Lemma delivering_step p x seen nd nd' before after sent new :
  delivering x seen nd sent -> Forall (fun y => y ∉ seen) (brought p (shared_node nd)) ->
  node_places p x nd nd' before after -> deliveries after = deliveries before ++ new ->
  delivering x (seen ++ brought p (shared_node nd)) nd' (sent ++ new).
Proof.
  intros [Hseen Hhere Hsent] Hfresh [_ (new' & Hnew & _ & Hall) Hheld _] Hn.
  rewrite Hn in Hnew. apply app_inv_head in Hnew as <-. rewrite Forall_forall in Hfresh. rewrite Forall_forall in Hall. split.
  - intros code t' hm' Ht' Hin'. apply elem_of_app.
    destruct (Hheld _ _ _ Ht' Hin') as [(t & hm & Ht & Hin & Hid & _)|[Hb _]]; [left|by right].
    rewrite <-Hid. by eapply Hseen.
  - intros code t' hm' ep Ht' Hin' Hs. destruct (Hheld _ _ _ Ht' Hin') as [(t & hm & Ht & Hin & _ & Hst)|[_ Hr]].
    + destruct (Hst ep) as [_ Hr]. destruct (Hr Hs) as [?|[Hs0 Hkeep]]; [done|].
      by apply (Hkeep t t' x Ht Ht'), (Hhere _ _ _ _ Ht Hin).
    + by apply Hr.
  - intros code id ep [Hin|Hin]%elem_of_app.
    + destruct (Hsent _ _ _ Hin) as [Hs Hk]. split; [apply elem_of_app; by left|]. intros t' hm' Ht' Hin' Hid.
      destruct (Hheld _ _ _ Ht' Hin') as [(t & hm & Ht & Hin0 & Hid0 & Hst)|[Hb _]].
      * destruct (Hk t hm Ht Hin0 ltac:(congruence)) as (k & Hk1 & Hk2). by apply (proj1 (Hst ep) k).
      * destruct (Hfresh _ Hb). by rewrite Hid.
    + destruct (Hall _ Hin) as (_ & Hold & t' & Ht' & _ & Hs). split.
      * apply elem_of_app. destruct Hold as [(t & hm & Ht & Hin0 & <- & _)|Hb]; [left; by eapply Hseen|by right].
      * intros t1 hm Ht1 Hin1 Hid. exists Sending. split; [|done]. apply Hs; [congruence|done].
Qed.

(** The other replica's copy of a held message. *)
Lemma shared_twin nd1 nd2 code t1 hm1 :
  shared_node nd1 = shared_node nd2 -> nd_topics nd1 !! code = Some t1 -> hm1 ∈ topic_abs t1 ->
  exists t2 hm2, nd_topics nd2 !! code = Some t2 /\ hm2 ∈ topic_abs t2 /\ hold_id hm2 = hold_id hm1 /\
    ep_routing_table t2 = ep_routing_table t1 /\
    forall ep, settle <$> hold_status hm2 !! ep = settle <$> hold_status hm1 !! ep.
Proof.
  intros Heq Ht1 Hin1. pose proof (f_equal (lookup code) Heq) as Hc. unfold shared_node in Hc.
  rewrite !lookup_fmap, Ht1 in Hc. destruct (nd_topics nd2 !! code) as [t2|]; [|discriminate Hc].
  injection Hc as _ Hroute _ Hheld.
  assert (shared_hold hm1 ∈ shared_hold <$> topic_abs t2) as (hm2 & Hhm & Hin2)%list_elem_of_fmap.
  { rewrite <-Hheld. by apply list_elem_of_fmap_2. }
  exists t2, hm2. split_and!; [done|done| |done|].
  - by rewrite <-(shared_hold_id hm2), <-Hhm, shared_hold_id.
  - intros ep. apply (f_equal hold_status) in Hhm. cbn in Hhm. by rewrite <-!lookup_fmap, Hhm.
Qed.

(** What a replica sends now it has not sent before, *)
Lemma delivery_own p x seen nd nd' sent d :
  delivering x seen nd sent -> Forall (fun z => z ∉ seen) (brought p (shared_node nd)) ->
  node_delivery p x nd nd' d -> d ∉ sent.
Proof.
  intros [_ _ Hsent] Hfresh Hd Hin. rewrite Forall_forall in Hfresh. destruct d as [[code id] ep].
  destruct Hd as (_ & Hold & _). destruct (Hsent _ _ _ Hin) as [Hs Hk].
  destruct Hold as [(t & hm & Ht & Hinhm & Hid & Hst)|Hb]; [|by apply (Hfresh _ Hb)].
  destruct (Hk t hm Ht Hinhm Hid) as (k & Hk1 & Hk2). destruct Hst; congruence.
Qed.

(** and no other replica has. *)
Lemma delivery_other p x y seen nd1 nd2 nd1' sent d :
  delivering y seen nd2 sent -> shared_node nd1 = shared_node nd2 -> one_host nd1' ->
  Forall (fun z => z ∉ seen) (brought p (shared_node nd1)) ->
  node_delivery p x nd1 nd1' d -> x <> y -> d ∉ sent.
Proof.
  intros [_ Hhere Hsent] Heq Hone Hfresh Hd Hne Hin. rewrite Forall_forall in Hfresh.
  destruct d as [[code id] ep]. destruct Hd as (Hkeep & Hold & t' & Ht' & Hr & _).
  destruct (Hsent _ _ _ Hin) as [Hs Hk]. destruct Hold as [(t & hm & Ht & Hinhm & Hid & Hst)|Hb]; [|by apply (Hfresh _ Hb)].
  destruct (shared_twin nd1 nd2 code t hm Heq Ht Hinhm) as (t2 & hm2 & Ht2 & Hin2 & Hid2 & Hroute & Hset).
  destruct (Hk t2 hm2 Ht2 Hin2 ltac:(congruence)) as (k & Hk1 & Hk2). specialize (Hset ep). rewrite Hk1 in Hset.
  assert (k = Sending) as ->.
  { destruct Hst as [Hst|Hst]; rewrite Hst in Hset; [discriminate Hset|]. destruct k; by try discriminate Hset. }
  apply Hne. apply (Hone code t' x y ep Ht' Hr). apply (Hkeep t t' y Ht Ht').
  unfold reachable_eps. rewrite <-Hroute. by apply (Hhere code t2 hm2).
Qed.

Lemma one_host_step p x seen nd nd' before after :
  one_host nd -> proposal_placed seen p (shared_node nd) -> node_places p x nd nd' before after -> one_host nd'.
Proof.
  intros Hone [_ Hplaced] [_ _ _ Hhosts].
  assert (forall code t n ep i m, nd_topics nd !! code = Some t -> ep ∈ reachable_eps n t ->
    proposal_call p = Some (CallOnline ep i m) -> proposal_code p = code -> n = m) as Honline.
  { intros code t n ep i m Ht Hep Hc <-. rewrite Hc in Hplaced. destruct Hplaced as [_ Hplaced].
    apply (Hplaced ep i m (shared_topic t)); [done| |done]. unfold shared_node. by rewrite lookup_fmap, Ht. }
  intros code t' n n' ep Ht' Hn Hn'.
  destruct (Hhosts _ _ _ _ Ht' Hn) as [(t & Ht & Hr)|(i & Hc & Hcode)];
    destruct (Hhosts _ _ _ _ Ht' Hn') as [(t1 & Ht1 & Hr1)|(i1 & Hc1 & Hcode1)].
  - assert (t1 = t) as -> by congruence. by eapply Hone.
  - by eapply Honline.
  - symmetry. by eapply Honline.
  - congruence.
Qed.

Lemma one_host_twin nd1 nd2 : shared_node nd1 = shared_node nd2 -> one_host nd1 -> one_host nd2.
Proof.
  intros Heq Hone code t2 n n' ep Ht2. pose proof (f_equal (lookup code) Heq) as Hc. unfold shared_node in Hc.
  rewrite !lookup_fmap, Ht2 in Hc. destruct (nd_topics nd1 !! code) as [t1|] eqn:Ht1; [|discriminate Hc].
  injection Hc as _ Hroute _ _. specialize (Hone code t1 n n' ep Ht1). unfold reachable_eps in *. by rewrite <-Hroute.
Qed.

(** Two replicas in agreement, and what each has sent. *)
Record delivering_pair (x y : NodeId) (seen : list (TopicCode * MessageId)) nd1 nd2
    (sent1 sent2 : list (TopicCode * MessageId * EndpointAddr)) : Prop := mkPair {
  pair_left : delivering x seen nd1 sent1;
  pair_right : delivering y seen nd2 sent2;
  pair_hosts : one_host nd1;
  pair_once : NoDup (sent1 ++ sent2);
}.

Lemma delivering_pair_step p x y seen nd1 nd2 nd1' nd2' sent1 sent2 w1 w2 w1' w2' :
  x <> y -> delivering_pair x y seen nd1 nd2 sent1 sent2 ->
  shared_node nd1 = shared_node nd2 -> shared_node nd1' = shared_node nd2' ->
  proposal_placed seen p (shared_node nd1) ->
  node_places p x nd1 nd1' w1 w1' -> node_places p y nd2 nd2' w2 w2' ->
  exists new1 new2, deliveries w1' = deliveries w1 ++ new1 /\ deliveries w2' = deliveries w2 ++ new2 /\
    delivering_pair x y (seen ++ brought p (shared_node nd1)) nd1' nd2' (sent1 ++ new1) (sent2 ++ new2).
Proof.
  intros Hne [Hd1 Hd2 Hone Honce] Heq Heq' Hplaced Hp1 Hp2. pose proof (proj1 Hplaced) as Hfresh.
  pose proof Hfresh as Hfresh2. rewrite Heq in Hfresh2.
  pose proof (one_host_step p x seen nd1 nd1' w1 w1' Hone Hplaced Hp1) as Hone1.
  pose proof (one_host_twin nd1' nd2' Heq' Hone1) as Hone2.
  destruct (np_new _ _ _ _ _ _ Hp1) as (new1 & Hn1 & Hnd1 & Hall1).
  destruct (np_new _ _ _ _ _ _ Hp2) as (new2 & Hn2 & Hnd2 & Hall2).
  exists new1, new2. split_and!; [done|done|]. rewrite Forall_forall in Hall1. rewrite Forall_forall in Hall2. split.
  - by eapply delivering_step.
  - rewrite Heq. by eapply delivering_step.
  - done.
  - apply NoDup_app in Honce as (Hs1 & Hs12 & Hs2).
    assert (forall d, d ∈ new1 -> d ∉ sent1 /\ d ∉ sent2) as H1.
    { intros d Hd%Hall1. split; [by eapply delivery_own|by apply (delivery_other p x y seen nd1 nd2 nd1')]. }
    assert (forall d, d ∈ new2 -> d ∉ sent2 /\ d ∉ sent1) as H2.
    { intros d Hd%Hall2. split; [by eapply delivery_own|]. apply (delivery_other p y x seen nd2 nd1 nd2'); by try apply not_eq_sym. }
    assert (forall d, d ∈ new1 -> d ∉ new2) as H12.
    { intros [[code id] ep] Ha%Hall1 Hb%Hall2. destruct Ha as (_ & _ & t1 & Ht1 & Hr1 & _), Hb as (_ & _ & t2 & Ht2 & Hr2 & _).
      pose proof (f_equal (lookup code) Heq') as Hc. unfold shared_node in Hc. rewrite !lookup_fmap, Ht1, Ht2 in Hc.
      injection Hc as _ Hroute _ _. apply Hne, (Hone1 code t1 x y ep Ht1 Hr1). unfold reachable_eps in *. by rewrite Hroute. }
    apply NoDup_app. split_and!.
    + apply NoDup_app. split_and!; [done| |done]. intros d Hd Hd'. by destruct (H1 d Hd').
    + intros d Hd Hd'. apply elem_of_app in Hd as [Hd|Hd], Hd' as [Hd'|Hd'].
      * by apply (Hs12 d).
      * by destruct (H2 d Hd').
      * by destruct (H1 d Hd).
      * by apply (H12 d).
    + apply NoDup_app. split_and!; [done| |done]. intros d Hd Hd'. by destruct (H2 d Hd').
Qed.
End Twins.

(** ** Two replicas and a log *)

Section PlacedLog.
Context `{Hash64, OpenraftMembership}.

(** Each proposal of the log is placed when its turn comes. *)
Fixpoint log_placed (es : list (Entry * (Z -> bool))) (seen : list (TopicCode * MessageId))
    (s : gmap TopicCode Shared) : Prop :=
  match es with
  | [] => True
  | (e, past) :: es =>
      match entry_payload e with
      | Normal p =>
          proposal_placed seen p s /\ log_placed es (seen ++ brought p s) (shared_proposal past p s)
      | _ => log_placed es seen s
      end
  end.
End PlacedLog.

(** The messages held in the topics. *)
Definition held_messages (s : gmap TopicCode Shared) : list (TopicCode * MessageId) :=
  map_to_list s ≫= fun '(code, sh) => (fun hm => (code, hold_id hm)) <$> shared_held sh.

(** Deliveries in progress at [x] are to endpoints of [x]. *)
Definition sends_own (x : NodeId) (nd : NodeData) : Prop :=
  forall code t hm ep, nd_topics nd !! code = Some t -> hm ∈ topic_abs t ->
    hold_status hm !! ep = Some Sending -> ep ∈ reachable_eps x t.

Lemma elem_of_held_messages nd code t hm :
  nd_topics nd !! code = Some t -> hm ∈ topic_abs t -> (code, hold_id hm) ∈ held_messages (shared_node nd).
Proof.
  intros Ht Hin. unfold held_messages. apply list_elem_of_bind. exists (code, shared_topic t). split.
  - cbn. apply list_elem_of_fmap. exists (shared_hold hm). split; [by rewrite shared_hold_id|].
    by apply list_elem_of_fmap_2.
  - apply elem_of_map_to_list. unfold shared_node. by rewrite lookup_fmap, Ht.
Qed.

Section PlacedLogs.
Context `{Hash64, OpenraftMembership}.

(** An entry, on either replica: what it does to the node and what it sends. *)
Lemma entry_places (o : HashOrder) (c : Clock) e past es seen sm node :
  node_wf (sm_node sm) -> @log_ready o c _ _ _ ((e, past) :: es) sm node ->
  log_placed ((e, past) :: es) seen (shared_node (sm_node sm)) ->
  exists r sm' node', @apply_entry o c _ _ _ e sm (Some node) = Done (r, (sm', Some node')) /\
    node_wf (sm_node sm') /\ agreed sm' = agreed_entry (agreed sm) (e, past) /\
    @log_ready o c _ _ _ es sm' node' /\
    match entry_payload e with
    | Normal p => node_places p (world_id node) (sm_node sm) (sm_node sm') node node'
    | _ => sm_node sm' = sm_node sm /\ node' = node
    end.
Proof.
  intros Hwf Hready Hplaced.
  destruct (@apply_entry_agreed o c _ _ _ e past sm node Hwf) as (r & sm' & node' & Hr & Hwf' & Ha).
  { split; [apply Hready|done]. }
  exists r, sm', node'. split_and!; [done|done|done|by eapply Hready|].
  unfold apply_entry in Hr. cbn [log_placed] in Hplaced. destruct Hready as [Hready _].
  destruct (entry_payload e) as [|p|m].
  - by injection Hr as _ <- <-.
  - destruct Hready as [Hready _]. cbn [sm_node] in Hr. apply Outcome_bind_Done in Hr as ([nd ctx] & Hrun & [= _ <- <-]).
    exact (apply_proposal_places p seen _ _ _ _ Hwf Hready (proj1 Hplaced) Hrun).
  - by injection Hr as _ <- <-.
Qed.

Lemma log_delivering_pair (o1 o2 : HashOrder) (c1 c2 : Clock) es seen sm1 sm2 node1 node2 sent1 sent2 :
  node_wf (sm_node sm1) -> node_wf (sm_node sm2) -> agreed sm1 = agreed sm2 ->
  @log_ready o1 c1 _ _ _ es sm1 node1 -> @log_ready o2 c2 _ _ _ es sm2 node2 ->
  log_placed es seen (shared_node (sm_node sm1)) -> world_id node1 <> world_id node2 ->
  delivering_pair (world_id node1) (world_id node2) seen (sm_node sm1) (sm_node sm2) sent1 sent2 ->
  exists rs1 sm1' node1' rs2 sm2' node2' new1 new2 seen',
    @apply_entries o1 c1 _ _ _ es.*1 sm1 (Some node1) = Done (rs1, (sm1', Some node1')) /\
    @apply_entries o2 c2 _ _ _ es.*1 sm2 (Some node2) = Done (rs2, (sm2', Some node2')) /\
    deliveries node1' = deliveries node1 ++ new1 /\ deliveries node2' = deliveries node2 ++ new2 /\
    delivering_pair (world_id node1) (world_id node2) seen' (sm_node sm1') (sm_node sm2') (sent1 ++ new1) (sent2 ++ new2).
Proof.
  revert seen sm1 sm2 node1 node2 sent1 sent2.
  induction es as [|[e past] es IH]; intros seen sm1 sm2 node1 node2 sent1 sent2 Hwf1 Hwf2 Ha Hr1 Hr2 Hp Hne Hpair.
  { exists [], sm1, node1, [], sm2, node2, [], [], seen. rewrite !app_nil_r. by split_and!. }
  assert (shared_node (sm_node sm1) = shared_node (sm_node sm2)) as Heq by exact (f_equal agreed_topics Ha).
  destruct (entry_places o1 c1 e past es seen sm1 node1 Hwf1 Hr1 Hp)
    as (r1 & sm1' & node1' & He1 & Hwf1' & Ha1 & Hr1' & Hstep1).
  destruct (entry_places o2 c2 e past es seen sm2 node2 Hwf2 Hr2 ltac:(by rewrite <-Heq))
    as (r2 & sm2' & node2' & He2 & Hwf2' & Ha2 & Hr2' & Hstep2).
  assert (agreed sm1' = agreed sm2') as Ha' by by rewrite Ha1, Ha2, Ha.
  assert (shared_node (sm_node sm1') = shared_node (sm_node sm2')) as Heq' by exact (f_equal agreed_topics Ha').
  assert (exists new1 new2 seen', deliveries node1' = deliveries node1 ++ new1 /\
    deliveries node2' = deliveries node2 ++ new2 /\ world_id node1' = world_id node1 /\ world_id node2' = world_id node2 /\
    log_placed es seen' (shared_node (sm_node sm1')) /\
    delivering_pair (world_id node1) (world_id node2) seen' (sm_node sm1') (sm_node sm2') (sent1 ++ new1) (sent2 ++ new2))
    as (new1 & new2 & seen' & Hn1 & Hn2 & Hi1 & Hi2 & Hp' & Hpair').
  { cbn [log_placed] in Hp. apply (f_equal agreed_topics) in Ha1. unfold agreed_entry in Ha1.
    destruct (entry_payload e) as [|p|m].
    2: { destruct Hp as [Hp1 Hp2].
      destruct (delivering_pair_step p _ _ _ _ _ _ _ _ _ _ _ _ _ Hne Hpair Heq Heq' Hp1 Hstep1 Hstep2)
        as (new1 & new2 & Hn1 & Hn2 & Hpair'). exists new1, new2, (seen ++ brought p (shared_node (sm_node sm1))).
      split_and!; [done|done|by eapply np_id|by eapply np_id| |done]. cbn in Ha1. by rewrite Ha1. }
    all: destruct Hstep1 as [Hs1 ->], Hstep2 as [Hs2 ->]; exists [], [], seen; rewrite Hs1, Hs2, !app_nil_r; by split_and!. }
  destruct (IH seen' sm1' sm2' node1' node2' (sent1 ++ new1) (sent2 ++ new2))
    as (rs1 & sm1'' & n1 & rs2 & sm2'' & n2 & new1' & new2' & seen'' & Hs1 & Hs2 & Hm1 & Hm2 & Hpair'');
    [done..|by rewrite Hi1, Hi2|by rewrite Hi1, Hi2|].
  exists (r1 :: rs1), sm1'', n1, (r2 :: rs2), sm2'', n2, (new1 ++ new1'), (new2 ++ new2'), seen''.
  cbn [apply_entries fmap list_fmap fst]. rewrite He1, He2. cbn [mbind Outcome_bind]. rewrite Hs1, Hs2.
  rewrite !app_assoc, <-Hn1, <-Hn2. split_and!; [done..|]. by rewrite <-Hi1, <-Hi2.
Qed.
End PlacedLogs.

(** ** Properties *)

(** C2: No message goes twice to an endpoint: two nodes of a cluster that agree and
    apply the same log spawn, together, at most one delivery of each message to
    each endpoint.  The messages the log brings are new, endpoints come online
    where no other node hosts them, and statuses are reported as deliveries and
    endpoints report them; in between endpoints may go, come back and change their
    interests, and topics may be loaded and unloaded. *)
Theorem delivered_at_most_once `{Hash64, OpenraftMembership} (o1 o2 : HashOrder) (c1 c2 : Clock)
    (es : list (Entry * (Z -> bool))) (sm1 sm2 : StateMachineData) (node1 node2 : World)
    (Hwf1 : node_wf (sm_node sm1)) (Hwf2 : node_wf (sm_node sm2)) (Hagree : agreed sm1 = agreed sm2)
    (Hready1 : @log_ready o1 c1 _ _ _ es sm1 node1) (Hready2 : @log_ready o2 c2 _ _ _ es sm2 node2)
    (Hplaced : log_placed es (held_messages (shared_node (sm_node sm1))) (shared_node (sm_node sm1)))
    (Hnodes : world_id node1 <> world_id node2) (Hhosts : one_host (sm_node sm1))
    (Hown1 : sends_own (world_id node1) (sm_node sm1)) (Hown2 : sends_own (world_id node2) (sm_node sm2)) :
  exists rs1 sm1' node1' rs2 sm2' node2' new1 new2,
    @apply_entries o1 c1 _ _ _ es.*1 sm1 (Some node1) = Done (rs1, (sm1', Some node1')) /\
    @apply_entries o2 c2 _ _ _ es.*1 sm2 (Some node2) = Done (rs2, (sm2', Some node2')) /\
    deliveries node1' = deliveries node1 ++ new1 /\ deliveries node2' = deliveries node2 ++ new2 /\
    NoDup (new1 ++ new2) /\ one_host (sm_node sm1') /\
    sends_own (world_id node1) (sm_node sm1') /\ sends_own (world_id node2) (sm_node sm2').
Proof.
  assert (shared_node (sm_node sm1) = shared_node (sm_node sm2)) as Heq by exact (f_equal agreed_topics Hagree).
  destruct (log_delivering_pair o1 o2 c1 c2 es (held_messages (shared_node (sm_node sm1))) sm1 sm2 node1 node2 [] [])
    as (rs1 & sm1' & node1' & rs2 & sm2' & node2' & new1 & new2 & seen' & Hr1 & Hr2 & Hn1 & Hn2 & [Hd1 Hd2 Hone Honce]);
    [done..| |].
  { split; [split|split|done|constructor]; try done.
    - intros code t hm. apply elem_of_held_messages.
    - by intros code id ep ?%not_elem_of_nil.
    - rewrite Heq. intros code t hm. apply elem_of_held_messages.
    - by intros code id ep ?%not_elem_of_nil. }
  exists rs1, sm1', node1', rs2, sm2', node2', new1, new2. split_and!; try done;
    [exact (del_here _ _ _ _ Hd1)|exact (del_here _ _ _ _ Hd2)].
Qed.

Section PlacementWitnesses.
Import Sample SampleRaft.
#[local] Existing Instance sample_hash.

(** A second endpoint comes online on the second node, and a message is sent to
    both. *)
Definition joining : Proposal := PEpOnline (mkEndpointOnline topic (ep x06) [interest_new "a/*"] (nid x02)).
Definition sending : Proposal := PDelegateMessage (mkDelegateMessage topic (msg Online x03)).
Definition placed_log : list (Entry * (Z -> bool)) :=
  [(mkEntry (H := sample_openraft) (sample_log_id 7) (Normal joining), never);
   (mkEntry (H := sample_openraft) (sample_log_id 8) (Normal sending), never)].

(** A replica after the first entry. *)
Definition joined (o : HashOrder) (c : Clock) (w : World) : StateMachineData * World :=
  match @apply_entry o c _ _ _ (mkEntry (H := sample_openraft) (sample_log_id 7) (Normal joining)) sample_sm (Some w) with
  | Done (_, (sm, Some w)) => (sm, w)
  | _ => (sample_sm, w)
  end.
Definition joined_topic (s : StateMachineData * World) : TopicData :=
  default sample_topic (nd_topics (sm_node (fst s)) !! topic).

(** No message expires: the clock is on one side of nothing. *)
Lemma never_sided `{HashOrder, Clock} past c t ctx ctx' :
  forallb (fun m => match durability (header m) with None => true | _ => false end)
    (call_messages c ++ (message <$> topic_abs t)) = true ->
  call_sided past c t ctx ctx'.
Proof.
  intros Hall m Hm d n Hd. exfalso. rewrite forallb_forall in Hall. apply list_elem_of_In in Hm. specialize (Hall m Hm).
  by rewrite Hd in Hall.
Qed.

(** What the second entry needs of a replica after the first, in values. *)
Definition joined_checks (c : Clock) (s : StateMachineData * World) : bool :=
  let t := joined_topic s in
  bool_decide (is_Some (nd_topics (sm_node (fst s)) !! topic)) &&
  bool_decide (mid x03 ∉ hold_id <$> topic_abs t) &&
  forallb (fun e => time e <? clock_at (clock_reads (runtime (snd s))))%Z (time_id (queue t)) &&
  (queue_size (queue t) <? usize_MAX)%Z &&
  bool_decide (topic_config t = topic_config sample_topic) &&
  bool_decide (shared_find (raw (ep_interest_map t)) [subject_new "a/b"] = {[ep x05; ep x06]}) &&
  forallb (fun m => match durability (header m) with None => true | _ => false end) (message <$> topic_abs t).

Lemma placed_log_ready (o : HashOrder) (c : Clock) (w : World) :
  joined_checks c (joined o c w) = true -> @log_ready o c _ _ _ placed_log sample_sm w.
Proof.
  intros Hchecks. split.
  - split; [exact I|]. split; [constructor|]. intros t' ctx' _. apply never_sided. reflexivity.
  - intros r sm' w' Hr. split; [|intros; exact I].
    assert (joined o c w = (sm', w')) as Hj by (unfold joined; rewrite Hr; done). rewrite Hj in Hchecks.
    unfold joined_checks, joined_topic in Hchecks. cbn [fst snd] in Hchecks.
    destruct (nd_topics (sm_node sm') !! topic) as [t|] eqn:Ht; [|done]. cbn [default from_option id] in Hchecks.
    rewrite !andb_true_iff, !bool_decide_eq_true, !forallb_forall, Z.ltb_lt in Hchecks.
    destruct Hchecks as ((((((_ & Hid) & Htime) & Hsize) & Hcfg) & Hfind) & Hdurable).
    cbn [entry_payload]. unfold proposal_ready, proposal_sided. cbn [proposal_call proposal_code sending delegate_topic delegate_message].
    rewrite Ht. split; [split; [discriminate|split]|split].
    + exact Hid.
    + intros e He%list_elem_of_In%Htime. by apply Z.ltb_lt in He.
    + exact Hsize.
    + rewrite Hcfg. apply (ready_config _ _ _ sample_hold_ready).
    + apply Forall_singleton. unfold distinct_hashes. change (subjects (header (msg Online x03))) with [subject_new "a/b"].
      rewrite Hfind. intros e1 e2 [->%elem_of_singleton| ->%elem_of_singleton]%elem_of_union
        [->%elem_of_singleton| ->%elem_of_singleton]%elem_of_union Hh; try reflexivity; discriminate Hh.
    + intros t' ctx' _. apply never_sided. cbn [call_messages app forallb]. by apply forallb_forall.
Qed.

Lemma elem_of_sample_row n e : e ∈ reachable_eps n sample_topic -> n = nid x01 /\ e = ep x05.
Proof.
  unfold reachable_eps. cbn [ep_routing_table sample_topic].
  destruct (decide (n = nid x01)) as [->|Hne]; [|rewrite lookup_singleton_ne by done; set_solver].
  rewrite lookup_singleton_eq. cbn [default from_option id]. by intros ->%elem_of_singleton.
Qed.

Lemma sample_one_host : one_host sample_node.
Proof.
  intros code t n n' ep Ht. change (({[topic := sample_topic]} : gmap TopicCode TopicData) !! code = Some t) in Ht.
  apply lookup_singleton_Some in Ht as [_ <-].
  intros [-> _]%elem_of_sample_row [-> _]%elem_of_sample_row. reflexivity.
Qed.

Lemma sample_sends_own x : sends_own x sample_node.
Proof.
  intros code t hm ep Ht Hin Hs. exfalso.
  change (({[topic := sample_topic]} : gmap TopicCode TopicData) !! code = Some t) in Ht.
  apply lookup_singleton_Some in Ht as [_ <-].
  assert (Forall (fun hm => map_Forall (fun _ k => k <> Sending) (hold_status hm)) (topic_abs sample_topic)) as Hall.
  { apply (bool_decide_unpack _). vm_compute. exact I. }
  rewrite Forall_forall in Hall. by apply (Hall hm Hin ep Sending).
Qed.

(** The two nodes, on which the message goes to one endpoint each. *)
Lemma delivered_at_most_once_witness :
  exists rs1 sm1' node1' rs2 sm2' node2' new1 new2,
    @apply_entries hash_order_id ticking _ _ _ placed_log.*1 sample_sm (Some (ctx_world later)) =
      Done (rs1, (sm1', Some node1')) /\
    @apply_entries hash_order_rev other_clock _ _ _ placed_log.*1 sample_sm (Some other_world) =
      Done (rs2, (sm2', Some node2')) /\
    deliveries node1' = deliveries (ctx_world later) ++ new1 /\ deliveries node2' = deliveries other_world ++ new2 /\
    NoDup (new1 ++ new2) /\ one_host (sm_node sm1') /\
    sends_own (nid x01) (sm_node sm1') /\ sends_own (nid x02) (sm_node sm2').
Proof.
  apply (delivered_at_most_once hash_order_id hash_order_rev ticking other_clock placed_log sample_sm sample_sm
    (ctx_world later) other_world sample_node_wf sample_node_wf); [reflexivity|..].
  - apply placed_log_ready. vm_compute. reflexivity.
  - apply placed_log_ready. vm_compute. reflexivity.
  - split; [split; [constructor|split; [exact I|]]|split; [split; [|split; [exact I|intros; discriminate]]|exact I]].
    + intros e i h sh n [= <- <- <-] Hsh Hin. exfalso.
      assert (sh = shared_topic sample_topic) as -> by (injection Hsh; intros <-; reflexivity).
      apply elem_of_sample_row in Hin as [_ Heq]. discriminate Heq.
    + apply (bool_decide_unpack _). vm_compute. exact I.
  - discriminate.
  - apply sample_one_host.
  - apply sample_sends_own.
  - apply sample_sends_own.
Defined.

(** And each does send it. *)
Example both_deliver :
  option_map deliveries (match @apply_entries hash_order_id ticking _ _ _ placed_log.*1 sample_sm (Some (ctx_world later)) with
    Done (_, (_, w)) => w | _ => None end) = Some [(topic, mid x03, ep x05)] /\
  option_map deliveries (match @apply_entries hash_order_rev other_clock _ _ _ placed_log.*1 sample_sm (Some other_world) with
    Done (_, (_, w)) => w | _ => None end) = Some [(topic, mid x03, ep x06)].
Proof. split; vm_compute; reflexivity. Qed.
End PlacementWitnesses.
