(* ===== verification/LogStorage.v ===== *)
(** * The Raft log

    [server/src/protocol/node/raft/log_storage.rs]: the in-memory log, its purged
    prefix, the committed log id and the vote.  The [async] wrappers of
    [LogStorage] ([LogHandle]) lock the mutex and call the same operation, so an
    operation here is one atomic step of the store. *)

From S2P Require Import Prelude Ids Interest Message Proposal Queue Topic Delivery NodeData StateMachine.

(** ** BTreeMap with [u64] keys, as its entries in ascending order *)
Section BTreeMap.
Context {V : Type}.

Fixpoint bmap_insert (k : Z) (v : V) (m : list (Z * V)) : list (Z * V) :=
  match m with
  | [] => [(k, v)]
  | (k', v') :: m' =>
      match (k ?= k')%Z with
      | Lt => (k, v) :: m
      | Eq => (k, v) :: m'
      | Gt => (k', v') :: bmap_insert k v m'
      end
  end.

Fixpoint bmap_remove (k : Z) (m : list (Z * V)) : list (Z * V) :=
  match m with
  | [] => []
  | (k', v') :: m' =>
      match (k ?= k')%Z with
      | Lt => m
      | Eq => m'
      | Gt => (k', v') :: bmap_remove k m'
      end
  end.

Inductive Bound : Type :=
  | Included (k : Z)
  | Excluded (k : Z)
  | Unbounded.

Definition above (b : Bound) (k : Z) : bool :=
  match b with Included a => (a <=? k)%Z | Excluded a => (a <? k)%Z | Unbounded => true end.
Definition below (b : Bound) (k : Z) : bool :=
  match b with Included a => (k <=? a)%Z | Excluded a => (k <? a)%Z | Unbounded => true end.

(** [range] panics on a start beyond the end, and on an empty open range. *)
Definition range_panics (lo hi : Bound) : bool :=
  match lo, hi with
  | Excluded a, Excluded b => (b <=? a)%Z
  | Included a, Included b | Included a, Excluded b | Excluded a, Included b => (b <? a)%Z
  | _, _ => false
  end.

Definition bmap_range (lo hi : Bound) (m : list (Z * V)) : Outcome (list (Z * V)) :=
  if range_panics lo hi then Panic
  else Done (filter (fun '(k, _) => above lo k && below hi k = true) m).
End BTreeMap.

(** What the log uses of [openraft]'s order on log ids and of its votes. *)
Class OpenraftLog `{Openraft} : Type := {
  log_id_le : LogId -> LogId -> bool;
  log_id_le_refl : forall l, log_id_le l l = true;
  Vote : Type;
}.

Section LogStorage.
Context `{OpenraftLog}.

Record LogStorageInner : Type := mkLogStorage {
  last_purged_log_id : option LogId;
  log : list (Z * Entry);
  committed : option LogId;
  vote : option Vote;
}.

Record LogState : Type := mkLogState {
  state_last_purged : option LogId;
  state_last : option LogId;
}.

Definition log_storage_new : LogStorageInner := mkLogStorage None [] None None.

Definition set_log (l : list (Z * Entry)) (s : LogStorageInner) : LogStorageInner :=
  mkLogStorage (last_purged_log_id s) l (committed s) (vote s).

Definition try_get_log_entries (lo hi : Bound) (s : LogStorageInner) : Outcome (list Entry) :=
  response ← bmap_range lo hi (log s);
  Done response.*2.

Definition get_log_state (s : LogStorageInner) : LogState :=
  let last := (fun '(_, ent) => log_id ent) <$> last (log s) in
  let last_purged := last_purged_log_id s in
  let last := match last with None => last_purged | Some x => Some x end in
  mkLogState last_purged last.

Definition save_committed (c : option LogId) (s : LogStorageInner) : LogStorageInner :=
  mkLogStorage (last_purged_log_id s) (log s) c (vote s).
Definition read_committed (s : LogStorageInner) : option LogId := committed s.
Definition save_vote (v : Vote) (s : LogStorageInner) : LogStorageInner :=
  mkLogStorage (last_purged_log_id s) (log s) (committed s) (Some v).
Definition read_vote (s : LogStorageInner) : option Vote := vote s.

(** [append]: the state, and what the flush callback is told, once. *)
Definition append (entries : list Entry) (s : LogStorageInner) : LogStorageInner * Result () () :=
  let log' := foldl (fun m entry => bmap_insert (index (log_id entry)) entry m) (log s) entries in
  (set_log log' s, Ok ()).

Definition remove_keys (keys : list Z) (m : list (Z * Entry)) : list (Z * Entry) :=
  foldl (fun m key => bmap_remove key m) m keys.

Definition truncate (id : LogId) (s : LogStorageInner) : Outcome LogStorageInner :=
  keys ← bmap_range (Included (index id)) Unbounded (log s);
  Done (set_log (remove_keys keys.*1 (log s)) s).

(** [*ld <= Some(log_id)]: [None] is below everything. *)
Definition purged_le (ld : option LogId) (id : LogId) : bool :=
  match ld with None => true | Some l => log_id_le l id end.

Definition purge (id : LogId) (s : LogStorageInner) : Outcome LogStorageInner :=
  if purged_le (last_purged_log_id s) id then
    keys ← bmap_range Unbounded (Included (index id)) (log s);
    Done (mkLogStorage (Some id) (remove_keys keys.*1 (log s)) (committed s) (vote s))
  else Panic.
End LogStorage.

(** ** Facts about the map *)

Section BTreeMapFacts.
Context {V : Type}.
Implicit Types (m : list (Z * V)) (k : Z).

(** The entries of consecutive indices from [base] on. *)
Fixpoint numbered (base : Z) (l : list V) : list (Z * V) :=
  match l with
  | [] => []
  | v :: l => (base, v) :: numbered (base + 1) l
  end.

Lemma numbered_app base l1 l2 :
  numbered base (l1 ++ l2) = numbered base l1 ++ numbered (base + Z.of_nat (length l1)) l2.
Proof.
  revert base. induction l1 as [|v l1 IH]; intros base; cbn [numbered app length]; [by rewrite Z.add_0_r|].
  rewrite IH. do 3 f_equal. lia.
Qed.

Lemma numbered_snd base l : (numbered base l).*2 = l.
Proof. revert base. induction l as [|v l IH]; intros base; [done|]. cbn. by rewrite IH. Qed.

Lemma elem_of_numbered base l k v :
  (k, v) ∈ numbered base l -> (base <= k < base + Z.of_nat (length l))%Z.
Proof.
  revert base. induction l as [|w l IH]; intros base; cbn [numbered length]; [by intros ?%not_elem_of_nil|].
  intros [[= -> ->]|Hin]%elem_of_cons; [lia|]. apply IH in Hin. lia.
Qed.

Lemma bmap_insert_last k v m :
  (forall k' v', (k', v') ∈ m -> (k' < k)%Z) -> bmap_insert k v m = m ++ [(k, v)].
Proof.
  induction m as [|[k' v'] m IH]; intros Hm; [done|]. cbn [bmap_insert app].
  pose proof (Hm k' v' ltac:(left)) as Hlt.
  replace (k ?= k')%Z with Gt by (symmetry; apply Z.compare_gt_iff; lia).
  rewrite IH; [done|]. intros k2 v2 Hin. apply (Hm k2 v2). by right.
Qed.

(** Removing the keys a range selects keeps the others. *)
Lemma bmap_remove_filter k m :
  StronglySorted (fun a b => (a.1 < b.1)%Z) m -> bmap_remove k m = filter (fun '(k', _) => k' <> k) m.
Proof.
  induction 1 as [|[k' v'] m Hm IH Hall]; [done|]. cbn [bmap_remove]. rewrite filter_cons.
  rewrite Forall_forall in Hall.
  destruct (Z.compare_spec k k') as [->|Hlt|Hgt].
  - rewrite decide_False by tauto. symmetry. apply filter_all. apply Forall_forall.
    intros [k2 v2] Hin. specialize (Hall _ Hin). cbn in *. lia.
  - rewrite decide_True by lia. f_equal. symmetry. apply filter_all. apply Forall_forall.
    intros [k2 v2] Hin. specialize (Hall _ Hin). cbn in *. lia.
  - rewrite decide_True by lia. by rewrite IH.
Qed.

Lemma numbered_sorted base l : StronglySorted (fun a b => (a.1 < b.1)%Z) (numbered base l).
Proof.
  revert base. induction l as [|v l IH]; intros base; constructor; [apply IH|].
  apply Forall_forall. intros [k w] Hin%elem_of_numbered. cbn. lia.
Qed.

Lemma sorted_filter (P : Z * V -> Prop) `{forall x, Decision (P x)} m :
  StronglySorted (fun a b => (a.1 < b.1)%Z) m -> StronglySorted (fun a b => (a.1 < b.1)%Z) (filter P m).
Proof.
  induction 1 as [|x m Hm IH Hall]; [constructor|]. rewrite filter_cons. case_decide; [|done].
  constructor; [done|]. apply Forall_forall. intros y [_ Hy]%list_elem_of_filter.
  by eapply Forall_forall in Hall.
Qed.

Lemma remove_keys_filter keys m :
  StronglySorted (fun a b => (a.1 < b.1)%Z) m ->
  foldl (fun m key => bmap_remove key m) m keys = filter (fun '(k, _) => k ∉ keys) m.
Proof.
  revert m. induction keys as [|k keys IH]; intros m Hm; cbn [foldl].
  - symmetry. apply filter_all, Forall_forall. intros [k v] _. apply not_elem_of_nil.
  - rewrite IH; rewrite bmap_remove_filter by done.
    + rewrite list_filter_filter. apply list_filter_iff. intros [k' v']. rewrite not_elem_of_cons. tauto.
    + by apply sorted_filter.
Qed.

Lemma remove_range (p : Z -> bool) m :
  StronglySorted (fun a b => (a.1 < b.1)%Z) m ->
  foldl (fun m key => bmap_remove key m) m (filter (fun '(k, _) => p k = true) m).*1 =
    filter (fun '(k, _) => p k = false) m.
Proof.
  intros Hm. rewrite remove_keys_filter by done.
  assert (forall k v, (k, v) ∈ m -> k ∉ (filter (fun '(k, _) => p k = true) m).*1 <-> p k = false) as Hiff.
  { intros k v Hin. rewrite list_elem_of_fmap. split.
    - intros Hn. destruct (p k) eqn:Hp; [|done]. destruct Hn. exists (k, v). split; [done|].
      by apply list_elem_of_filter.
    - intros Hp ([k' v'] & -> & [Hp' _]%list_elem_of_filter). cbn in *. congruence. }
  revert Hiff. generalize (filter (fun '(k, _) => p k = true) m).*1 as keys. clear Hm. intros keys.
  induction m as [|[k v] m IH]; intros Hiff; [done|]. rewrite !filter_cons.
  rewrite IH by (intros k' v' Hin; apply (Hiff k' v'); by right).
  pose proof (Hiff k v ltac:(left)). by repeat case_decide; try tauto.
Qed.

Lemma numbered_drop (n : nat) base l :
  filter (fun '(k, _) => (k <=? base + Z.of_nat n - 1)%Z = false) (numbered base l) =
    numbered (base + Z.of_nat n) (drop n l).
Proof.
  revert base l. induction n as [|n IH]; intros base l.
  - rewrite drop_0, Z.add_0_r. apply filter_all, Forall_forall. intros [k v] Hin%elem_of_numbered.
    apply Z.leb_gt. lia.
  - destruct l as [|v l]; [done|]. cbn [numbered drop]. rewrite filter_cons.
    rewrite decide_False by (rewrite Z.leb_gt; lia).
    specialize (IH (base + 1)%Z l). replace (base + Z.of_nat (S n))%Z with (base + 1 + Z.of_nat n)%Z by lia.
    exact IH.
Qed.

Lemma numbered_take (n : nat) base l :
  filter (fun '(k, _) => (base + Z.of_nat n <=? k)%Z = false) (numbered base l) = numbered base (take n l).
Proof.
  revert base l. induction n as [|n IH]; intros base l.
  - rewrite take_0. cbn [numbered]. apply elem_of_nil_inv. intros [k v] [Hk Hin%elem_of_numbered]%list_elem_of_filter.
    apply Z.leb_gt in Hk. lia.
  - destruct l as [|v l]; [done|]. cbn [numbered take]. rewrite filter_cons.
    rewrite decide_True by (rewrite Z.leb_gt; lia). f_equal.
    specialize (IH (base + 1)%Z l). replace (base + Z.of_nat (S n))%Z with (base + 1 + Z.of_nat n)%Z by lia.
    exact IH.
Qed.
End BTreeMapFacts.

(** ** The abstract log *)

Section LogSpec.
Context `{OpenraftLog}.
Implicit Types (s : LogStorageInner) (l : list Entry) (base : Z).

(** The entries [l] carry consecutive indices from [base] on. *)
Fixpoint consecutive (base : Z) (l : list Entry) : Prop :=
  match l with
  | [] => True
  | e :: l => index (log_id e) = base /\ consecutive (base + 1) l
  end.

(** A Raft log without its purged prefix: its first index and its entries. *)
Record log_rep base l s : Prop := mkLogRep {
  rep_log : log s = numbered base l;
  rep_index : consecutive base l;
  rep_base : base = from_option (fun p => index p + 1)%Z 0%Z (last_purged_log_id s);
}.

(** The operations by which [openraft] changes the log. *)
Inductive log_op : Type :=
  | OpAppend (entries : list Entry)
  | OpTruncate (id : LogId)
  | OpPurge (id : LogId).

Definition log_run (op : log_op) s : Outcome LogStorageInner :=
  match op with
  | OpAppend entries => Done (fst (append entries s))
  | OpTruncate id => truncate id s
  | OpPurge id => purge id s
  end.

(** What they mean on the abstract log: add at the end, forget from an index on,
    forget up to an index. *)
Definition log_spec (op : log_op) (a : Z * list Entry) : Z * list Entry :=
  let '(base, l) := a in
  match op with
  | OpAppend entries => (base, l ++ entries)
  | OpTruncate id => (base, take (Z.to_nat (index id - base)) l)
  | OpPurge id => ((index id + 1)%Z, drop (Z.to_nat (index id + 1 - base)) l)
  end.

(** The contract of [RaftLogStorage]: appended entries continue the log, nothing
    purged is truncated, and purging moves forward. *)
Definition log_op_ok (op : log_op) (a : Z * list Entry) s : Prop :=
  let '(base, l) := a in
  match op with
  | OpAppend entries => consecutive (base + Z.of_nat (length l)) entries
  | OpTruncate id => (base <= index id)%Z
  | OpPurge id => (base <= index id + 1)%Z /\ purged_le (last_purged_log_id s) id = true
  end.

Fixpoint log_ops_ok (ops : list log_op) (a : Z * list Entry) s : Prop :=
  match ops with
  | [] => True
  | op :: ops => log_op_ok op a s /\
      forall s', log_run op s = Done s' -> log_ops_ok ops (log_spec op a) s'
  end.

Fixpoint log_run_all (ops : list log_op) s : Outcome LogStorageInner :=
  match ops with
  | [] => Done s
  | op :: ops => s ← log_run op s; log_run_all ops s
  end.

Lemma consecutive_app base l1 l2 :
  consecutive base (l1 ++ l2) <-> consecutive base l1 /\ consecutive (base + Z.of_nat (length l1)) l2.
Proof.
  revert base. induction l1 as [|e l1 IH]; intros base; cbn [consecutive app length].
  - rewrite Z.add_0_r. tauto.
  - rewrite IH. replace (base + 1 + Z.of_nat (length l1))%Z with (base + Z.of_nat (S (length l1)))%Z by lia. tauto.
Qed.

Lemma foldl_append base l entries :
  consecutive (base + Z.of_nat (length l)) entries ->
  foldl (fun m entry => bmap_insert (index (log_id entry)) entry m) (numbered base l) entries =
    numbered base (l ++ entries).
Proof.
  revert l. induction entries as [|e entries IH]; intros l; cbn [foldl consecutive]; [by rewrite app_nil_r|].
  intros [He Hc]. rewrite bmap_insert_last.
  - rewrite He. replace (numbered base l ++ [((base + Z.of_nat (length l))%Z, e)]) with (numbered base (l ++ [e]))
      by by rewrite numbered_app.
    rewrite IH, <-app_assoc; [done|]. rewrite length_app. cbn.
    by replace (base + Z.of_nat (length l + 1))%Z with (base + Z.of_nat (length l) + 1)%Z by lia.
  - intros k v Hin%elem_of_numbered. lia.
Qed.

Lemma log_op_refines op base l s :
  log_rep base l s -> log_op_ok op (base, l) s ->
  exists s', log_run op s = Done s' /\ log_rep (fst (log_spec op (base, l))) (snd (log_spec op (base, l))) s' /\
    committed s' = committed s /\ vote s' = vote s.
Proof.
  intros [Hl Hi Hb] Hok. destruct op as [entries|id|id]; cbn [log_run log_spec log_op_ok fst snd] in *.
  - eexists. split; [done|]. split; [|done]. split; cbn; [|by apply consecutive_app|done].
    rewrite Hl. by apply foldl_append.
  - unfold truncate, bmap_range. cbn [range_panics mbind Outcome_bind].
    eexists. split; [done|]. split; [|done]. split; cbn [set_log log last_purged_log_id]; [| |done].
    + unfold remove_keys. rewrite (list_filter_iff _ (fun '(k, _) => (index id <=? k)%Z = true)).
      * rewrite Hl, (remove_range (fun k => (index id <=? k)%Z)) by apply numbered_sorted.
        rewrite <-numbered_take. replace (base + Z.of_nat (Z.to_nat (index id - base)))%Z with (index id) by lia. done.
      * intros [k v]. cbn [above below]. by rewrite andb_true_r.
    + rewrite <-(take_drop (Z.to_nat (index id - base)) l) in Hi.
      by apply consecutive_app in Hi as [Hi _].
  - destruct Hok as [Hle Hp]. unfold purge. rewrite Hp. unfold bmap_range. cbn [range_panics mbind Outcome_bind].
    set (n := Z.to_nat (index id + 1 - base)).
    eexists. split; [done|]. split; [|done]. split; cbn [log last_purged_log_id from_option]; [| |done].
    + unfold remove_keys. rewrite (list_filter_iff _ (fun '(k, _) => (k <=? index id)%Z = true)) by (by intros [k v]).
      rewrite Hl, (remove_range (fun k => (k <=? index id)%Z)) by apply numbered_sorted.
      replace (index id + 1)%Z with (base + Z.of_nat n)%Z by lia. rewrite <-numbered_drop.
      apply list_filter_iff. intros [k v]. by replace (base + Z.of_nat n - 1)%Z with (index id) by lia.
    + destruct (decide (n <= length l)) as [Hn|Hn].
      * rewrite <-(take_drop n l) in Hi. apply consecutive_app in Hi as [_ Hi].
        rewrite length_take_le in Hi by done. by replace (index id + 1)%Z with (base + Z.of_nat n)%Z by lia.
      * by rewrite drop_ge by lia.
Qed.

(** C21: the log store refines the abstract Raft log: along any sequence of
    appends, truncations and purges that keeps to the contract of
    [RaftLogStorage], every operation returns, and the stored map is the abstract
    list of entries at consecutive indices after the purged prefix; the vote and
    the committed log id are left alone. *)
Theorem log_refines (ops : list log_op) (base : Z) (l : list Entry) (s : LogStorageInner)
    (Hrep : log_rep base l s) (Hok : log_ops_ok ops (base, l) s) :
  exists s', log_run_all ops s = Done s' /\
    (let '(base', l') := foldl (fun a op => log_spec op a) (base, l) ops in log_rep base' l' s') /\
    committed s' = committed s /\ vote s' = vote s.
Proof.
  revert base l s Hrep Hok. induction ops as [|op ops IH]; intros base l s Hrep Hok; cbn [log_run_all foldl].
  { by exists s. }
  destruct Hok as [Hop Hops]. destruct (log_op_refines op base l s Hrep Hop) as (s1 & Hr & Hrep1 & Hc & Hv).
  rewrite Hr. cbn [mbind Outcome_bind]. destruct (log_spec op (base, l)) as [b1 l1] eqn:Hs. cbn [fst snd] in Hrep1.
  destruct (IH b1 l1 s1 Hrep1) as (s' & ? & ? & ? & ?); [by apply Hops|].
  exists s'. split_and!; try done; congruence.
Qed.

(** Reads of the store are reads of the abstract log: [get_log_state] reports
    the last entry, or the last purged one when there is none, and
    [try_get_log_entries] returns, in order, exactly the entries whose index is in
    the half-open range. *)
Theorem log_reads (base : Z) (l : list Entry) (s : LogStorageInner) (a b : Z)
    (Hrep : log_rep base l s) (Hab : (a <= b)%Z) :
  get_log_state s =
    mkLogState (last_purged_log_id s)
      (match last l with Some e => Some (log_id e) | None => last_purged_log_id s end) /\
  try_get_log_entries (Included a) (Excluded b) s =
    Done (take (Z.to_nat (b - Z.max a base)) (drop (Z.to_nat (a - base)) l)).
Proof.
  destruct Hrep as [Hl Hi Hb]. split.
  - unfold get_log_state. rewrite Hl.
    assert (last l = snd <$> last (numbered base l)) as -> by (rewrite <-fmap_last, numbered_snd; reflexivity).
    by destruct (last (numbered base l)) as [[k e]|].
  - unfold try_get_log_entries, bmap_range. cbn [range_panics].
    rewrite (proj2 (Z.ltb_ge b a)) by done. cbn [mbind Outcome_bind]. f_equal. rewrite Hl.
    set (n := Z.to_nat (a - base)).
    rewrite <-(numbered_snd (base + Z.of_nat n) (take _ (drop n l))). f_equal.
    rewrite <-numbered_take, <-numbered_drop, list_filter_filter. apply list_filter_iff_in.
    intros [k v] Hin%elem_of_numbered. cbn [above below]. 
    rewrite andb_true_iff, Z.leb_le, Z.ltb_lt, !Z.leb_gt. lia.
Qed.
End LogSpec.

Section LogWitnesses.
Import SampleRaft.

(** Log ids of one leader, in the order of their indices. *)
Definition sample_log_le (a b : LogId) : bool := (index a <=? index b)%Z.
Lemma sample_log_le_refl (a : LogId) : sample_log_le a a = true.
Proof. apply Z.leb_refl. Qed.
#[local] Instance sample_openraft_log : OpenraftLog := {|
  log_id_le := sample_log_le;
  log_id_le_refl := sample_log_le_refl;
  Vote := N;
|}.

Definition blank (i : Z) : Entry := mkEntry (sample_log_id i) Blank.

(** Three entries come in, the last is truncated and replaced, the first is purged. *)
Definition sample_ops : list log_op :=
  [OpAppend [blank 0; blank 1; blank 2]; OpTruncate (sample_log_id 2); OpAppend [blank 2; blank 3];
   OpPurge (sample_log_id 0)].

Lemma log_new_rep : log_rep 0 [] log_storage_new.
Proof. split; [reflexivity|exact I|reflexivity]. Qed.

Lemma log_refines_witness :
  exists s', log_run_all sample_ops log_storage_new = Done s' /\
    (let '(base', l') := foldl (fun a op => log_spec op a) (0%Z, []) sample_ops in log_rep base' l' s') /\
    committed s' = committed log_storage_new /\ vote s' = vote log_storage_new.
Proof.
  apply (log_refines sample_ops 0 [] log_storage_new log_new_rep).
  split; [vm_compute; repeat split; reflexivity|]. intros s1 H1.
  split; [vm_compute; discriminate|]. intros s2 H2.
  split; [vm_compute; repeat split; reflexivity|]. intros s3 H3.
  split; [|intros; exact I]. split; [vm_compute; discriminate|].
  cbn [log_run] in H1, H2, H3. injection H3 as <-. unfold truncate in H2.
  apply Outcome_bind_Done in H2 as (keys & _ & H2). injection H2 as <-. injection H1 as <-. reflexivity.
Defined.

Definition sample_log : LogStorageInner := fst (append [blank 0; blank 1; blank 2] log_storage_new).

Lemma log_reads_witness :
  get_log_state sample_log =
    mkLogState (last_purged_log_id sample_log)
      (match last [blank 0; blank 1; blank 2] with
       | Some e => Some (log_id e) | None => last_purged_log_id sample_log end) /\
  try_get_log_entries (Included 1) (Excluded 3) sample_log =
    Done (take (Z.to_nat (3 - Z.max 1 0)) (drop (Z.to_nat (1 - 0)) [blank 0; blank 1; blank 2])).
Proof.
  apply (log_reads 0 [blank 0; blank 1; blank 2] sample_log 1 3); [|lia].
  split; [reflexivity|vm_compute; repeat split; reflexivity|reflexivity].
Defined.
End LogWitnesses.
