(* ===== verification/LogHandle.v ===== *)
(** * The log storage openraft is given

    [LogStorage] of [raft/log_storage.rs]: a shared, locked [LogStorageInner]; its
    methods and those of the readers it hands out take the lock and call the inner
    ones.  The lock is tokio's: it makes the calls atomic and is not poisoned. *)

From S2P Require Import Prelude Ids Proposal StateMachine LogStorage.

Section LogHandle.
Context `{OpenraftLog}.

(** [Arc<Mutex<LogStorageInner>>]: where the inner storage is. *)
Record LogStorage : Type := mkLogHandle { inner : loc }.
#[export] Instance LogStorage_eq_dec : EqDecision LogStorage.
Proof. solve_decision. Defined.

Definition LogHeap : Type := gmap loc LogStorageInner.

(** [Default]. *)
Definition log_storage_default (h : LogHeap) : LogStorage * LogHeap :=
  let l := fresh (dom h) in (mkLogHandle l, <[l := log_storage_new]> h).

(** [self.inner.lock().await] and a call; an inner storage is there as long as a
    handle is. *)
Definition locked {A} (f : LogStorageInner -> Outcome (A * LogStorageInner)) (s : LogStorage) (h : LogHeap) :
    Outcome (A * LogHeap) :=
  i ← expect (h !! inner s);
  '(a, i) ← f i;
  Done (a, <[inner s := i]> h).

(** A call that only reads, and one that only writes. *)
Definition reading {A} (f : LogStorageInner -> Outcome A) : LogStorageInner -> Outcome (A * LogStorageInner) :=
  fun i => a ← f i; Done (a, i).
Definition writing (f : LogStorageInner -> Outcome LogStorageInner) :
    LogStorageInner -> Outcome (() * LogStorageInner) :=
  fun i => i ← f i; Done ((), i).

(** [get_log_reader]: a clone, which shares the inner storage. *)
Definition get_log_reader (s : LogStorage) : LogStorage := s.

Definition storage_try_get_log_entries (lo hi : Bound) : LogStorage -> LogHeap -> Outcome (list Entry * LogHeap) :=
  locked (reading (try_get_log_entries lo hi)).
Definition storage_append (entries : list Entry) : LogStorage -> LogHeap -> Outcome (Result () () * LogHeap) :=
  locked (fun i => let '(i, told) := append entries i in Done (told, i)).
Definition storage_get_log_state : LogStorage -> LogHeap -> Outcome (LogState * LogHeap) :=
  locked (reading (fun i => Done (get_log_state i))).
Definition storage_purge (id : LogId) : LogStorage -> LogHeap -> Outcome (() * LogHeap) := locked (writing (purge id)).
Definition storage_read_committed : LogStorage -> LogHeap -> Outcome (option LogId * LogHeap) :=
  locked (reading (fun i => Done (read_committed i))).
Definition storage_save_committed (c : option LogId) : LogStorage -> LogHeap -> Outcome (() * LogHeap) :=
  locked (writing (fun i => Done (save_committed c i))).
Definition storage_read_vote : LogStorage -> LogHeap -> Outcome (option Vote * LogHeap) :=
  locked (reading (fun i => Done (read_vote i))).
Definition storage_save_vote (v : Vote) : LogStorage -> LogHeap -> Outcome (() * LogHeap) :=
  locked (writing (fun i => Done (save_vote v i))).
Definition storage_truncate (id : LogId) : LogStorage -> LogHeap -> Outcome (() * LogHeap) :=
  locked (writing (truncate id)).

(** The calls that change a storage. *)
Inductive storage_call : Type :=
  | StAppend (entries : list Entry)
  | StPurge (id : LogId)
  | StTruncate (id : LogId)
  | StCommitted (c : option LogId)
  | StVote (v : Vote).

Definition storage_step (call : storage_call) (s : LogStorage) (h : LogHeap) : Outcome LogHeap :=
  match call with
  | StAppend entries => '(_, h) ← storage_append entries s h; Done h
  | StPurge id => '(_, h) ← storage_purge id s h; Done h
  | StTruncate id => '(_, h) ← storage_truncate id s h; Done h
  | StCommitted c => '(_, h) ← storage_save_committed c s h; Done h
  | StVote v => '(_, h) ← storage_save_vote v s h; Done h
  end.

Fixpoint storage_run (calls : list (LogStorage * storage_call)) (h : LogHeap) : Outcome LogHeap :=
  match calls with
  | [] => Done h
  | (s, call) :: calls => h ← storage_step call s h; storage_run calls h
  end.

(** The same calls on the inner storage. *)
Definition inner_step (call : storage_call) (i : LogStorageInner) : Outcome LogStorageInner :=
  match call with
  | StAppend entries => log_run (OpAppend entries) i
  | StPurge id => log_run (OpPurge id) i
  | StTruncate id => log_run (OpTruncate id) i
  | StCommitted c => Done (save_committed c i)
  | StVote v => Done (save_vote v i)
  end.

Fixpoint inner_run (calls : list storage_call) (i : LogStorageInner) : Outcome LogStorageInner :=
  match calls with
  | [] => Done i
  | call :: calls => i ← inner_step call i; inner_run calls i
  end.

(** The calls made through the handles of one storage. *)
Definition calls_of (s : LogStorage) (calls : list (LogStorage * storage_call)) : list storage_call :=
  (filter (fun c => c.1 = s) calls).*2.

Lemma storage_step_inner call s h :
  storage_step call s h = (i ← expect (h !! inner s); i' ← inner_step call i; Done (<[inner s := i']> h)).
Proof.
  destruct call; cbn; unfold storage_append, storage_purge, storage_truncate, storage_save_committed, storage_save_vote,
    locked, writing; destruct (h !! inner s) as [i|]; cbn; try done.
  by destruct (purge id i).
Qed.

(** ** Properties *)

(** All handles of a storage are one log: whatever calls are made, through the
    storage openraft writes with, the readers it was given or the handles of other
    storages, in whatever order, the storage afterwards is what the calls made on
    it, and no others, make of its inner log; a reader reads exactly that. *)
Theorem storage_shares_log (calls : list (LogStorage * storage_call)) (s : LogStorage) (h h' : LogHeap)
    (i : LogStorageInner) (Hi : h !! inner s = Some i) (Hrun : storage_run calls h = Done h') :
  exists i', inner_run (calls_of s calls) i = Done i' /\ h' !! inner s = Some i' /\
    (forall lo hi, storage_try_get_log_entries lo hi (get_log_reader s) h' =
       entries ← try_get_log_entries lo hi i'; Done (entries, h')) /\
    storage_get_log_state s h' = Done (get_log_state i', h') /\
    storage_read_vote s h' = Done (vote i', h') /\ storage_read_committed s h' = Done (committed i', h').
Proof.
  revert h i Hi Hrun. induction calls as [|[t call] calls IH]; intros h i Hi Hrun; cbn [storage_run] in Hrun.
  - injection Hrun as <-. exists i. split; [done|]. split; [done|].
    unfold storage_try_get_log_entries, storage_get_log_state, storage_read_vote, storage_read_committed, locked, reading,
      get_log_reader. rewrite Hi. simpl. rewrite !(insert_id h (inner s) i) by done.
    split_and!; [|done..]. intros lo hi. destruct (try_get_log_entries lo hi i); simpl; by rewrite ?(insert_id h (inner s) i).
  - apply Outcome_bind_Done in Hrun as (h1 & Hs & Hrun). rewrite storage_step_inner in Hs. unfold calls_of.
    destruct (h !! inner t) as [it|] eqn:Ht; [|done]. cbn [expect mbind Outcome_bind] in Hs.
    apply Outcome_bind_Done in Hs as (it' & Hstep & Hs). injection Hs as <-. rewrite filter_cons. cbn [fst].
    destruct (decide (t = s)) as [->|Hne].
    + rewrite Ht in Hi. injection Hi as ->. destruct (IH (<[inner s := it']> h) it') as (i' & Hinner & Hrest);
        [apply lookup_insert_eq|done|]. exists i'. split; [|done]. cbn [fmap list_fmap inner_run snd].
      fold (calls_of s calls). by rewrite Hstep.
    + apply (IH (<[inner t := it']> h)); [|done].
      rewrite <-Hi. apply (lookup_insert_ne h). intros Heq. apply Hne. destruct t, s. cbn in Heq. by subst.
Qed.
End LogHandle.

Section LogHandleWitness.
Import SampleRaft.
#[local] Existing Instance sample_openraft_log.

Definition two_storages : LogHeap := <[0 := log_storage_new]> {[1 := log_storage_new]}.
Definition handle0 : LogStorage := mkLogHandle 0.
Definition handle1 : LogStorage := mkLogHandle 1.
Definition sample_calls : list (LogStorage * storage_call) :=
  [(handle0, StAppend [blank 0; blank 1]); (handle1, StAppend [blank 0]); (handle0, StPurge (sample_log_id 0));
   (handle0, StVote 4%N)].

Lemma two_storages_first : two_storages !! inner handle0 = Some log_storage_new.
Proof. reflexivity. Qed.

Lemma sample_calls_run :
  match storage_run sample_calls two_storages with Done _ => True | Panic | OutOfFuel => False end.
Proof. vm_compute. exact I. Qed.

Lemma storage_shares_log_witness :
  exists h' i', storage_run sample_calls two_storages = Done h' /\
    inner_run (calls_of handle0 sample_calls) log_storage_new = Done i' /\ h' !! inner handle0 = Some i' /\
    (forall lo hi, storage_try_get_log_entries lo hi (get_log_reader handle0) h' =
       entries ← try_get_log_entries lo hi i'; Done (entries, h')) /\
    storage_get_log_state handle0 h' = Done (get_log_state i', h') /\
    storage_read_vote handle0 h' = Done (vote i', h') /\ storage_read_committed handle0 h' = Done (committed i', h').
Proof.
  pose proof sample_calls_run as Hok. destruct (storage_run sample_calls two_storages) as [h'| |] eqn:Hrun; [|done..].
  destruct (storage_shares_log sample_calls handle0 two_storages h' log_storage_new two_storages_first Hrun) as (i' & Hi').
  exists h', i'. split; [reflexivity|exact Hi'].
Defined.
End LogHandleWitness.
