(* ===== verification/Edge.v ===== *)
(** * The edge protocol (model crate)

    [model/src/edge.rs]: what edge nodes ask of a cluster node and are told, and
    the builder of edge messages. *)

From S2P Require Import Prelude Ids Interest Message Proposal.

(** ** Messages from the edge *)

Record EdgeMessageHeader : Type := mkEdgeHeader {
  edge_ack_kind : MessageAckExpectKind;
  edge_target_kind : MessageTargetKind;
  edge_durability : option MessageDurableConfig;
  edge_subjects : list Subject;
  edge_topic : TopicCode;
}.

Record EdgeMessage : Type := mkEdgeMessage {
  edge_header : EdgeMessageHeader;
  edge_payload : list u8;
}.

(** [into_message_header] and [into_message] draw the id of the message; they
    return the thread's new counter too. *)
Section IntoMessage.
Context (timestamp executor_digest : Z).

Definition into_message_header (h : EdgeMessageHeader) (counter : Z) : (MessageHeader * TopicCode) * Z :=
  let '(id, counter) := message_id_new_snowflake timestamp executor_digest counter in
  ((mkHeader id (edge_ack_kind h) (edge_target_kind h) (edge_durability h) (edge_subjects h),
    edge_topic h), counter).

Definition into_message (m : EdgeMessage) (counter : Z) : (Message * TopicCode) * Z :=
  let '((header, topic), counter) := into_message_header (edge_header m) counter in
  ((message_new header (edge_payload m), topic), counter).
End IntoMessage.

Module EdgeMessageBuilder.
Record EdgeMessageBuilder : Type := mkBuilder {
  b_ack_kind : MessageAckExpectKind;
  b_target_kind : MessageTargetKind;
  b_durability : option MessageDurableConfig;
  b_subjects : list Subject;
  b_topic : TopicCode;
  b_payload : list u8;
}.

Definition edge_builder (topic_code : TopicCode) (subjects : list Subject) (payload : list u8) :
    EdgeMessageBuilder :=
  mkBuilder ExpectSent Push None subjects topic_code payload.

Definition edge_ack_kind (k : MessageAckExpectKind) (b : EdgeMessageBuilder) : EdgeMessageBuilder :=
  mkBuilder k (b_target_kind b) (b_durability b) (b_subjects b) (b_topic b) (b_payload b).
Definition edge_mode_durable (d : MessageDurableConfig) (b : EdgeMessageBuilder) : EdgeMessageBuilder :=
  mkBuilder (b_ack_kind b) Durable (Some d) (b_subjects b) (b_topic b) (b_payload b).
Definition edge_mode_online (b : EdgeMessageBuilder) : EdgeMessageBuilder :=
  mkBuilder (b_ack_kind b) Online (b_durability b) (b_subjects b) (b_topic b) (b_payload b).
Definition edge_mode_push (b : EdgeMessageBuilder) : EdgeMessageBuilder :=
  mkBuilder (b_ack_kind b) Push (b_durability b) (b_subjects b) (b_topic b) (b_payload b).
Definition with_subject (s : Subject) (b : EdgeMessageBuilder) : EdgeMessageBuilder :=
  mkBuilder (b_ack_kind b) (b_target_kind b) (b_durability b) (b_subjects b ++ [s]) (b_topic b) (b_payload b).

Definition edge_build (b : EdgeMessageBuilder) : EdgeMessage :=
  mkEdgeMessage
    (mkEdgeHeader (b_ack_kind b) (b_target_kind b) (b_durability b) (b_subjects b) (b_topic b))
    (b_payload b).
End EdgeMessageBuilder.

(** ** Requests, responses, errors *)

Record EdgeEndpointOnline : Type := mkEdgeOnline {
  edge_online_topic : TopicCode;
  edge_online_interests : list Interest;
}.
Record EdgeEndpointOffline : Type := mkEdgeOffline {
  edge_offline_topic : TopicCode;
  edge_offline_endpoint : EndpointAddr;
}.

Inductive EdgeRequestEnum : Type :=
  | ReqSendMessage (m : EdgeMessage)
  | ReqEndpointOnline (r : EdgeEndpointOnline)
  | ReqEndpointOffline (r : EdgeEndpointOffline)
  | ReqEndpointInterest (r : EndpointInterest)
  | ReqSetState (r : SetState).

Inductive EdgeErrorKind : Type :=
  | ErrDecode
  | ErrTopicNotFound
  | ErrEndpointNotFound
  | ErrUnauthorized
  | ErrInternal.

Definition edge_error_kind_u8 (k : EdgeErrorKind) : Z :=
  match k with
  | ErrDecode => 0x00
  | ErrTopicNotFound => 0x02
  | ErrEndpointNotFound => 0x03
  | ErrUnauthorized => 0x04
  | ErrInternal => 0xf0
  end.

Record EdgeError : Type := mkEdgeError {
  edge_error_context : string;
  edge_error_message : option string;
  edge_error_kind : EdgeErrorKind;
}.
Definition edge_error_new (context : string) (kind : EdgeErrorKind) : EdgeError :=
  mkEdgeError context None kind.
Definition edge_error_with_message (context message : string) (kind : EdgeErrorKind) : EdgeError :=
  mkEdgeError context (Some message) kind.

(** [EdgeResult] is [Result] with serde tags; [from_std] and [into_std] convert. *)
Inductive EdgeResult (T E : Type) : Type :=
  | EdgeOk (t : T)
  | EdgeErr (e : E).
Arguments EdgeOk {T E} t.
Arguments EdgeErr {T E} e.

Definition edge_result_from_std {T E} (r : Result T E) : EdgeResult T E :=
  match r with Ok t => EdgeOk t | Err e => EdgeErr e end.
Definition edge_result_into_std {T E} (r : EdgeResult T E) : Result T E :=
  match r with EdgeOk t => Ok t | EdgeErr e => Err e end.

Inductive EdgeResponseEnum : Type :=
  | RespSendMessage (r : EdgeResult WaitAckSuccess WaitAckError)
  | RespEndpointOnline (e : EndpointAddr)
  | RespEndpointOffline
  | RespEndpointInterest
  | RespSetState.

Record EdgeRequest : Type := mkEdgeRequest { request_seq_id : Z; request : EdgeRequestEnum }.
Record EdgeResponse : Type := mkEdgeResponse {
  response_seq_id : Z;
  response_of : EdgeResult EdgeResponseEnum EdgeError;
}.

Definition edge_response_from_result (id : Z) (r : Result EdgeResponseEnum EdgeError) : EdgeResponse :=
  mkEdgeResponse id (edge_result_from_std r).

Inductive EdgePush : Type :=
  | PushMessage (endpoints : list EndpointAddr) (message : Message).

Inductive EdgePayload : Type :=
  | PayloadPush (p : EdgePush)
  | PayloadResponse (r : EdgeResponse)
  | PayloadRequest (r : EdgeRequest)
  | PayloadError (e : EdgeError).
