(* ===== verification/Serde.v ===== *)
(** * Identifiers and texts in serialised form

    The hand-written [Serialize] and [Deserialize] of the model crate
    ([model/src/{message,node,endpoint,util,topic,interest}.rs]): what an id, a
    payload or a name is in a human-readable format (JSON) and in a binary one
    (bincode, CBOR), and what is read back.

    serde and the formats are third-party code: [SerdeCore] gives the values a
    format can carry and serde's own readers of them, with their documented laws. *)

From S2P Require Import Prelude Ids Interest.

(** ** UTF-8 *)

Definition between (lo hi : Z) (b : u8) : bool := (lo <=? byte_to_Z b)%Z && (byte_to_Z b <=? hi)%Z.
Definition continuation : u8 -> bool := between 128 191.

(** The byte sequences [str::from_utf8] accepts. *)
Fixpoint utf8_valid (bs : list u8) : bool :=
  match bs with
  | [] => true
  | b0 :: r0 =>
      if between 0 127 b0 then utf8_valid r0
      else match r0 with
           | [] => false
           | b1 :: r1 =>
               if between 194 223 b0 then continuation b1 && utf8_valid r1
               else match r1 with
                    | [] => false
                    | b2 :: r2 =>
                        if between 224 239 b0 then
                          between (if between 224 224 b0 then 160 else 128) (if between 237 237 b0 then 159 else 191) b1 &&
                          continuation b2 && utf8_valid r2
                        else match r2 with
                             | [] => false
                             | b3 :: r3 =>
                                 between 240 244 b0 &&
                                 between (if between 240 240 b0 then 144 else 128) (if between 244 244 b0 then 143 else 191) b1 &&
                                 continuation b2 && continuation b3 && utf8_valid r3
                             end
                    end
           end
  end.

(** [str::from_utf8_unchecked]: on other bytes the behaviour is undefined, which is
    [None] here. *)
Definition from_utf8_unchecked (bs : list u8) : option (list u8) :=
  if utf8_valid bs then Some bs else None.

(** ** serde *)

(** A reader is told whether it may keep a reference into the input ([lends]): a
    format that reads from a stream, or that had to unescape, cannot lend. *)
Class SerdeCore : Type := {
  Value : Type;
  SerdeError : Type;
  error_custom : DecodeError -> SerdeError;
  error_text : string -> SerdeError;
  ser_str : list u8 -> Value;
  ser_array : list u8 -> Value;
  ser_bytes : list u8 -> Value;
  de_str : bool -> Value -> Result (list u8) SerdeError;
  de_string : Value -> Result (list u8) SerdeError;
  de_array16 : Value -> Result (list u8) SerdeError;
  de_bytes : Value -> Result (list u8) SerdeError;
  de_str_lent s : de_str true (ser_str s) = Ok s;
  de_str_owned v : exists e, de_str false v = Err e;
  de_string_str s : de_string (ser_str s) = Ok s;
  de_array16_array bs : length bs = 16 -> de_array16 (ser_array bs) = Ok bs;
  de_bytes_bytes bs : de_bytes (ser_bytes bs) = Ok bs;
}.

(** [Serialize] and [Deserialize] of a type; the first argument is
    [is_human_readable]. [None] is undefined behaviour. *)
Class Serialize `{SerdeCore} (T : Type) : Type := serialize : bool -> T -> option Value.
Class Deserialize `{SerdeCore} (T : Type) : Type :=
  deserialize : bool -> bool -> Value -> Outcome (Result T SerdeError).

Section Impls.
Context `{SerdeCore, Base64Engine}.

(** [.map_err(D::Error::custom)] of a base64 conversion. *)
Definition map_custom {T E} (custom : E -> SerdeError) (m : Outcome (Result T E)) : Outcome (Result T SerdeError) :=
  r ← m; Done match r with Ok x => Ok x | Err e => Err (custom e) end.
Definition addr_custom (e : AddrError) : SerdeError :=
  match e with AddrDecode e => error_custom e | AddrText text => error_text text end.

(** [let s = ...::deserialize(deserializer)?; f(s)]. *)
Definition and_then {A T} (r : Result A SerdeError) (f : A -> Outcome (Result T SerdeError)) :
    Outcome (Result T SerdeError) :=
  match r with Ok a => f a | Err e => Done (Err e) end.

#[export] Instance message_id_serialize : Serialize MessageId := fun human i =>
  Some (if human then ser_str (message_id_to_base64 i) else ser_array (message_id_bytes i)).
#[export] Instance message_id_deserialize : Deserialize MessageId := fun human lends v =>
  if human then and_then (de_str lends v) (fun s => map_custom error_custom (message_id_from_base64 s))
  else and_then (de_array16 v) (fun bytes => Done (Ok (mkMessageId bytes))).

#[export] Instance node_id_serialize : Serialize NodeId := fun human i =>
  Some (if human then ser_str (node_id_to_base64 i) else ser_array (node_id_bytes i)).
#[export] Instance node_id_deserialize : Deserialize NodeId := fun human lends v =>
  if human then and_then (de_str lends v) (fun s => map_custom error_custom (node_id_from_base64 s))
  else and_then (de_array16 v) (fun bytes => Done (Ok (mkNodeId bytes))).

(** [EndpointAddr], whose text is read as a [String]. *)
#[export] Instance endpoint_serialize : Serialize EndpointAddr := fun human e =>
  Some (if human then ser_str (endpoint_addr_serialize e) else ser_array (endpoint_addr_bytes e)).
#[export] Instance endpoint_deserialize : Deserialize EndpointAddr := fun human _ v =>
  if human then and_then (de_string v) (fun s => map_custom addr_custom (endpoint_addr_deserialize s))
  else and_then (de_array16 v) (fun bytes => Done (Ok (mkEndpointAddr bytes))).

(** [MaybeBase64Bytes]: a message's payload. *)
Record MaybeBase64Bytes : Type := mkMaybeBase64 { maybe_base64_bytes : list u8 }.

#[export] Instance maybe_base64_serialize : Serialize MaybeBase64Bytes := fun human b =>
  Some (if human then ser_str (b64_encode (maybe_base64_bytes b)) else ser_bytes (maybe_base64_bytes b)).
#[export] Instance maybe_base64_deserialize : Deserialize MaybeBase64Bytes := fun human lends v =>
  if human then
    and_then (de_str lends v) (fun s =>
      match b64_decode s with
      | Some bytes => Done (Ok (mkMaybeBase64 bytes))
      | None => Done (Err (error_custom DecodeFailed))
      end)
  else and_then (de_bytes v) (fun bytes => Done (Ok (mkMaybeBase64 bytes))).

(** [TopicCode], [Subject] and [Interest]: a string in every format. *)
Definition text_serialize (bytes : list u8) : option Value := ser_str <$> from_utf8_unchecked bytes.
Definition text_deserialize {T} (make : list u8 -> T) (v : Value) : Outcome (Result T SerdeError) :=
  and_then (de_string v) (fun string => Done (Ok (make string))).

#[export] Instance topic_code_serialize : Serialize TopicCode := fun _ c => text_serialize (topic_code_bytes c).
#[export] Instance topic_code_deserialize : Deserialize TopicCode := fun _ _ => text_deserialize mkTopicCode.
#[export] Instance subject_serialize : Serialize Subject := fun _ s => text_serialize (subject_bytes s).
#[export] Instance subject_deserialize : Deserialize Subject := fun _ _ => text_deserialize mkSubject.
#[export] Instance interest_serialize : Serialize Interest := fun _ i => text_serialize (interest_bytes i).
#[export] Instance interest_deserialize : Deserialize Interest := fun _ _ => text_deserialize mkInterest.
End Impls.

(** ** Conversions *)

(** [From<Vec<u8>>] and [From<&[u8]>] of [TopicCode], [Subject::new] and
    [Interest::new]: any bytes. *)
Definition topic_code_from_bytes (val : list u8) : TopicCode := mkTopicCode val.
Definition subject_from_bytes (bytes : list u8) : Subject := mkSubject bytes.
Definition interest_from_bytes (bytes : list u8) : Interest := mkInterest bytes.
(** [Subject::as_str], [Display] and [AsRef]. *)
Definition subject_as_str (s : Subject) : option (list u8) := from_utf8_unchecked (subject_bytes s).

(** ** Facts *)

Section Facts.
Context `{SerdeCore, Base64Engine}.

(** What comes back from what was written, for the values [wf] of a type and,
    where the text is read as a borrowed one, only if the format lends. *)
Definition survives (T : Type) `{!Serialize T, !Deserialize T} (wf : T -> Prop) (borrows : bool) : Prop :=
  forall human lends x, wf x -> (human = true -> borrows = true -> lends = true) ->
    exists v, serialize human x = Some v /\ deserialize human lends v = Done (Ok x).

(** A text that is read as a borrowed one is never read where the format does not lend. *)
Definition needs_lending (T : Type) `{!Deserialize T} : Prop :=
  forall v, exists e, deserialize true false v = Done (Err e : Result T SerdeError).

Lemma node_id_base64_roundtrip (i : NodeId) :
  length (node_id_bytes i) = 16 -> node_id_from_base64 (node_id_to_base64 i) = Done (Ok i).
Proof.
  intros Hl. unfold node_id_from_base64, node_id_to_base64, copy_from_slice16.
  rewrite url_decode_encode, decide_True by done. by destruct i.
Qed.

Lemma endpoint_base64_roundtrip (e : EndpointAddr) :
  length (endpoint_addr_bytes e) = 16 -> endpoint_addr_deserialize (endpoint_addr_serialize e) = Done (Ok e).
Proof.
  intros Hl. unfold endpoint_addr_deserialize, endpoint_addr_serialize, copy_from_slice16.
  rewrite url_decode_encode, Hl. by destruct e.
Qed.

Lemma owned_text {T} (v : Value) (f : list u8 -> Outcome (Result T SerdeError)) :
  exists e, and_then (de_str false v) f = Done (Err e).
Proof. destruct (de_str_owned v) as [e ->]. by exists e. Qed.

Lemma text_survives {T} (bytes : T -> list u8) (make : list u8 -> T) (x : T) :
  make (bytes x) = x -> utf8_valid (bytes x) = true ->
  exists v, text_serialize (bytes x) = Some v /\ text_deserialize make v = Done (Ok x).
Proof.
  intros Hmake Hvalid. exists (ser_str (bytes x)). unfold text_serialize, text_deserialize, from_utf8_unchecked.
  rewrite Hvalid, de_string_str. cbn. by rewrite Hmake.
Qed.
End Facts.

(** ** Properties *)

Section SerdeProperties.
Context `{SerdeCore, Base64Engine}.

(** C38: What is sent is what is read.  In every format a 16-byte id, a payload and a
    name in UTF-8 come back as they were, a human-readable format having to lend
    its texts for message ids, node ids and payloads, which are read as borrowed
    ones; the others are read as owned ones. *)
Theorem serde_roundtrip :
  survives MessageId (fun i => length (message_id_bytes i) = 16) true /\
  survives NodeId (fun i => length (node_id_bytes i) = 16) true /\
  survives EndpointAddr (fun e => length (endpoint_addr_bytes e) = 16) false /\
  survives MaybeBase64Bytes (fun _ => True) true /\
  survives TopicCode (fun c => utf8_valid (topic_code_bytes c) = true) false /\
  survives Subject (fun s => utf8_valid (subject_bytes s) = true) false /\
  survives Interest (fun i => utf8_valid (interest_bytes i) = true) false.
Proof.
  repeat split.
  1,2,3: intros human lends x Hl Hlends; eexists; split; [reflexivity|];
    destruct human; cbn; [|rewrite de_array16_array by done; cbn; by destruct x].
  - rewrite (Hlends eq_refl eq_refl), de_str_lent. cbn.
    unfold message_id_to_base64. rewrite message_id_base64_roundtrip, decide_True by done. by destruct x.
  - rewrite (Hlends eq_refl eq_refl), de_str_lent. cbn. by rewrite node_id_base64_roundtrip.
  - rewrite de_string_str. cbn. by rewrite endpoint_base64_roundtrip.
  - intros human lends x _ Hlends; eexists; split; [reflexivity|]. destruct human; cbn.
    + rewrite (Hlends eq_refl eq_refl), de_str_lent. cbn. rewrite b64_decode_encode. by destruct x.
    + rewrite de_bytes_bytes. cbn. by destruct x.
  - intros human lends x Hx _. apply text_survives; [by destruct x|done].
  - intros human lends x Hx _. apply text_survives; [by destruct x|done].
  - intros human lends x Hx _. apply text_survives; [by destruct x|done].
Qed.

(** What is not read, or not even written.  From a human-readable format that does
    not lend its texts (it reads a stream, or goes through a tree of values) no
    message id, node id or payload can be read at all; a node id whose text
    decodes to another length than 16 panics the reader; and a code, subject or
    interest of bytes that are not UTF-8, which safe constructors accept, has
    undefined behaviour when it is written or shown. *)
Theorem serde_refuses (lends human : bool) (bs : list u8) :
  needs_lending MessageId /\ needs_lending NodeId /\ needs_lending MaybeBase64Bytes /\
  (length bs <> 16 -> deserialize (T := NodeId) true true (ser_str (url_encode bs)) = Panic) /\
  (utf8_valid bs = false ->
     serialize human (topic_code_from_bytes bs) = None /\ serialize human (subject_from_bytes bs) = None /\
     serialize human (interest_from_bytes bs) = None /\ subject_as_str (subject_from_bytes bs) = None).
Proof.
  split_and!; [intros v; apply owned_text..| |].
  - intros Hl. cbn. unfold node_id_deserialize. rewrite de_str_lent. cbn. unfold map_custom.
    by rewrite (proj2 (node_id_from_base64_panics bs) Hl).
  - intros Hbs. unfold serialize, topic_code_serialize, subject_serialize, interest_serialize, text_serialize,
      subject_as_str, from_utf8_unchecked. cbn. by rewrite Hbs.
Qed.
End SerdeProperties.

(** ** Witness *)

Section SerdeWitness.

(** A format of tagged byte strings, and an engine that marks what it encoded. *)
Inductive Tagged : Type :=
  | TaggedStr (s : list u8)
  | TaggedArray (bs : list u8)
  | TaggedBytes (bs : list u8).

#[local, refine] Instance tagged_format : SerdeCore := {|
  Value := Tagged;
  SerdeError := option DecodeError;
  error_custom := Some;
  error_text _ := None;
  ser_str := TaggedStr;
  ser_array := TaggedArray;
  ser_bytes := TaggedBytes;
  de_str lends v := match v with TaggedStr s => if (lends : bool) then Ok s else Err None | _ => Err None end;
  de_string v := match v with TaggedStr s => Ok s | _ => Err None end;
  de_array16 v := match v with TaggedArray bs => if length bs =? 16 then Ok bs else Err None | _ => Err None end;
  de_bytes v := match v with TaggedBytes bs => Ok bs | _ => Err None end;
|}.
Proof.
  all: try done.
  - intros []; by eexists.
  - intros bs ->. done.
Defined.

#[local, refine] Instance marked_engine : Base64Engine := {|
  b64_encode bs := x3d :: bs;
  b64_decode s := match s with x3d :: bs => Some bs | _ => None end;
  url_encode bs := x2d :: bs;
  url_decode s := match s with x2d :: bs => Some bs | _ => None end;
|}.
Proof. all: done. Defined.

Lemma serde_roundtrip_witness :
  survives EndpointAddr (fun e => length (endpoint_addr_bytes e) = 16) false /\
  exists v, serialize true (mkEndpointAddr (replicate 16 x2a)) = Some v /\
    deserialize true false v = Done (Ok (mkEndpointAddr (replicate 16 x2a))).
Proof.
  split; [apply serde_roundtrip|].
  apply serde_roundtrip; [reflexivity|discriminate].
Defined.

(** Two bytes of a longer sequence are no text. *)
Lemma serde_refuses_witness :
  let bs := [xe2; x82] in
  needs_lending MessageId /\ needs_lending NodeId /\ needs_lending MaybeBase64Bytes /\
  (length bs <> 16 -> deserialize (T := NodeId) true true (ser_str (url_encode bs)) = Panic) /\
  (utf8_valid bs = false ->
     serialize true (topic_code_from_bytes bs) = None /\ serialize true (subject_from_bytes bs) = None /\
     serialize true (interest_from_bytes bs) = None /\ subject_as_str (subject_from_bytes bs) = None).
Proof. apply (serde_refuses true true [xe2; x82]). Defined.
End SerdeWitness.

Example utf8_euro : utf8_valid [xe2; x82; xac] = true /\ utf8_valid [xe2; x82] = false /\
  utf8_valid [xc0; x80] = false /\ utf8_valid [xed; xa0; x80] = false /\ utf8_valid [xf0; x9f; x98; x80] = true.
Proof. vm_compute. done. Qed.
