(* ===== verification/Codec.v ===== *)
(** * Edge packets and codecs

    [model/src/codec.rs], [server/src/protocol/node/edge/{packet,codec}.rs]: the
    packets exchanged with edge nodes, and the registry of the codecs that turn
    payloads into their bytes.  The codecs themselves ([bincode], [serde_json],
    [ciborium]) are third-party code: a codec is a pair of functions. *)

From S2P Require Import Prelude Ids Interest Message Proposal Edge.

(** [CodecKind] is a transparent [u8]. *)
Record CodecKind : Type := mkCodecKind { codec_byte : u8 }.
#[export] Instance CodecKind_eq_dec : EqDecision CodecKind.
Proof. solve_decision. Defined.
#[export] Program Instance CodecKind_countable : Countable CodecKind :=
  inj_countable' codec_byte mkCodecKind _.
Next Obligation. by intros []. Qed.

Definition CBOR : CodecKind := mkCodecKind x00.
Definition BINCODE : CodecKind := mkCodecKind x01.
Definition JSON : CodecKind := mkCodecKind x40.

(** [Display]: two hexadecimal digits. *)
Definition codec_kind_display (k : CodecKind) : list u8 := Hex.hex [codec_byte k].

(** ** Packets (packet.rs) *)

Record EdgePacketHeader : Type := mkPacketHeader {
  packet_id : EdgePacketId;
  packet_codec : CodecKind;
}.
Record EdgePacket : Type := mkPacket {
  packet_header : EdgePacketHeader;
  packet_payload : list u8;
}.

(** [EdgePacket::new] draws a packet id. *)
Definition edge_packet_new (timestamp executor_digest : Z) (codec : CodecKind) (payload : list u8)
    (counter : Z) : EdgePacket * Z :=
  let '(id, counter) := edge_packet_id_new_snowflake timestamp executor_digest counter in
  (mkPacket (mkPacketHeader id codec) payload, counter).

(** ** Codecs (codec.rs) *)

Record CodecError : Type := mkCodecError { reason : string }.

Definition codec_error_display (e : CodecError) : string := ("codec error: " ++ reason e)%string.

(** [CodecError::decode_error], on the text of the codec's own error. *)
Definition decode_error (e : string) : CodecError := mkCodecError ("decode error: " ++ e)%string.

Definition unregistered_codec (kind : CodecKind) : CodecError :=
  mkCodecError ("unregistered codec: " ++ String.string_of_list_byte (codec_kind_display kind))%string.

Record Codec : Type := mkCodec {
  codec_encode : EdgePayload -> list u8;
  codec_decode : list u8 -> Result EdgePayload CodecError;
}.

Record CodecRegistry : Type := mkRegistry { registry : gmap CodecKind Codec }.

Definition registry_new_empty : CodecRegistry := mkRegistry ∅.

Definition registry_register (kind : CodecKind) (codec : Codec) (r : CodecRegistry) : CodecRegistry :=
  mkRegistry (<[kind := codec]> (registry r)).

(** The codecs of [codec/bincode.rs], [codec/cbor.rs] and [codec/json.rs]: the
    writer of a serde library, which does not fail on a payload, and its reader,
    whose error is told by its text. *)
Definition library_codec (to_bytes : EdgePayload -> list u8) (from_bytes : list u8 -> Result EdgePayload string) : Codec :=
  mkCodec to_bytes
    (fun bytes => match from_bytes bytes with Ok value => Ok value | Err e => Err (decode_error e) end).
Definition Bincode (serialize : EdgePayload -> list u8) (deserialize : list u8 -> Result EdgePayload string) : Codec :=
  library_codec serialize deserialize.
Definition Cbor (into_writer : EdgePayload -> list u8) (from_reader : list u8 -> Result EdgePayload string) : Codec :=
  library_codec into_writer from_reader.
Definition Json (to_vec : EdgePayload -> list u8) (from_slice : list u8 -> Result EdgePayload string) : Codec :=
  library_codec to_vec from_slice.

(** [new_preloaded]: the CBOR codec comes with the [cbor] feature. *)
Definition registry_new_preloaded (cbor_feature : bool) (cbor bincode json : Codec) : CodecRegistry :=
  let r := registry_new_empty in
  let r := if cbor_feature then registry_register CBOR cbor r else r in
  let r := registry_register BINCODE bincode r in
  registry_register JSON json r.

Definition registry_get (kind : CodecKind) (r : CodecRegistry) : option Codec := registry r !! kind.

(** [pick_preferred_codec]: the first registered kind in the iteration of the set. *)
Definition pick_preferred_codec `{HashOrder} (supported : gset CodecKind) (r : CodecRegistry) : option CodecKind :=
  find (fun kind => bool_decide (is_Some (registry r !! kind))) (hs_iter supported).

Definition registry_encode (kind : CodecKind) (value : EdgePayload) (r : CodecRegistry) :
    Result (list u8) CodecError :=
  match registry r !! kind with
  | None => Err (unregistered_codec kind)
  | Some codec => Ok (codec_encode codec value)
  end.

Definition registry_decode (kind : CodecKind) (bytes : list u8) (r : CodecRegistry) :
    Result EdgePayload CodecError :=
  match registry r !! kind with
  | None => Err (unregistered_codec kind)
  | Some codec => codec_decode codec bytes
  end.

(** ** Errors of a connection (connection.rs)

    Over the I/O errors of the transport; a boxed error is known by its text. *)
Inductive NodeConnectionErrorKind (IO : Type) : Type :=
  | ConnIo (e : IO)
  | ConnUnderlying (e : string)
  | ConnCodec (e : CodecError)
  | ConnClosed
  | ConnTimeout
  | ConnProtocol
  | ConnExisted.
Arguments ConnIo {IO} e.
Arguments ConnUnderlying {IO} e.
Arguments ConnCodec {IO} e.
Arguments ConnClosed {IO}.
Arguments ConnTimeout {IO}.
Arguments ConnProtocol {IO}.
Arguments ConnExisted {IO}.

Record NodeConnectionError (IO : Type) : Type := mkConnectionError {
  error_kind : NodeConnectionErrorKind IO;
  error_context : string;
}.
Arguments mkConnectionError {IO} error_kind error_context.
Arguments error_kind {IO} n.
Arguments error_context {IO} n.

(** ** Properties *)

(** What a library reads back as it wrote it, a preloaded registry does too, under
    each of its kinds and no other. *)
Lemma preloaded_roundtrip cbor_feature cbor bincode json kind value :
  (forall codec, codec = cbor \/ codec = bincode \/ codec = json -> codec_decode codec (codec_encode codec value) = Ok value) ->
  let r := registry_new_preloaded cbor_feature cbor bincode json in
  if decide (kind = JSON \/ kind = BINCODE \/ (cbor_feature = true /\ kind = CBOR)) then
    exists bytes, registry_encode kind value r = Ok bytes /\ registry_decode kind bytes r = Ok value
  else registry_encode kind value r = Err (unregistered_codec kind) /\
    forall bytes, registry_decode kind bytes r = Err (unregistered_codec kind).
Proof.
  intros Hlib r. assert (registry r !! kind = if decide (kind = JSON) then Some json else if decide (kind = BINCODE) then Some bincode
    else if decide (cbor_feature = true /\ kind = CBOR) then Some cbor else None) as Hr.
  { unfold r, registry_new_preloaded, registry_register, registry_new_empty. cbn [registry].
    destruct (decide (kind = JSON)) as [->|]; [apply lookup_insert_eq|]. rewrite lookup_insert_ne by done.
    destruct (decide (kind = BINCODE)) as [->|]; [apply lookup_insert_eq|]. rewrite lookup_insert_ne by done.
    destruct cbor_feature; cbn; [|rewrite decide_False by (intros [? ?]; done); apply lookup_empty].
    destruct (decide (kind = CBOR)) as [->|]; [rewrite decide_True by done; apply lookup_insert_eq|].
    rewrite decide_False, lookup_insert_ne by (intuition congruence). apply lookup_empty. }
  unfold registry_encode, registry_decode. rewrite Hr.
  repeat case_decide; try (intuition congruence); eexists; (split; [done|]); apply Hlib; auto.
Qed.

Section CodecProperties.
Context `{HashOrder}.

(** The codec picked for a connection is one the peer supports and the node
    has, so that payloads encoded on the connection are never refused as
    unregistered and decode again if the codec is faithful; none is picked only
    when the peer and the node have no codec in common. *)
Theorem pick_preferred_codec_sound (supported : gset CodecKind) (r : CodecRegistry) :
  match pick_preferred_codec supported r with
  | Some kind => kind ∈ supported /\ exists codec, registry_get kind r = Some codec /\
      forall value, registry_encode kind value r = Ok (codec_encode codec value) /\
        (codec_decode codec (codec_encode codec value) = Ok value ->
         registry_decode kind (codec_encode codec value) r = Ok value)
  | None => forall kind, kind ∈ supported -> registry_get kind r = None
  end.
Proof.
  unfold pick_preferred_codec.
  destruct (find (fun kind => bool_decide (is_Some (registry r !! kind))) (hs_iter supported)) as [kind|] eqn:Hf.
  - apply find_some in Hf as [Hin [codec Hc]%bool_decide_eq_true]. apply list_elem_of_In, elem_of_hs_iter in Hin.
    split; [done|]. exists codec. split; [done|]. intros value.
    unfold registry_encode, registry_decode. by rewrite Hc.
  - intros kind Hin%elem_of_hs_iter%list_elem_of_In. pose proof (find_none _ _ Hf kind Hin) as Hn.
    apply bool_decide_eq_false in Hn. by apply eq_None_not_Some.
Qed.
End CodecProperties.
