(* ===== verification/Tcp.v ===== *)
(** * The TCP transport of an edge connection

    [server/src/protocol/node/edge/connection/tokio_tcp.rs]: [TokioTcp] frames edge
    packets on a byte stream, as a reader ([poll_next]) and a writer ([start_send],
    [poll_flush]) that keep their place between polls.  The socket is tokio's: the
    class [Socket] states what its documentation promises of a poll. *)

From S2P Require Import Prelude Ids Interest Message Proposal Edge Codec.

(** ** The socket

    [incoming] is everything the peer will have sent and this side has not read
    yet, [outgoing] everything the socket has accepted.  A read into a buffer of
    [n] bytes yields a prefix of what is coming, empty only at the end of the
    stream or for an empty buffer; a write accepts a prefix of the buffer, and
    something of it unless it is empty.  Asking whether it is ready and shutting it
    down moves no byte. *)
Class Socket : Type := {
  sock : Type;
  io_error : Type;
  incoming : sock -> list u8;
  outgoing : sock -> list u8;
  poll_read : nat -> sock -> Poll (Result (list u8) io_error) * sock;
  poll_write : list u8 -> sock -> Poll (Result nat io_error) * sock;
  poll_write_ready : sock -> Poll (Result () io_error) * sock;
  poll_shutdown : sock -> Poll (Result () io_error) * sock;
  poll_write_ready_spec : forall s, let s' := snd (poll_write_ready s) in
    incoming s' = incoming s /\ outgoing s' = outgoing s;
  poll_shutdown_spec : forall s, let s' := snd (poll_shutdown s) in
    incoming s' = incoming s /\ outgoing s' = outgoing s;
  poll_read_spec : forall n s, match poll_read n s with
    | (Ready (Ok bs), s') => length bs <= n /\ incoming s = bs ++ incoming s' /\ outgoing s' = outgoing s /\
        (0 < n -> bs = [] -> incoming s = [])
    | (_, s') => incoming s' = incoming s /\ outgoing s' = outgoing s
    end;
  poll_write_spec : forall bs s, match poll_write bs s with
    | (Ready (Ok k), s') => k <= length bs /\ outgoing s' = outgoing s ++ take k bs /\ incoming s' = incoming s /\
        (bs <> [] -> 0 < k)
    | (_, s') => incoming s' = incoming s /\ outgoing s' = outgoing s
    end;
}.

Inductive ReadState : Type := ExpectingHeader | ExpectingPayload.
Inductive WriteState : Type := WriteReady | WritingHeader | WritingPayload.

(** [size_of::<EdgePacketHeader>()]: 16 bytes of identifier and one of codec. *)
Definition HEADER_SIZE : nat := 17.
Definition EXTENDED_HEADER_SIZE : nat := HEADER_SIZE + 4.

Section Tcp.
Context `{Socket}.
(** What a byte of freshly reserved memory holds. *)
Context (uninit : nat -> u8).

Abbreviation TcpError := (NodeConnectionError io_error).
Definition io_failure (e : io_error) (context : string) : TcpError := mkConnectionError (ConnIo e) context.

Record TokioTcp : Type := mkTcp {
  inner : sock;
  read_state : ReadState;
  read_header_buf : list u8;
  read_payload_size : Z;
  read_payload_buf : list u8;
  read_index : nat;
  read_header : option EdgePacketHeader;
  write_item : option EdgePacket;
  write_header_buf : list u8;
  write_payload_buf : list u8;
  write_state : WriteState;
  write_index : nat;
}.

Definition tcp_new (s : sock) : TokioTcp :=
  mkTcp s ExpectingHeader (replicate EXTENDED_HEADER_SIZE x00) 0 [] 0 None
    None (replicate EXTENDED_HEADER_SIZE x00) [] WriteReady 0.

(** The reader's half and the writer's half of an update. *)
Definition set_read (s : sock) (st : ReadState) (hb : list u8) (size : Z) (pb : list u8) (idx : nat)
    (h : option EdgePacketHeader) (t : TokioTcp) : TokioTcp :=
  mkTcp s st hb size pb idx h (write_item t) (write_header_buf t) (write_payload_buf t) (write_state t) (write_index t).
Definition set_write (s : sock) (hb pb : list u8) (st : WriteState) (idx : nat) (t : TokioTcp) : TokioTcp :=
  mkTcp s (read_state t) (read_header_buf t) (read_payload_size t) (read_payload_buf t) (read_index t) (read_header t)
    (write_item t) hb pb st idx.

(** A [ReadBuf] over [buf[idx..]] filled with [bs]. *)
Definition fill (idx : nat) (bs buf : list u8) : list u8 :=
  take idx buf ++ bs ++ drop (idx + length bs) buf.

(** [buf[a..b].copy_from_slice(src)]: it panics unless the lengths agree. *)
Definition copy_from_slice (a b : nat) (src buf : list u8) : Outcome (list u8) :=
  if decide (length src = b - a /\ b <= length buf) then Done (take a buf ++ src ++ drop b buf) else Panic.

(** [reserve(n)] and [set_len(n)] on a [BytesMut]. *)
Definition set_len (n : nat) (buf : list u8) : list u8 := take n (buf ++ (uninit <$> seq 0 n)).

(** An iteration of a polling loop goes on, or returns from the poll. *)
Inductive Step (R : Type) : Type :=
  | Again (t : TokioTcp)
  | Return (r : R) (t : TokioTcp).
Arguments Again {R} t.
Arguments Return {R} r t.

Definition ReadResult : Type := Poll (option (Result EdgePacket TcpError)).

(** ** Reading: [Stream::poll_next] *)

(** The [ExpectingHeader] arm. *)
Definition read_header_step (t : TokioTcp) : Outcome (Step ReadResult) :=
  let hb := read_header_buf t in
  let idx := read_index t in
  if decide (idx <= length hb) then
    let '(r, s) := poll_read (length hb - idx) (inner t) in
    let keep := set_read s ExpectingHeader hb (read_payload_size t) (read_payload_buf t) idx (read_header t) t in
    match r with
    | Pending => Done (Return Pending keep)
    | Ready (Err e) => Done (Return (Ready (Some (Err (io_failure e "failed to read header")))) keep)
    | Ready (Ok bs) =>
        let hb := fill idx bs hb in
        let remaining := length hb - idx - length bs in
        if decide (remaining = 0) then
          let id := mkEdgePacketId (slice 0 16 hb) in
          codec ← expect (hb !! 16);
          let payload_size := from_be_bytes (slice 17 21 hb) in
          let header := mkPacketHeader id (mkCodecKind codec) in
          Done (Again (set_read s ExpectingPayload hb payload_size
                         (set_len (Z.to_nat payload_size) (read_payload_buf t)) 0 (Some header) t))
        else
          Done (Again (set_read s ExpectingHeader hb (read_payload_size t) (read_payload_buf t)
                         (EXTENDED_HEADER_SIZE - remaining) (read_header t) t))
    end
  else Panic.

(** The [ExpectingPayload] arm. *)
Definition read_payload_step (t : TokioTcp) : Outcome (Step ReadResult) :=
  let payload_size := Z.to_nat (read_payload_size t) in
  let pb := read_payload_buf t in
  let idx := read_index t in
  if decide (payload_size = 0) then
    header ← expect (read_header t);
    Done (Return (Ready (Some (Ok (mkPacket header []))))
            (set_read (inner t) ExpectingHeader (read_header_buf t) (read_payload_size t) pb idx None t))
  else if decide (idx <= length pb) then
    let '(r, s) := poll_read (length pb - idx) (inner t) in
    let keep := set_read s ExpectingPayload (read_header_buf t) (read_payload_size t) pb idx (read_header t) t in
    match r with
    | Pending => Done (Return Pending keep)
    | Ready (Err e) => Done (Return (Ready (Some (Err (io_failure e "failed to read payload")))) keep)
    | Ready (Ok bs) =>
        let pb := fill idx bs pb in
        let remain := length pb - idx - length bs in
        if decide (remain = 0) then
          header ← expect (read_header t);
          Done (Return (Ready (Some (Ok (mkPacket header pb))))
                  (set_read s ExpectingHeader (read_header_buf t) (read_payload_size t) [] 0 None t))
        else
          Done (Again (set_read s ExpectingPayload (read_header_buf t) (read_payload_size t) pb
                         (payload_size - remain) (read_header t) t))
    end
  else Panic.

Definition read_step (t : TokioTcp) : Outcome (Step ReadResult) :=
  match read_state t with
  | ExpectingHeader => read_header_step t
  | ExpectingPayload => read_payload_step t
  end.

Fixpoint poll_next (fuel : nat) (t : TokioTcp) : Outcome (ReadResult * TokioTcp) :=
  match fuel with
  | 0 => OutOfFuel
  | S fuel =>
      step ← read_step t;
      match step with
      | Again t => poll_next fuel t
      | Return r t => Done (r, t)
      end
  end.

(** ** Writing: [Sink] *)

(** [poll_ready] and [poll_close]. *)
Definition io_result (context : string) (r : Poll (Result () io_error)) : Poll (Result () TcpError) :=
  match r with
  | Pending => Pending
  | Ready (Ok _) => Ready (Ok ())
  | Ready (Err e) => Ready (Err (io_failure e context))
  end.
Definition poll_ready (t : TokioTcp) : Poll (Result () TcpError) * TokioTcp :=
  let '(r, s) := poll_write_ready (inner t) in
  (io_result "failed to poll ready" r,
   set_write s (write_header_buf t) (write_payload_buf t) (write_state t) (write_index t) t).
Definition poll_close (t : TokioTcp) : Poll (Result () TcpError) * TokioTcp :=
  let '(r, s) := poll_shutdown (inner t) in
  (io_result "failed to shutdown" r,
   set_write s (write_header_buf t) (write_payload_buf t) (write_state t) (write_index t) t).

(** [start_send]: [payload.len()] is a [usize], whose [to_be_bytes] has eight bytes. *)
Definition start_send (item : EdgePacket) (t : TokioTcp) : Outcome TokioTcp :=
  let header := packet_header item in
  hb ← copy_from_slice 0 16 (edge_packet_id_bytes (packet_id header)) (write_header_buf t);
  let hb := <[16 := codec_byte (packet_codec header)]> hb in
  hb ← copy_from_slice 17 21 (to_be_bytes 8 (Z.of_nat (length (packet_payload item)))) hb;
  Done (set_write (inner t) hb (packet_payload item) (write_state t) (write_index t) t).

Definition WriteResult : Type := Poll (Result () TcpError).

(** The arm of [poll_flush] for a buffer being written: [buf[index..]] is offered to
    the socket, until the index is [size]. *)
Definition write_buf_step (buf : list u8) (size : nat) (context : string) (st : WriteState) (t : TokioTcp)
    (full : sock -> Outcome (Step WriteResult)) : Outcome (Step WriteResult) :=
  let idx := write_index t in
  if decide (idx <= length buf) then
    let '(r, s) := poll_write (drop idx buf) (inner t) in
    let keep := set_write s (write_header_buf t) (write_payload_buf t) st idx t in
    match r with
    | Pending => Done (Return Pending keep)
    | Ready (Err e) => Done (Return (Ready (Err (io_failure e context))) keep)
    | Ready (Ok written) =>
        if decide (idx + written = size) then full s
        else Done (Again (set_write s (write_header_buf t) (write_payload_buf t) st (idx + written) t))
    end
  else Panic.

Definition write_step (t : TokioTcp) : Outcome (Step WriteResult) :=
  let hb := write_header_buf t in
  let pb := write_payload_buf t in
  match write_state t with
  | WriteReady => Done (Again (set_write (inner t) hb pb WritingHeader (write_index t) t))
  | WritingHeader =>
      write_buf_step hb EXTENDED_HEADER_SIZE "failed to write header" WritingHeader t
        (fun s => Done (Again (set_write s hb pb WritingPayload 0 t)))
  | WritingPayload =>
      write_buf_step pb (length pb) "failed to write payload" WritingPayload t
        (fun s => Done (Return (Ready (Ok ())) (set_write s hb pb WriteReady 0 t)))
  end.

Fixpoint poll_flush (fuel : nat) (t : TokioTcp) : Outcome (WriteResult * TokioTcp) :=
  match fuel with
  | 0 => OutOfFuel
  | S fuel =>
      step ← write_step t;
      match step with
      | Again t => poll_flush fuel t
      | Return r t => Done (r, t)
      end
  end.
End Tcp.
Arguments Again {_ R} t.
Arguments Return {_ R} r t.

(** ** Frames *)

(** The bytes of a packet on the wire. *)
Definition frame (p : EdgePacket) : list u8 :=
  edge_packet_id_bytes (packet_id (packet_header p)) ++ [codec_byte (packet_codec (packet_header p))] ++
  to_be_bytes 4 (Z.of_nat (length (packet_payload p))) ++ packet_payload p.

(** A packet the frame can carry: an identifier has 16 bytes, a length four. *)
Definition frame_ok (p : EdgePacket) : Prop :=
  length (edge_packet_id_bytes (packet_id (packet_header p))) = 16 /\
  (Z.of_nat (length (packet_payload p)) < 2 ^ 32)%Z.

Lemma frame_inj p q a b : frame_ok p -> frame_ok q -> frame p ++ a = frame q ++ b -> p = q /\ a = b.
Proof.
  destruct p as [[[i] [c]] x], q as [[[j] [d]] y]. unfold frame_ok, frame.
  cbn [packet_header packet_id packet_codec packet_payload edge_packet_id_bytes codec_byte].
  intros [Hi Hx] [Hj Hy] Heq. rewrite <-!app_assoc in Heq.
  apply app_inj_length in Heq as [-> Heq]; [|congruence]. apply app_inj_length in Heq as [[= ->] Heq]; [|done].
  apply app_inj_length in Heq as [Hl Heq]; [|by rewrite !length_to_be_bytes].
  apply to_be_bytes_inj in Hl; [|lia..]. apply app_inj_length in Heq as [-> ->]; [done|lia].
Qed.

(** A full header buffer, split as [poll_next] splits it. *)
Lemma header_split (hb : list u8) : length hb = EXTENDED_HEADER_SIZE ->
  exists codec, hb !! 16 = Some codec /\ hb = slice 0 16 hb ++ [codec] ++ slice 17 21 hb /\
    length (slice 0 16 hb) = 16 /\ length (slice 17 21 hb) = 4.
Proof.
  unfold EXTENDED_HEADER_SIZE, HEADER_SIZE. intros Hl.
  destruct (lookup_lt_is_Some_2 hb 16) as [codec Hc]; [lia|]. exists codec. unfold slice.
  rewrite drop_0, !length_take, length_drop. split_and!; [done| |lia..].
  rewrite <-(take_drop_middle hb 16 codec Hc) at 1. f_equal. cbn. f_equal.
  symmetry. apply take_ge. rewrite length_drop. lia.
Qed.

Section ReaderFacts.
Context `{Socket} (uninit : nat -> u8).
Implicit Type t : TokioTcp.

(** The bytes read and not delivered yet, and all the reader has before it. *)
Definition received t : list u8 :=
  match read_state t with
  | ExpectingHeader => take (read_index t) (read_header_buf t)
  | ExpectingPayload => read_header_buf t ++ take (read_index t) (read_payload_buf t)
  end.
Definition stream t : list u8 := received t ++ incoming (inner t).

Record reader_wf t : Prop := mkReaderWf {
  rwf_header : length (read_header_buf t) = EXTENDED_HEADER_SIZE;
  rwf_index : read_state t = ExpectingHeader -> read_index t < EXTENDED_HEADER_SIZE;
  rwf_payload : read_state t = ExpectingPayload ->
    let hb := read_header_buf t in
    (exists codec, hb !! 16 = Some codec /\
       read_header t = Some (mkPacketHeader (mkEdgePacketId (slice 0 16 hb)) (mkCodecKind codec))) /\
    read_payload_size t = from_be_bytes (slice 17 21 hb) /\
    length (read_payload_buf t) = Z.to_nat (read_payload_size t) /\
    (read_index t < length (read_payload_buf t) \/ read_index t = 0);
}.

Lemma length_set_len n buf : length (set_len uninit n buf) = n.
Proof. unfold set_len. rewrite length_take, length_app, length_fmap, length_seq. lia. Qed.

Lemma length_fill idx bs buf : idx + length bs <= length buf -> length (fill idx bs buf) = length buf.
Proof. intros ?. unfold fill. rewrite !length_app, length_take, length_drop. lia. Qed.

Lemma take_fill idx bs buf : idx <= length buf -> take (idx + length bs) (fill idx bs buf) = take idx buf ++ bs.
Proof.
  intros ?. unfold fill. rewrite app_assoc, take_app_length'; [done|]. rewrite length_app, length_take. lia.
Qed.

Lemma payload_frame hb codec (x : list u8) : length hb = EXTENDED_HEADER_SIZE -> hb !! 16 = Some codec ->
  length x = Z.to_nat (from_be_bytes (slice 17 21 hb)) ->
  let p := mkPacket (mkPacketHeader (mkEdgePacketId (slice 0 16 hb)) (mkCodecKind codec)) x in
  frame_ok p /\ frame p = hb ++ x.
Proof.
  intros Hl Hc Hx p. destruct (header_split hb Hl) as (codec' & Hc' & Hhb & Hi & Hs).
  assert (codec' = codec) as -> by congruence. subst p. unfold frame_ok, frame.
  cbn [packet_header packet_id packet_codec packet_payload edge_packet_id_bytes codec_byte].
  pose proof (from_be_bytes_range (slice 17 21 hb)) as Hr. rewrite Hs in Hr. rewrite Hx, Z2Nat.id by lia.
  pose proof (to_from_be_bytes (slice 17 21 hb)) as He. rewrite Hs in He. rewrite He.
  split; [split; [done|lia]|]. transitivity ((slice 0 16 hb ++ [codec] ++ slice 17 21 hb) ++ x);
    [by rewrite <-!app_assoc|by rewrite <-Hhb].
Qed.

(** What an iteration of the reader does: it goes on with some of what is coming
    moved to its buffers, returns with nothing changed, or returns the packet
    whose frame comes first. *)
Definition step_kept t t' : Prop :=
  reader_wf t' /\ stream t' = stream t /\ outgoing (inner t') = outgoing (inner t).

Definition read_step_ok t (o : Outcome (Step ReadResult)) : Prop :=
  match o with
  | Done (Again t') => step_kept t t' /\
      (length (incoming (inner t')) < length (incoming (inner t)) \/ incoming (inner t) = [])
  | Done (Return (Ready (Some (Ok p))) t') =>
      frame_ok p /\ stream t = frame p ++ stream t' /\ reader_wf t' /\ outgoing (inner t') = outgoing (inner t)
  | Done (Return (Ready None) _) => False
  | Done (Return _ t') => step_kept t t'
  | _ => False
  end.

Lemma read_progress (n : nat) (bs more : list u8) :
  0 < n -> (0 < n -> bs = [] -> bs ++ more = []) -> length more < length (bs ++ more) \/ bs ++ more = [].
Proof. intros ? Hb. destruct bs; [right; by apply Hb|left; rewrite length_app; cbn; lia]. Qed.

Lemma read_header_step_ok t : reader_wf t -> read_state t = ExpectingHeader -> read_step_ok t (read_header_step uninit t).
Proof.
  intros [Hh Hi _] Hst. specialize (Hi Hst). unfold read_header_step. rewrite decide_True by lia.
  pose proof (poll_read_spec (length (read_header_buf t) - read_index t) (inner t)) as Hr.
  assert (stream t = take (read_index t) (read_header_buf t) ++ incoming (inner t)) as Hstream
    by (unfold stream, received; by rewrite Hst).
  destruct (poll_read _ _) as [[[bs|e]|] s]; cbn [mbind Outcome_bind].
  2, 3: cbn; unfold step_kept, stream, received; cbn; rewrite Hst; destruct Hr as [-> ->];
    (split_and!; [by split|done..]).
  destruct Hr as (Hlen & Hin & Hout & Heof). rewrite Hin in Hstream. rewrite length_fill by lia.
  assert (take (read_index t + length bs) (fill (read_index t) bs (read_header_buf t)) =
    take (read_index t) (read_header_buf t) ++ bs) as Htake by (apply take_fill; lia).
  case_decide as Hrem.
  - destruct (header_split (fill (read_index t) bs (read_header_buf t))) as (codec & Hc & _ & _ & Hs);
      [rewrite length_fill by lia; done|]. rewrite Hc. cbn [expect mbind Outcome_bind].
    rewrite take_ge in Htake by (rewrite length_fill by lia; lia). split.
    + unfold step_kept. rewrite Hstream. unfold stream, received. cbn [set_read inner read_state read_header_buf
        read_index read_payload_buf]. rewrite take_0, app_nil_r, Htake, <-app_assoc. split_and!; [|done|done].
      split; cbn; [by rewrite <-Htake, length_fill by lia|done|]. intros _. rewrite <-Htake.
      split_and!; [by exists codec|done|apply length_set_len|by right].
    + cbn. rewrite Hin. rewrite Hin in Heof. apply (read_progress (length (read_header_buf t) - read_index t)); [lia|exact Heof].
  - split.
    + unfold step_kept. rewrite Hstream. unfold stream, received. cbn [set_read inner read_state read_header_buf
        read_index read_payload_buf].
      replace (EXTENDED_HEADER_SIZE - _) with (read_index t + length bs) by lia.
      rewrite Htake, <-app_assoc. split_and!; [|done|done].
      split; cbn -[EXTENDED_HEADER_SIZE]; [by rewrite length_fill by lia|lia|done].
    + cbn. rewrite Hin. rewrite Hin in Heof. apply (read_progress (length (read_header_buf t) - read_index t)); [lia|exact Heof].
Qed.

Lemma read_payload_step_ok t : reader_wf t -> read_state t = ExpectingPayload -> read_step_ok t (read_payload_step t).
Proof.
  intros [Hh _ Hp] Hst. destruct (Hp Hst) as ((codec & Hc & Hhdr) & Hsize & Hpl & Hi). clear Hp.
  assert (stream t = read_header_buf t ++ take (read_index t) (read_payload_buf t) ++ incoming (inner t)) as Hstream
    by (unfold stream, received; rewrite Hst; by rewrite <-app_assoc).
  unfold read_payload_step. case_decide as Hz.
  - rewrite Hhdr. cbn [expect mbind Outcome_bind read_step_ok].
    destruct (payload_frame (read_header_buf t) codec []) as [Hok Hf]; [done|done|by rewrite <-Hsize, Hz|].
    split_and!; [done| |split; cbn; [done|lia|done]|done].
    rewrite Hf, Hstream, app_nil_r. unfold stream, received. cbn. f_equal.
    rewrite (nil_length_inv (read_payload_buf t)) by congruence. rewrite take_nil. cbn.
    assert (read_index t = 0) as -> by lia. done.
  - rewrite decide_True by lia.
    pose proof (poll_read_spec (length (read_payload_buf t) - read_index t) (inner t)) as Hr.
    destruct (poll_read _ _) as [[[bs|e]|] s]; cbn [mbind Outcome_bind].
    2, 3: cbn; unfold step_kept; rewrite Hstream; unfold stream, received; cbn; destruct Hr as [-> ->];
      (split_and!; [split; cbn; [done|done|intros _; split_and!; eauto]|by rewrite <-app_assoc|done]).
    destruct Hr as (Hlen & Hin & Hout & Heof). rewrite Hin in Hstream. rewrite length_fill by lia.
    assert (take (read_index t + length bs) (fill (read_index t) bs (read_payload_buf t)) =
      take (read_index t) (read_payload_buf t) ++ bs) as Htake by (apply take_fill; lia).
    case_decide as Hrem.
    + rewrite Hhdr. cbn [expect mbind Outcome_bind read_step_ok].
      rewrite take_ge in Htake by (rewrite length_fill by lia; lia).
      destruct (payload_frame (read_header_buf t) codec (fill (read_index t) bs (read_payload_buf t))) as [Hok Hf];
        [done|done|rewrite length_fill by lia; congruence|].
      split_and!; [done| |by split; cbn; [|lia|]|done].
      rewrite Hf, Hstream, Htake. unfold stream, received. cbn. by rewrite <-!app_assoc.
    + split.
      * unfold step_kept. rewrite Hstream. unfold stream, received. cbn [set_read inner read_state read_header_buf
          read_index read_payload_buf]. rewrite <-Hpl.
        replace (length _ - _) with (read_index t + length bs) by lia.
        rewrite Htake, <-!app_assoc. split_and!; [|done|done].
        split; cbn; [done|done|]. intros _. rewrite length_fill by lia. split_and!; [eauto|done|done|left; lia].
      * cbn. rewrite Hin. rewrite Hin in Heof. apply (read_progress (length (read_payload_buf t) - read_index t)); [lia|exact Heof].
Qed.

Lemma read_step_spec t : reader_wf t -> read_step_ok t (read_step uninit t).
Proof.
  intros Hwf. unfold read_step. destruct (read_state t) eqn:Hst;
    [by apply read_header_step_ok|by apply read_payload_step_ok].
Qed.
End ReaderFacts.

(** ** Progress of the reader *)

Section ReaderProgress.
Context `{Socket} (uninit : nat -> u8).
Implicit Type t : TokioTcp.

Lemma frame_header p (hb x rest : list u8) : frame_ok p -> length hb = EXTENDED_HEADER_SIZE ->
  hb ++ x = frame p ++ rest ->
  from_be_bytes (slice 17 21 hb) = Z.of_nat (length (packet_payload p)) /\ x = packet_payload p ++ rest.
Proof.
  intros [Hi Hp] Hl Heq. unfold frame in Heq. rewrite !app_assoc in Heq. rewrite <-(app_assoc _ (packet_payload p)) in Heq.
  apply app_inj_length in Heq as [-> ->];
    [|rewrite Hl, !length_app, length_to_be_bytes, Hi; reflexivity].
  split; [|done]. unfold slice.
  rewrite drop_app_length' by (rewrite length_app, Hi; reflexivity).
  rewrite take_ge by (rewrite length_to_be_bytes; lia). apply from_to_be_bytes. cbn. lia.
Qed.

(** Nothing is left to read only when the frame is complete. *)
Lemma frame_unread t p rest t' : reader_wf t -> frame_ok p -> stream t = frame p ++ rest ->
  read_step uninit t = Done (Again t') -> incoming (inner t) <> [].
Proof.
  intros [Hh Hi Hp] Hok Hs Hstep Hin. unfold stream in Hs. rewrite Hin, app_nil_r in Hs. unfold received in Hs.
  destruct (read_state t) eqn:Hst.
  - specialize (Hi eq_refl). apply (f_equal length) in Hs. unfold frame in Hs.
    rewrite !length_app, length_to_be_bytes, length_take in Hs. destruct Hok as [Hid _]. rewrite Hid in Hs.
    unfold EXTENDED_HEADER_SIZE, HEADER_SIZE in Hi. cbn in Hs. lia.
  - destruct (Hp eq_refl) as ((codec & _ & Hhdr) & Hsize & Hpl & Hidx).
    apply frame_header in Hs as [Hlen Hx]; [|done..].
    unfold read_step in Hstep. rewrite Hst in Hstep. unfold read_payload_step in Hstep.
    case_decide as Hz; [by rewrite Hhdr in Hstep|].
    apply (f_equal length) in Hx. rewrite length_app, length_take in Hx. lia.
Qed.

Lemma poll_next_run n t p rest : length (incoming (inner t)) < n ->
  reader_wf t -> frame_ok p -> stream t = frame p ++ rest ->
  exists r t', poll_next uninit n t = Done (r, t') /\ reader_wf t' /\ outgoing (inner t') = outgoing (inner t) /\
    match r with
    | Ready (Some (Ok q)) => q = p /\ stream t' = rest
    | Ready None => False
    | _ => stream t' = stream t
    end.
Proof.
  revert t. induction n as [|n IH]; intros t Hn Hwf Hok Hs; [lia|]. cbn [poll_next].
  pose proof (read_step_spec uninit t Hwf) as Hstep.
  pose proof (frame_unread t p rest) as Hun.
  destruct (read_step uninit t) as [[t1|r t1]| |] eqn:Hr; [| |done..]; cbn [mbind Outcome_bind read_step_ok] in *.
  - destruct Hstep as [(Hwf1 & Hs1 & Hout) Hlt]. specialize (Hun t1 Hwf Hok Hs eq_refl).
    destruct (IH t1) as (r & t' & -> & Hwf' & Hout' & Hm); [destruct Hlt; [lia|done]|done|done|congruence|].
    exists r, t'. split_and!; [done|done|congruence|]. by rewrite <-Hs1.
  - exists r, t1. destruct r as [[[q|e]|]|]; [| |done|].
    + destruct Hstep as (Hq & Hsq & Hwf1 & Hout). rewrite Hsq in Hs.
      destruct (frame_inj q p _ _ Hq Hok Hs) as [-> ->]. by split_and!.
    + by destruct Hstep as (? & ? & ?).
    + by destruct Hstep as (? & ? & ?).
Qed.

(** The socket's stream has ended: every read returns no bytes. *)
Definition at_end (s : sock) : Prop := forall n, poll_read n s = (Ready (Ok []), s).

Lemma fill_nil idx (buf : list u8) : fill idx [] buf = buf.
Proof. unfold fill. cbn. rewrite Nat.add_0_r. apply take_drop. Qed.

Lemma read_step_at_end t : reader_wf t -> at_end (inner t) ->
  ~ (read_state t = ExpectingPayload /\ read_payload_size t = 0%Z) -> read_step uninit t = Done (Again t).
Proof.
  intros [Hh Hi Hp] Hend Hnz. unfold read_step. destruct (read_state t) eqn:Hst.
  - specialize (Hi eq_refl). unfold read_header_step. rewrite Hend, fill_nil. rewrite decide_True by lia.
    cbn [length]. rewrite decide_False by lia. do 2 f_equal. destruct t; cbn in *. subst. unfold set_read. cbn.
    f_equal. lia.
  - destruct (Hp eq_refl) as ((codec & _ & Hhdr) & Hsize & Hpl & Hidx).
    assert (read_payload_size t <> 0%Z) as Hz by naive_solver.
    pose proof (from_be_bytes_range (slice 17 21 (read_header_buf t))) as Hr. rewrite <-Hsize in Hr.
    unfold read_payload_step. rewrite decide_False by lia. rewrite decide_True by lia.
    rewrite Hend, fill_nil. cbn [length]. rewrite decide_False by lia. do 2 f_equal.
    destruct t; cbn in *. subst. unfold set_read. cbn. f_equal. lia.
Qed.
End ReaderProgress.

(** ** Writing *)

Section WriterFacts.
Context `{Socket}.
Implicit Type t : TokioTcp.

(** What is left to write of the packet in the buffers. *)
Definition unsent t : list u8 :=
  match write_state t with
  | WriteReady => write_header_buf t ++ write_payload_buf t
  | WritingHeader => drop (write_index t) (write_header_buf t) ++ write_payload_buf t
  | WritingPayload => drop (write_index t) (write_payload_buf t)
  end.

Record writer_wf t : Prop := mkWriterWf {
  wwf_header : length (write_header_buf t) = EXTENDED_HEADER_SIZE;
  wwf_ready : write_state t = WriteReady -> write_index t = 0;
  wwf_writing : write_state t = WritingHeader -> write_index t < EXTENDED_HEADER_SIZE;
  wwf_payload : write_state t = WritingPayload -> write_index t <= length (write_payload_buf t);
}.

(** The steps left: one to leave [WriteReady], then one per byte at most. *)
Definition write_measure t : nat :=
  length (unsent t) + match write_state t with WriteReady => 1 | _ => 0 end.

Definition write_step_ok t (o : Outcome (Step WriteResult)) : Prop :=
  match o with
  | Done (Again t') => writer_wf t' /\ outgoing (inner t') ++ unsent t' = outgoing (inner t) ++ unsent t /\
      incoming (inner t') = incoming (inner t) /\ write_measure t' < write_measure t
  | Done (Return (Ready (Ok _)) t') => writer_wf t' /\ write_state t' = WriteReady /\
      outgoing (inner t') = outgoing (inner t) ++ unsent t /\ incoming (inner t') = incoming (inner t)
  | Done (Return _ t') => writer_wf t' /\ outgoing (inner t') ++ unsent t' = outgoing (inner t) ++ unsent t /\
      incoming (inner t') = incoming (inner t)
  | _ => False
  end.

Lemma take_drop_more k idx (buf : list u8) : take k (drop idx buf) ++ drop (idx + k) buf = drop idx buf.
Proof. rewrite <-drop_drop. apply take_drop. Qed.

Lemma write_step_spec t : writer_wf t -> write_step_ok t (write_step t).
Proof.
  intros [Hh H0 Hi Hp]. unfold write_step. destruct (write_state t) eqn:Hst.
  - specialize (H0 eq_refl). cbn. unfold unsent, write_measure, unsent. cbn. rewrite Hst, H0, drop_0.
    split_and!; [split; cbn -[EXTENDED_HEADER_SIZE]; [done|done| |done]|done|done|lia].
    intros _. unfold EXTENDED_HEADER_SIZE. lia.
  - specialize (Hi eq_refl). unfold write_buf_step. rewrite decide_True by lia.
    pose proof (poll_write_spec (drop (write_index t) (write_header_buf t)) (inner t)) as Hw.
    destruct (poll_write _ _) as [[[k|e]|] s].
    2, 3: cbn -[EXTENDED_HEADER_SIZE]; unfold unsent; cbn; rewrite Hst; destruct Hw as [-> ->];
      (split_and!; [by split|done|done]).
    rewrite length_drop in Hw. destruct Hw as (Hk & Hout & Hin & Hpos).
    assert (0 < k) by (apply Hpos; intros Hnil%(f_equal length); rewrite length_drop in Hnil; cbn in Hnil; lia).
    case_decide as Hfull; cbn [write_step_ok]; unfold write_measure, unsent; rewrite Hst; cbn -[EXTENDED_HEADER_SIZE].
    + rewrite Hout, take_ge by (rewrite length_drop; lia).
      split_and!; [split; cbn -[EXTENDED_HEADER_SIZE]; [done|done|done|lia]|by rewrite drop_0, <-app_assoc|done|].
      rewrite drop_0, length_app, length_drop. lia.
    + split_and!; [split; cbn -[EXTENDED_HEADER_SIZE]; [done|done|lia|done]| |done|];
        [by rewrite Hout, <-!app_assoc, (app_assoc (take k _)), take_drop_more|].
      rewrite !length_app, !length_drop. lia.
  - specialize (Hp eq_refl). unfold write_buf_step. rewrite decide_True by lia.
    pose proof (poll_write_spec (drop (write_index t) (write_payload_buf t)) (inner t)) as Hw.
    destruct (poll_write _ _) as [[[k|e]|] s].
    2, 3: cbn -[EXTENDED_HEADER_SIZE]; unfold unsent; cbn; rewrite Hst; destruct Hw as [-> ->];
      (split_and!; [by split|done|done]).
    rewrite length_drop in Hw. destruct Hw as (Hk & Hout & Hin & Hpos).
    case_decide as Hfull; cbn [write_step_ok]; unfold write_measure, unsent; rewrite Hst; cbn -[EXTENDED_HEADER_SIZE].
    + rewrite Hout, take_ge by (rewrite length_drop; lia). by split_and!; [split|..].
    + assert (0 < k) by (apply Hpos; intros Hnil%(f_equal length); rewrite length_drop in Hnil; cbn in Hnil; lia).
            split_and!; [split; cbn -[EXTENDED_HEADER_SIZE]; [done|done|done|lia]| |done|];
        [by rewrite Hout, <-!app_assoc, take_drop_more|].
      rewrite !length_drop. lia.
Qed.
End WriterFacts.

(** ** Properties *)

Section TcpProperties.
Context `{Socket}.

(** C25: However the bytes of the frames are cut up on their way, a poll of the
    reader returns after at most one iteration per byte that is coming, and
    either delivers exactly the packet whose frame comes first and stands before
    the rest of the stream, or returns [Pending] or the socket's error and has
    lost nothing; it never delivers another packet and never ends the stream. *)
Theorem poll_next_delivers_frames (uninit : nat -> u8) (t : TokioTcp) (p : EdgePacket) (rest : list u8)
    (Hwf : reader_wf t) (Hok : frame_ok p) (Hstream : stream t = frame p ++ rest) :
  exists r t', poll_next uninit (S (length (incoming (inner t)))) t = Done (r, t') /\
    reader_wf t' /\ outgoing (inner t') = outgoing (inner t) /\
    match r with
    | Ready (Some (Ok q)) => q = p /\ stream t' = rest
    | Ready None => False
    | _ => stream t' = stream t
    end.
Proof. apply (poll_next_run uninit _ t p rest); [lia|done..]. Qed.

(** The reader never notices that its peer has closed the connection: once the
    socket only answers reads with no bytes, [poll_next] neither returns nor
    suspends, whatever it had read of the next frame; it loops for ever. *)
Theorem poll_next_spins_at_end (uninit : nat -> u8) (t : TokioTcp) (fuel : nat)
    (Hwf : reader_wf t) (Hend : at_end (inner t))
    (Hopen : ~ (read_state t = ExpectingPayload /\ read_payload_size t = 0%Z)) :
  poll_next uninit fuel t = OutOfFuel.
Proof. induction fuel as [|n IH]; [done|]. cbn [poll_next]. by rewrite (read_step_at_end uninit t Hwf Hend Hopen). Qed.

(** [poll_flush] returns after at most one iteration per byte and two more,
    and has then written a prefix of the header buffer followed by the payload
    buffer: all of it, once, when it reports success, and otherwise as much as
    the socket took, with the rest kept for the next poll. *)
Theorem poll_flush_writes_buffers (t : TokioTcp) (Hwf : writer_wf t) :
  exists r t', poll_flush (2 + length (unsent t)) t = Done (r, t') /\ writer_wf t' /\
    incoming (inner t') = incoming (inner t) /\
    match r with
    | Ready (Ok _) => outgoing (inner t') = outgoing (inner t) ++ unsent t /\ write_state t' = WriteReady
    | _ => outgoing (inner t') ++ unsent t' = outgoing (inner t) ++ unsent t
    end.
Proof.
  assert (write_measure t < 2 + length (unsent t)) as Hm by (unfold write_measure; destruct (write_state t); lia).
  revert Hm. generalize (2 + length (unsent t)) as n. intros n. revert t Hwf.
  induction n as [|n IH]; intros t Hwf Hm; [lia|]. cbn [poll_flush].
  pose proof (write_step_spec t Hwf) as Hstep.
  destruct (write_step t) as [[t1|r t1]| |]; [| |done..]; cbn [mbind Outcome_bind write_step_ok] in *.
  - destruct Hstep as (Hwf1 & Hs1 & Hin & Hlt).
    destruct (IH t1) as (r & t' & -> & Hwf' & Hin' & Hr); [done|lia|].
    exists r, t'. split_and!; [done|done|congruence|]. by rewrite <-Hs1.
  - exists r, t1. destruct r as [[[]|e]|].
    + destruct Hstep as (? & ? & ? & ?). by split_and!.
    + destruct Hstep as (? & ? & ?). by split_and!.
    + destruct Hstep as (? & ? & ?). by split_and!.
Qed.

(** No packet can be sent over this transport: [start_send] copies the eight
    bytes of a [usize] length into the four bytes of the header kept for it, and
    panics on every packet and in every state. *)
Theorem start_send_panics (item : EdgePacket) (t : TokioTcp) : start_send item t = Panic.
Proof.
  assert (forall z hb, copy_from_slice 17 21 (to_be_bytes 8 z) hb = Panic) as Hp.
  { intros z hb. unfold copy_from_slice. apply decide_False. rewrite length_to_be_bytes. lia. }
  unfold start_send. destruct (copy_from_slice 0 16 _ _) as [hb| |] eqn:Hc; cbn [mbind Outcome_bind].
  - by rewrite Hp.
  - done.
  - unfold copy_from_slice in Hc. by case_decide.
Qed.
End TcpProperties.

(** ** Witnesses: a socket that plays a script *)

Module ScriptSocket.
(** What happens to the reader next: it would block, fails, or gets a chunk. *)
Inductive event : Type :=
  | Block
  | Broken (e : string)
  | Chunk (b : u8) (bs : list u8).

Record script : Type := mkScript { events : list event; written : list u8 }.

Definition event_bytes (e : event) : list u8 :=
  match e with Chunk b bs => b :: bs | _ => [] end.

Definition read (n : nat) (s : script) : Poll (Result (list u8) string) * script :=
  match events s, n with
  | [], _ => (Ready (Ok []), s)
  | Block :: l, _ => (Pending, mkScript l (written s))
  | Broken e :: l, _ => (Ready (Err e), mkScript l (written s))
  | Chunk _ _ :: _, 0 => (Ready (Ok []), s)
  | Chunk b bs :: l, S n =>
      (Ready (Ok (b :: take n bs)),
       mkScript (match drop n bs with [] => l | b' :: bs' => Chunk b' bs' :: l end) (written s))
  end.

(** The script's writer takes two bytes at a time. *)
Definition write (bs : list u8) (s : script) : Poll (Result nat string) * script :=
  (Ready (Ok (length (take 2 bs))), mkScript (events s) (written s ++ take 2 bs)).

#[export] Program Instance script_socket : Socket := {|
  sock := script;
  io_error := string;
  incoming s := events s ≫= event_bytes;
  outgoing := written;
  poll_read := read;
  poll_write := write;
  poll_write_ready s := (Ready (Ok ()), s);
  poll_shutdown s := (Ready (Ok ()), s);
|}.
Next Obligation. done. Qed.
Next Obligation. done. Qed.
Next Obligation.
  intros n [[|[|e|b bs] l] w]; cbn; [destruct n; by split_and!; [lia|..]|done|done|].
  destruct n as [|n]; cbn; [split_and!; [lia|done|done|lia]|].
  split_and!; [rewrite length_take; lia| |done|done]. f_equal.
  destruct (drop n bs) as [|b' bs'] eqn:Hd.
  - rewrite take_ge; [done|]. apply (f_equal length) in Hd. rewrite length_drop in Hd. cbn in Hd. lia.
  - cbn. change (b' :: bs' ++ _) with ((b' :: bs') ++ (l ≫= event_bytes)). by rewrite <-Hd, app_assoc, take_drop.
Qed.
Next Obligation.
  intros bs [l w]. cbn. rewrite length_take. split_and!; [lia| |done|].
  - f_equal. destruct bs as [|? [|? ?]]; reflexivity.
  - destruct bs; [done|cbn; lia].
Qed.
End ScriptSocket.

Section TcpWitnesses.
Import ScriptSocket.

Definition sample_packet : EdgePacket :=
  mkPacket (mkPacketHeader (mkEdgePacketId (replicate 16 x07)) JSON) [x61; x62; x63].
(** Its frame arrives in three chunks, with a pause, and another packet behind it. *)
Definition sample_script : sock :=
  mkScript [Chunk x07 (replicate 11 x07); Chunk x07 (replicate 3 x07 ++ [x40; x00; x00; x00; x03; x61]); Chunk x62 [x63; x09]] [].

Lemma tcp_new_reader_wf s : reader_wf (tcp_new s).
Proof. split; [done|intros _; cbn; lia|done]. Qed.

Lemma poll_next_delivers_frames_witness :
  exists r t', poll_next (fun _ => xff) (S (length (incoming sample_script))) (tcp_new sample_script) = Done (r, t') /\
    reader_wf t' /\ outgoing (inner t') = [] /\
    match r with
    | Ready (Some (Ok q)) => q = sample_packet /\ stream t' = [x09]
    | Ready None => False
    | _ => stream t' = stream (tcp_new sample_script)
    end.
Proof.
  apply (poll_next_delivers_frames (fun _ => xff) (tcp_new sample_script) sample_packet [x09]);
    [apply tcp_new_reader_wf|split; [reflexivity|cbn; lia]|reflexivity].
Defined.

(** It is delivered in one poll. *)
Lemma sample_packet_delivered :
  match poll_next (fun _ => xff) 24 (tcp_new sample_script) with
  | Done (Ready (Some (Ok q)), t') => q = sample_packet /\ stream t' = [x09]
  | _ => False
  end.
Proof. vm_compute. by split. Qed.

(** The peer closes in the middle of a header. *)
Definition closing : TokioTcp :=
  mkTcp (mkScript [] [] : sock) ExpectingHeader (replicate 21 x00) 0 [] 5 None None (replicate 21 x00) [x61] WriteReady 0.

Lemma poll_next_spins_at_end_witness : poll_next (fun _ => xff) 1000 closing = OutOfFuel.
Proof.
  apply (poll_next_spins_at_end (fun _ => xff) closing 1000).
  - split; [done|intros _; cbn; lia|done].
  - intros [|n]; reflexivity.
  - intros [Hst _]. discriminate Hst.
Defined.

Lemma poll_flush_writes_buffers_witness :
  exists r t', poll_flush (2 + length (unsent closing)) closing = Done (r, t') /\ writer_wf t' /\
    incoming (inner t') = [] /\
    match r with
    | Ready (Ok _) => outgoing (inner t') = replicate 21 x00 ++ [x61] /\ write_state t' = WriteReady
    | _ => outgoing (inner t') ++ unsent t' = replicate 21 x00 ++ [x61]
    end.
Proof.
  apply (poll_flush_writes_buffers closing). split; cbn; [done|done|done|done].
Defined.
End TcpWitnesses.
