(* ===== verification/EdgeNode.v ===== *)
(** * The node's edge side

    [server/src/protocol/node.rs]: the connections and the routing of edge nodes,
    the authorisation of their requests and the proposals these lead to; the parts
    of [topic.rs] that [handle_edge_request] and the dispatching tasks call.

    A proposal is handed to Raft and awaited: what Raft answers, and everything
    that happens to the node meanwhile (other tasks run), is the parameter
    [raft_propose].  An operation that may propose returns, besides its result and
    the node, the proposals it made, in order. *)

From S2P Require Import Prelude Ids Interest Message Proposal Queue Topic Edge Codec.

(** An edge connection ([EdgeConnectionInstance]): its peer and preferred codec,
    its liveness flag, whether its writer has gone, and the packets handed to it. *)
Record EdgeConnection : Type := mkEdgeConnection {
  conn_peer : NodeId;
  conn_codec : CodecKind;
  conn_alive : bool;
  conn_closed : bool;
  conn_outbound : list EdgePacket;
}.

(** The edge fields of [NodeInner], with the node's other state in [edge_world];
    [edge_spawned] are the proposals of detached tasks, and the counters those of
    the snowflake identifiers. *)
Record EdgeNode : Type := mkEdgeNode {
  edge_world : World;
  edge_connections : gmap NodeId loc;
  conn_heap : gmap loc EdgeConnection;
  edge_routing : gmap EndpointAddr (NodeId * TopicCode);
  codec_registry : CodecRegistry;
  message_counter : Z;
  endpoint_counter : Z;
  packet_counter : Z;
  edge_spawned : list Proposal;
}.

Section EdgeNodeSetters.
Implicit Type n : EdgeNode.
Local Abbreviation upd w c h r mc ec pc sp n :=
  (mkEdgeNode w c h r (codec_registry n) mc ec pc sp).

Definition set_edge_world (w : World) n : EdgeNode :=
  upd w (edge_connections n) (conn_heap n) (edge_routing n) (message_counter n) (endpoint_counter n)
    (packet_counter n) (edge_spawned n) n.
Definition set_connections (c : gmap NodeId loc) n : EdgeNode :=
  upd (edge_world n) c (conn_heap n) (edge_routing n) (message_counter n) (endpoint_counter n)
    (packet_counter n) (edge_spawned n) n.
Definition set_conn_heap (h : gmap loc EdgeConnection) n : EdgeNode :=
  upd (edge_world n) (edge_connections n) h (edge_routing n) (message_counter n) (endpoint_counter n)
    (packet_counter n) (edge_spawned n) n.
Definition set_routing (r : gmap EndpointAddr (NodeId * TopicCode)) n : EdgeNode :=
  upd (edge_world n) (edge_connections n) (conn_heap n) r (message_counter n) (endpoint_counter n)
    (packet_counter n) (edge_spawned n) n.
Definition set_message_counter (c : Z) n : EdgeNode :=
  upd (edge_world n) (edge_connections n) (conn_heap n) (edge_routing n) c (endpoint_counter n)
    (packet_counter n) (edge_spawned n) n.
Definition set_endpoint_counter (c : Z) n : EdgeNode :=
  upd (edge_world n) (edge_connections n) (conn_heap n) (edge_routing n) (message_counter n) c
    (packet_counter n) (edge_spawned n) n.
Definition set_packet_counter (c : Z) n : EdgeNode :=
  upd (edge_world n) (edge_connections n) (conn_heap n) (edge_routing n) (message_counter n)
    (endpoint_counter n) c (edge_spawned n) n.
Definition spawn_proposals (ps : list Proposal) n : EdgeNode :=
  upd (edge_world n) (edge_connections n) (conn_heap n) (edge_routing n) (message_counter n)
    (endpoint_counter n) (packet_counter n) (edge_spawned n ++ ps) n.
End EdgeNodeSetters.

Definition edge_node_id (n : EdgeNode) : NodeId := world_id (edge_world n).

(** ** Routing and connections *)

Definition get_edge_routing (addr : EndpointAddr) (n : EdgeNode) : option NodeId :=
  fst <$> edge_routing n !! addr.

Definition set_edge_routing (addr : EndpointAddr) (edge : NodeId) (topic : TopicCode) (n : EdgeNode) : EdgeNode :=
  set_routing (<[addr := (edge, topic)]> (edge_routing n)) n.

(** Only a live connection is handed out. *)
Definition get_edge_connection (to : NodeId) (n : EdgeNode) : option loc :=
  conn ← edge_connections n !! to;
  inst ← conn_heap n !! conn;
  if conn_alive inst then Some conn else None.

(** The end of [create_edge_connection], once the handshake has succeeded: the new
    connection replaces one the map holds for the same peer. *)
Definition insert_edge_connection (conn : loc) (inst : EdgeConnection) (n : EdgeNode) : EdgeNode :=
  set_connections (<[conn_peer inst := conn]> (edge_connections n))
    (set_conn_heap (<[conn := inst]> (conn_heap n)) n).

Section Connections.
Context `{HashOrder}.

(** [remove_edge_connection]: the peer's endpoints leave the routing and an
    [EpOffline] is proposed for each, in a detached task. *)
Definition remove_edge_connection (to : NodeId) (n : EdgeNode) : EdgeNode :=
  match edge_connections n !! to with
  | None => n
  | Some _ =>
      let n := set_connections (delete to (edge_connections n)) n in
      let offline_eps :=
        omap (fun '(addr, (node_id, topic)) =>
                if decide (node_id = to) then Some (addr, topic) else None)
             (hm_iter (edge_routing n)) in
      let n := set_routing (foldl (fun r addr => delete addr r) (edge_routing n) offline_eps.*1) n in
      let host := edge_node_id n in
      spawn_proposals
        ((fun '(addr, topic_code) => PEpOffline (mkEndpointOffline topic_code addr host)) <$> offline_eps) n
  end.

(** The end of a connection's task: the flag is cleared, then the peer's entry is
    removed, whichever connection it holds. *)
Definition connection_finished (conn : loc) (n : EdgeNode) : EdgeNode :=
  match conn_heap n !! conn with
  | None => n
  | Some inst =>
      remove_edge_connection (conn_peer inst)
        (set_conn_heap (<[conn := mkEdgeConnection (conn_peer inst) (conn_codec inst) false true (conn_outbound inst)]>
           (conn_heap n)) n)
  end.
End Connections.

(** ** Packets out (connection.rs) *)

(** [send_packet]: the bounded channel waits for room and fails once its receiver
    is gone. *)
Definition send_packet (conn : loc) (packet : EdgePacket) (n : EdgeNode) :
    Result () (NodeConnectionError string) * EdgeNode :=
  match conn_heap n !! conn with
  | None => (Err (mkConnectionError ConnClosed "send message"), n)
  | Some inst =>
      if conn_closed inst then (Err (mkConnectionError ConnClosed "send message"), n)
      else (Ok (), set_conn_heap
              (<[conn := mkEdgeConnection (conn_peer inst) (conn_codec inst) (conn_alive inst) false
                   (conn_outbound inst ++ [packet])]> (conn_heap n)) n)
  end.

Section PacketsOut.
Context (timestamp executor_digest : Z).

(** [encode_packet]. *)
Definition encode_packet (inst : EdgeConnection) (payload : EdgePayload) (n : EdgeNode) :
    Result EdgePacket (NodeConnectionError string) * EdgeNode :=
  match registry_encode (conn_codec inst) payload (codec_registry n) with
  | Err e => (Err (mkConnectionError (ConnCodec e) "encode message"), n)
  | Ok bytes =>
      let '(packet, c) := edge_packet_new timestamp executor_digest (conn_codec inst) bytes (packet_counter n) in
      (Ok packet, set_packet_counter c n)
  end.

(** [EdgeConnectionInstance::push_message]. *)
Definition edge_push_message (conn : loc) (endpoint : EndpointAddr) (m : Message) (n : EdgeNode) :
    Result () (NodeConnectionError string) * EdgeNode :=
  match conn_heap n !! conn with
  | None => (Err (mkConnectionError ConnClosed "send message"), n)
  | Some inst =>
      let '(r, n) := encode_packet inst (PayloadPush (PushMessage [endpoint] m)) n in
      match r with
      | Err e => (Err e, n)
      | Ok packet => send_packet conn packet n
      end
  end.
End PacketsOut.

Definition check_ep_auth (ep : EndpointAddr) (peer : NodeId) (n : EdgeNode) : Result () EdgeError :=
  match edge_routing n !! ep with
  | Some (owner, _) =>
      if decide (owner = peer) then Ok ()
      else Err (edge_error_new "endpoint not owned by sender" ErrUnauthorized)
  | None => Err (edge_error_new "endpoint not found" ErrEndpointNotFound)
  end.

(** ** Handlers

    [?] returns early with the error and keeps what was done so far. *)
Definition Handler (A : Type) : Type := EdgeNode -> Result A EdgeError * (EdgeNode * list Proposal).

Definition handler_ret {A} (a : A) : Handler A := fun n => (Ok a, (n, [])).
Definition handler_bind {A B} (m : Handler A) (f : A -> Handler B) : Handler B := fun n =>
  let '(r, (n, ps)) := m n in
  match r with
  | Ok a => let '(r', (n', ps')) := f a n in (r', (n', ps ++ ps'))
  | Err e => (Err e, (n, ps))
  end.
Definition handler_fail {A} (e : EdgeError) : Handler A := fun n => (Err e, (n, [])).
Definition handler_get {A} (f : EdgeNode -> A) : Handler A := fun n => (Ok (f n), (n, [])).
Definition handler_modify (f : EdgeNode -> EdgeNode) : Handler () := fun n => (Ok (), (f n, [])).
(** A pure check on the node, failing with [?]. *)
Definition handler_check {A} (f : EdgeNode -> Result A EdgeError) : Handler A := fun n => (f n, (n, [])).

Notation "x <~ m ; k" := (handler_bind m (fun x => k))
  (at level 100, m at next level, k at level 200, right associativity) : amq_scope.
Open Scope amq_scope.

Section EdgeHandlers.
Context `{HashOrder}.
(** Raft: the answer to a proposal, and the node when it arrives. *)
Context (raft_propose : Proposal -> EdgeNode -> Result () string * EdgeNode).
(** The wait on a message's handle: what it yields, and the node then. *)
Context (await_handle : MessageId -> EdgeNode -> WaitAckResult * EdgeNode).
(** The authorisation service the node is configured with, if any. *)
Context (edge_auth : option (NodeId -> EdgeRequestEnum -> Result () string)).
Context (timestamp executor_digest : Z).

(** [node.propose(p).await.map_err(with_message(context, .., Internal))?]. *)
Definition propose_or (context : string) (p : Proposal) : Handler () := fun n =>
  let '(r, n) := raft_propose p n in
  match r with
  | Ok _ => (Ok (), (n, [p]))
  | Err e => (Err (edge_error_with_message context e ErrInternal), (n, [p]))
  end.

(** [get_topic(..).ok_or_else(topic not found)?]. *)
Definition topic_or_not_found (code : TopicCode) : Handler loc :=
  topic <~ handler_get (fun n => get_topic code (edge_world n));
  match topic with
  | Some topic => handler_ret topic
  | None => handler_fail (edge_error_new ("topic $" +:+ String.string_of_list_byte (topic_code_display code) +:+ " not found")
              ErrTopicNotFound)
  end.

(** A sender that is dropped before it sent closes its channel. *)
Definition drop_sender (tx : option loc) (channels : gmap loc Oneshot) : gmap loc Oneshot :=
  match tx with
  | Some c => match channels !! c with Some OneshotWaiting => <[c := OneshotClosed]> channels | _ => channels end
  | None => channels
  end.

(** [Topic::wait_ack]: a fresh oneshot channel, its sender in the pool of the
    topic's handle; a sender that was there under the same id is dropped. *)
Definition wait_ack_handle (topic : loc) (id : MessageId) (w : World) : World :=
  match topic_heap (runtime w) !! topic with
  | None => w
  | Some inner =>
      let c := next_loc (runtime w) in
      mkWorld (node w)
        (mkRuntime
           (<[topic := mkTopicInner (inner_code inner) (<[id := c]> (ack_waiting_pool inner))
                         (local_endpoints inner)]> (topic_heap (runtime w)))
           (<[c := OneshotWaiting]> (drop_sender (ack_waiting_pool inner !! id) (oneshots (runtime w)))) (S c)
           (spawned (runtime w)) (clock_reads (runtime w)))
  end.

(** [Topic::send_message]. *)
Definition send_message (code : TopicCode) (topic : loc) (m : Message) : Handler MessageId :=
  _ <~ handler_modify (fun n => set_edge_world (wait_ack_handle topic (msg_id m) (edge_world n)) n);
  _ <~ propose_or "send message" (PDelegateMessage (mkDelegateMessage code m));
  handler_ret (msg_id m).

(** The loop [for ep in keys { check_ep_auth(ep, from)? }]. *)
Fixpoint check_all (eps : list EndpointAddr) (from : NodeId) : Handler () :=
  match eps with
  | [] => handler_ret ()
  | ep :: eps => _ <~ handler_check (check_ep_auth ep from); check_all eps from
  end.

Definition edge_send_message (m : EdgeMessage) : Handler EdgeResponseEnum := fun n =>
  let '((message, topic_code), counter) := into_message timestamp executor_digest m (message_counter n) in
  (topic <~ topic_or_not_found topic_code;
   id <~ send_message topic_code topic message;
   (fun n => let '(response, n) := await_handle id n in
             (Ok (RespSendMessage (edge_result_from_std response)), (n, []))))
  (set_message_counter counter n).

Definition edge_endpoint_online (from : NodeId) (online : EdgeEndpointOnline) : Handler EdgeResponseEnum :=
  let topic_code := edge_online_topic online in
  _ <~ topic_or_not_found topic_code;
  endpoint <~ (fun n =>
    let '(e, c) := endpoint_addr_new_snowflake timestamp executor_digest (endpoint_counter n) in
    (Ok e, (set_endpoint_counter c n, [])));
  host <~ handler_get edge_node_id;
  _ <~ propose_or "endpoint online"
         (PEpOnline (mkEndpointOnline topic_code endpoint (edge_online_interests online) host));
  _ <~ handler_modify (set_edge_routing endpoint from topic_code);
  handler_ret (RespEndpointOnline endpoint).

Definition edge_endpoint_offline (from : NodeId) (offline : EdgeEndpointOffline) : Handler EdgeResponseEnum :=
  let topic_code := edge_offline_topic offline in
  let endpoint := edge_offline_endpoint offline in
  _ <~ topic_or_not_found topic_code;
  _ <~ handler_check (check_ep_auth endpoint from);
  _ <~ propose_or "endpoint offline" (PEpOffline (mkEndpointOffline topic_code endpoint from));
  _ <~ handler_modify (fun n => set_routing (delete endpoint (edge_routing n)) n);
  handler_ret RespEndpointOffline.

Definition edge_endpoint_interest (from : NodeId) (interest : EndpointInterest) : Handler EdgeResponseEnum :=
  _ <~ topic_or_not_found (interest_topic_code interest);
  _ <~ handler_check (check_ep_auth (interest_endpoint interest) from);
  _ <~ propose_or "endpoint interest" (PEpInterest interest);
  handler_ret RespEndpointInterest.

Definition edge_set_state (from : NodeId) (set_state : SetState) : Handler EdgeResponseEnum :=
  _ <~ topic_or_not_found (set_state_topic set_state);
  _ <~ check_all (hm_iter (update_status (set_state_update set_state))).*1 from;
  _ <~ propose_or "set state" (PSetState set_state);
  handler_ret RespSetState.

(** [handle_edge_request]. *)
Definition handle_edge_request (from : NodeId) (kind : EdgeRequestEnum) : Handler EdgeResponseEnum :=
  _ <~ handler_check (fun _ =>
         match edge_auth with
         | Some check =>
             match check from kind with
             | Err e => Err (edge_error_with_message "auth check failed" e ErrUnauthorized)
             | Ok _ => Ok ()
             end
         | None => Ok ()
         end);
  match kind with
  | ReqSendMessage m => edge_send_message m
  | ReqEndpointOnline r => edge_endpoint_online from r
  | ReqEndpointOffline r => edge_endpoint_offline from r
  | ReqEndpointInterest r => edge_endpoint_interest from r
  | ReqSetState r => edge_set_state from r
  end.

(** [PollEvent::PacketIn]: a packet that does not decode is skipped; a request is
    handled and answered under its sequence number with the connection's codec;
    other payloads are ignored. *)
Definition packet_in (conn : loc) (packet : EdgePacket) (n : EdgeNode) : EdgeNode * list Proposal :=
  match conn_heap n !! conn with
  | None => (n, [])
  | Some inst =>
      match registry_decode (packet_codec (packet_header packet)) (packet_payload packet) (codec_registry n) with
      | Ok (PayloadRequest req) =>
          match registry_get (conn_codec inst) (codec_registry n) with
          | None => (n, [])
          | Some encoder =>
              let '(resp, (n, ps)) := handle_edge_request (conn_peer inst) (request req) n in
              let resp := edge_response_from_result (request_seq_id req) resp in
              let payload := codec_encode encoder (PayloadResponse resp) in
              let '(resp, c) := edge_packet_new timestamp executor_digest (conn_codec inst) payload
                                  (packet_counter n) in
              (snd (send_packet conn resp (set_packet_counter c n)), ps)
          end
      | _ => (n, [])
      end
  end.
End EdgeHandlers.

(** ** Facts *)

(** The routing gives the endpoint to the edge node. *)
Definition owns (from : NodeId) (n : EdgeNode) (ep : EndpointAddr) : Prop :=
  exists topic, edge_routing n !! ep = Some (from, topic).

(** What an edge node may make the cluster do. *)
Definition authorized (from : NodeId) (n : EdgeNode) (p : Proposal) : Prop :=
  match p with
  | PDelegateMessage _ => True
  | PEpOnline p => online_host p = edge_node_id n
  | PEpOffline p => owns from n (offline_endpoint p)
  | PEpInterest p => owns from n (interest_endpoint p)
  | PSetState p => forall ep, is_Some (update_status (set_state_update p) !! ep) -> owns from n ep
  | PLoadTopic _ | PUnloadTopic _ => False
  end.

Lemma check_ep_auth_ok ep from n : check_ep_auth ep from n = Ok () <-> owns from n ep.
Proof.
  unfold check_ep_auth, owns. destruct (edge_routing n !! ep) as [[owner topic]|].
  - case_decide; subst; naive_solver.
  - naive_solver.
Qed.

Lemma check_ep_auth_err ep from n e :
  check_ep_auth ep from n = Err e -> edge_error_kind e = ErrUnauthorized \/ edge_error_kind e = ErrEndpointNotFound.
Proof.
  unfold check_ep_auth. destruct (edge_routing n !! ep) as [[owner topic]|]; [case_decide|]; intros [=]; subst; auto.
Qed.

Section EdgeFacts.
Context `{HashOrder}.
Context (raft_propose : Proposal -> EdgeNode -> Result () string * EdgeNode).
Context (await_handle : MessageId -> EdgeNode -> WaitAckResult * EdgeNode).
Context (edge_auth : option (NodeId -> EdgeRequestEnum -> Result () string)).
Context (timestamp executor_digest : Z).

(** A handler run with its safety: at most one proposal, an authorised one, and
    a refusal (an error that is not [Internal]) proposes nothing and leaves the
    routing and the shared state alone. *)
Definition safe_run {A} (from : NodeId) (n : EdgeNode) (run : Result A EdgeError * (EdgeNode * list Proposal)) : Prop :=
  let '(r, (n', ps)) := run in
  length ps <= 1 /\ Forall (authorized from n) ps /\
  (forall e, r = Err e -> edge_error_kind e <> ErrInternal ->
     ps = [] /\ edge_routing n' = edge_routing n /\ edge_world n' = edge_world n).

(** A step that proposes nothing and keeps what authorisation reads. *)
Definition quiet {A} (m : Handler A) : Prop :=
  forall n, let '(_, (n', ps)) := m n in
    ps = [] /\ edge_routing n' = edge_routing n /\ edge_world n' = edge_world n.

Lemma safe_quiet_bind {A B} (m : Handler A) (f : A -> Handler B) from n :
  quiet m ->
  (forall a n', m n = (Ok a, (n', [])) -> edge_routing n' = edge_routing n ->
     edge_world n' = edge_world n -> safe_run from n (f a n')) ->
  safe_run from n (handler_bind m f n).
Proof.
  intros Hq Hf. specialize (Hq n). unfold handler_bind. destruct (m n) as [r [n' ps]] eqn:Hm.
  destruct Hq as (-> & Hr & Hw). destruct r as [a|e].
  - specialize (Hf a n' eq_refl Hr Hw). by destruct (f a n') as [r' [n2 ps2]].
  - split; [simpl; lia|]. split; [constructor|]. by intros ? _ _.
Qed.

Lemma quiet_check {A} (f : EdgeNode -> Result A EdgeError) : quiet (handler_check f).
Proof. intros n. by split_and!. Qed.
Lemma quiet_get {A} (f : EdgeNode -> A) : quiet (handler_get f).
Proof. intros n. by split_and!. Qed.
Lemma quiet_topic code : quiet (topic_or_not_found code).
Proof.
  intros n. unfold topic_or_not_found, handler_bind, handler_get.
  by destruct (get_topic code (edge_world n)).
Qed.
Lemma quiet_check_all eps from : quiet (check_all eps from).
Proof.
  intros n. induction eps as [|ep eps IH]; [by split_and!|]. cbn [check_all].
  unfold handler_bind, handler_check. destruct (check_ep_auth ep from n); [|by split_and!].
  by destruct (check_all eps from n) as [r [n' ps]].
Qed.

Lemma check_all_ok eps from n n' u ps : check_all eps from n = (Ok u, (n', ps)) -> Forall (owns from n) eps.
Proof.
  revert n' u ps. induction eps as [|ep eps IH]; intros n' u ps; [constructor|]. cbn [check_all].
  unfold handler_bind, handler_check. destruct (check_ep_auth ep from n) as [[]|e] eqn:Hc; [|done].
  destruct (check_all eps from n) as [r [n2 ps2]] eqn:Hr. intros [= -> -> ->]. constructor.
  - by apply check_ep_auth_ok.
  - by eapply IH.
Qed.

(** A step that proposes, and is followed by steps that do not. *)
Lemma safe_propose {B} from n n0 context p (f : () -> Handler B) :
  authorized from n p -> (forall n', exists b n2, f tt n' = (Ok b, (n2, []))) ->
  safe_run from n ((u <~ propose_or raft_propose context p; f u) n0).
Proof.
  intros Hp Hf. unfold handler_bind, propose_or. destruct (raft_propose p n0) as [[[]|e] n1].
  - destruct (Hf n1) as (b & n2 & ->). split; [simpl; lia|]. split; [by repeat constructor|].
    intros e [=].
  - split; [simpl; lia|]. split; [by repeat constructor|]. intros e' [= <-] Hk. by destruct Hk.
Qed.

Lemma safe_run_ext {A} from n1 n2 (run : Result A EdgeError * (EdgeNode * list Proposal)) :
  edge_routing n1 = edge_routing n2 -> edge_world n1 = edge_world n2 ->
  safe_run from n1 run -> safe_run from n2 run.
Proof.
  intros Hr Hw. destruct run as [r [n' ps]]. intros (Hl & Hp & He). split; [done|]. split.
  - eapply Forall_impl; [exact Hp|]. intros p. destruct p; cbn; unfold owns, edge_node_id; by rewrite ?Hr, ?Hw.
  - by rewrite <-Hr, <-Hw.
Qed.

Lemma safe_handler from kind n :
  safe_run from n (handle_edge_request raft_propose await_handle edge_auth timestamp executor_digest from kind n).
Proof.
  unfold handle_edge_request. apply safe_quiet_bind; [apply quiet_check|]. intros _ n1 [= _ <-] _ _.
  destruct kind as [m|r|r|r|r].
  - unfold edge_send_message.
    destruct (into_message timestamp executor_digest m (message_counter n)) as [[message topic_code] c].
    set (n2 := set_message_counter c n).
    apply (safe_run_ext from n2 n); [done|done|]. apply safe_quiet_bind; [apply quiet_topic|]. intros topic n3 _ _ _.
    unfold send_message, handler_bind, handler_modify, propose_or, handler_ret.
    destruct (raft_propose _ _) as [[[]|e] n4].
    + destruct (await_handle _ n4) as [res n5]. split; [simpl; lia|]. split; [by repeat constructor|]. intros e [=].
    + split; [simpl; lia|]. split; [by repeat constructor|]. intros e' [= <-] Hk. by destruct Hk.
  - unfold edge_endpoint_online. apply safe_quiet_bind; [apply quiet_topic|]. intros topic n2 _ Hr Hw.
    unfold handler_bind at 1. destruct (endpoint_addr_new_snowflake _ _ _) as [e c].
    set (n3 := set_endpoint_counter c n2).
    unfold handler_bind at 1, handler_get at 1.
    match goal with |- safe_run _ _ (let '(_, _) := (let '(_, _) := ?m in _) in _) =>
      assert (safe_run from n m) as Hm end.
    { apply safe_propose; [by unfold edge_node_id; cbn; rewrite Hw|]. intros n'.
      eexists _, _. reflexivity. }
    revert Hm. match goal with |- safe_run _ _ ?m -> _ => destruct m as [r' [n' ps]] end.
    cbn. by destruct r'.
  - unfold edge_endpoint_offline. apply safe_quiet_bind; [apply quiet_topic|]. intros topic n2 _ Hr Hw.
    apply (safe_run_ext from n2 n); [done|done|].
    apply safe_quiet_bind; [apply quiet_check|]. intros [] n3 [= Hc ->] _ _. apply safe_propose.
    + by apply check_ep_auth_ok.
    + intros n'. eexists _, _. reflexivity.
  - unfold edge_endpoint_interest. apply safe_quiet_bind; [apply quiet_topic|]. intros topic n2 _ Hr Hw.
    apply (safe_run_ext from n2 n); [done|done|].
    apply safe_quiet_bind; [apply quiet_check|]. intros [] n3 [= Hc ->] _ _. apply safe_propose.
    + by apply check_ep_auth_ok.
    + intros n'. eexists _, _. reflexivity.
  - unfold edge_set_state. apply safe_quiet_bind; [apply quiet_topic|]. intros topic n2 _ Hr Hw.
    apply (safe_run_ext from n2 n); [done|done|].
    apply safe_quiet_bind; [apply quiet_check_all|]. intros [] n3 Hc _ _. apply safe_propose.
    + apply check_all_ok in Hc. rewrite Forall_forall in Hc. intros ep [k Hk]. apply Hc.
      apply list_elem_of_fmap. exists (ep, k). split; [done|]. by apply elem_of_hm_iter.
    + intros n'. eexists _, _. reflexivity.
Qed.
End EdgeFacts.

(** ** Disconnection *)

Section DisconnectFacts.
Context `{HashOrder}.

(** The endpoints the routing gives to a peer. *)
Definition peer_endpoints (to : NodeId) (n : EdgeNode) : list (EndpointAddr * TopicCode) :=
  omap (fun '(addr, (node_id, topic)) => if decide (node_id = to) then Some (addr, topic) else None)
    (hm_iter (edge_routing n)).

Lemma elem_of_peer_endpoints to n addr topic :
  (addr, topic) ∈ peer_endpoints to n <-> edge_routing n !! addr = Some (to, topic).
Proof.
  unfold peer_endpoints. rewrite list_elem_of_omap. split.
  - intros ([a [o tp]] & Hin%elem_of_hm_iter & Hs). case_decide; simplify_eq. done.
  - intros Hr. exists (addr, (to, topic)). split; [by apply elem_of_hm_iter|]. by rewrite decide_True.
Qed.

Lemma NoDup_peer_endpoints to n : NoDup (peer_endpoints to n).*1.
Proof.
  unfold peer_endpoints. pose proof (NoDup_hm_iter_fst (edge_routing n)) as Hnd.
  induction (hm_iter (edge_routing n)) as [|[a [o tp]] l IH]; [constructor|].
  cbn in Hnd |- *. apply NoDup_cons in Hnd as [Hni Hnd]. case_decide; [|by apply IH].
  cbn. constructor; [|by apply IH]. intros ([a' t'] & -> & Hin)%list_elem_of_fmap. cbn in Hni. apply Hni.
  apply list_elem_of_omap in Hin as ([a2 [o2 t2]] & Hin & Hs). case_decide; simplify_eq.
  apply list_elem_of_fmap. by exists (a', (to, t')).
Qed.

Lemma foldl_delete_lookup {V} (m : gmap EndpointAddr V) keys k :
  foldl (fun r addr => delete addr r) m keys !! k = if decide (k ∈ keys) then None else m !! k.
Proof.
  revert m. induction keys as [|a keys IH]; intros m; cbn [foldl]; [done|]. rewrite IH.
  destruct (decide (k = a)) as [->|Hne].
  - rewrite lookup_delete_eq, (decide_True (P := a ∈ a :: keys)) by (by left). by case_decide.
  - rewrite lookup_delete_ne by done. repeat case_decide; set_solver.
Qed.

(** The routing after a disconnection. *)
Lemma remove_edge_connection_routing to n addr :
  is_Some (edge_connections n !! to) ->
  edge_routing (remove_edge_connection to n) !! addr =
    match edge_routing n !! addr with
    | Some (o, topic) => if decide (o = to) then None else Some (o, topic)
    | None => None
    end.
Proof.
  intros [c Hc]. unfold remove_edge_connection. rewrite Hc. cbn. rewrite foldl_delete_lookup.
  fold (peer_endpoints to n). destruct (edge_routing n !! addr) as [[o topic]|] eqn:Hr.
  - case_decide as Hin; case_decide as Ho; subst; try done.
    + apply list_elem_of_fmap in Hin as ([a t'] & -> & Hin%elem_of_peer_endpoints). cbn in Hr. congruence.
    + destruct Hin. apply list_elem_of_fmap. exists (addr, topic). split; [done|]. by apply elem_of_peer_endpoints.
  - by case_decide.
Qed.
End DisconnectFacts.

(** ** Properties *)

Section EdgeProperties.
Context `{HashOrder}.
Context (raft_propose : Proposal -> EdgeNode -> Result () string * EdgeNode).
Context (await_handle : MessageId -> EdgeNode -> WaitAckResult * EdgeNode).
Context (edge_auth : option (NodeId -> EdgeRequestEnum -> Result () string)).
Context (timestamp executor_digest : Z).

(** C23: whatever Raft answers and whatever happens meanwhile, an edge node cannot
    act on endpoints that are not its own: a request leads to at most one
    proposal, never to a topic being loaded or unloaded; one that takes an
    endpoint offline, changes its interests or sets statuses names only endpoints
    the routing gives to the sender, and a new endpoint is hosted by this node.
    A refusal proposes nothing and leaves the routing and the topics alone. *)
Theorem edge_request_authorized (from : NodeId) (kind : EdgeRequestEnum) (n n' : EdgeNode)
    (r : Result EdgeResponseEnum EdgeError) (ps : list Proposal)
    (Hrun : handle_edge_request raft_propose await_handle edge_auth timestamp executor_digest from kind n =
      (r, (n', ps))) :
  length ps <= 1 /\ Forall (authorized from n) ps /\
  (forall e, r = Err e -> edge_error_kind e <> ErrInternal ->
     ps = [] /\ edge_routing n' = edge_routing n /\ edge_world n' = edge_world n).
Proof.
  pose proof (safe_handler raft_propose await_handle edge_auth timestamp executor_digest from kind n) as Hs.
  by rewrite Hrun in Hs.
Qed.

(** An endpoint an edge node takes offline stays reachable: the proposal names
    the edge node as the host, but the endpoint was put online under this node's
    id, so applying it leaves the endpoint in this node's row. *)
Theorem edge_offline_wrong_host `{Clock, Hash64} (from : NodeId) (offline : EdgeEndpointOffline)
    (n n' : EdgeNode) (r : Result EdgeResponseEnum EdgeError) (ps : list Proposal) (p : Proposal)
    (t : TopicData) (ctx : ProposalContext)
    (Hrun : handle_edge_request raft_propose await_handle edge_auth timestamp executor_digest from
      (ReqEndpointOffline offline) n = (r, (n', ps)))
    (Hp : p ∈ ps) (Hedge : from <> edge_node_id n) (Ht : topic_wf t)
    (Hreach : edge_offline_endpoint offline ∈ reachable_eps (edge_node_id n) t) :
  exists o t' ctx', p = PEpOffline o /\ offline_endpoint o = edge_offline_endpoint offline /\
    ep_offline (offline_host o) (offline_endpoint o) t ctx = Done (t', ctx') /\
    edge_offline_endpoint offline ∈ reachable_eps (edge_node_id n) t'.
Proof.
  assert (p = PEpOffline (mkEndpointOffline (edge_offline_topic offline) (edge_offline_endpoint offline) from)) as ->.
  { unfold handle_edge_request, edge_endpoint_offline, topic_or_not_found, handler_bind, handler_check,
      handler_get, handler_ret, handler_fail, handler_modify, propose_or in Hrun.
    repeat case_match; simplify_eq; cbn in Hp; by apply list_elem_of_singleton in Hp || set_solver. }
  destruct (ep_offline_reachable from (edge_offline_endpoint offline) t ctx Ht) as (t' & ctx' & Hr & Hin).
  eexists _, t', ctx'. split; [done|]. split; [done|]. split; [exact Hr|]. apply Hin. split; [done|].
  intros [Hn _]. congruence.
Qed.

(** When a peer disconnects, exactly the endpoints the routing gave to it leave
    the routing, and one [EpOffline] is proposed for each of them, with its topic
    and this node as the host; the other peers keep their routes. *)
Theorem remove_edge_connection_spec (to : NodeId) (n : EdgeNode)
    (Hc : is_Some (edge_connections n !! to)) :
  let n' := remove_edge_connection to n in
  (forall addr, edge_routing n' !! addr =
     match edge_routing n !! addr with
     | Some (o, topic) => if decide (o = to) then None else Some (o, topic)
     | None => None
     end) /\
  get_edge_connection to n' = None /\
  exists offline, edge_spawned n' = edge_spawned n ++ offline /\ NoDup offline /\
    forall p, p ∈ offline <-> exists addr topic, edge_routing n !! addr = Some (to, topic) /\
      p = PEpOffline (mkEndpointOffline topic addr (edge_node_id n)).
Proof.
  intros n'. split; [intros addr; by apply remove_edge_connection_routing|]. subst n'.
  destruct Hc as [c Hc]. unfold remove_edge_connection. rewrite Hc. split.
  - unfold get_edge_connection. cbn. by rewrite lookup_delete_eq.
  - eexists. split; [reflexivity|]. cbn [edge_routing set_connections]. fold (peer_endpoints to n).
    change (edge_node_id _) with (edge_node_id n). split.
    + apply NoDup_fmap_2_strong; [|by apply (NoDup_fmap_1 fst), NoDup_peer_endpoints].
      intros [a1 t1] [a2 t2] _ _. by intros [= -> ->].
    + intros p. rewrite list_elem_of_fmap. split.
      * intros ([addr topic] & -> & Hin%elem_of_peer_endpoints). by exists addr, topic.
      * intros (addr & topic & Hr & ->). exists (addr, topic). split; [done|]. by apply elem_of_peer_endpoints.
Qed.

(** An old connection that ends after its peer has reconnected takes the new
    one down: the map entry it removes is the new connection's, which is alive but
    no longer found, and the peer's endpoints are withdrawn. *)
Theorem stale_connection_removes_new (old new : loc) (inst_old inst_new : EdgeConnection) (n : EdgeNode)
    (Hold : conn_heap n !! old = Some inst_old) (Hpeer : conn_peer inst_new = conn_peer inst_old)
    (Halive : conn_alive inst_new = true) (Hne : old <> new) :
  let n1 := insert_edge_connection new inst_new n in
  let n2 := connection_finished old n1 in
  get_edge_connection (conn_peer inst_new) n1 = Some new /\
  get_edge_connection (conn_peer inst_new) n2 = None /\
  conn_alive <$> conn_heap n2 !! new = Some true /\
  forall addr topic, edge_routing n !! addr = Some (conn_peer inst_new, topic) -> edge_routing n2 !! addr = None.
Proof.
  intros n1 n2.
  assert (conn_heap n1 !! old = Some inst_old) as Ho by (cbn; by rewrite lookup_insert_ne).
  unfold n2, connection_finished. rewrite Ho. set (n1' := set_conn_heap _ n1).
  assert (is_Some (edge_connections n1' !! conn_peer inst_old)) as Hc.
  { cbn. rewrite Hpeer, lookup_insert_eq. eauto. }
  split_and!.
  - unfold get_edge_connection. cbn. rewrite lookup_insert_eq. cbn. rewrite lookup_insert_eq. cbn. by rewrite Halive.
  - unfold get_edge_connection, remove_edge_connection. destruct Hc as [c Hc]. rewrite Hc. cbn.
    by rewrite Hpeer, lookup_delete_eq.
  - unfold remove_edge_connection. destruct Hc as [c Hc]. rewrite Hc. cbn.
    rewrite lookup_insert_ne, lookup_insert_eq by done. cbn. by rewrite Halive.
  - intros addr topic Hr. rewrite remove_edge_connection_routing by done. cbn.
    by rewrite Hr, Hpeer, decide_True.
Qed.
End EdgeProperties.

Section EdgeWitnesses.
Import Sample.
#[local] Existing Instance sample_hash.

(** The edge node [nid x09] owns the endpoint [ep x05] and is connected. *)
Definition sample_conn : EdgeConnection := mkEdgeConnection (nid x09) JSON true false [].
Definition sample_edge : EdgeNode :=
  mkEdgeNode world {[nid x09 := 7]} {[7 := sample_conn]} {[ep x05 := (nid x09, topic)]}
    registry_new_empty 0 0 0 [].

(** A Raft that accepts everything at once. *)
Definition accept (p : Proposal) (n : EdgeNode) : Result () string * EdgeNode := (Ok (), n).
Definition no_answer (i : MessageId) (n : EdgeNode) : WaitAckResult * EdgeNode :=
  (Err (wait_ack_exception MessageDropped), n).

Definition sample_offline : EdgeEndpointOffline := mkEdgeOffline topic (ep x05).

(** The owner's request goes through. *)
Lemma edge_request_authorized_witness :
  exists r n' ps, handle_edge_request accept no_answer None 0 0 (nid x09) (ReqEndpointOffline sample_offline)
      sample_edge = (r, (n', ps)) /\
    length ps <= 1 /\ Forall (authorized (nid x09) sample_edge) ps /\
    (forall e, r = Err e -> edge_error_kind e <> ErrInternal ->
       ps = [] /\ edge_routing n' = edge_routing sample_edge /\ edge_world n' = edge_world sample_edge).
Proof.
  destruct (handle_edge_request accept no_answer None 0 0 (nid x09) (ReqEndpointOffline sample_offline) sample_edge)
    as [r [n' ps]] eqn:Hrun.
  exists r, n', ps. split; [reflexivity|].
  exact (edge_request_authorized accept no_answer None 0 0 (nid x09) (ReqEndpointOffline sample_offline)
    sample_edge n' r ps Hrun).
Defined.

Lemma edge_offline_wrong_host_witness :
  exists r n' ps p, handle_edge_request accept no_answer None 0 0 (nid x09) (ReqEndpointOffline sample_offline)
      sample_edge = (r, (n', ps)) /\ p ∈ ps /\
    exists o t' ctx', p = PEpOffline o /\ offline_endpoint o = edge_offline_endpoint sample_offline /\
      ep_offline (offline_host o) (offline_endpoint o) sample_topic ctx = Done (t', ctx') /\
      edge_offline_endpoint sample_offline ∈ reachable_eps (edge_node_id sample_edge) t'.
Proof.
  destruct (handle_edge_request accept no_answer None 0 0 (nid x09) (ReqEndpointOffline sample_offline) sample_edge)
    as [r [n' ps]] eqn:Hrun.
  assert (match handle_edge_request accept no_answer None 0 0 (nid x09) (ReqEndpointOffline sample_offline)
      sample_edge with (_, (_, ps)) => ps = [PEpOffline (mkEndpointOffline topic (ep x05) (nid x09))] end) as Hps.
  { vm_compute. reflexivity. }
  rewrite Hrun in Hps. subst ps.
  exists r, n', [PEpOffline (mkEndpointOffline topic (ep x05) (nid x09))],
    (PEpOffline (mkEndpointOffline topic (ep x05) (nid x09))).
  split; [reflexivity|]. split; [left|].
  apply (edge_offline_wrong_host accept no_answer None 0 0 (nid x09) sample_offline sample_edge n' r
    [PEpOffline (mkEndpointOffline topic (ep x05) (nid x09))] _ sample_topic ctx Hrun).
  - left.
  - intros Heq. vm_compute in Heq. discriminate Heq.
  - exact sample_topic_wf.
  - apply (bool_decide_unpack _). vm_compute. exact I.
Defined.

Lemma remove_edge_connection_spec_witness :
  let n' := remove_edge_connection (nid x09) sample_edge in
  (forall addr, edge_routing n' !! addr =
     match edge_routing sample_edge !! addr with
     | Some (o, topic) => if decide (o = nid x09) then None else Some (o, topic)
     | None => None
     end) /\
  get_edge_connection (nid x09) n' = None /\
  exists offline, edge_spawned n' = edge_spawned sample_edge ++ offline /\ NoDup offline /\
    forall p, p ∈ offline <-> exists addr topic, edge_routing sample_edge !! addr = Some (nid x09, topic) /\
      p = PEpOffline (mkEndpointOffline topic addr (edge_node_id sample_edge)).
Proof.
  apply (remove_edge_connection_spec (nid x09) sample_edge).
  exists 7. vm_compute. reflexivity.
Defined.

Lemma stale_connection_removes_new_witness :
  let n1 := insert_edge_connection 8 sample_conn sample_edge in
  let n2 := connection_finished 7 n1 in
  get_edge_connection (conn_peer sample_conn) n1 = Some 8 /\
  get_edge_connection (conn_peer sample_conn) n2 = None /\
  conn_alive <$> conn_heap n2 !! 8 = Some true /\
  forall addr topic, edge_routing sample_edge !! addr = Some (conn_peer sample_conn, topic) ->
    edge_routing n2 !! addr = None.
Proof.
  apply (stale_connection_removes_new 7 8 sample_conn sample_conn sample_edge).
  - vm_compute. reflexivity.
  - reflexivity.
  - reflexivity.
  - discriminate.
Defined.
End EdgeWitnesses.
