(* ===== verification/Tasks.v ===== *)
(** * Topic handles, local endpoints and the spawned tasks

    [server/src/protocol/topic.rs], [endpoint.rs], [wait_ack.rs] ([WaitAckHandle]),
    [Node::load_topic] of [node.rs] and the bodies of the tasks that
    [ProposalContext] spawns ([raft/proposal.rs]).  A task is one step here: it is
    given the state it finds when it runs. *)

From S2P Require Import Prelude Ids Interest Message Proposal Queue Topic Delivery NodeData Edge Codec EdgeNode.

(** The node with the mailboxes of its local endpoints: an endpoint is alive as
    long as it has one, and a weak reference upgrades exactly then. *)
Record TaskState : Type := mkTaskState {
  task_node : EdgeNode;
  mailboxes : gmap EndpointAddr (list Message);
}.

Definition task_world (s : TaskState) : World := edge_world (task_node s).
Definition set_task_world (w : World) (s : TaskState) : TaskState :=
  mkTaskState (set_edge_world w (task_node s)) (mailboxes s).
Definition set_mailboxes (b : gmap EndpointAddr (list Message)) (s : TaskState) : TaskState :=
  mkTaskState (task_node s) b.
Definition set_task_node (n : EdgeNode) (s : TaskState) : TaskState := mkTaskState n (mailboxes s).

Definition set_oneshots (o : gmap loc Oneshot) (w : World) : World :=
  mkWorld (node w) (mkRuntime (topic_heap (runtime w)) o (next_loc (runtime w)) (spawned (runtime w))
    (clock_reads (runtime w))).

(** ** Waiting for an acknowledgement *)

(** [WaitAckHandle::poll] on the channel of the handle. *)
Definition poll_handle (channel : loc) (w : World) : Poll WaitAckResult :=
  match oneshots (runtime w) !! channel with
  | Some (OneshotSent r) => Ready r
  | Some OneshotWaiting => Pending
  | Some OneshotClosed | None => Ready (Err (wait_ack_exception MessageDropped))
  end.

(** [tx.send(result)]. *)
Definition oneshot_send (channel : loc) (r : WaitAckResult) (w : World) : World :=
  match oneshots (runtime w) !! channel with
  | Some OneshotWaiting => set_oneshots (<[channel := OneshotSent r]> (oneshots (runtime w))) w
  | _ => w
  end.

(** The task of [ProposalContext::resolve_ack]. *)
Definition run_resolve_ack (topic : loc) (id : MessageId) (r : WaitAckResult) (w : World) : World :=
  match topic_heap (runtime w) !! topic with
  | None => w
  | Some inner =>
      match ack_waiting_pool inner !! id with
      | None => w
      | Some tx =>
          oneshot_send tx r
            (set_topic_heap (<[topic := mkTopicInner (inner_code inner) (delete id (ack_waiting_pool inner))
                                          (local_endpoints inner)]> (topic_heap (runtime w))) w)
      end
  end.

(** ** Dispatching *)

Section Dispatch.
Context (raft_propose : Proposal -> EdgeNode -> Result () string * EdgeNode).
Context (timestamp executor_digest : Z).

(** [LocalEndpoint::push_message]: the endpoint holds the receiver, so the send
    succeeds. *)
Definition push_message (ep : EndpointAddr) (m : Message) (s : TaskState) : TaskState :=
  set_mailboxes (<[ep := default [] (mailboxes s !! ep) ++ [m]]> (mailboxes s)) s.

(** [Topic::dispatch_message]. *)
Definition topic_dispatch_message (topic : loc) (m : Message) (ep : EndpointAddr) (s : TaskState) :
    option MessageStatusKind * TaskState :=
  match topic_heap (runtime (task_world s)) !! topic with
  | None => (None, s)
  | Some inner =>
      match local_endpoints inner !! ep with
      | Some local =>
          match mailboxes s !! local with
          | None => (None, s)
          | Some _ => (Some Sent, push_message local m s)
          end
      | None =>
          match get_edge_routing ep (task_node s) with
          | None => (None, s)
          | Some node_id =>
              match get_edge_connection node_id (task_node s) with
              | None => (None, s)
              | Some edge =>
                  let '(result, n) := edge_push_message timestamp executor_digest edge ep m (task_node s) in
                  (Some (if is_ok result then Sent else Unreachable), set_task_node n s)
              end
          end
      end
  end.

(** The task of [ProposalContext::dispatch_message]: deliver, then propose the
    status; a failed proposal is logged. *)
Definition run_dispatch (topic : loc) (code : TopicCode) (m : Message) (ep : EndpointAddr) (s : TaskState) :
    TaskState * list Proposal :=
  let '(o, s) := topic_dispatch_message topic m ep s in
  let status := default Unreachable o in
  let p := PSetState (mkSetState code (state_update_new (msg_id m) {[ep := status]})) in
  (set_task_node (snd (raft_propose p (task_node s))) s, [p]).

(** ** Durable commands *)

(** The task of [commit_durable_commands]: the commands are taken before the
    leadership check; a leader hands them to the service under the task's topic,
    in order.  [is_leader] is [ensure_linearizable]'s answer. *)
Definition run_commit (is_leader : bool) (code : TopicCode) (w : World) :
    World * list (TopicCode * DurableCommand) :=
  let '(commands, w) := swap_out_durable_commands w in
  (w, if is_leader then (fun c => (code, c)) <$> commands else []).

(** ** Topic handles and local endpoints *)

(** [Topic::create_endpoint]: the endpoint exists from its construction, is put
    online, and is registered with the topic's handle only after that; if the
    proposal fails it is dropped, and its [Drop] proposes it offline. *)
Definition create_endpoint (topic : loc) (code : TopicCode) (interests : list Interest) (s : TaskState) :
    Result EndpointAddr string * (TaskState * list Proposal) :=
  let n := task_node s in
  let '(address, c) := endpoint_addr_new_snowflake timestamp executor_digest (endpoint_counter n) in
  let n := set_endpoint_counter c n in
  let s := mkTaskState n (<[address := []]> (mailboxes s)) in
  let p := PEpOnline (mkEndpointOnline code address interests (edge_node_id n)) in
  let '(r, n) := raft_propose p n in
  let s := set_task_node n s in
  match r with
  | Err e =>
      (Err e, (mkTaskState (spawn_proposals [PEpOffline (mkEndpointOffline code address (edge_node_id n))] n)
                 (delete address (mailboxes s)), [p]))
  | Ok _ =>
      let w := task_world s in
      let w := match topic_heap (runtime w) !! topic with
               | None => w
               | Some inner =>
                   set_topic_heap (<[topic := mkTopicInner (inner_code inner) (ack_waiting_pool inner)
                                                (<[address := address]> (local_endpoints inner))]>
                                     (topic_heap (runtime w))) w
               end in
      (Ok address, (set_task_world w s, [p]))
  end.

(** [Topic::delete_endpoint]. *)
Definition delete_endpoint (topic : loc) (code : TopicCode) (addr : EndpointAddr) (s : TaskState) :
    Result () string * (TaskState * list Proposal) :=
  let w := task_world s in
  let w := match topic_heap (runtime w) !! topic with
           | None => w
           | Some inner =>
               set_topic_heap (<[topic := mkTopicInner (inner_code inner) (ack_waiting_pool inner)
                                            (delete addr (local_endpoints inner))]>
                                 (topic_heap (runtime w))) w
           end in
  let s := set_task_world w s in
  let p := PEpOffline (mkEndpointOffline code addr (edge_node_id (task_node s))) in
  let '(r, n) := raft_propose p (task_node s) in
  (r, (set_task_node n s, [p])).

(** [Drop] of a local endpoint whose topic handle is alive. *)
Definition drop_endpoint (code : TopicCode) (addr : EndpointAddr) (s : TaskState) : TaskState :=
  mkTaskState
    (spawn_proposals [PEpOffline (mkEndpointOffline code addr (edge_node_id (task_node s)))] (task_node s))
    (delete addr (mailboxes s)).

(** [Topic::single_ack], and the endpoint's [ack_*] methods that call it; a
    dropped topic is an error. *)
Definition single_ack (ack : MessageAck) (code : TopicCode) (s : TaskState) :
    Result () string * (TaskState * list Proposal) :=
  let p := PSetState (mkSetState code (state_update_new (ack_to ack) {[ack_from ack := ack_status ack]})) in
  let '(r, n) := raft_propose p (task_node s) in
  (r, (set_task_node n s, [p])).

Definition endpoint_ack (make : MessageHeader -> TopicCode -> EndpointAddr -> MessageAck)
    (topic_alive : bool) (h : MessageHeader) (code : TopicCode) (address : EndpointAddr) (s : TaskState) :
    Result () string * (TaskState * list Proposal) :=
  if topic_alive then single_ack (make h code address) code s
  else (Err "topic not found", (s, [])).

(** [LocalEndpoint::update_interest]. *)
Definition update_interest (topic_alive : bool) (code : TopicCode) (address : EndpointAddr)
    (interests : list Interest) (s : TaskState) : Result () string * (TaskState * list Proposal) :=
  if topic_alive then
    let p := PEpInterest (mkEndpointInterest code address interests) in
    let '(r, n) := raft_propose p (task_node s) in
    (r, (set_task_node n s, [p]))
  else (Err "topic not found", (s, [])).

(** [LocalEndpoint::next_message], when a message is there. *)
Definition next_message (address : EndpointAddr) (s : TaskState) : option Message * TaskState :=
  match mailboxes s !! address with
  | Some (m :: rest) => (Some m, set_mailboxes (<[address := rest]> (mailboxes s)) s)
  | _ => (None, s)
  end.

(** [Node::load_topic] and [create_new_topic]. *)
Inductive LoadTopicError : Type :=
  | TopicAlreadyExists
  | LoadProposeError (e : string)
  | LoadStillNotFound.

Definition load_topic (config : TopicConfig) (queue : list DurableMessage) (s : TaskState) :
    Result loc LoadTopicError * (TaskState * list Proposal) :=
  let config_code := config_code config in
  match get_topic config_code (task_world s) with
  | Some _ => (Err TopicAlreadyExists, (s, []))
  | None =>
      let p := PLoadTopic (mkLoadTopic config queue) in
      let '(r, n) := raft_propose p (task_node s) in
      let s := set_task_node n s in
      match r with
      | Err e => (Err (LoadProposeError e), (s, [p]))
      | Ok _ =>
          match get_topic config_code (task_world s) with
          | Some topic => (Ok topic, (s, [p]))
          | None => (Err LoadStillNotFound, (s, [p]))
          end
      end
  end.

Definition create_new_topic (config : TopicConfig) : TaskState -> Result loc LoadTopicError * (TaskState * list Proposal) :=
  load_topic config [].
End Dispatch.

(** ** Facts *)

(** The pools of the handles are disjoint: a channel belongs to one waiting message. *)
Definition pools_ok (w : World) : Prop :=
  (forall t inner i c, topic_heap (runtime w) !! t = Some inner -> ack_waiting_pool inner !! i = Some c ->
     c < next_loc (runtime w)) /\
  (forall t1 t2 inner1 inner2 i1 i2 c, topic_heap (runtime w) !! t1 = Some inner1 ->
     topic_heap (runtime w) !! t2 = Some inner2 -> ack_waiting_pool inner1 !! i1 = Some c ->
     ack_waiting_pool inner2 !! i2 = Some c -> t1 = t2 /\ i1 = i2).

(** ** Where a message can be delivered *)

(** The endpoint is a live endpoint of the topic on this node, with this mailbox. *)
Definition has_mailbox (topic : loc) (ep : EndpointAddr) (s : TaskState) (local : EndpointAddr) (box : list Message) : Prop :=
  exists inner, topic_heap (runtime (task_world s)) !! topic = Some inner /\
    local_endpoints inner !! ep = Some local /\ mailboxes s !! local = Some box.

(** The endpoint is not one of this node; it is routed to an edge node whose
    connection is open, and the push of the message to it encodes to these bytes. *)
Definition has_edge (topic : loc) (m : Message) (ep : EndpointAddr) (s : TaskState) (conn : loc) (inst : EdgeConnection)
    (bytes : list u8) : Prop :=
  exists inner peer, topic_heap (runtime (task_world s)) !! topic = Some inner /\ local_endpoints inner !! ep = None /\
    get_edge_routing ep (task_node s) = Some peer /\ get_edge_connection peer (task_node s) = Some conn /\
    conn_heap (task_node s) !! conn = Some inst /\ conn_closed inst = false /\
    registry_encode (conn_codec inst) (PayloadPush (PushMessage [ep] m)) (codec_registry (task_node s)) = Ok bytes.

(** ** Properties *)

Section TaskProperties.
Context (raft_propose : Proposal -> EdgeNode -> Result () string * EdgeNode).
Context (timestamp executor_digest : Z).

(** A sender that registered with [wait_ack] is answered by the first
    [resolve_ack] for its message and by nothing else: its handle is pending until
    then, acknowledgements of other messages leave it pending, the first one for
    its message makes it ready with that result, and later ones change nothing. *)
Theorem wait_ack_answered_once (topic : loc) (inner : TopicInner) (id other : MessageId)
    (r r' r2 : WaitAckResult) (w : World)
    (Htopic : topic_heap (runtime w) !! topic = Some inner) (Hpools : pools_ok w) (Hne : other <> id) :
  let channel := next_loc (runtime w) in
  let w1 := wait_ack_handle topic id w in
  let w2 := run_resolve_ack topic other r' w1 in
  let w3 := run_resolve_ack topic id r w2 in
  poll_handle channel w1 = Pending /\ poll_handle channel w2 = Pending /\
  poll_handle channel w3 = Ready r /\
  poll_handle channel (run_resolve_ack topic id r2 w3) = Ready r.
Proof.
  intros channel w1 w2 w3. pose (dropped := drop_sender (ack_waiting_pool inner !! id) (oneshots (runtime w))).
  assert (w1 = mkWorld (node w) (mkRuntime
      (<[topic := mkTopicInner (inner_code inner) (<[id := channel]> (ack_waiting_pool inner)) (local_endpoints inner)]>
         (topic_heap (runtime w))) (<[channel := OneshotWaiting]> dropped) (S channel)
      (spawned (runtime w)) (clock_reads (runtime w)))) as Hw1.
  { unfold w1, wait_ack_handle. by rewrite Htopic. }
  assert (poll_handle channel w1 = Pending) as H1.
  { unfold poll_handle. rewrite Hw1. cbn. by rewrite lookup_insert_eq. }
  (* the other acknowledgement *)
  assert (oneshots (runtime w2) !! channel = Some OneshotWaiting /\
    exists inner2, topic_heap (runtime w2) !! topic = Some inner2 /\ ack_waiting_pool inner2 !! id = Some channel) as (Ho2 & inner2 & Ht2 & Hp2).
  { unfold w2, run_resolve_ack. rewrite Hw1. cbn [runtime topic_heap]. rewrite lookup_insert_eq.
    cbn [ack_waiting_pool]. rewrite lookup_insert_ne by done.
    destruct (ack_waiting_pool inner !! other) as [tx|] eqn:Hother.
    - assert (tx <> channel) as Htx.
      { pose proof (proj1 Hpools topic inner other tx Htopic Hother). unfold channel. lia. }
      unfold oneshot_send. cbn [runtime oneshots set_topic_heap].
      rewrite lookup_insert_ne by done. destruct (dropped !! tx) as [[| |]|]; cbn.
      all: rewrite ?(lookup_insert_ne _ tx channel) by done; rewrite !lookup_insert_eq.
      all: split; [done|]; eexists; split; [done|]; cbn.
      all: by rewrite lookup_delete_ne, lookup_insert_eq by done.
    - cbn. rewrite !lookup_insert_eq. split; [done|]. eexists. split; [done|]. cbn. by rewrite lookup_insert_eq. }
  assert (poll_handle channel w2 = Pending) as H2 by (unfold poll_handle; by rewrite Ho2).
  assert (oneshots (runtime w3) !! channel = Some (OneshotSent r) /\
    exists inner3, topic_heap (runtime w3) !! topic = Some inner3 /\ ack_waiting_pool inner3 !! id = None)
    as (Ho3 & inner3 & Ht3 & Hp3).
  { unfold w3, run_resolve_ack. rewrite Ht2, Hp2. unfold oneshot_send. cbn [runtime oneshots set_topic_heap].
    rewrite Ho2. cbn. rewrite !lookup_insert_eq. split; [done|]. eexists. split; [done|]. cbn.
    by rewrite lookup_delete_eq. }
  split_and!; [done|done|by unfold poll_handle; rewrite Ho3|].
  unfold run_resolve_ack. rewrite Ht3, Hp3. unfold poll_handle. by rewrite Ho3.
Qed.

(** Where there is no way to the endpoint, nothing is touched. *)
Ltac nobody :=
  right; right; split_and!; [done| | |done|done];
    repeat intro; repeat match goal with Hway : ex _ |- _ => destruct Hway | Hway : _ /\ _ |- _ => destruct Hway end; congruence.

(** C35: the status a dispatching task proposes tells what it did: [Sent] exactly
    when this very message was put into the mailbox of that very endpoint, which is
    live on this node, or handed, as a push to that endpoint alone, to the open
    connection of the edge node the endpoint is routed to; and [Unreachable] exactly
    when there is no such mailbox and no such connection, in which case nobody
    received anything.  An endpoint that is online but not yet registered is
    [Unreachable]. *)
Theorem dispatch_reports_delivery (topic : loc) (code : TopicCode) (m : Message) (ep : EndpointAddr)
    (s : TaskState) :
  let s1 := snd (topic_dispatch_message timestamp executor_digest topic m ep s) in
  exists status,
    snd (run_dispatch raft_propose timestamp executor_digest topic code m ep s) =
      [PSetState (mkSetState code (state_update_new (msg_id m) {[ep := status]}))] /\
    ((status = Sent /\ exists local box, has_mailbox topic ep s local box /\
        mailboxes s1 = <[local := box ++ [m]]> (mailboxes s) /\ task_node s1 = task_node s) \/
     (status = Sent /\ exists conn inst bytes pid, has_edge topic m ep s conn inst bytes /\
        mailboxes s1 = mailboxes s /\
        conn_heap (task_node s1) = <[conn := mkEdgeConnection (conn_peer inst) (conn_codec inst) (conn_alive inst) false
          (conn_outbound inst ++ [mkPacket (mkPacketHeader pid (conn_codec inst)) bytes])]> (conn_heap (task_node s))) \/
     (status = Unreachable /\ (forall local box, ~ has_mailbox topic ep s local box) /\
        (forall conn inst bytes, ~ has_edge topic m ep s conn inst bytes) /\
        mailboxes s1 = mailboxes s /\ conn_heap (task_node s1) = conn_heap (task_node s))).
Proof.
  intros s1. unfold run_dispatch. subst s1. unfold has_mailbox, has_edge.
  destruct (topic_dispatch_message timestamp executor_digest topic m ep s) as [o s1] eqn:Hd.
  cbn [snd]. exists (default Unreachable o). split; [done|].
  unfold topic_dispatch_message in Hd.
  destruct (topic_heap (runtime (task_world s)) !! topic) as [inner|] eqn:Htopic; [|simplify_eq; nobody].
  destruct (local_endpoints inner !! ep) as [local|] eqn:Hlocal.
  { destruct (mailboxes s !! local) as [box|] eqn:Hbox; simplify_eq; [|nobody].
    left. split; [done|]. exists local, box. split; [by exists inner|]. cbn. by rewrite Hbox. }
  destruct (get_edge_routing ep (task_node s)) as [peer|] eqn:Hroute; [|simplify_eq; nobody].
  destruct (get_edge_connection peer (task_node s)) as [conn|] eqn:Hconn; [|simplify_eq; nobody].
  unfold edge_push_message in Hd.
  destruct (conn_heap (task_node s) !! conn) as [inst|] eqn:Hinst; [|simplify_eq; nobody].
  unfold encode_packet in Hd.
  destruct (registry_encode (conn_codec inst) _ _) as [bytes|e] eqn:Hbytes; [|simplify_eq; nobody].
  cbn [edge_packet_new edge_packet_id_new_snowflake] in Hd. unfold send_packet in Hd.
  cbn [set_packet_counter conn_heap] in Hd. rewrite Hinst in Hd.
  destruct (conn_closed inst) eqn:Hclosed; [simplify_eq; nobody|].
  right. left. simplify_eq. split; [done|]. eexists conn, inst, bytes, _. split; [by exists inner, peer|done].
Qed.

(** Durable commands are committed under the topic of whichever task runs
    first: when proposals for two topics are applied before the first task runs,
    that task makes the leader store the second topic's update under the first
    topic, and the second topic's task stores nothing; a follower's task throws
    the commands of both away. *)
Theorem commit_mixes_topics `{HashOrder, Clock, Hash64} (u1 u2 : SetState) (nd : NodeData) (w : World)
    (Hwf : node_wf nd) (Hin1 : is_Some (nd_topics nd !! set_state_topic u1))
    (Hin2 : is_Some (nd_topics nd !! set_state_topic u2)) :
  exists nd1 ctx1 nd2 ctx2 log,
    apply_set_state u1 nd (context_new w) = Done (nd1, ctx1) /\
    apply_set_state u2 nd1 (context_new (ctx_world ctx1)) = Done (nd2, ctx2) /\
    run_commit true (set_state_topic u1) (ctx_world ctx2) = (set_durable_queue [] (ctx_world ctx2), log) /\
    (set_state_topic u1, CmdUpdateStatus (set_state_update u2)) ∈ log /\
    (forall c, c ∈ log -> fst c = set_state_topic u1) /\
    snd (run_commit true (set_state_topic u2) (set_durable_queue [] (ctx_world ctx2))) = [] /\
    run_commit false (set_state_topic u1) (ctx_world ctx2) = (set_durable_queue [] (ctx_world ctx2), []).
Proof.
  destruct Hin1 as [t1 Ht1].
  destruct (apply_set_state_commands u1 nd (context_new w) t1 Hwf Ht1) as (nd1 & ctx1 & Hr1 & Hwf1 & Hk1 & _).
  destruct (Hk1 _ Hin2) as [t2 Ht2].
  destruct (apply_set_state_commands u2 nd1 (context_new (ctx_world ctx1)) t2 Hwf1 Ht2)
    as (nd2 & ctx2 & Hr2 & _ & _ & [k Hk]).
  exists nd1, ctx1, nd2, ctx2. eexists. split; [exact Hr1|]. split; [exact Hr2|]. split; [reflexivity|].
  split_and!; try done.
  - change (durable_commands_queue (node (ctx_world ctx2))) with (commands_of ctx2). rewrite Hk.
    apply list_elem_of_fmap. eexists. split; [done|]. set_solver.
  - intros c (x & -> & _)%list_elem_of_fmap. done.
Qed.

(** [load_topic] refuses a topic the node already has without proposing
    anything, and otherwise proposes exactly one load and succeeds exactly when
    Raft accepted it and the handle is there afterwards. *)
Theorem load_topic_spec (config : TopicConfig) (queue : list DurableMessage) (s s' : TaskState)
    (r : Result loc LoadTopicError) (ps : list Proposal)
    (Hrun : load_topic raft_propose config queue s = (r, (s', ps))) :
  (is_Some (get_topic (config_code config) (task_world s)) -> r = Err TopicAlreadyExists /\ s' = s /\ ps = []) /\
  (get_topic (config_code config) (task_world s) = None ->
     ps = [PLoadTopic (mkLoadTopic config queue)] /\
     forall h, r = Ok h <-> is_ok (fst (raft_propose (PLoadTopic (mkLoadTopic config queue)) (task_node s))) = true /\
       get_topic (config_code config) (task_world s') = Some h).
Proof.
  unfold load_topic in Hrun. destruct (get_topic (config_code config) (task_world s)) as [t|].
  { simplify_eq. split; [by intros _|done]. }
  split; [by intros [? ?]|]. intros _.
  destruct (raft_propose (PLoadTopic (mkLoadTopic config queue)) (task_node s)) as [[u|e] n] eqn:Hp.
  - cbn [fst is_ok]. destruct (get_topic (config_code config) (task_world (set_task_node n s))) as [h|] eqn:Hg;
      simplify_eq; (split; [done|]); intros h'; rewrite Hg; naive_solver.
  - simplify_eq. split; [done|]. intros h. cbn. naive_solver.
Qed.
End TaskProperties.

Section TaskWitnesses.
Import Sample.
#[local] Existing Instance sample_hash.

Definition sample_inner : TopicInner := mkTopicInner topic ∅ ∅.

Lemma sample_pools : pools_ok world.
Proof.
  split.
  - intros t inner i c Ht Hi. cbn in Ht. apply lookup_singleton_Some in Ht as [_ <-]. cbn in Hi.
    by rewrite lookup_empty in Hi.
  - intros t1 t2 inner1 inner2 i1 i2 c Ht1 _ Hi1 _. cbn in Ht1. apply lookup_singleton_Some in Ht1 as [_ <-]. cbn in Hi1.
    by rewrite lookup_empty in Hi1.
Qed.

Lemma wait_ack_answered_once_witness :
  let channel := next_loc (runtime world) in
  let w1 := wait_ack_handle 0 (mid x01) world in
  let w2 := run_resolve_ack 0 (mid x02) (Err (wait_ack_exception Overflow)) w1 in
  let w3 := run_resolve_ack 0 (mid x01) (Ok (mkWaitAckSuccess ∅)) w2 in
  poll_handle channel w1 = Pending /\ poll_handle channel w2 = Pending /\
  poll_handle channel w3 = Ready (Ok (mkWaitAckSuccess ∅)) /\
  poll_handle channel (run_resolve_ack 0 (mid x01) (Err (wait_ack_exception Overflow)) w3) =
    Ready (Ok (mkWaitAckSuccess ∅)).
Proof.
  apply (wait_ack_answered_once 0 sample_inner (mid x01) (mid x02) (Ok (mkWaitAckSuccess ∅))
    (Err (wait_ack_exception Overflow)) (Err (wait_ack_exception Overflow)) world).
  - reflexivity.
  - exact sample_pools.
  - intros Heq. vm_compute in Heq. discriminate Heq.
Defined.

(** Two topics, of which updates are applied. *)
Definition two_topics : NodeData :=
  mkNodeData (<[topic := sample_topic]>
    {[topic_code_new "u" := mkTopicData (topic_config_of_code (topic_code_new "u")) ∅ interest_map_new
        (queue_new false DEFAULT_CAPACITY)]}).
Definition update_t : SetState := mkSetState topic sample_update.
Definition update_u : SetState := mkSetState (topic_code_new "u") sample_update.

Lemma two_topics_wf : node_wf two_topics.
Proof.
  apply map_Forall_insert_2.
  - split; [exact sample_topic_wf|]. split; [reflexivity|]. intros o [= <-]. vm_compute. split; discriminate.
  - apply map_Forall_singleton. split; [|split; [reflexivity|intros o [=]]].
    split; [apply queue_new_wf|reflexivity|reflexivity|apply map_ok_new].
Qed.

Lemma commit_mixes_topics_witness :
  exists nd1 ctx1 nd2 ctx2 log,
    apply_set_state update_t two_topics (context_new world) = Done (nd1, ctx1) /\
    apply_set_state update_u nd1 (context_new (ctx_world ctx1)) = Done (nd2, ctx2) /\
    run_commit true (set_state_topic update_t) (ctx_world ctx2) = (set_durable_queue [] (ctx_world ctx2), log) /\
    (set_state_topic update_t, CmdUpdateStatus (set_state_update update_u)) ∈ log /\
    (forall c, c ∈ log -> fst c = set_state_topic update_t) /\
    snd (run_commit true (set_state_topic update_u) (set_durable_queue [] (ctx_world ctx2))) = [] /\
    run_commit false (set_state_topic update_t) (ctx_world ctx2) = (set_durable_queue [] (ctx_world ctx2), []).
Proof.
  apply (commit_mixes_topics update_t update_u two_topics world two_topics_wf).
  - exists sample_topic. unfold two_topics. cbn [nd_topics]. apply lookup_insert_eq.
  - eexists. unfold two_topics. cbn [nd_topics].
    rewrite lookup_insert_ne by (intros Heq; vm_compute in Heq; discriminate Heq).
    apply lookup_singleton_eq.
Defined.

Definition sample_tasks : TaskState := mkTaskState sample_edge ∅.

Lemma load_topic_spec_witness :
  exists r s' ps, load_topic accept (topic_config_of_code topic) [] sample_tasks = (r, (s', ps)) /\
    (is_Some (get_topic (config_code (topic_config_of_code topic)) (task_world sample_tasks)) ->
       r = Err TopicAlreadyExists /\ s' = sample_tasks /\ ps = []) /\
    (get_topic (config_code (topic_config_of_code topic)) (task_world sample_tasks) = None ->
       ps = [PLoadTopic (mkLoadTopic (topic_config_of_code topic) [])] /\
       forall h, r = Ok h <->
         is_ok (fst (accept (PLoadTopic (mkLoadTopic (topic_config_of_code topic) [])) (task_node sample_tasks))) = true /\
         get_topic (config_code (topic_config_of_code topic)) (task_world s') = Some h).
Proof.
  destruct (load_topic accept (topic_config_of_code topic) [] sample_tasks) as [r [s' ps]] eqn:Hrun.
  exists r, s', ps. split; [reflexivity|].
  exact (load_topic_spec accept (topic_config_of_code topic) [] sample_tasks s' r ps Hrun).
Defined.
End TaskWitnesses.
