(* ===== verification/Ownership.v ===== *)
(** * Who keeps whom alive

    The counted references of [protocol/node.rs], [protocol/topic.rs] and
    [protocol/endpoint.rs]: [Node], [Topic] and [LocalEndpoint] are strong handles,
    [NodeRef], [TopicRef] and [LocalEndpointRef] weak ones.  A node's table of topics
    holds topics, a topic holds its node; the rest is weak.  The other files take an
    object as there while they use it; here is when it goes. *)

From stdpp Require Import relations.
From S2P Require Import Prelude Ids Interest Message Proposal.

(** The fields through which an object holds or names others.  The weak ones are
    [local_endpoints], [attached_node] and [attached_topic]. *)
Inductive Object : Type :=
  | NodeObject (topics : gmap TopicCode loc)
  | TopicObject (code : TopicCode) (node : loc) (local_endpoints : gmap EndpointAddr loc)
  | EndpointObject (topic_code : TopicCode) (address : EndpointAddr) (attached_node attached_topic : loc).

Definition strong_refs (o : Object) : list loc :=
  match o with
  | NodeObject topics => (map_to_list topics).*2
  | TopicObject _ node _ => [node]
  | EndpointObject _ _ _ _ => []
  end.

(** The objects there are, each at an address that is used once, the strong handles
    that callers and tasks hold, and the proposals spawned by the [Drop] of
    endpoints. *)
Record Arcs : Type := mkArcs {
  objects : gmap loc Object;
  next_object : loc;
  handles : list loc;
  offline_tasks : list (TopicCode * EndpointAddr);
}.

Definition count (l : loc) (ls : list loc) : nat := length (filter (fun x => x = l) ls).
Definition strong_count (l : loc) (s : Arcs) : nat :=
  count l (handles s) + sum_list_with (fun o => count l (strong_refs o)) (map_to_list (objects s)).*2.

Definition set_objects (m : gmap loc Object) (s : Arcs) : Arcs := mkArcs m (next_object s) (handles s) (offline_tasks s).
Definition add_handle (l : loc) (s : Arcs) : Arcs := mkArcs (objects s) (next_object s) (l :: handles s) (offline_tasks s).

(** [Arc::new]. *)
Definition alloc (o : Object) (s : Arcs) : Arcs :=
  mkArcs (<[next_object s := o]> (objects s)) (Datatypes.S (next_object s)) (handles s) (offline_tasks s).

(** [Weak::upgrade]: a new handle, while the count is not zero. *)
Definition upgrade (l : loc) (s : Arcs) : option Arcs :=
  match objects s !! l with
  | Some _ => if decide (strong_count l s = 0) then None else Some (add_handle l s)
  | None => None
  end.

(** [Node::node_ref], [Topic::reference], [LocalEndpoint::reference]: a weak handle is
    the address. *)
Definition node_ref (node : loc) : loc := node.
Definition topic_reference (topic : loc) : loc := topic.
Definition endpoint_reference (ep : loc) : loc := ep.

(** [NodeRef::upgrade], [TopicRef::upgrade], [LocalEndpointRef::upgrade]. *)
Definition NodeRef_upgrade (l : loc) (s : Arcs) : option Arcs := upgrade l s.
Definition TopicRef_upgrade (l : loc) (s : Arcs) : option Arcs := upgrade l s.
Definition LocalEndpointRef_upgrade (l : loc) (s : Arcs) : option Arcs := upgrade l s.

(** [LocalEndpoint::node], [LocalEndpoint::topic]. *)
Definition endpoint_node (ep : loc) (s : Arcs) : option Arcs :=
  match objects s !! ep with Some (EndpointObject _ _ node _) => NodeRef_upgrade node s | _ => None end.
Definition endpoint_topic (ep : loc) (s : Arcs) : option Arcs :=
  match objects s !! ep with Some (EndpointObject _ _ _ topic) => TopicRef_upgrade topic s | _ => None end.

(** [TopicInner::get_local_ep]: a weak handle, of an endpoint that may have gone. *)
Definition get_local_ep (topic : loc) (addr : EndpointAddr) (s : Arcs) : option loc :=
  match objects s !! topic with Some (TopicObject _ _ eps) => eps !! addr | _ => None end.

(** [Topic {inner: Arc::new(..)}] and its insertion into the node's table, in
    [apply_load_topic] and [sync_node_from_snapshot]: an older handle of the code is
    dropped from the table. *)
Definition insert_topic (node : loc) (code : TopicCode) (s : Arcs) : Arcs :=
  match objects s !! node with
  | Some (NodeObject topics) =>
      let t := next_object s in
      let s := alloc (TopicObject code node ∅) s in
      set_objects (<[node := NodeObject (<[code := t]> topics)]> (objects s)) s
  | _ => s
  end.

(** The endpoint of [Topic::create_endpoint], and its entry in the topic. *)
Definition new_endpoint (topic : loc) (address : EndpointAddr) (s : Arcs) : Arcs :=
  match objects s !! topic with
  | Some (TopicObject code node _) =>
      add_handle (next_object s) (alloc (EndpointObject code address (node_ref node) (topic_reference topic)) s)
  | _ => s
  end.
Definition register_local (topic : loc) (address : EndpointAddr) (e : loc) (s : Arcs) : Arcs :=
  match objects s !! topic with
  | Some (TopicObject code node eps) =>
      set_objects (<[topic := TopicObject code node (<[address := endpoint_reference e]> eps)]> (objects s)) s
  | _ => s
  end.
(** The entry goes with [Topic::delete_endpoint] only. *)
Definition unregister_local (topic : loc) (address : EndpointAddr) (s : Arcs) : Arcs :=
  match objects s !! topic with
  | Some (TopicObject code node eps) =>
      set_objects (<[topic := TopicObject code node (delete address eps)]> (objects s)) s
  | _ => s
  end.

(** An object whose count is zero goes, with its fields; [Drop for
    LocalEndpointInner] comes first, and spawns a task that holds the topic. *)
Definition free (l : loc) (s : Arcs) : option Arcs :=
  match objects s !! l with
  | None => None
  | Some o =>
      if decide (strong_count l s = 0) then
        let s := match o with
                 | EndpointObject code address _ topic =>
                     match TopicRef_upgrade topic s with
                     | Some s => mkArcs (objects s) (next_object s) (handles s) (offline_tasks s ++ [(code, address)])
                     | None => s
                     end
                 | _ => s
                 end in
        Some (set_objects (delete l (objects s)) s)
      else None
  end.

Inductive arc_step (s : Arcs) : Arcs -> Prop :=
  | step_new_node : arc_step s (add_handle (next_object s) (alloc (NodeObject ∅) s))
  | step_clone l : l ∈ handles s -> arc_step s (add_handle l s)
  | step_drop i : arc_step s (mkArcs (objects s) (next_object s) (delete i (handles s)) (offline_tasks s))
  | step_upgrade l s' : upgrade l s = Some s' -> arc_step s s'
  | step_lookup node topics code t :
      (** [Node::get_topic] clones out of the table *)
      objects s !! node = Some (NodeObject topics) -> topics !! code = Some t -> arc_step s (add_handle t s)
  | step_insert_topic node code : arc_step s (insert_topic node code s)
  | step_new_endpoint topic address : arc_step s (new_endpoint topic address s)
  | step_register topic address e : arc_step s (register_local topic address e s)
  | step_unregister topic address : arc_step s (unregister_local topic address s)
  | step_free l s' : free l s = Some s' -> arc_step s s'.

(** Addresses are not used again. *)
Definition arcs_ok (s : Arcs) : Prop := forall l, is_Some (objects s !! l) -> l < next_object s.

(** The node has a topic in its table, which holds the node. *)
Definition holds_topic (node : loc) (code : TopicCode) (s : Arcs) : Prop :=
  exists topics t code' eps, objects s !! node = Some (NodeObject topics) /\ topics !! code = Some t /\
    objects s !! t = Some (TopicObject code' node eps).

(** ** Facts *)

Lemma count_in l ls : l ∈ ls -> count l ls <> 0.
Proof.
  intros Hl Hc. apply nil_length_inv in Hc. assert (l ∈ filter (fun x => x = l) ls) as Hf by by apply list_elem_of_filter.
  rewrite Hc in Hf. by apply elem_of_nil in Hf.
Qed.

(** What another object holds has a count. *)
Lemma held_counts l k o s : objects s !! k = Some o -> l ∈ strong_refs o -> strong_count l s <> 0.
Proof.
  intros Hk Hl. apply count_in in Hl. unfold strong_count.
  assert (o ∈ (map_to_list (objects s)).*2) as Ho.
  { apply list_elem_of_fmap. exists (k, o). split; [done|]. by apply elem_of_map_to_list. }
  apply list_elem_of_split in Ho as (l1 & l2 & ->). rewrite sum_list_with_app. cbn. lia.
Qed.

Lemma topic_counts node code s : holds_topic node code s ->
  exists topics t, objects s !! node = Some (NodeObject topics) /\ topics !! code = Some t /\
    strong_count node s <> 0 /\ strong_count t s <> 0 /\ is_Some (objects s !! t).
Proof.
  intros (topics & t & code' & eps & Hn & Hc & Ht). exists topics, t. split_and!; [done..| | |by rewrite Ht].
  - eapply held_counts; [exact Ht|]. cbn. set_solver.
  - eapply held_counts; [exact Hn|]. cbn. apply list_elem_of_fmap. exists (code, t). split; [done|]. by apply elem_of_map_to_list.
Qed.

Lemma upgrade_objects l s s' : upgrade l s = Some s' -> objects s' = objects s /\ next_object s' = next_object s.
Proof. unfold upgrade. destruct (objects s !! l); [|done]. case_decide; [done|]. by intros [= <-]. Qed.

Lemma free_objects l s s' : free l s = Some s' ->
  strong_count l s = 0 /\ objects s' = delete l (objects s) /\ next_object s' = next_object s.
Proof.
  unfold free. destruct (objects s !! l) as [o|]; [|done]. case_decide as Hc; [|done]. intros [= <-].
  split; [done|]. destruct o as [|?|code address n topic]; [done..|]. destruct (TopicRef_upgrade topic s) as [s1|] eqn:Hu; [|done].
  apply upgrade_objects in Hu as [Ho Hn]. cbn. by rewrite Ho, Hn.
Qed.

(** What a step does to the objects: one goes, one comes, or one changes without
    changing whom it holds, except for the table of a node. *)
Lemma arc_step_ok s s' : arcs_ok s -> arc_step s s' -> arcs_ok s'.
Proof.
  intros Hok. assert (forall o, arcs_ok (alloc o s)) as Halloc.
  { intros o l. cbn. rewrite lookup_insert_is_Some. intros [<-|[_ ?%Hok]]; lia. }
  destruct 1 as [|l _|i|l s' Hu|node topics code t _ _|node code|topic address|topic address e|topic address|l s' Hf]; try exact Hok.
  - apply (Halloc (NodeObject ∅)).
  - intros k Hk. apply upgrade_objects in Hu as [Ho ->]. rewrite Ho in Hk. by apply Hok.
  - unfold insert_topic. destruct (objects s !! node) as [[topics| |]|] eqn:Hn; try exact Hok.
    intros k. cbn. rewrite lookup_insert_is_Some. intros [<-|[_ Hk]]; [|by apply (Halloc (TopicObject code node ∅))].
    assert (node < next_object s) by (apply Hok; by rewrite Hn). lia.
  - unfold new_endpoint. destruct (objects s !! topic) as [[|code node eps|]|]; try exact Hok. apply Halloc.
  - unfold register_local. destruct (objects s !! topic) as [[|code node eps|]|] eqn:Ht; try exact Hok.
    intros k. cbn. rewrite lookup_insert_is_Some. intros [<-|[_ ?]]; apply Hok; by rewrite ?Ht.
  - unfold unregister_local. destruct (objects s !! topic) as [[|code node eps|]|] eqn:Ht; try exact Hok.
    intros k. cbn. rewrite lookup_insert_is_Some. intros [<-|[_ ?]]; apply Hok; by rewrite ?Ht.
  - apply free_objects in Hf as (_ & Ho & Hn). intros k. rewrite Hn, Ho, lookup_delete_is_Some. intros [_ ?]. by apply Hok.
Qed.

Lemma holds_same node code s s' : (forall l, is_Some (objects s !! l) -> objects s' !! l = objects s !! l) ->
  holds_topic node code s -> holds_topic node code s'.
Proof.
  intros Hs (topics & t & code' & eps & Hn & Hc & Ht). exists topics, t, code', eps.
  rewrite !Hs by (rewrite ?Hn, ?Ht; done). done.
Qed.

Lemma holds_topic_step node code s s' : arcs_ok s -> arc_step s s' -> holds_topic node code s -> holds_topic node code s'.
Proof.
  intros Hok Hstep Hh. assert (forall o l, is_Some (objects s !! l) -> objects (alloc o s) !! l = objects s !! l) as Halloc.
  { intros o l Hl. cbn. rewrite lookup_insert_ne; [done|]. apply Hok in Hl. lia. }
  assert (forall topic c n eps eps', objects s !! topic = Some (TopicObject c n eps) ->
    holds_topic node code (set_objects (<[topic := TopicObject c n eps']> (objects s)) s)) as Hlocal.
  { intros topic c n eps eps' Htopic. destruct Hh as (topics & t & code' & eps0 & Hn & Hc & Ht).
    assert (node <> topic) by congruence. exists topics, t, code'. destruct (decide (t = topic)) as [->|].
    - exists eps'. cbn. rewrite lookup_insert_ne, lookup_insert_eq by done. by simplify_eq.
    - exists eps0. cbn. by rewrite !lookup_insert_ne. }
  destruct Hstep as [|l _|i|l s' Hu|n topics code0 t _ _|n code0|topic address|topic address e|topic address|l s' Hf]; try exact Hh.
  - by eapply holds_same; [apply (Halloc (NodeObject ∅))|].
  - eapply holds_same; [|exact Hh]. intros k _. apply upgrade_objects in Hu as [-> _]. done.
  - unfold insert_topic. destruct (objects s !! n) as [[topics| |]|] eqn:Hobj; try exact Hh.
    destruct Hh as (topics0 & t & code' & eps & Hn & Hc & Ht).
    assert (n < next_object s) by (apply Hok; by rewrite Hobj). assert (t < next_object s) by (apply Hok; by rewrite Ht).
    assert (node < next_object s) by (apply Hok; by rewrite Hn).
    destruct (decide (n = node)) as [->|].
    + simplify_eq. destruct (decide (code0 = code)) as [->|].
      * exists (<[code := next_object s]> topics0), (next_object s), code, ∅. cbn.
        rewrite !lookup_insert_eq, lookup_insert_ne, lookup_insert_eq by lia. done.
      * exists (<[code0 := next_object s]> topics0), t, code', eps. cbn.
        rewrite lookup_insert_eq, (lookup_insert_ne topics0), !lookup_insert_ne by (done || lia || congruence). done.
    + exists topics0, t, code', eps. cbn. rewrite !lookup_insert_ne by (done || lia || congruence). done.
  - unfold new_endpoint. destruct (objects s !! topic) as [[|c n eps|]|]; try exact Hh. by eapply holds_same; [apply Halloc|].
  - unfold register_local. destruct (objects s !! topic) as [[|c n eps|]|] eqn:Htopic; try exact Hh. by eapply Hlocal.
  - unfold unregister_local. destruct (objects s !! topic) as [[|c n eps|]|] eqn:Htopic; try exact Hh. by eapply Hlocal.
  - apply free_objects in Hf as (Hz & Ho & _). destruct (topic_counts node code s Hh) as (topics0 & t0 & Hn0 & Hc0 & Hcn & Hct & _).
    destruct Hh as (topics & t & code' & eps & Hn & Hc & Ht). simplify_eq. exists topics, t, code', eps.
    rewrite Ho, !lookup_delete_ne by congruence. done.
Qed.

(** What has gone does not come back. *)
Lemma gone_step e s s' : e < next_object s -> objects s !! e = None -> arc_step s s' ->
  e < next_object s' /\ objects s' !! e = None.
Proof.
  intros Hlt Hgone. assert (forall l o o' m, objects s !! l = Some o -> m !! e = None -> (<[l := o']> m : gmap loc Object) !! e = None) as Hins.
  { intros l o o' m Hl Hm. rewrite lookup_insert_ne; [done|congruence]. }
  assert (forall o, objects (alloc o s) !! e = None) as Halloc by (intros o; cbn; rewrite lookup_insert_ne by lia; done).
  destruct 1 as [|l _|i|l s' Hu|n topics code0 t _ _|n code0|topic address|topic address e0|topic address|l s' Hf]; try done.
  - split; [cbn; lia|]. apply (Halloc (NodeObject ∅)).
  - by apply upgrade_objects in Hu as [-> ->].
  - unfold insert_topic. destruct (objects s !! n) as [[topics| |]|] eqn:Hn; try done. split; [cbn; lia|].
    eapply Hins; [exact Hn|apply Halloc].
  - unfold new_endpoint. destruct (objects s !! topic) as [[|c n eps|]|]; try done. split; [cbn; lia|]. apply Halloc.
  - unfold register_local. destruct (objects s !! topic) as [[|c n eps|]|] eqn:Htopic; try done. split; [done|]. by eapply Hins.
  - unfold unregister_local. destruct (objects s !! topic) as [[|c n eps|]|] eqn:Htopic; try done. split; [done|]. by eapply Hins.
  - apply free_objects in Hf as (_ & -> & ->). split; [done|]. by rewrite lookup_delete_None; right.
Qed.

(** ** Properties *)

(** A node is never freed once a topic is loaded.  Its table holds the topic and the
    topic holds the node, and nothing in the program takes a topic out of the table
    for good; so when every handle has been dropped, both are still there, with their
    weak references good. *)
Theorem loaded_node_never_freed (node : loc) (code : TopicCode) (s s' : Arcs)
    (Hok : arcs_ok s) (Hloaded : holds_topic node code s) (Hsteps : rtc arc_step s s') :
  holds_topic node code s' /\ free node s' = None /\ is_Some (NodeRef_upgrade node s').
Proof.
  assert (holds_topic node code s') as Hh.
  { clear -Hok Hloaded Hsteps. induction Hsteps as [s|s s1 s' Hstep _ IH]; [done|].
    apply IH; [by eapply arc_step_ok|by eapply holds_topic_step]. }
  split; [done|]. destruct (topic_counts node code s' Hh) as (topics & t & Hn & _ & Hc & _ & _).
  unfold free, NodeRef_upgrade, upgrade. rewrite Hn, !decide_False by done. by split.
Qed.

(** A local endpoint goes with its last handle.  Its topic, if it is there, is asked
    to take it offline, but the entry of the topic's table stays: it leads to
    nothing from then on. *)
Theorem dropped_endpoint_stays_listed (e topic : loc) (code : TopicCode) (node : loc) (addr : EndpointAddr)
    (eps : gmap EndpointAddr loc) (s s1 s' : Arcs) (Hok : arcs_ok s)
    (He : objects s !! e = Some (EndpointObject code addr node topic))
    (Ht : objects s !! topic = Some (TopicObject code node eps)) (Hlisted : eps !! addr = Some e)
    (Halive : strong_count topic s <> 0) (Hfree : free e s = Some s1) (Hsteps : rtc arc_step s1 s') :
  offline_tasks s1 = offline_tasks s ++ [(code, addr)] /\ topic ∈ handles s1 /\
  get_local_ep topic addr s1 = Some e /\ LocalEndpointRef_upgrade e s' = None.
Proof.
  pose proof (free_objects _ _ _ Hfree) as (Hz & Ho & Hnext).
  assert (offline_tasks s1 = offline_tasks s ++ [(code, addr)] /\ topic ∈ handles s1) as [Hoff Hh].
  { unfold free, TopicRef_upgrade, upgrade in Hfree. rewrite He, Ht, decide_True, decide_False in Hfree by done.
    injection Hfree as <-. split; [done|]. cbn. set_solver. }
  split; [done|]. split; [done|]. split.
  { unfold get_local_ep. rewrite Ho, lookup_delete_ne by congruence. by rewrite Ht. }
  assert (arcs_ok s1) as Hok1.
  { intros l. rewrite Ho, Hnext, lookup_delete_is_Some. intros [_ ?]. by apply Hok. }
  assert (e < next_object s1 /\ objects s1 !! e = None) as Hgone.
  { rewrite Ho, Hnext. split; [apply Hok; by rewrite He|apply lookup_delete_eq]. }
  clear -Hgone Hsteps. unfold LocalEndpointRef_upgrade, upgrade. assert (objects s' !! e = None) as ->; [|done].
  induction Hsteps as [s|s s1 s' Hstep _ IH]; [by destruct Hgone|]. destruct Hgone. by eapply IH, gone_step.
Qed.

Section OwnershipWitnesses.
Import Sample.

(** A node with a topic, whose last handle is dropped. *)
Definition loaded : Arcs := insert_topic 0 topic (add_handle 0 (alloc (NodeObject ∅) (mkArcs ∅ 0 [] []))).
Definition unhandled : Arcs := mkArcs (objects loaded) (next_object loaded) [] [].

Lemma loaded_ok : arcs_ok loaded.
Proof.
  eapply arc_step_ok; [|apply step_insert_topic]. eapply arc_step_ok; [|apply step_new_node]. by intros l [? ?].
Qed.

Lemma loaded_holds : holds_topic 0 topic loaded.
Proof. exists {[topic := 1]}, 1, topic, ∅. by split_and!. Qed.

Lemma loaded_node_never_freed_witness :
  handles unhandled = [] /\ holds_topic 0 topic unhandled /\ free 0 unhandled = None /\ is_Some (NodeRef_upgrade 0 unhandled).
Proof.
  split; [reflexivity|]. apply (loaded_node_never_freed 0 topic loaded unhandled loaded_ok loaded_holds).
  apply rtc_once. exact (step_drop loaded 0).
Defined.

(** An endpoint of the topic, registered, and its handle dropped. *)
Definition served : Arcs := register_local 1 (ep x05) 2 (new_endpoint 1 (ep x05) loaded).
Definition left_alone : Arcs := mkArcs (objects served) (next_object served) [0] [].
Definition after_drop : Arcs := default left_alone (free 2 left_alone).

Lemma dropped_endpoint_stays_listed_witness :
  offline_tasks after_drop = offline_tasks left_alone ++ [(topic, ep x05)] /\ 1 ∈ handles after_drop /\
  get_local_ep 1 (ep x05) after_drop = Some 2 /\ LocalEndpointRef_upgrade 2 after_drop = None.
Proof.
  apply (dropped_endpoint_stays_listed 2 1 topic 0 (ep x05) {[ep x05 := 2]} left_alone after_drop after_drop);
    [|reflexivity|reflexivity|reflexivity|discriminate|reflexivity|apply rtc_refl].
  pose proof (arc_step_ok _ _ loaded_ok (step_new_endpoint loaded 1 (ep x05))) as Hok.
  exact (arc_step_ok _ _ Hok (step_register _ 1 (ep x05) 2)).
Defined.
End OwnershipWitnesses.
