(* ===== verification/Rpc.v ===== *)
(** * Requests matched with their responses

    The Raft transport and the edge clients use one scheme: a request takes the
    next sequence number, the caller's oneshot sender waits in a pool under that
    number, and the response that carries the number back takes the sender out of
    the pool and answers the caller.  This file states once what the scheme keeps,
    for the components that implement it: nothing here is a definition of theirs. *)

From S2P Require Import Prelude.

Section Rpc.
Context {Req Resp : Type}.
(** Which responses answer the request that a caller has made: told by the caller,
    as two callers may well make the same request. *)
Context (answers : nat -> Req -> Resp -> Prop).

(** The pool of waiting callers, the request each caller has made, the responses
    callers have got, the requests and the responses on their way. *)
Implicit Types (pool : gmap Z nat) (asked : gmap nat Req) (answered : gmap nat Resp).
Implicit Types (requests : list (Z * Req)) (responses : list (Z * Resp)).

Record correlated pool asked answered requests responses : Prop := mkCorrelated {
  (** a number is on its way once *)
  cor_once : NoDup (requests.*1 ++ responses.*1);
  (** a waiting caller has asked, has no answer yet, and waits under one number *)
  cor_waiting : forall k c, pool !! k = Some c -> is_Some (asked !! c) /\ answered !! c = None;
  cor_inj : forall k1 k2 c, pool !! k1 = Some c -> pool !! k2 = Some c -> k1 = k2;
  (** what is on its way belongs to a waiting caller *)
  cor_request : forall k req, (k, req) ∈ requests -> exists c, pool !! k = Some c /\ asked !! c = Some req;
  cor_response : forall k resp, (k, resp) ∈ responses ->
    exists c req, pool !! k = Some c /\ asked !! c = Some req /\ answers c req resp;
  (** an answer answers the caller's request *)
  cor_answer : forall c resp, answered !! c = Some resp -> exists req, asked !! c = Some req /\ answers c req resp;
}.

Lemma correlated_empty : correlated ∅ ∅ ∅ [] [].
Proof. split; [constructor| | | | |]; intros *; rewrite ?lookup_empty; set_solver. Qed.

(** A call: a fresh number and a fresh channel. *)
Lemma correlated_call pool asked answered requests responses k c req :
  correlated pool asked answered requests responses ->
  pool !! k = None -> asked !! c = None ->
  correlated (<[k := c]> pool) (<[c := req]> asked) answered ((k, req) :: requests) responses.
Proof.
  intros [Ho Hw Hi Hreq Hresp Ha] Hk Hc.
  assert (forall k' c', pool !! k' = Some c' -> c' <> c) as Hne by (intros k' c' [[] _]%Hw ->; congruence).
  split.
  - cbn. constructor; [|done]. rewrite elem_of_app, !list_elem_of_fmap.
    intros [([k' req'] & [= <-] & (c' & Hp & _)%Hreq)|([k' resp'] & [= <-] & (c' & ? & Hp & _)%Hresp)]; congruence.
  - intros k' c'. rewrite lookup_insert_Some. intros [[<- <-]|[? Hp]].
    + rewrite lookup_insert_eq. split; [eauto|]. destruct (answered !! c) eqn:Hans; [|done].
      apply Ha in Hans as (? & ? & _). congruence.
    + rewrite lookup_insert_ne by (intros <-; by eapply Hne). by apply Hw in Hp.
  - intros k1 k2 c'. rewrite !lookup_insert_Some. intros [[<- <-]|[? Hp1]] [[<- ?]|[? Hp2]]; subst; try done.
    + by apply Hne in Hp2.
    + by apply Hne in Hp1.
    + by eapply Hi.
  - intros k' req' [[= -> ->]|(c' & Hp & Hasked)%Hreq]%elem_of_cons.
    + exists c. by rewrite !lookup_insert_eq.
    + exists c'. rewrite !lookup_insert_ne; [done| |]; intros <-; [by eapply Hne|congruence].
  - intros k' resp (c' & req' & Hp & Hasked & Hans)%Hresp. exists c', req'.
    rewrite !lookup_insert_ne; [done| |]; intros <-; [by eapply Hne|congruence].
  - intros c' resp (req' & Hasked & Hans)%Ha. exists req'. rewrite lookup_insert_ne; [done|]. intros <-. congruence.
Qed.

(** A caller whose request never leaves. *)
Lemma correlated_ask pool asked answered requests responses c req :
  correlated pool asked answered requests responses -> asked !! c = None ->
  correlated pool (<[c := req]> asked) answered requests responses.
Proof.
  intros [Ho Hw Hi Hreq Hresp Ha] Hc.
  assert (forall c' req', asked !! c' = Some req' -> <[c := req]> asked !! c' = Some req') as Hold
    by (intros c' req' ?; rewrite lookup_insert_ne; [done|congruence]).
  split; [done| |done| | |].
  - intros k c' [[req' ?] ?]%Hw. eauto.
  - intros k req' (c' & ? & ?)%Hreq. eauto.
  - intros k resp (c' & req' & ? & ? & ?)%Hresp. exists c', req'. eauto.
  - intros c' resp (req' & ? & ?)%Ha. eauto.
Qed.

(** A request is served: its answer takes its place on the way. *)
Lemma correlated_serve pool asked answered requests responses k req resp :
  correlated pool asked answered ((k, req) :: requests) responses ->
  (forall c, pool !! k = Some c -> answers c req resp) ->
  correlated pool asked answered requests ((k, resp) :: responses).
Proof.
  intros [Ho Hw Hi Hreq Hresp Ha] Hans. split; [|done|done| | |done].
  - cbn in *. eapply NoDup_Permutation_proper; [|exact Ho]. by rewrite Permutation_middle.
  - intros k' req' Hin. apply Hreq. by right.
  - intros k' resp' [[= -> ->]|Hin]%elem_of_cons; [|by apply Hresp].
    destruct (Hreq k req) as (c & ? & ?); [by left|]. exists c, req. eauto.
Qed.

(** A response arrives: the caller under its number is answered. *)
Lemma correlated_receive pool asked answered requests responses k resp :
  correlated pool asked answered requests ((k, resp) :: responses) ->
  exists c req, pool !! k = Some c /\ asked !! c = Some req /\ answers c req resp /\ answered !! c = None /\
    correlated (delete k pool) asked (<[c := resp]> answered) requests responses.
Proof.
  intros [Ho Hw Hi Hreq Hresp Ha]. destruct (Hresp k resp) as (c & req & Hk & Hc & Hans); [by left|].
  destruct (Hw k c Hk) as [_ Hnone]. exists c, req. split_and!; [done..|].
  cbn in Ho. rewrite <-Permutation_middle in Ho. apply NoDup_cons in Ho as [Hfresh Ho].
  rewrite elem_of_app, !list_elem_of_fmap in Hfresh.
  assert (forall k', k' <> k -> delete k pool !! k' = pool !! k') as Hdel by (intros; by rewrite lookup_delete_ne).
  split.
  - done.
  - intros k' c'. rewrite lookup_delete_Some. intros [Hne Hp]. rewrite lookup_insert_ne; [by eapply Hw|].
    intros <-. by apply Hne, (Hi k k' c).
  - intros k1 k2 c'. rewrite !lookup_delete_Some. intros [_ ?] [_ ?]. by eapply Hi.
  - intros k' req' Hin. rewrite Hdel; [by apply Hreq|]. intros ->. apply Hfresh. left. by exists (k, req').
  - intros k' resp' Hin. rewrite Hdel; [apply Hresp; by right|]. intros ->. apply Hfresh. right. by exists (k, resp').
  - intros c' resp'. rewrite lookup_insert_Some. intros [[<- <-]|[_ Hp]]; [by exists req|by apply Ha].
Qed.

(** What is on its way may be lost. *)
Lemma correlated_lose pool asked answered requests responses requests' responses' :
  requests' ⊆+ requests -> responses' ⊆+ responses ->
  correlated pool asked answered requests responses -> correlated pool asked answered requests' responses'.
Proof.
  intros [lq Hq]%submseteq_Permutation [lr Hr]%submseteq_Permutation [Ho Hw Hi Hreq Hresp Ha].
  split; [|done|done| | |done].
  - rewrite Hq, Hr, !fmap_app in Ho. revert Ho. rewrite !NoDup_app. set_solver.
  - intros k req Hin. apply Hreq. rewrite Hq. set_solver.
  - intros k resp Hin. apply Hresp. rewrite Hr. set_solver.
Qed.
End Rpc.
