(* ===== verification/RaftNetwork.v ===== *)
(** * The Raft transport between nodes

    [server/src/protocol/node/raft/{network,network_factory}.rs] and
    [Node::propose]: packets and their frames, a connection with its pool of
    waiting callers, the two tasks that serve it, the table of connections a node
    keeps and the rule that says which node opens one, and the client side of the
    Raft calls.  openraft's messages and its answers, bincode and the TCP dialling
    are third-party code and parameters. *)

From S2P Require Import Prelude Ids Interest Message Proposal Rpc.

(** ** Messages (network.rs) *)

(** openraft's requests, responses and error type. *)
Class RaftWire : Type := {
  VoteRequest : Type;
  VoteResponse : Type;
  AppendEntriesRequest : Type;
  AppendEntriesResponse : Type;
  InstallSnapshotRequest : Type;
  InstallSnapshotResponse : Type;
  ClientWriteResponse : Type;
  RaftError : Type;
}.

Section Messages.
Context `{RaftWire}.

Inductive Request : Type :=
  | ReqVote (vote : VoteRequest)
  | ReqAppendEntries (append : AppendEntriesRequest)
  | ReqInstallSnapshot (install : InstallSnapshotRequest)
  | ReqProposal (proposal : Proposal).

Inductive Response : Type :=
  | RespVote (r : Result VoteResponse RaftError)
  | RespAppendEntries (r : Result AppendEntriesResponse RaftError)
  | RespInstallSnapshot (r : Result InstallSnapshotResponse RaftError)
  | RespProposal (r : Result ClientWriteResponse RaftError).

Inductive Payload : Type :=
  | PayloadRequest (req : Request)
  | PayloadResponse (resp : Response).

Record Packet : Type := mkPacket { seq_id : Z; payload : Payload }.
End Messages.

(** ** Frames: a [u64] number, a [u32] length and the bincode of the payload *)

Section Frames.
Context `{RaftWire}.
(** bincode on payloads. *)
Context (serialize : Payload -> list u8) (deserialize : list u8 -> option Payload).

(** What the write loop puts on the stream for a packet. *)
Definition write_packet (p : Packet) : list u8 :=
  let bytes := serialize (payload p) in
  to_be_bytes 8 (seq_id p) ++ to_be_bytes 4 (as_u32 (Z.of_nat (length bytes))) ++ bytes.

(** [read_exact] on what the stream still has: [None] at an early end. *)
Definition read_exact (n : nat) (bs : list u8) : option (list u8 * list u8) :=
  if decide (n <= length bs) then Some (take n bs, drop n bs) else None.

(** The read loop on a stream that ends: the packets it handles, in order; a
    payload that does not decode is skipped, an early end stops the task.  Every
    round reads twelve bytes, so the stream's length bounds the rounds. *)
Fixpoint read_loop (fuel : nat) (bs : list u8) : Outcome (list Packet) :=
  match fuel with
  | 0 => OutOfFuel
  | S fuel =>
      match read_exact 8 bs with
      | None => Done []
      | Some (seq, bs) =>
          match read_exact 4 bs with
          | None => Done []
          | Some (len, bs) =>
              match read_exact (Z.to_nat (from_be_bytes len)) bs with
              | None => Done []
              | Some (data, bs) =>
                  rest ← read_loop fuel bs;
                  Done (match deserialize data with
                        | Some payload => mkPacket (from_be_bytes seq) payload :: rest
                        | None => rest
                        end)
              end
          end
      end
  end.
End Frames.

(** ** A connection (network_factory.rs) *)

Record RaftNodeInfo : Type := mkNodeInfo { info_id : NodeId; info_addr : string }.

(** [Unreachable], with the error it wraps. *)
Inductive Unreachable : Type :=
  | ConnectionNotEstablished
  | SendFailed
  | ConnectFailed (e : string).

Section Connection.
Context `{RaftWire}.

(** A connection's fields: [packet_tx] is the channel to the write task, with
    whether its receiver has gone; the join handles are not modelled.  Its callers'
    receivers are [receivers]: a channel without a response yet is [None]. *)
Record RaftTcpConnection : Type := mkConnection {
  peer : RaftNodeInfo;
  packet_tx : list Packet;
  tx_closed : bool;
  wait_poll : gmap Z loc;
  local_seq : Z;
  alive : bool;
  receivers : gmap loc (option Response);
  next_receiver : loc;
}.

Definition connection_new (peer : RaftNodeInfo) : RaftTcpConnection :=
  mkConnection peer [] false ∅ 0 true ∅ 0.

Definition set_packet_tx (l : list Packet) (c : RaftTcpConnection) : RaftTcpConnection :=
  mkConnection (peer c) l (tx_closed c) (wait_poll c) (local_seq c) (alive c) (receivers c) (next_receiver c).

(** [next_seq]: [fetch_add] on an [AtomicU64] wraps. *)
Definition next_seq (c : RaftTcpConnection) : Z * RaftTcpConnection :=
  (local_seq c, mkConnection (peer c) (packet_tx c) (tx_closed c) (wait_poll c)
     ((local_seq c + 1) mod 2 ^ 64)%Z (alive c) (receivers c) (next_receiver c)).

(** [send_request]: the caller's sender goes into the pool before the packet to the
    write task; if that task has gone, a detached task takes the sender out again. *)
Definition send_request (req : Request) (c : RaftTcpConnection) : Result loc Unreachable * RaftTcpConnection :=
  let '(seq_id, c) := next_seq c in
  let packet := mkPacket seq_id (PayloadRequest req) in
  let receiver := next_receiver c in
  let pool := <[seq_id := receiver]> (wait_poll c) in
  let c := mkConnection (peer c) (packet_tx c) (tx_closed c) pool (local_seq c) (alive c)
             (<[receiver := None]> (receivers c)) (S receiver) in
  if tx_closed c then
    (Err SendFailed, mkConnection (peer c) (packet_tx c) (tx_closed c) (delete seq_id pool) (local_seq c) (alive c)
                       (receivers c) (next_receiver c))
  else (Ok receiver, set_packet_tx (packet_tx c ++ [packet]) c).

(** The [Payload::Response] arm of the read loop. *)
Definition receive_response (seq_id : Z) (resp : Response) (c : RaftTcpConnection) : RaftTcpConnection :=
  match wait_poll c !! seq_id with
  | Some sender =>
      mkConnection (peer c) (packet_tx c) (tx_closed c) (delete seq_id (wait_poll c)) (local_seq c) (alive c)
        (<[sender := Some resp]> (receivers c)) (next_receiver c)
  | None => c
  end.

(** What the Raft of a node answers to each kind of request. *)
Record RaftApi : Type := mkRaftApi {
  raft_vote : VoteRequest -> Result VoteResponse RaftError;
  raft_append_entries : AppendEntriesRequest -> Result AppendEntriesResponse RaftError;
  raft_install_snapshot : InstallSnapshotRequest -> Result InstallSnapshotResponse RaftError;
  raft_client_write : Proposal -> Result ClientWriteResponse RaftError;
}.

(** The body of the task spawned for a request. *)
Definition serve (raft : RaftApi) (req : Request) : Response :=
  match req with
  | ReqVote vote => RespVote (raft_vote raft vote)
  | ReqAppendEntries append => RespAppendEntries (raft_append_entries raft append)
  | ReqInstallSnapshot install => RespInstallSnapshot (raft_install_snapshot raft install)
  | ReqProposal proposal => RespProposal (raft_client_write raft proposal)
  end.

(** The end of that task: its packet goes to the write task, if there is one. *)
Definition send_response (seq_id : Z) (resp : Response) (c : RaftTcpConnection) : RaftTcpConnection :=
  if tx_closed c then c else set_packet_tx (packet_tx c ++ [mkPacket seq_id (PayloadResponse resp)]) c.

(** The end of the read task, for whatever reason: the pool keeps its callers. *)
Definition read_task_end (c : RaftTcpConnection) : RaftTcpConnection :=
  mkConnection (peer c) (packet_tx c) (tx_closed c) (wait_poll c) (local_seq c) false (receivers c) (next_receiver c).

(** The end of the write task drops the channel with what is in it; of what
    [packet_tx] holds, the first packets may be on the stream already.  The
    connection counts as alive all the same. *)
Definition write_task_end (on_stream : nat) (c : RaftTcpConnection) : RaftTcpConnection :=
  mkConnection (peer c) (take on_stream (packet_tx c)) true (wait_poll c) (local_seq c) (alive c) (receivers c)
    (next_receiver c).

(** ** The calls (network.rs) *)

(** What [vote], [append_entries] and [install_snapshot] of [TcpNetwork] make of the
    response they have waited for, and [propose] of [RaftTcpConnection]: the first
    three call [unreachable!] on a response of another kind. *)
Inductive CallResult : Type :=
  | VoteResult (r : Result VoteResponse RaftError)
  | AppendEntriesResult (r : Result AppendEntriesResponse RaftError)
  | InstallSnapshotResult (r : Result InstallSnapshotResponse RaftError)
  | ProposeResult (r : Result ClientWriteResponse RaftError)
  | UnexpectedResponse.

Definition finish_call (req : Request) (resp : Response) : Outcome CallResult :=
  match req, resp with
  | ReqVote _, RespVote r => Done (VoteResult r)
  | ReqVote _, _ => Panic
  | ReqAppendEntries _, RespAppendEntries r => Done (AppendEntriesResult r)
  | ReqAppendEntries _, _ => Panic
  | ReqInstallSnapshot _, RespInstallSnapshot r => Done (InstallSnapshotResult r)
  | ReqInstallSnapshot _, _ => Panic
  | ReqProposal _, RespProposal r => Done (ProposeResult r)
  | ReqProposal _, _ => Done UnexpectedResponse
  end.
End Connection.

(** ** The table of connections *)

(** The derived order of [NodeId]: lexicographic on its bytes. *)
Fixpoint bytes_ltb (a b : list u8) : bool :=
  match a, b with
  | _, [] => false
  | [], _ :: _ => true
  | x :: a, y :: b => (byte_to_Z x <? byte_to_Z y)%Z || ((byte_to_Z x =? byte_to_Z y)%Z && bytes_ltb a b)
  end.
Definition node_id_ltb (a b : NodeId) : bool := bytes_ltb (node_id_bytes a) (node_id_bytes b).

Section Network.
Context `{RaftWire}.

(** [TcpNetworkService]: who this node is, and its connections, by peer; the
    connections themselves are shared and live in [connection_heap]. *)
Record TcpNetworkService : Type := mkService {
  info : RaftNodeInfo;
  connections : gmap NodeId loc;
  connection_heap : gmap loc RaftTcpConnection;
  next_connection : loc;
}.

Definition set_connection (l : loc) (c : RaftTcpConnection) (s : TcpNetworkService) : TcpNetworkService :=
  mkService (info s) (connections s) (<[l := c]> (connection_heap s)) (next_connection s).

(** A new connection enters the heap, under its peer's name. *)
Definition insert_connection (c : RaftTcpConnection) (s : TcpNetworkService) : TcpNetworkService :=
  let l := next_connection s in
  mkService (info s) (<[info_id (peer c) := l]> (connections s)) (<[l := c]> (connection_heap s)) (S l).

(** The accept loop, on a connection whose handshake has succeeded: it is kept only
    from a node with a smaller id that has no entry yet, and dropped otherwise. *)
Definition accept_connection (c : RaftTcpConnection) (s : TcpNetworkService) : TcpNetworkService :=
  if negb (node_id_ltb (info_id (peer c)) (info_id (info s))) then s
  else match connections s !! info_id (peer c) with
       | None => insert_connection c s
       | Some _ => s
       end.

(** [TcpNetwork::create_connection]: dialling the peer and shaking hands. *)
Context (create_connection : RaftNodeInfo -> Result RaftTcpConnection Unreachable).

(** [connection.is_none() || connection.is_some_and(|c| !c.is_alive())]. *)
Definition is_connected (id : NodeId) (s : TcpNetworkService) : bool :=
  match connections s !! id ≫= fun l => connection_heap s !! l with
  | Some c => alive c
  | None => false
  end.

(** The end of [TcpNetwork::send_request]: the request goes out on the connection
    the table has; the answer names the connection and the receiver on it. *)
Definition send_on_connection (id : NodeId) (req : Request) (s : TcpNetworkService) :
    Result (loc * loc) Unreachable * TcpNetworkService :=
  match connections s !! id with
  | None => (Err ConnectionNotEstablished, s)
  | Some l =>
      match connection_heap s !! l with
      | None => (Err ConnectionNotEstablished, s)
      | Some c =>
          let '(r, c) := send_request req c in
          (match r with Ok receiver => Ok (l, receiver) | Err e => Err e end, set_connection l c s)
      end
  end.

(** [TcpNetwork::send_request] towards a peer. *)
Definition network_send_request (to : RaftNodeInfo) (req : Request) (s : TcpNetworkService) :
    Result (loc * loc) Unreachable * TcpNetworkService :=
  let established :=
    if is_connected (info_id to) s then Ok s
    else if node_id_ltb (info_id to) (info_id (info s)) then Err ConnectionNotEstablished
    else match create_connection to with
         | Err e => Err e
         | Ok c => Ok (insert_connection c s)
         end in
  match established with
  | Err e => (Err e, s)
  | Ok s => send_on_connection (info_id to) req s
  end.

(** ** [Node::propose] *)

Inductive ProposeError : Type :=
  | WaitLeaderFailed (e : string)
  | LocalWriteFailed (e : RaftError)
  | NoConnectionToLeader
  | RemoteSend (e : Unreachable)
  | RemoteDropped
  | RemoteUnexpected
  | RemoteError (e : RaftError)
  | WaitAppliedFailed (e : string).

(** The leader openraft's metrics report, the local write, what comes back on a
    receiver (nothing when its sender is dropped), and the wait until the entry of
    a write is applied. *)
Context (wait_leader : Result NodeId string).
Context (client_write : Proposal -> Result ClientWriteResponse RaftError).
Context (await_receiver : loc -> loc -> option Response).
Context (wait_applied : ClientWriteResponse -> Result () string).

(** [connection.propose]. *)
Definition connection_propose (l : loc) (proposal : Proposal) (s : TcpNetworkService) :
    Result ClientWriteResponse ProposeError * TcpNetworkService :=
  match connection_heap s !! l with
  | None => (Err NoConnectionToLeader, s)
  | Some c =>
      let '(r, c) := send_request (ReqProposal proposal) c in
      let s := set_connection l c s in
      (match r with
       | Err e => Err (RemoteSend e)
       | Ok receiver =>
           match await_receiver l receiver with
           | None => Err RemoteDropped
           | Some resp =>
               match finish_call (ReqProposal proposal) resp with
               | Done (ProposeResult (Ok w)) => Ok w
               | Done (ProposeResult (Err e)) => Err (RemoteError e)
               | _ => Err RemoteUnexpected
               end
           end
       end, s)
  end.

Definition node_propose (proposal : Proposal) (s : TcpNetworkService) : Result () ProposeError * TcpNetworkService :=
  match wait_leader with
  | Err e => (Err (WaitLeaderFailed e), s)
  | Ok leader =>
      let '(r, s) :=
        if decide (info_id (info s) = leader) then
          (match client_write proposal with Ok w => Ok w | Err e => Err (LocalWriteFailed e) end, s)
        else match connections s !! leader with
             | None => (Err NoConnectionToLeader, s)
             | Some l => connection_propose l proposal s
             end in
      match r with
      | Err e => (Err e, s)
      | Ok w =>
          (match wait_applied w with Ok _ => Ok () | Err e => Err (WaitAppliedFailed e) end, s)
      end
  end.
End Network.

(** ** A link: the two ends of a connection and what is between them *)

Section Link.
Context `{RaftWire}.

(** An end: its connection, the tasks that serve the peer's requests, and which
    request each of its receivers was made for. *)
Record Side : Type := mkSide {
  side_conn : RaftTcpConnection;
  side_tasks : list (Z * Request);
  side_asked : gmap loc Request;
}.
Definition set_side_conn (c : RaftTcpConnection) (s : Side) : Side := mkSide c (side_tasks s) (side_asked s).

Record Link : Type := mkLink { left_side : Side; right_side : Side }.
Definition side (b : bool) (l : Link) : Side := if b then left_side l else right_side l.
Definition set_sides (b : bool) (mine theirs : Side) : Link :=
  if b then mkLink mine theirs else mkLink theirs mine.

(** A packet comes out of the stream at an end whose read task runs. *)
Definition read_packet (p : Packet) (s : Side) : Side :=
  if alive (side_conn s) then
    match payload p with
    | PayloadRequest req => mkSide (side_conn s) (side_tasks s ++ [(seq_id p, req)]) (side_asked s)
    | PayloadResponse resp => set_side_conn (receive_response (seq_id p) resp (side_conn s)) s
    end
  else s.

(** The interleavings of a link: an end sends a request; the first packet an end
    has sent reaches the other; a task of an end finishes, in whatever order; the
    read task or the write task of an end ends. *)
Inductive link_event : Type :=
  | EvSend (b : bool) (req : Request)
  | EvDeliver (b : bool)
  | EvFinish (b : bool) (i : nat) (raft : RaftApi)
  | EvReadEnd (b : bool)
  | EvWriteEnd (b : bool) (on_stream : nat).

Definition link_step (ev : link_event) (l : Link) : option Link :=
  match ev with
  | EvSend b req =>
      let s := side b l in
      let '(_, c) := send_request req (side_conn s) in
      Some (set_sides b (mkSide c (side_tasks s) (<[next_receiver (side_conn s) := req]> (side_asked s)))
              (side (negb b) l))
  | EvDeliver b =>
      let s := side b l in
      match packet_tx (side_conn s) with
      | [] => None
      | p :: rest =>
          Some (set_sides b (set_side_conn (set_packet_tx rest (side_conn s)) s) (read_packet p (side (negb b) l)))
      end
  | EvFinish b i raft =>
      let s := side b l in
      match side_tasks s !! i with
      | None => None
      | Some (seq, req) =>
          Some (set_sides b (mkSide (send_response seq (serve raft req) (side_conn s)) (delete i (side_tasks s))
                               (side_asked s)) (side (negb b) l))
      end
  | EvReadEnd b =>
      Some (set_sides b (set_side_conn (read_task_end (side_conn (side b l))) (side b l)) (side (negb b) l))
  | EvWriteEnd b on_stream =>
      Some (set_sides b (set_side_conn (write_task_end on_stream (side_conn (side b l))) (side b l)) (side (negb b) l))
  end.

Fixpoint link_run (evs : list link_event) (l : Link) : option Link :=
  match evs with
  | [] => Some l
  | ev :: evs => l ← link_step ev l; link_run evs l
  end.

Definition side_new (peer : RaftNodeInfo) : Side := mkSide (connection_new peer) [] ∅.
Definition link_new (a b : RaftNodeInfo) : Link := mkLink (side_new b) (side_new a).

(** *** The invariant of a direction *)

(** The requests an end makes, in order: its receivers are numbered as they are. *)
Definition sends_of (b : bool) (evs : list link_event) : list Request :=
  omap (fun ev => match ev with EvSend b' req => if Bool.eqb b b' then Some req else None | _ => None end) evs.

Definition requests_in (l : list Packet) : list (Z * Request) :=
  omap (fun p => match payload p with PayloadRequest req => Some (seq_id p, req) | _ => None end) l.
Definition responses_in (l : list Packet) : list (Z * Response) :=
  omap (fun p => match payload p with PayloadResponse resp => Some (seq_id p, resp) | _ => None end) l.
Definition answered (c : RaftTcpConnection) : gmap loc Response := omap id (receivers c).

Lemma omap_sublist {A B} (f : A -> option B) (l k : list A) : l `sublist_of` k -> omap f l `sublist_of` omap f k.
Proof.
  induction 1 as [|x l k _ IH|x l k _ IH]; cbn; [done| |]; destruct (f x); [by apply sublist_skip|done|by apply sublist_cons|done].
Qed.

(** What answers the requests of [s], by receiver. *)
Section Direction.
Context (answers : loc -> Request -> Response -> Prop).

Record direction (n : Z) (s o : Side) : Prop := mkDirection {
  dir_cor : correlated answers (wait_poll (side_conn s)) (side_asked s) (answered (side_conn s))
    (requests_in (packet_tx (side_conn s)) ++ side_tasks o) (responses_in (packet_tx (side_conn o)));
  dir_seq : (0 <= local_seq (side_conn s) <= n)%Z;
  dir_pool : forall k, is_Some (wait_poll (side_conn s) !! k) -> (0 <= k < local_seq (side_conn s))%Z;
  dir_asked : forall c, is_Some (side_asked s !! c) -> c < next_receiver (side_conn s);
  dir_receivers : forall c, is_Some (receivers (side_conn s) !! c) -> c < next_receiver (side_conn s);
}.

Lemma requests_in_app l1 l2 : requests_in (l1 ++ l2) = requests_in l1 ++ requests_in l2.
Proof. apply omap_app. Qed.
Lemma responses_in_app l1 l2 : responses_in (l1 ++ l2) = responses_in l1 ++ responses_in l2.
Proof. apply omap_app. Qed.

Lemma answered_insert_new c r :
  receivers c !! r = None -> omap id (<[r := None]> (receivers c)) = answered c.
Proof.
  intros Hr. apply map_eq. intros i. unfold answered. rewrite !lookup_omap.
  destruct (decide (i = r)) as [->|]; [by rewrite lookup_insert_eq, Hr|by rewrite lookup_insert_ne].
Qed.

Lemma answered_insert c r resp :
  omap id (<[r := Some resp]> (receivers c)) = <[r := resp]> (answered c).
Proof. unfold answered. by rewrite omap_insert. Qed.

(** An event that touches neither the callers of [s] nor adds to what is on its way
    for them keeps the direction. *)
Lemma direction_less n m s o s' o' :
  direction n s o -> (n <= m)%Z ->
  wait_poll (side_conn s') = wait_poll (side_conn s) -> local_seq (side_conn s') = local_seq (side_conn s) ->
  receivers (side_conn s') = receivers (side_conn s) -> next_receiver (side_conn s') = next_receiver (side_conn s) ->
  side_asked s' = side_asked s ->
  requests_in (packet_tx (side_conn s')) ++ side_tasks o' ⊆+
    requests_in (packet_tx (side_conn s)) ++ side_tasks o ->
  responses_in (packet_tx (side_conn o')) ⊆+ responses_in (packet_tx (side_conn o)) ->
  direction m s' o'.
Proof.
  intros [Hc Hs Hp Ha Hr] Hn Hpool Hseq Hrecv Hnext Hasked Hreq Hresp.
  split; rewrite ?Hpool, ?Hseq, ?Hrecv, ?Hnext, ?Hasked; [|lia|done..].
  unfold answered. rewrite Hrecv. by eapply correlated_lose.
Qed.

Definition send_side (req : Request) (s : Side) : Side :=
  mkSide (snd (send_request req (side_conn s))) (side_tasks s) (<[next_receiver (side_conn s) := req]> (side_asked s)).

Lemma direction_send n s o req : (n + 1 < 2 ^ 64)%Z -> direction n s o -> direction (n + 1) (send_side req s) o.
Proof.
  intros Hn [Hc Hs Hp Ha Hr]. destruct s as [c tasks asked]. unfold send_side, send_request. cbn in *.
  assert (asked !! next_receiver c = None) as Hask
    by (apply eq_None_not_Some; intros ?%Ha; lia).
  assert (receivers c !! next_receiver c = None) as Hrecv
    by (apply eq_None_not_Some; intros ?%Hr; lia).
  assert (wait_poll c !! local_seq c = None) as Hfree
    by (apply eq_None_not_Some; intros ?%Hp; lia).
  rewrite !(Z.mod_small (local_seq c + 1)) by lia.
  destruct (tx_closed c); cbn; (split; cbn; [| lia| | |]).
  - rewrite delete_insert_id by done. unfold answered. cbn. rewrite answered_insert_new by done.
    by apply correlated_ask.
  - intros k. rewrite delete_insert_id by done. intros ?%Hp. lia.
  - intros i. rewrite lookup_insert_is_Some. intros [<-|[_ ?%Ha]]; lia.
  - intros i. rewrite lookup_insert_is_Some. intros [<-|[_ ?%Hr]]; lia.
  - unfold answered. cbn. rewrite answered_insert_new by done.
    rewrite requests_in_app. cbn. eapply correlated_lose; [| |apply correlated_call; done].
    + rewrite <-app_assoc. cbn. by rewrite <-Permutation_middle.
    + done.
  - intros k. rewrite lookup_insert_is_Some. intros [<-|[_ ?%Hp]]; lia.
  - intros i. rewrite lookup_insert_is_Some. intros [<-|[_ ?%Ha]]; lia.
  - intros i. rewrite lookup_insert_is_Some. intros [<-|[_ ?%Hr]]; lia.
Qed.

(** The packet an end has sent first is read by the other end. *)
Definition sent_first (rest : list Packet) (s : Side) : Side := set_side_conn (set_packet_tx rest (side_conn s)) s.

Lemma direction_deliver n s o p rest : packet_tx (side_conn s) = p :: rest ->
  direction n s o -> direction n (sent_first rest s) (read_packet p o).
Proof.
  intros Hq Hd. eapply direction_less; [exact Hd|lia|done..| |].
  - cbn. rewrite Hq. destruct p as [k [req|resp]]; unfold read_packet; destruct (alive (side_conn o)); cbn.
    + rewrite app_assoc. by rewrite Permutation_app_comm.
    + by apply submseteq_cons.
    + done.
    + done.
  - destruct p as [k [req|resp]]; unfold read_packet; destruct (alive (side_conn o)); cbn; try done.
    unfold receive_response. by destruct (wait_poll _ !! _).
Qed.

Lemma direction_receive n s o p rest : packet_tx (side_conn o) = p :: rest ->
  direction n s o -> direction n (read_packet p s) (sent_first rest o).
Proof.
  intros Hq Hd. destruct (alive (side_conn s)) eqn:Halive.
  2: { unfold read_packet. rewrite Halive. eapply direction_less; [exact Hd|lia|done..|].
       cbn. rewrite Hq. destruct p as [k [req|resp]]; cbn; [done|by apply submseteq_cons]. }
  destruct p as [k [req|resp]].
  - unfold read_packet. rewrite Halive. eapply direction_less; [exact Hd|lia|done..|]. cbn. by rewrite Hq.
  - unfold read_packet. rewrite Halive. cbn [payload seq_id]. destruct Hd as [Hc Hs Hp Ha Hr].
    rewrite Hq in Hc. cbn in Hc.
    apply correlated_receive in Hc as (c & req & Hk & Hask & Hans & Hnone & Hc).
    unfold receive_response. rewrite Hk. split; cbn; [|done| |done|].
    + unfold answered. cbn. by rewrite answered_insert.
    + intros k'. rewrite lookup_delete_is_Some. intros [_ ?]. by apply Hp.
    + intros i. rewrite lookup_insert_is_Some. intros [<-|[_ ?]]; [|by apply Hr]. apply Ha. eauto.
Qed.

(** A task of an end finishes. *)
Definition finished (i : nat) (seq : Z) (resp : Response) (s : Side) : Side :=
  mkSide (send_response seq resp (side_conn s)) (delete i (side_tasks s)) (side_asked s).

Lemma direction_finish_mine n s o i seq resp : direction n s o -> direction n (finished i seq resp s) o.
Proof.
  intros Hd. unfold finished, send_response.
  destruct (tx_closed (side_conn s)); (eapply direction_less; [exact Hd|lia|done..| |done]); [done|].
  cbn. by rewrite requests_in_app, app_nil_r.
Qed.

Lemma direction_finish_theirs n s o i seq req raft : side_tasks o !! i = Some (seq, req) ->
  (forall c, wait_poll (side_conn s) !! seq = Some c -> answers c req (serve raft req)) ->
  direction n s o -> direction n s (finished i seq (serve raft req) o).
Proof.
  intros Hi Hans [Hc Hs Hp Ha Hr]. split; [|done..]. unfold finished, send_response. cbn.
  assert (requests_in (packet_tx (side_conn s)) ++ side_tasks o ≡ₚ
    (seq, req) :: requests_in (packet_tx (side_conn s)) ++ delete i (side_tasks o)) as Hperm.
  { rewrite Permutation_middle. f_equiv. by apply delete_Permutation. }
  assert (correlated answers (wait_poll (side_conn s)) (side_asked s) (answered (side_conn s))
    (requests_in (packet_tx (side_conn s)) ++ delete i (side_tasks o))
    ((seq, serve raft req) :: responses_in (packet_tx (side_conn o)))) as Hserved.
  { eapply correlated_serve; [|exact Hans]. eapply correlated_lose; [| |exact Hc]; [by rewrite Hperm|done]. }
  eapply correlated_lose; [| |exact Hserved]; [done|].
  destruct (tx_closed (side_conn o)); [by apply submseteq_cons|]. cbn. rewrite responses_in_app.
  cbn. by rewrite Permutation_app_comm.
Qed.

(** One of the tasks of an end ends: some of what it has sent may be lost. *)
Lemma direction_end_mine n s o c : direction n s o ->
  wait_poll c = wait_poll (side_conn s) -> local_seq c = local_seq (side_conn s) -> receivers c = receivers (side_conn s) ->
  next_receiver c = next_receiver (side_conn s) -> packet_tx c `sublist_of` packet_tx (side_conn s) ->
  direction n (set_side_conn c s) o.
Proof.
  intros Hd ? ? ? ? Hq. eapply direction_less; [exact Hd|lia|done..| |done]. cbn.
  apply submseteq_app; [|done]. by apply sublist_submseteq, omap_sublist.
Qed.

Lemma direction_end_theirs n s o c : direction n s o -> packet_tx c `sublist_of` packet_tx (side_conn o) ->
  direction n s (set_side_conn c o).
Proof. intros Hd Hq. eapply direction_less; [exact Hd|lia|done..|]. by apply sublist_submseteq, omap_sublist. Qed.

Lemma direction_mono n m s o : direction n s o -> (n <= m)%Z -> direction m s o.
Proof. intros [] ?. split; [done|lia|done..]. Qed.
End Direction.

(** Both directions of a link, with what answers the requests of each end. *)
Section LinkOk.
Context (answers : bool -> loc -> Request -> Response -> Prop).

Definition link_correlated (n : Z) (l : Link) : Prop := forall b, direction (answers b) n (side b l) (side (negb b) l).

Lemma link_correlated_set n b mine theirs : link_correlated n (set_sides b mine theirs) <->
  direction (answers b) n mine theirs /\ direction (answers (negb b)) n theirs mine.
Proof.
  unfold link_correlated. destruct b; split; [intros H'|intros [? ?] []|intros H'|intros [? ?] []]; cbn; try done.
Qed.

(** The task an event finishes gives an answer to the caller that waits for it. *)
Definition serves_caller (ev : link_event) (l : Link) : Prop :=
  match ev with
  | EvFinish b i raft =>
      forall seq req c, side_tasks (side b l) !! i = Some (seq, req) ->
        wait_poll (side_conn (side (negb b) l)) !! seq = Some c -> answers (negb b) c req (serve raft req)
  | _ => True
  end.

Lemma link_step_correlated n ev l l' : (n + 1 < 2 ^ 64)%Z -> serves_caller ev l ->
  link_correlated n l -> link_step ev l = Some l' -> link_correlated (n + 1) l'.
Proof.
  intros Hn Hserves Hok Hstep.
  assert (forall b, direction (answers b) n (side b l) (side (negb b) l) /\
    direction (answers (negb b)) n (side (negb b) l) (side b l)) as Hboth.
  { intros b. split; [apply Hok|]. specialize (Hok (negb b)). by rewrite negb_involutive in Hok. }
  destruct ev as [b req|b|b i raft|b|b k]; cbn [link_step] in Hstep; destruct (Hboth b) as [H1' H2'].
  - destruct (send_request req (side_conn (side b l))) as [r c] eqn:Hs. injection Hstep as <-. apply link_correlated_set.
    pose proof (direction_send _ n _ _ req Hn H1') as Hd. unfold send_side in Hd. rewrite Hs in Hd. split; [exact Hd|].
    eapply direction_less; [exact H2'|lia|done..|]. cbn.
    unfold send_request in Hs. cbn in Hs. destruct (tx_closed _); injection Hs as <- <-; cbn; [done|].
    by rewrite responses_in_app, app_nil_r.
  - destruct (packet_tx (side_conn (side b l))) as [|p rest] eqn:Hq; [done|]. injection Hstep as <-. apply link_correlated_set.
    split; eapply direction_mono; [by apply direction_deliver|lia|by apply direction_receive|lia].
  - destruct (side_tasks (side b l) !! i) as [[seq req]|] eqn:Hi; [|done]. injection Hstep as <-. apply link_correlated_set.
    split; eapply direction_mono; [by apply (direction_finish_mine _ _ _ _ i seq (serve raft req))|lia|
      apply direction_finish_theirs; [done|by intros c; apply (Hserves seq req c)|done]|lia].
  - injection Hstep as <-. apply link_correlated_set.
    split; eapply direction_mono; [by apply direction_end_mine|lia|by apply direction_end_theirs|lia].
  - injection Hstep as <-. apply link_correlated_set.
    split; eapply direction_mono; [by apply direction_end_mine, sublist_take|lia|
      by apply direction_end_theirs, sublist_take|lia].
Qed.

Lemma link_new_correlated a b : link_correlated 0 (link_new a b).
Proof.
  assert (forall ans p q, direction ans 0 (side_new p) (side_new q)) as Hd.
  { intros ans p q. split; cbn; [|lia|..].
    - unfold answered. cbn. rewrite omap_empty. apply correlated_empty.
    - intros k [? Hk]. by rewrite lookup_empty in Hk.
    - intros k [? Hk]. by rewrite lookup_empty in Hk.
    - intros k [? Hk]. by rewrite lookup_empty in Hk. }
  intros []; apply Hd.
Qed.

Lemma link_run_app evs1 evs2 l : link_run (evs1 ++ evs2) l = l ← link_run evs1 l; link_run evs2 l.
Proof.
  revert l. induction evs1 as [|ev evs1 IH]; intros l; [done|]. cbn.
  destruct (link_step ev l) as [l1|]; [cbn; apply IH|done].
Qed.

Lemma link_run_correlated n evs l l' : (n + Z.of_nat (length evs) < 2 ^ 64)%Z -> link_correlated n l ->
  (forall pre ev post l1, evs = pre ++ ev :: post -> link_run pre l = Some l1 -> serves_caller ev l1) ->
  link_run evs l = Some l' -> link_correlated (n + Z.of_nat (length evs)) l'.
Proof.
  revert n l. induction evs as [|ev evs IH]; intros n l Hn Hok Hserves Hrun; cbn [length] in *.
  - injection Hrun as <-. by rewrite Z.add_0_r.
  - cbn in Hrun. destruct (link_step ev l) as [l1|] eqn:Hs; [|done]. cbn in Hrun.
    replace (n + Z.of_nat (S (length evs)))%Z with (n + 1 + Z.of_nat (length evs))%Z by lia.
    eapply IH; [lia| | |exact Hrun].
    + eapply link_step_correlated; [lia|by apply (Hserves [] ev evs)|exact Hok|exact Hs].
    + intros pre ev' post l2 -> Hpre. apply (Hserves (ev :: pre) ev' post); [done|]. cbn. by rewrite Hs.
Qed.
End LinkOk.

(** Answered by the peer's Raft, whoever waits. *)
Definition link_ok : Z -> Link -> Prop :=
  link_correlated (fun _ _ req resp => exists raft, resp = serve raft req).

Lemma link_step_ok n ev l l' : (n + 1 < 2 ^ 64)%Z -> link_ok n l -> link_step ev l = Some l' -> link_ok (n + 1) l'.
Proof. intros Hn. apply link_step_correlated; [done|]. destruct ev; try done. by intros seq req c _ _; exists raft. Qed.

(** *** Numbers and receivers go together *)

(** A caller waits under the number its receiver has. *)
Definition numbered (s : Side) : Prop :=
  local_seq (side_conn s) = Z.of_nat (next_receiver (side_conn s)) /\
  forall k c, wait_poll (side_conn s) !! k = Some c -> k = Z.of_nat c.

(** The answer [resp] is the one the peer's task gave to request [c] of the end [b],
    which is [req]: the task is the one that has read the packet with that number. *)
Definition own_answer (l0 : Link) (evs : list link_event) (b : bool) (c : loc) (req : Request) (resp : Response) : Prop :=
  sends_of b evs !! c = Some req /\
  exists pre i raft post l, evs = pre ++ EvFinish (negb b) i raft :: post /\ link_run pre l0 = Some l /\
    side_tasks (side (negb b) l) !! i = Some (Z.of_nat c, req) /\ resp = serve raft req.
Lemma link_new_ok a b : link_ok 0 (link_new a b).
Proof. apply link_new_correlated. Qed.

Lemma link_run_ok n evs l l' : (n + Z.of_nat (length evs) < 2 ^ 64)%Z -> link_ok n l -> link_run evs l = Some l' ->
  link_ok (n + Z.of_nat (length evs)) l'.
Proof.
  intros Hn Hok. apply link_run_correlated; [done|done|]. intros pre ev post l1 _ _. destruct ev; try done.
  by intros seq req c _ _; exists raft.
Qed.

Lemma link_step_numbered n ev l l' : (n + 1 < 2 ^ 64)%Z -> (forall b, local_seq (side_conn (side b l)) <= n)%Z ->
  (forall b, numbered (side b l)) -> link_step ev l = Some l' -> forall b, numbered (side b l').
Proof.
  intros Hn Hseq Hnum Hstep.
  assert (forall b s o, numbered s -> numbered o -> forall b', numbered (side b' (set_sides b s o))) as Hset
    by (intros [] s o ? ? []; done).
  assert (forall s s', numbered s -> local_seq (side_conn s') = local_seq (side_conn s) ->
    next_receiver (side_conn s') = next_receiver (side_conn s) -> wait_poll (side_conn s') ⊆ wait_poll (side_conn s) ->
    numbered s') as Hless.
  { intros s s' [H1' H2'] Hs Hx Hp. split; [by rewrite Hs, Hx|]. intros k c Hk. apply H2'. by eapply lookup_weaken. }
  destruct ev as [b req|b|b i raft|b|b k]; cbn [link_step] in Hstep.
  - destruct (send_request req (side_conn (side b l))) as [r c] eqn:Hs. injection Hstep as <-. apply Hset; [|apply Hnum].
    destruct (Hnum b) as [H1' H2']. specialize (Hseq b). unfold send_request in Hs. cbn in Hs.
    assert (numbered (mkSide (mkConnection (peer (side_conn (side b l))) (packet_tx c) (tx_closed c)
      (<[local_seq (side_conn (side b l)) := next_receiver (side_conn (side b l))]> (wait_poll (side_conn (side b l))))
      ((local_seq (side_conn (side b l)) + 1) mod 2 ^ 64)%Z (alive c) (receivers c)
      (S (next_receiver (side_conn (side b l))))) [] ∅)) as Hnew.
    { split; cbn -[Z.pow]; [rewrite Z.mod_small by lia; lia|]. intros k c' [[<- <-]|[_ Hk]]%lookup_insert_Some; [done|by apply H2']. }
    destruct (tx_closed _); injection Hs as <- <-; (eapply Hless; [exact Hnew|done|done|]); cbn; [apply delete_subseteq|done].
  - destruct (packet_tx (side_conn (side b l))) as [|p rest]; [done|]. injection Hstep as <-.
    apply Hset; [by eapply Hless|]. unfold read_packet. destruct (alive _); [|apply Hnum].
    destruct (payload p); [by eapply Hless|]. eapply Hless; [apply (Hnum (negb b))|..];
      cbn; unfold receive_response; destruct (wait_poll _ !! _); try done. apply delete_subseteq.
  - destruct (side_tasks (side b l) !! i) as [[seq req]|]; [|done]. injection Hstep as <-.
    apply Hset; [|apply Hnum]. unfold send_response. destruct (tx_closed _); by eapply Hless.
  - injection Hstep as <-. apply Hset; [by eapply Hless|apply Hnum].
  - injection Hstep as <-. apply Hset; [by eapply Hless|apply Hnum].
Qed.

Lemma link_run_numbered n evs l l' : (n + Z.of_nat (length evs) < 2 ^ 64)%Z -> link_ok n l ->
  (forall b, numbered (side b l)) -> link_run evs l = Some l' -> forall b, numbered (side b l').
Proof.
  revert n l. induction evs as [|ev evs IH]; intros n l Hn Hok Hnum Hrun; cbn [length] in *; [by injection Hrun as <-|].
  cbn in Hrun. destruct (link_step ev l) as [l1|] eqn:Hs; [|done]. cbn in Hrun.
  apply (IH (n + 1)%Z l1); [lia|by eapply link_step_ok; [lia|..]| |done].
  eapply (link_step_numbered n); [lia|intros b; apply (dir_seq _ _ _ _ (Hok b))|done|done].
Qed.

(** What an event does to the calls of an end. *)
Lemma link_step_calls b ev l l' : link_step ev l = Some l' ->
  match sends_of b [ev] with
  | req :: _ => side_asked (side b l') = <[next_receiver (side_conn (side b l)) := req]> (side_asked (side b l)) /\
      next_receiver (side_conn (side b l')) = S (next_receiver (side_conn (side b l)))
  | [] => side_asked (side b l') = side_asked (side b l) /\
      next_receiver (side_conn (side b l')) = next_receiver (side_conn (side b l))
  end.
Proof.
  assert (forall s p, side_asked (read_packet p s) = side_asked s /\
    next_receiver (side_conn (read_packet p s)) = next_receiver (side_conn s)) as Hread.
  { intros s p. unfold read_packet. destruct (alive _); [|done]. destruct (payload p); [done|]. split; [done|].
    cbn. unfold receive_response. by destruct (wait_poll _ !! _). }
  destruct ev as [b' req|b'|b' i raft|b'|b' k]; cbn [link_step].
  - destruct (send_request req (side_conn (side b' l))) as [r c] eqn:Hs. intros [= <-].
    unfold send_request in Hs. cbn in Hs.
    destruct b, b'; cbn in *; (destruct (tx_closed _); injection Hs as <- <-; done).
  - destruct (packet_tx _); [done|]. intros [= <-]. destruct b, b'; cbn; auto.
  - destruct (side_tasks _ !! i) as [[seq req]|]; [|done]. intros [= <-]. unfold send_response.
    destruct b, b'; cbn; auto; by destruct (tx_closed _).
  - intros [= <-]. by destruct b, b'.
  - intros [= <-]. by destruct b, b'.
Qed.

(** A receiver belongs to the call whose turn its number says. *)
Lemma link_run_asked b evs l l' c req : link_run evs l = Some l' -> side_asked (side b l') !! c = Some req ->
  side_asked (side b l) !! c = Some req \/
  exists i, c = next_receiver (side_conn (side b l)) + i /\ sends_of b evs !! i = Some req.
Proof.
  revert l. induction evs as [|ev evs IH]; intros l Hrun Hask; [injection Hrun as <-; by left|].
  cbn in Hrun. destruct (link_step ev l) as [l1|] eqn:Hs; [|done]. cbn in Hrun.
  pose proof (link_step_calls b ev l l1 Hs) as Hcalls.
  assert (sends_of b (ev :: evs) = sends_of b [ev] ++ sends_of b evs) as -> by apply (omap_app _ [ev] evs).
  destruct (IH l1 Hrun Hask) as [Hold|(i & -> & Hi)].
  - destruct (sends_of b [ev]) as [|req' rest] eqn:He; destruct Hcalls as [Ha Hx]; rewrite Ha in Hold; [by left|].
    apply lookup_insert_Some in Hold as [[<- <-]|[_ ?]]; [|by left]. right. exists 0. split; [lia|done].
  - right. assert (length (sends_of b [ev]) <= 1) as Hle.
    { destruct ev as [b' req'| | | |]; cbn; try lia. destruct (Bool.eqb b b'); cbn; lia. }
    destruct (sends_of b [ev]) as [|req' [|? ?]]; cbn in Hle; [| |lia]; destruct Hcalls as [_ Hx]; rewrite Hx.
    + by exists i.
    + exists (S i). split; [lia|done].
Qed.

(** Under every interleaving, what a caller gets is the answer to its own request. *)
Lemma link_run_own a b evs l : (Z.of_nat (length evs) < 2 ^ 64)%Z -> link_run evs (link_new a b) = Some l ->
  link_correlated (own_answer (link_new a b) evs) (Z.of_nat (length evs)) l.
Proof.
  intros Hlen Hrun. apply (link_run_correlated _ 0 evs (link_new a b)); [lia|apply link_new_correlated| |done].
  intros pre ev post l1 Hevs Hpre. destruct ev as [|?|e i raft|?|?]; try done. intros seq req c Htask Hwait.
  assert (length pre <= length evs) as Hle by (rewrite Hevs, length_app; lia).
  pose proof (link_run_ok 0 pre _ _ ltac:(lia) (link_new_ok a b) Hpre (negb e)) as [Hc _ _ _ _].
  destruct (link_run_numbered 0 pre _ _ ltac:(lia) (link_new_ok a b) ltac:(intros []; split; done) Hpre (negb e)) as [_ Hnum].
  pose proof (Hnum _ _ Hwait) as ->. rewrite negb_involutive in Hc.
  destruct (cor_request _ _ _ _ _ _ Hc (Z.of_nat c) req) as (c' & Hc' & Hask).
  { apply elem_of_app. right. by eapply list_elem_of_lookup_2. }
  assert (c' = c) as -> by (rewrite Hwait in Hc'; by injection Hc').
  split; [|exists pre, i, raft, post, l1; by rewrite negb_involutive].
  destruct (link_run_asked (negb e) pre _ _ c req Hpre Hask) as [Hn|(j & -> & Hj)]; [by destruct e|].
  rewrite Hevs. unfold sends_of. rewrite omap_app. apply lookup_app_l_Some. by destruct e.
Qed.
End Link.

(** ** Draining a wire *)

Section Drain.
Context `{RaftWire}.

Lemma side_set_sides b mine theirs : side b (set_sides b mine theirs) = mine /\
  side (negb b) (set_sides b mine theirs) = theirs.
Proof. by destruct b. Qed.

Lemma set_sides_negb b mine theirs : set_sides (negb b) mine theirs = set_sides b theirs mine.
Proof. by destruct b. Qed.

(** All that [mine] has sent is read by [theirs]. *)
Definition read_all (q : list Packet) (s : Side) : Side := foldl (fun s p => read_packet p s) s q.

Lemma link_run_drain b mine theirs :
  link_run (replicate (length (packet_tx (side_conn mine))) (EvDeliver b)) (set_sides b mine theirs) =
    Some (set_sides b (sent_first [] mine) (read_all (packet_tx (side_conn mine)) theirs)).
Proof.
  destruct mine as [c tasks asked]. cbn [side_conn]. remember (packet_tx c) as q eqn:Hq.
  revert c theirs Hq. induction q as [|p q IH]; intros c theirs Hq.
  - cbn. do 2 f_equal. unfold sent_first, set_side_conn, set_packet_tx. cbn. destruct c; cbn in *. by subst.
  - cbn [length replicate link_run link_step].
    destruct (side_set_sides b (mkSide c tasks asked) theirs) as [-> ->]. cbn [side_conn]. rewrite <-Hq.
    cbn [mbind option_bind]. rewrite (IH (set_packet_tx q c)) by done. done.
Qed.

Lemma read_packet_kept p s : packet_tx (side_conn (read_packet p s)) = packet_tx (side_conn s) /\
  tx_closed (side_conn (read_packet p s)) = tx_closed (side_conn s) /\
  alive (side_conn (read_packet p s)) = alive (side_conn s).
Proof.
  unfold read_packet. destruct (alive (side_conn s)) eqn:Ha; [|done].
  destruct (payload p); cbn; [done|]. unfold receive_response. by destruct (wait_poll _ !! _).
Qed.

Lemma read_all_cons p q s : read_all (p :: q) s = read_all q (read_packet p s).
Proof. done. Qed.

Lemma read_all_kept q s : packet_tx (side_conn (read_all q s)) = packet_tx (side_conn s) /\
  tx_closed (side_conn (read_all q s)) = tx_closed (side_conn s) /\
  alive (side_conn (read_all q s)) = alive (side_conn s).
Proof.
  revert s. induction q as [|p q IH]; intros s; [done|]. rewrite read_all_cons.
  destruct (IH (read_packet p s)) as (-> & -> & ->). apply read_packet_kept.
Qed.

Lemma read_all_tasks q s : alive (side_conn s) = true -> side_tasks (read_all q s) = side_tasks s ++ requests_in q.
Proof.
  revert s. induction q as [|p q IH]; intros s Ha; [by rewrite app_nil_r|]. rewrite read_all_cons.
  rewrite IH by (destruct (read_packet_kept p s) as (_ & _ & ->); done).
  unfold read_packet. rewrite Ha. destruct p as [k [req|resp]]; cbn; [by rewrite <-app_assoc|done].
Qed.

(** A waiting caller stays where it is while responses to others come in. *)
Lemma read_all_waiting q s k c : k ∉ (responses_in q).*1 -> wait_poll (side_conn s) !! k = Some c ->
  wait_poll (side_conn (read_all q s)) !! k = Some c.
Proof.
  revert s. induction q as [|p q IH]; intros s Hk Hp; [done|]. rewrite read_all_cons.
  assert (k ∉ (responses_in q).*1) as Hq by (destruct p as [? []]; cbn in Hk; set_solver).
  apply IH; [done|]. unfold read_packet. destruct (alive (side_conn s)); [|done].
  destruct p as [k' [req|resp]]; cbn; [done|]. cbn in Hk. unfold receive_response.
  destruct (wait_poll (side_conn s) !! k') eqn:Hk'; [|done]. cbn. rewrite lookup_delete_ne; [done|set_solver].
Qed.

Lemma read_all_snoc q p s : read_all (q ++ [p]) s = read_packet p (read_all q s).
Proof. unfold read_all. by rewrite foldl_app. Qed.

Lemma link_step_send b req l :
  link_step (EvSend b req) l = Some (set_sides b (send_side req (side b l)) (side (negb b) l)).
Proof. unfold send_side. cbn [link_step]. by destruct (send_request req (side_conn (side b l))). Qed.

(** An end that is up, right after it has sent a request. *)
Lemma send_side_up req s : alive (side_conn s) = true -> tx_closed (side_conn s) = false ->
  let k := local_seq (side_conn s) in
  alive (side_conn (send_side req s)) = true /\
  packet_tx (side_conn (send_side req s)) = packet_tx (side_conn s) ++ [mkPacket k (PayloadRequest req)] /\
  wait_poll (side_conn (send_side req s)) !! k = Some (next_receiver (side_conn s)).
Proof. intros Ha Hx. unfold send_side, send_request. cbn. rewrite Hx. cbn. rewrite lookup_insert_eq. by split_and!. Qed.

(** An end that is up, right after it has finished a task. *)
Lemma finished_up i k resp s : tx_closed (side_conn s) = false ->
  packet_tx (side_conn (finished i k resp s)) = packet_tx (side_conn s) ++ [mkPacket k (PayloadResponse resp)].
Proof. intros Hx. unfold finished, send_response. cbn. by rewrite Hx. Qed.

(** A caller whose response is the last on the wire is answered when it is drained. *)
Lemma drained_answered s q k c resp : alive (side_conn s) = true ->
  k ∉ (responses_in q).*1 -> wait_poll (side_conn s) !! k = Some c ->
  receivers (side_conn (read_all (q ++ [mkPacket k (PayloadResponse resp)]) s)) !! c = Some (Some resp).
Proof.
  intros Ha Hk Hp. rewrite read_all_snoc. unfold read_packet.
  destruct (read_all_kept q s) as (_ & _ & ->). rewrite Ha. cbn. unfold receive_response.
  rewrite (read_all_waiting q s k c Hk Hp). cbn. apply lookup_insert_eq.
Qed.
End Drain.

(** ** Frames and the order of nodes *)

Section FrameFacts.
Context `{RaftWire}.
Context (serialize : Payload -> list u8) (deserialize : list u8 -> option Payload).

Lemma read_exact_app n (a b : list u8) : length a = n -> read_exact n (a ++ b) = Some (a, b).
Proof.
  intros Hl. unfold read_exact. rewrite decide_True by (rewrite length_app; lia).
  by rewrite take_app_length', drop_app_length' by done.
Qed.

(** A packet a frame can carry. *)
Definition packet_ok (p : Packet) : Prop :=
  (0 <= seq_id p < 2 ^ 64)%Z /\ (Z.of_nat (length (serialize (payload p))) < 2 ^ 32)%Z.

Lemma read_loop_frame n p bs : packet_ok p ->
  read_loop deserialize (S n) (write_packet serialize p ++ bs) =
    rest ← read_loop deserialize n bs;
    Done (match deserialize (serialize (payload p)) with
          | Some payload => mkPacket (seq_id p) payload :: rest
          | None => rest
          end).
Proof.
  intros [Hseq Hlen]. unfold write_packet. cbn [read_loop]. rewrite <-!app_assoc.
  rewrite read_exact_app by apply length_to_be_bytes. rewrite read_exact_app by apply length_to_be_bytes.
  unfold as_u32. rewrite Z.mod_small by lia. rewrite !from_to_be_bytes by (cbn; lia).
  rewrite read_exact_app by lia. done.
Qed.

Lemma length_write_packet p : 12 <= length (write_packet serialize p).
Proof. unfold write_packet. rewrite !length_app, !length_to_be_bytes. lia. Qed.

(** A frame cut short is not a packet. *)
Lemma read_loop_cut n p k : packet_ok p -> k < length (write_packet serialize p) ->
  read_loop deserialize (S n) (take k (write_packet serialize p)) = Done [].
Proof.
  intros [Hseq Hlen] Hk. unfold write_packet in *. rewrite !length_app, !length_to_be_bytes in Hk.
  unfold as_u32. rewrite Z.mod_small by lia. cbn [read_loop].
  destruct (decide (8 <= k)); [|unfold read_exact at 1; rewrite decide_False; [done|rewrite length_take; lia]].
  rewrite take_app_ge by (rewrite length_to_be_bytes; lia).
  rewrite read_exact_app by apply length_to_be_bytes. rewrite length_to_be_bytes.
  destruct (decide (12 <= k)); [|unfold read_exact at 1; rewrite decide_False; [done|rewrite length_take; lia]].
  rewrite take_app_ge by (rewrite length_to_be_bytes; lia).
  rewrite read_exact_app by apply length_to_be_bytes. rewrite length_to_be_bytes.
  rewrite from_to_be_bytes by (cbn; lia).
  unfold read_exact. rewrite decide_False; [done|]. rewrite length_take. lia.
Qed.
End FrameFacts.

Lemma bytes_ltb_total (a b : list u8) : length a = length b -> a <> b -> bytes_ltb a b = negb (bytes_ltb b a).
Proof.
  revert b. induction a as [|x a IH]; intros [|y b] Hl Hne; try done.
  cbn. injection Hl as Hl. destruct (Z.ltb_spec (byte_to_Z x) (byte_to_Z y)) as [Hlt|Hge]; cbn.
  - rewrite (proj2 (Z.ltb_ge _ _)) by lia. by rewrite (proj2 (Z.eqb_neq _ _)) by lia.
  - destruct (Z.eqb_spec (byte_to_Z x) (byte_to_Z y)) as [Heq|Hneq]; cbn.
    + rewrite Heq, Z.ltb_irrefl, Z.eqb_refl. cbn. apply IH; [done|].
      intros ->. apply Hne. f_equal. by rewrite <-(byte_of_to_Z x), Heq, byte_of_to_Z.
    + by rewrite (proj2 (Z.ltb_lt _ _)) by lia.
Qed.

Lemma bytes_ltb_irrefl a : bytes_ltb a a = false.
Proof. induction a as [|x a IH]; [done|]. cbn. by rewrite Z.ltb_irrefl, Z.eqb_refl, IH. Qed.

(** ** What happens to a node's table of connections *)

Section NetworkRun.
Context `{RaftWire}.
Context (create_connection : RaftNodeInfo -> Result RaftTcpConnection Unreachable).

Inductive net_event : Type :=
  | NetAccept (c : RaftTcpConnection)
  | NetSend (to : RaftNodeInfo) (req : Request)
  | NetReadEnd (l : loc)
  | NetWriteEnd (l : loc) (on_stream : nat).

Definition net_step (ev : net_event) (s : TcpNetworkService) : TcpNetworkService :=
  match ev with
  | NetAccept c => accept_connection c s
  | NetSend to req => snd (network_send_request create_connection to req s)
  | NetReadEnd l =>
      match connection_heap s !! l with
      | Some c => set_connection l (read_task_end c) s
      | None => s
      end
  | NetWriteEnd l on_stream =>
      match connection_heap s !! l with
      | Some c => set_connection l (write_task_end on_stream c) s
      | None => s
      end
  end.

(** The node has an entry for the peer, whose connection is dead. *)
Record dead_entry (id : NodeId) (l : loc) (s : TcpNetworkService) : Prop := mkDead {
  dead_known : connections s !! id = Some l;
  dead_conn : exists c, connection_heap s !! l = Some c /\ alive c = false;
  dead_alloc : l < next_connection s;
}.

Lemma dead_not_connected id l s : dead_entry id l s -> is_connected id s = false.
Proof. intros [Hk (c & Hl & Ha) _]. unfold is_connected. rewrite Hk. cbn. by rewrite Hl. Qed.

Lemma dead_insert id l s c : info_id (peer c) <> id -> dead_entry id l s -> dead_entry id l (insert_connection c s).
Proof.
  intros Hne [Hk (d & Hl & Ha) Hn]. unfold insert_connection. split; cbn; [by rewrite lookup_insert_ne| |lia].
  exists d. by rewrite lookup_insert_ne by lia.
Qed.

Lemma dead_set id l s l' c c' : connection_heap s !! l' = Some c -> alive c' = false \/ alive c' = alive c ->
  dead_entry id l s -> dead_entry id l (set_connection l' c' s).
Proof.
  intros Hl' Ha' [Hk (d & Hl & Ha) Hn]. split; cbn; [done| |done].
  destruct (decide (l = l')) as [<-|]; [|exists d; by rewrite lookup_insert_ne].
  exists c'. rewrite lookup_insert_eq. split; [done|]. destruct Ha' as [|Hc]; [done|congruence].
Qed.

Lemma send_request_alive req c : alive (snd (send_request req c)) = alive c.
Proof. unfold send_request. cbn. by destruct (tx_closed c). Qed.

Lemma dead_step id l ev s (Hhonest : forall to c, create_connection to = Ok c -> peer c = to) :
  node_id_ltb id (info_id (info s)) = true -> dead_entry id l s ->
  dead_entry id l (net_step ev s) /\ info (net_step ev s) = info s.
Proof.
  intros Hlt Hd. destruct ev as [c|to req|l'|l' k]; cbn [net_step].
  - unfold accept_connection. destruct (negb _); [done|].
    destruct (connections s !! info_id (peer c)) eqn:Hc; [done|].
    split; [|done]. apply dead_insert; [|done]. intros Heq. rewrite Heq in Hc. destruct Hd. congruence.
  - unfold network_send_request.
    assert (forall s', dead_entry id l s' -> info s' = info s ->
      dead_entry id l (snd (send_on_connection (info_id to) req s')) /\
      info (snd (send_on_connection (info_id to) req s')) = info s) as Hsend.
    { intros s' Hd' Hi. unfold send_on_connection. destruct (connections s' !! info_id to) as [l0|]; [|done].
      destruct (connection_heap s' !! l0) as [c|] eqn:Hc; [|done].
      pose proof (send_request_alive req c) as Ha. destruct (send_request req c) as [r c'].
      split; [|done]. eapply dead_set; [exact Hc|by right|done]. }
    destruct (is_connected (info_id to) s) eqn:Hconn; [by apply Hsend|].
    destruct (node_id_ltb (info_id to) (info_id (info s))) eqn:Hto; [done|].
    destruct (create_connection to) as [c|e] eqn:Hcreate; [|done].
    apply (Hsend (insert_connection c s)); [|done]. apply dead_insert; [|done].
    rewrite (Hhonest to c Hcreate). intros <-. congruence.
  - destruct (connection_heap s !! l') as [c|] eqn:Hc; [|done]. split; [|done].
    eapply dead_set; [exact Hc|by left|done].
  - destruct (connection_heap s !! l') as [c|] eqn:Hc; [|done]. split; [|done].
    eapply dead_set; [exact Hc|by right|done].
Qed.
End NetworkRun.

(** ** Properties *)

Section NetworkProperties.
Context `{RaftWire}.

(** C16: Whatever the interleaving of sends, deliveries, tasks and ends of tasks on a
    connection, a caller only ever gets what its peer's Raft answered to the request
    it made, and not to another, be it of the same kind or even equal to it: the
    answer to the [c]-th request of an end is what the peer's task that had read
    packet number [c] got for it.  The [unreachable!] on a response of another kind
    is not reached.  Up to 2^64 events of the connection. *)
Theorem responses_match_requests (a b : RaftNodeInfo) (evs : list link_event) (l : Link) (end_ : bool)
    (c : loc) (resp : Response)
    (Hlen : (Z.of_nat (length evs) < 2 ^ 64)%Z) (Hrun : link_run evs (link_new a b) = Some l)
    (Hgot : receivers (side_conn (side end_ l)) !! c = Some (Some resp)) :
  exists req result, side_asked (side end_ l) !! c = Some req /\
    own_answer (link_new a b) evs end_ c req resp /\
    finish_call req resp = Done result /\ result <> UnexpectedResponse.
Proof.
  pose proof (link_run_own a b evs l Hlen Hrun end_) as [Hc _ _ _ _].
  destruct (cor_answer _ _ _ _ _ _ Hc c resp) as (req & Hask & Hown).
  { unfold answered. by rewrite lookup_omap, Hgot. }
  pose proof Hown as (_ & pre & i & raft & post & l1 & _ & _ & _ & ->).
  exists req. destruct req; eexists; by split_and!.
Qed.

(** C24: A request is answered: on a link both ends of which are up, once what was
    sent before it has been read, the peer's task has run and what the peer had
    sent has been read, the caller that made the request has the answer of the
    peer's Raft to it, whatever else was on the way. *)
Theorem request_answered (n : Z) (l : Link) (b : bool) (req : Request) (raft : RaftApi)
    (Hn : (n + 1 < 2 ^ 64)%Z) (Hok : link_ok n l)
    (Hup : forall b, alive (side_conn (side b l)) = true /\ tx_closed (side_conn (side b l)) = false) :
  let mine := side b l in
  let theirs := side (negb b) l in
  let task := length (side_tasks theirs ++ requests_in (packet_tx (side_conn mine))) in
  exists l', link_run
    ([EvSend b req] ++ replicate (S (length (packet_tx (side_conn mine)))) (EvDeliver b) ++
     [EvFinish (negb b) task raft] ++ replicate (S (length (packet_tx (side_conn theirs)))) (EvDeliver (negb b))) l
      = Some l' /\
    receivers (side_conn (side b l')) !! next_receiver (side_conn mine) = Some (Some (serve raft req)).
Proof.
  intros mine theirs task. destruct (Hup b) as [Ha1 Hx1]. destruct (Hup (negb b)) as [Ha2 Hx2].
  pose proof (link_step_ok n _ l _ Hn Hok (link_step_send b req l)) as Hok1. fold mine theirs in Hok1.
  destruct (send_side_up req mine Ha1 Hx1) as (Hal1 & Hq1 & Hw1).
  set (seq := local_seq (side_conn mine)) in *. set (mine1 := send_side req mine) in *.
  set (theirs2 := read_all (packet_tx (side_conn mine1)) theirs).
  destruct (read_all_kept (packet_tx (side_conn mine1)) theirs) as (Hp2 & Hx3 & _). fold theirs2 in Hp2, Hx3.
  assert (side_tasks theirs2 !! task = Some (seq, req)) as Htask.
  { unfold theirs2. rewrite read_all_tasks, Hq1, requests_in_app, app_assoc by done. by apply list_lookup_middle. }
  set (theirs3 := finished task seq (serve raft req) theirs2).
  assert (packet_tx (side_conn theirs3) =
    packet_tx (side_conn theirs) ++ [mkPacket seq (PayloadResponse (serve raft req))]) as Hq3.
  { unfold theirs3. rewrite finished_up by (rewrite Hx3; exact Hx2). by rewrite Hp2. }
  exists (set_sides b (read_all (packet_tx (side_conn theirs3)) (sent_first [] mine1)) (sent_first [] theirs3)).
  split.
  - cbn [app link_run]. rewrite link_step_send. cbn [mbind option_bind]. rewrite link_run_app. fold mine mine1 theirs.
    replace (S (length (packet_tx (side_conn mine)))) with (length (packet_tx (side_conn mine1)))
      by (rewrite Hq1, length_app; cbn; lia).
    rewrite link_run_drain. cbn [mbind option_bind link_run link_step].
    destruct (side_set_sides b (sent_first [] mine1) theirs2) as [Hs1 Hs2].
    fold theirs2. rewrite Hs2, Htask. cbn [mbind option_bind]. rewrite negb_involutive, Hs1.
    change (mkSide _ _ _) with theirs3.
    replace (S (length (packet_tx (side_conn theirs)))) with (length (packet_tx (side_conn theirs3)))
      by (rewrite Hq3, length_app; cbn; lia).
    by rewrite link_run_drain, set_sides_negb.
  - destruct (side_set_sides b (read_all (packet_tx (side_conn theirs3)) (sent_first [] mine1))
      (sent_first [] theirs3)) as [-> _]. rewrite Hq3. apply drained_answered; [done| |done].
    apply link_correlated_set in Hok1 as [[Hc _ _ _ _] _]. apply cor_once in Hc. rewrite Hq1, requests_in_app in Hc.
    intros Hin. apply NoDup_app in Hc as (_ & Hdis & _). apply (Hdis seq); [|done].
    rewrite !fmap_app. cbn. set_solver.
Qed.

(** What the write loop sends is what the read loop gets, for any payload
    encoding and wherever the stream is cut: the packets whose frames are complete,
    in order, without those whose payload does not decode; so exactly the packets
    sent when decoding undoes encoding. *)
Theorem raft_frames_roundtrip (serialize : Payload -> list u8) (deserialize : list u8 -> option Payload)
    (ps : list Packet) (last : Packet) (cut : nat)
    (Hok : Forall (packet_ok serialize) ps) (Hlast : packet_ok serialize last)
    (Hcut : cut < length (write_packet serialize last)) :
  let bytes := concat (write_packet serialize <$> ps) ++ take cut (write_packet serialize last) in
  read_loop deserialize (S (length bytes)) bytes =
    Done (omap (fun p => mkPacket (seq_id p) <$> deserialize (serialize (payload p))) ps) /\
  ((forall p, deserialize (serialize p) = Some p) -> read_loop deserialize (S (length bytes)) bytes = Done ps).
Proof.
  intros bytes.
  assert (read_loop deserialize (S (length bytes)) bytes =
    Done (omap (fun p => mkPacket (seq_id p) <$> deserialize (serialize (payload p))) ps)) as Hmain.
  { assert (length ps <= length bytes) as Hle.
    { unfold bytes. rewrite length_app. clear. induction ps as [|p ps IH]; cbn; [lia|].
      rewrite length_app. pose proof (length_write_packet serialize p). cbn in IH. lia. }
    revert Hle. generalize (length bytes). subst bytes. induction Hok as [|p ps Hp _ IH]; intros n Hn.
    - cbn. by apply read_loop_cut.
    - cbn [fmap list_fmap concat]. rewrite <-app_assoc, read_loop_frame by done.
      destruct n as [|n]; [cbn in Hn; lia|]. cbn in Hn. rewrite IH by lia. cbn.
      destruct (deserialize (serialize (payload p))); done. }
  split; [exact Hmain|]. intros Hde. rewrite Hmain. f_equal. clear -Hde. induction ps as [|[k p] ps IH]; [done|].
  cbn. rewrite Hde. cbn. by rewrite IH.
Qed.

(** Of two nodes that are not connected, exactly one opens the connection: the
    one with the smaller id dials, and the other accepts what it dials; towards the
    smaller one the other refuses to send, and would not be accepted. *)
Theorem one_node_dials (create_connection : RaftNodeInfo -> Result RaftTcpConnection Unreachable)
    (a b : TcpNetworkService) (ab ba : RaftTcpConnection) (req : Request)
    (Hlen : length (node_id_bytes (info_id (info a))) = length (node_id_bytes (info_id (info b))))
    (Hlt : node_id_ltb (info_id (info a)) (info_id (info b)) = true)
    (Hdial : create_connection (info b) = Ok ab) (Hab : peer ab = info b) (Hba : peer ba = info a)
    (Hopen : tx_closed ab = false)
    (Ha : connections a !! info_id (info b) = None) (Hb : connections b !! info_id (info a) = None) :
  network_send_request create_connection (info a) req b = (Err ConnectionNotEstablished, b) /\
  accept_connection ab a = a /\
  fst (network_send_request create_connection (info b) req a) = Ok (next_connection a, next_receiver ab) /\
  connections (accept_connection ba b) !! info_id (info a) = Some (next_connection b).
Proof.
  assert (node_id_ltb (info_id (info b)) (info_id (info a)) = false) as Hge.
  { unfold node_id_ltb in *. rewrite bytes_ltb_total in Hlt; [by apply negb_true_iff|done|].
    intros Heq. rewrite Heq, bytes_ltb_irrefl in Hlt. done. }
  unfold accept_connection, network_send_request, is_connected. rewrite Ha, Hb, Hab, Hba, Hlt, Hge, Hdial.
  cbn [negb mbind option_bind]. split_and!; [done|done| |].
  - unfold send_on_connection, insert_connection. cbn. rewrite Hab, lookup_insert_eq. cbn.
    rewrite lookup_insert_eq. unfold send_request. cbn. by rewrite Hopen.
  - rewrite Hb. unfold insert_connection. cbn. rewrite Hba. apply lookup_insert_eq.
Qed.

(** C40: Once the connection a node has to a peer with a smaller id is dead, the node
    never gets another: its entry keeps the dead connection, since it neither dials
    nor accepts while there is an entry, and every request to the peer fails. *)
Theorem dead_connection_never_replaced
    (create_connection : RaftNodeInfo -> Result RaftTcpConnection Unreachable)
    (to : RaftNodeInfo) (l : loc) (s : TcpNetworkService) (evs : list net_event) (req : Request)
    (Hhonest : forall to c, create_connection to = Ok c -> peer c = to)
    (Hlt : node_id_ltb (info_id to) (info_id (info s)) = true) (Hdead : dead_entry (info_id to) l s) :
  let s' := foldl (fun s ev => net_step create_connection ev s) s evs in
  connections s' !! info_id to = Some l /\
  network_send_request create_connection to req s' = (Err ConnectionNotEstablished, s').
Proof.
  intros s'.
  assert (dead_entry (info_id to) l s' /\ info s' = info s) as [Hd Hi].
  { subst s'. clear req. revert s Hlt Hdead. induction evs as [|ev evs IH]; intros s Hlt Hdead; [done|]. cbn.
    destruct (dead_step create_connection (info_id to) l ev s Hhonest Hlt Hdead) as [Hd Hi].
    destruct (IH (net_step create_connection ev s)) as [? ->]; [by rewrite Hi|done|done]. }
  split; [apply Hd|]. unfold network_send_request.
  rewrite (dead_not_connected _ _ _ Hd). by rewrite Hi, Hlt.
Qed.
End NetworkProperties.

(** ** Witnesses *)

Section NetworkWitnesses.
Import Sample.

#[local] Instance sample_wire : RaftWire := {|
  VoteRequest := nat; VoteResponse := bool;
  AppendEntriesRequest := nat; AppendEntriesResponse := bool;
  InstallSnapshotRequest := nat; InstallSnapshotResponse := bool;
  ClientWriteResponse := nat; RaftError := string;
|}.

Definition sample_raft : RaftApi :=
  mkRaftApi (fun n => Ok (Nat.even n)) (fun n => Ok (Nat.odd n)) (fun _ => Err "busy") (fun _ => Ok 7).
Definition node_a : RaftNodeInfo := mkNodeInfo (nid x01) "a:1".
Definition node_b : RaftNodeInfo := mkNodeInfo (nid x02) "b:1".

Definition ask (n : nat) : Request := ReqVote (H := sample_wire) n.
Definition voted : Response := RespVote (H := sample_wire) (Ok true).

(** Two requests of one end, served in the other order. *)
Definition sample_events : list link_event :=
  [EvSend true (ask 4); EvSend true (ReqAppendEntries (H := sample_wire) 4); EvDeliver true; EvDeliver true;
   EvFinish false 1 sample_raft; EvFinish false 0 sample_raft; EvDeliver false; EvDeliver false].

Definition sample_link : Link :=
  default (link_new node_a node_b) (link_run sample_events (link_new node_a node_b)).

Lemma responses_match_requests_witness :
  exists req result, side_asked (side true sample_link) !! 0 = Some req /\
    own_answer (link_new node_a node_b) sample_events true 0 req voted /\
    finish_call req voted = Done result /\ result <> UnexpectedResponse.
Proof.
  apply (responses_match_requests node_a node_b sample_events sample_link true 0 voted);
    [cbn; lia|vm_compute; reflexivity|vm_compute; reflexivity].
Defined.

Lemma request_answered_witness :
  exists l', link_run
    ([EvSend true (ask 4)] ++ replicate 1 (EvDeliver true) ++ [EvFinish false 0 sample_raft] ++
     replicate 1 (EvDeliver false)) (link_new node_a node_b) = Some l' /\
    receivers (side_conn (side true l')) !! 0 = Some (Some voted).
Proof.
  apply (request_answered 0 (link_new node_a node_b) true (ask 4) sample_raft);
    [lia|apply link_new_ok|intros []; split; reflexivity].
Defined.

(** A payload encoding for votes only, of one byte. *)
Definition sample_serialize (p : Payload) : list u8 :=
  match p with PayloadRequest (ReqVote n) => [byte_of_Z (Z.of_nat n)] | _ => [] end.
Definition sample_deserialize (bs : list u8) : option Payload :=
  match bs with [b] => Some (PayloadRequest (ask (Z.to_nat (byte_to_Z b)))) | _ => None end.
Definition sample_packets : list Packet :=
  [mkPacket 3 (PayloadRequest (ask 200)); mkPacket 4 (PayloadRequest (ReqAppendEntries (H := sample_wire) 1))].

Lemma raft_frames_roundtrip_witness :
  let bytes := concat (write_packet sample_serialize <$> sample_packets) ++
    take 5 (write_packet sample_serialize (mkPacket 9 (PayloadRequest (ask 1)))) in
  read_loop sample_deserialize (S (length bytes)) bytes = Done [mkPacket 3 (PayloadRequest (ask 200))] /\
  ((forall p, sample_deserialize (sample_serialize p) = Some p) ->
   read_loop sample_deserialize (S (length bytes)) bytes = Done sample_packets).
Proof.
  apply (raft_frames_roundtrip sample_serialize sample_deserialize sample_packets
    (mkPacket 9 (PayloadRequest (ask 1))) 5); [|split; vm_compute; by split|vm_compute; lia].
  repeat constructor; vm_compute; congruence.
Defined.

Definition service (i : RaftNodeInfo) : TcpNetworkService := mkService i ∅ ∅ 0.
Definition dial (to : RaftNodeInfo) : Result RaftTcpConnection Unreachable := Ok (connection_new to).

Lemma one_node_dials_witness :
  network_send_request dial node_a (ask 1) (service node_b) = (Err ConnectionNotEstablished, service node_b) /\
  accept_connection (connection_new node_b) (service node_a) = service node_a /\
  fst (network_send_request dial node_b (ask 1) (service node_a)) = Ok (0, 0) /\
  connections (accept_connection (connection_new node_a) (service node_b)) !! nid x01 = Some 0.
Proof.
  apply (one_node_dials dial (service node_a) (service node_b) (connection_new node_b) (connection_new node_a) (ask 1));
    reflexivity.
Defined.

(** The node accepted its peer's connection, and it broke. *)
Definition broken_service : TcpNetworkService :=
  mkService node_b {[nid x01 := 0]} {[0 := read_task_end (connection_new node_a)]} 1.

Lemma dead_connection_never_replaced_witness :
  let s' := foldl (fun s ev => net_step dial ev s) broken_service
    [NetAccept (connection_new node_a); NetSend node_a (ask 1); NetAccept (connection_new node_a)] in
  connections s' !! nid x01 = Some 0 /\
  network_send_request dial node_a (ask 2) s' = (Err ConnectionNotEstablished, s').
Proof.
  apply (dead_connection_never_replaced dial node_a 0 broken_service
    [NetAccept (connection_new node_a); NetSend node_a (ask 1); NetAccept (connection_new node_a)] (ask 2)).
  - intros to c [= <-]. reflexivity.
  - reflexivity.
  - split; [reflexivity| |cbn; lia]. exists (read_task_end (connection_new node_a)). by split.
Defined.
End NetworkWitnesses.
