(* ===== verification/RaftTasks.v ===== *)
(** * The two tasks of a Raft connection

    [RaftTcpConnection::from_tokio_tcp_stream] of [raft/network_factory.rs] after its
    handshake: the write loop and the read loop, on a stream of bytes that arrive
    in any pieces, with their cancellation, their errors, and the [Drop] of the
    connection.  The loops refine the link of [RaftNetwork], whose events are whole
    packets. *)

From S2P Require Import Prelude Ids Interest Message Proposal Rpc RaftNetwork.

#[local] Arguments write_packet : simpl never.

Section Tasks.
Context `{RaftWire}.
(** bincode on payloads. *)
Context (serialize : Payload -> list u8) (deserialize : list u8 -> option Payload).

(** An end of the connection: what it has written and has not arrived, what has
    arrived and it has not read, and whether the connection has been dropped.  The
    read task runs as long as the connection is alive, the write task as long as
    its channel is open. *)
Record End : Type := mkEnd {
  end_side : Side;
  written : list u8;
  arrived : list u8;
  dropped : bool;
}.
Definition end_conn (e : End) : RaftTcpConnection := side_conn (end_side e).
Definition set_end_side (s : Side) (e : End) : End := mkEnd s (written e) (arrived e) (dropped e).
Definition set_end_conn (c : RaftTcpConnection) (e : End) : End := set_end_side (set_side_conn c (end_side e)) e.

Record Pair : Type := mkPair { left_end : End; right_end : End }.
Definition end_of (b : bool) (s : Pair) : End := if b then left_end s else right_end s.
Definition set_ends (b : bool) (mine theirs : End) : Pair := if b then mkPair mine theirs else mkPair theirs mine.

(** ** The read loop *)

(** What the reads of an iteration come to on the bytes that have arrived. *)
Inductive Reading : Type :=
  | Frame (seq_id : Z) (data rest : list u8)
  | ReadError
  | ReadWaits.

Definition read_frame (closed : bool) (bs : list u8) : Reading :=
  let short := if closed then ReadError else ReadWaits in
  match read_exact 8 bs with
  | None => short
  | Some (seq, bs) =>
      match read_exact 4 bs with
      | None => short
      | Some (len, bs) =>
          match read_exact (Z.to_nat (from_be_bytes len)) bs with
          | None => short
          | Some (data, rest) => Frame (from_be_bytes seq) data rest
          end
      end
  end.

(** An error ends the task, a payload that is not read is skipped. *)
Definition read_iteration (closed : bool) (e : End) : option End :=
  if alive (end_conn e) then
    match read_frame closed (arrived e) with
    | ReadWaits => None
    | ReadError => Some (set_end_conn (read_task_end (end_conn e)) e)
    | Frame seq_id data rest =>
        Some (mkEnd (match deserialize data with
                     | Some payload => read_packet (mkPacket seq_id payload) (end_side e)
                     | None => end_side e
                     end) (written e) rest (dropped e))
    end
  else None.

(** ** The write loop *)

Definition write_iteration (e : End) : option End :=
  if tx_closed (end_conn e) then None
  else match packet_tx (end_conn e) with
       | [] => None
       | packet :: rest =>
           Some (mkEnd (set_side_conn (set_packet_tx rest (end_conn e)) (end_side e))
                   (written e ++ write_packet serialize packet) (arrived e) (dropped e))
       end.

(** The end of the write task, [n] bytes into the frame it was writing: it is
    cancelled between two frames, aborted at any byte, and a write may fail. *)
Definition write_end (n : nat) (e : End) : End :=
  let partial :=
    if tx_closed (end_conn e) then []
    else match packet_tx (end_conn e) with [] => [] | packet :: _ => take n (write_packet serialize packet) end in
  mkEnd (set_side_conn (write_task_end 0 (end_conn e)) (end_side e)) (written e ++ partial) (arrived e) (dropped e).

(** [Drop] aborts both tasks; the pool goes with the connection. *)
Definition drop_connection (n : nat) (e : End) : End :=
  let e := write_end n (set_end_conn (read_task_end (end_conn e)) e) in
  mkEnd (end_side e) (written e) (arrived e) true.

(** What a caller's receiver gives: an error when its sender is gone. *)
Definition receiver_poll (c : loc) (e : End) : Poll (option Response) :=
  match receivers (end_conn e) !! c with
  | Some (Some resp) => Ready (Some resp)
  | Some None =>
      if dropped e then Ready None
      else if decide (c ∈ (map_to_list (wait_poll (end_conn e))).*2) then Pending else Ready None
  | None => Ready None
  end.

(** ** Their interleavings *)

Inductive task_event : Type :=
  | TaskSend (b : bool) (req : Request)
  | TaskServe (b : bool) (i : nat) (raft : RaftApi)
  | TaskWrite (b : bool)
  | TaskArrive (b : bool) (n : nat)
  | TaskRead (b : bool)
  | TaskReadEnd (b : bool)
  | TaskWriteEnd (b : bool) (n : nat)
  | TaskDrop (b : bool) (n : nat).

(** The peer has closed its side and all of it has arrived. *)
Definition end_of_stream (theirs : End) : bool := tx_closed (end_conn theirs) && bool_decide (written theirs = []).

Definition task_step (ev : task_event) (s : Pair) : option Pair :=
  match ev with
  | TaskSend b req => Some (set_ends b (set_end_side (send_side req (end_side (end_of b s))) (end_of b s)) (end_of (negb b) s))
  | TaskServe b i raft =>
      match side_tasks (end_side (end_of b s)) !! i with
      | None => None
      | Some (seq, req) =>
          Some (set_ends b (set_end_side (finished i seq (serve raft req) (end_side (end_of b s))) (end_of b s))
                  (end_of (negb b) s))
      end
  | TaskWrite b => mine ← write_iteration (end_of b s); Some (set_ends b mine (end_of (negb b) s))
  | TaskArrive b n =>
      let mine := end_of b s in
      let theirs := end_of (negb b) s in
      Some (set_ends b (mkEnd (end_side mine) (drop n (written mine)) (arrived mine) (dropped mine))
              (mkEnd (end_side theirs) (written theirs) (arrived theirs ++ take n (written mine)) (dropped theirs)))
  | TaskRead b =>
      mine ← read_iteration (end_of_stream (end_of (negb b) s)) (end_of b s); Some (set_ends b mine (end_of (negb b) s))
  | TaskReadEnd b => Some (set_ends b (set_end_conn (read_task_end (end_conn (end_of b s))) (end_of b s)) (end_of (negb b) s))
  | TaskWriteEnd b n =>
      if tx_closed (end_conn (end_of b s)) then None
      else Some (set_ends b (write_end n (end_of b s)) (end_of (negb b) s))
  | TaskDrop b n => Some (set_ends b (drop_connection n (end_of b s)) (end_of (negb b) s))
  end.

Fixpoint task_run (evs : list task_event) (s : Pair) : option Pair :=
  match evs with
  | [] => Some s
  | ev :: evs => s ← task_step ev s; task_run evs s
  end.

Definition end_new (peer : RaftNodeInfo) : End := mkEnd (side_new peer) [] [] false.
Definition pair_new (a b : RaftNodeInfo) : Pair := mkPair (end_new b) (end_new a).

(** A payload bincode carries: it is read back, and its length fits the frame's [u32]. *)
Definition fits (p : Payload) : Prop :=
  (Z.of_nat (length (serialize p)) < 2 ^ 32)%Z /\ deserialize (serialize p) = Some p.
Definition carried (p : Packet) : Prop := packet_ok serialize p /\ deserialize (serialize (payload p)) = Some (payload p).
Definition event_fits (ev : task_event) : Prop :=
  match ev with
  | TaskSend _ req => fits (PayloadRequest req)
  | TaskServe _ _ raft => forall req, fits (PayloadResponse (serve raft req))
  | _ => True
  end.

(** ** The refinement *)

Definition frames (ps : list Packet) : list u8 := concat (write_packet serialize <$> ps).

(** Between the write task of an end and its peer's read task are the frames of the
    packets [ps], and a piece of a frame if the write task has ended in it. *)
Record carries (mine theirs : End) (ps : list Packet) (cut : list u8) : Prop := mkCarries {
  carries_bytes : arrived theirs ++ written mine = frames ps ++ cut;
  carries_ok : Forall carried ps;
  carries_cut : cut = [] \/
    (tx_closed (end_conn mine) = true /\ exists p n, n < length (write_packet serialize p) /\
       packet_ok serialize p /\ cut = take n (write_packet serialize p));
}.

(** The side of the link an end stands for: its channel, behind what is on the way. *)
Definition stands_for (mine theirs : End) (s : Side) : Prop :=
  exists ps cut, carries mine theirs ps cut /\ s = sent_first (ps ++ packet_tx (end_conn mine)) (end_side mine).

(** What an end may send can be framed. *)
Record end_ok (e : End) : Prop := mkEndOk {
  eok_seq : (0 <= local_seq (end_conn e) < 2 ^ 64)%Z;
  eok_queue : Forall carried (packet_tx (end_conn e));
  eok_tasks : Forall (fun t => 0 <= t.1 < 2 ^ 64)%Z (side_tasks (end_side e));
}.

Definition refines (s : Pair) (l : Link) : Prop :=
  forall b, end_ok (end_of b s) /\ stands_for (end_of b s) (end_of (negb b) s) (side b l).

(** ** Facts *)

Lemma end_of_set b mine theirs : end_of b (set_ends b mine theirs) = mine /\ end_of (negb b) (set_ends b mine theirs) = theirs.
Proof. by destruct b. Qed.

Lemma read_exact_more n bs w data rest : read_exact n bs = Some (data, rest) -> read_exact n (bs ++ w) = Some (data, rest ++ w).
Proof.
  unfold read_exact. case_decide as Hn; [|done]. intros [= <- <-]. rewrite decide_True by (rewrite length_app; lia).
  by rewrite take_app_le, drop_app_le by lia.
Qed.

(** A frame that has been read is the same with more bytes behind it. *)
Lemma read_frame_more closed1 closed2 bs w k data rest :
  read_frame closed1 bs = Frame k data rest -> read_frame closed2 (bs ++ w) = Frame k data (rest ++ w).
Proof.
  unfold read_frame. destruct (read_exact 8 bs) as [[seq bs1]|] eqn:H1; [|by destruct closed1].
  rewrite (read_exact_more _ _ w _ _ H1). destruct (read_exact 4 bs1) as [[len bs2]|] eqn:H2; [|by destruct closed1].
  rewrite (read_exact_more _ _ w _ _ H2). destruct (read_exact _ bs2) as [[d bs3]|] eqn:H3; [|by destruct closed1].
  rewrite (read_exact_more _ _ w _ _ H3). congruence.
Qed.

Lemma read_frame_packet closed p bs : packet_ok serialize p ->
  read_frame closed (write_packet serialize p ++ bs) = Frame (seq_id p) (serialize (payload p)) bs.
Proof.
  intros [Hseq Hlen]. unfold read_frame, write_packet. rewrite <-!app_assoc.
  rewrite read_exact_app by apply length_to_be_bytes. rewrite read_exact_app by apply length_to_be_bytes.
  unfold as_u32. rewrite Z.mod_small by lia. rewrite !from_to_be_bytes by (cbn; lia).
  by rewrite read_exact_app by lia.
Qed.

(** A piece of a frame is no frame. *)
Lemma read_frame_piece closed p n k data rest : packet_ok serialize p -> n < length (write_packet serialize p) ->
  read_frame closed (take n (write_packet serialize p)) <> Frame k data rest.
Proof.
  intros Hp Hn Hf. apply (read_frame_more closed closed _ (drop n (write_packet serialize p))) in Hf.
  rewrite take_drop in Hf. pose proof (read_frame_packet closed p [] Hp) as Hw. rewrite app_nil_r in Hw.
  rewrite Hw in Hf. injection Hf as _ _ Hrest. symmetry in Hrest. apply app_nil in Hrest as [_ Hd].
  apply (f_equal length) in Hd. rewrite length_drop in Hd. cbn [length] in Hd. lia.
Qed.

(** What the read loop takes is the first packet on its way. *)
Lemma carries_read mine theirs ps cut closed k data rest :
  carries mine theirs ps cut -> read_frame closed (arrived theirs) = Frame k data rest ->
  exists p ps', ps = p :: ps' /\ k = seq_id p /\ data = serialize (payload p) /\ rest ++ written mine = frames ps' ++ cut.
Proof.
  intros [Hb Hok Hcut] Hf. apply (read_frame_more closed closed _ (written mine)) in Hf. rewrite Hb in Hf.
  destruct Hok as [|p ps [Hp _] _].
  - exfalso. destruct Hcut as [->|(_ & p & n & Hn & Hp & ->)]; [by destruct closed|]. by eapply read_frame_piece.
  - exists p, ps. unfold frames in *. cbn [fmap list_fmap concat] in Hf. rewrite <-app_assoc, read_frame_packet in Hf by done.
    injection Hf as <- <- <-. done.
Qed.

(** The loop of [RaftNetwork] on a stream that ends is these iterations. *)
Lemma read_loop_iterations fuel bs :
  read_loop deserialize (S fuel) bs =
    match read_frame true bs with
    | Frame k data rest =>
        packets ← read_loop deserialize fuel rest;
        Done (match deserialize data with Some payload => mkPacket k payload :: packets | None => packets end)
    | _ => Done []
    end.
Proof.
  cbn [read_loop]. unfold read_frame. destruct (read_exact 8 bs) as [[seq bs1]|]; [|done].
  destruct (read_exact 4 bs1) as [[len bs2]|]; [|done]. by destruct (read_exact _ bs2) as [[data rest]|].
Qed.

(** The queue of a side and the rest of it. *)
Lemma read_packet_queue p q s : read_packet p (sent_first q s) = sent_first q (read_packet p s).
Proof.
  destruct s as [[pr tx x pool seq [] rs next] tasks asked]; [|done]. unfold read_packet. cbn.
  destruct (payload p); [done|]. unfold receive_response. cbn. by destruct (pool !! seq_id p).
Qed.

Lemma send_side_queue req ps s :
  send_side req (sent_first (ps ++ packet_tx (side_conn s)) s) =
    sent_first (ps ++ packet_tx (side_conn (send_side req s))) (send_side req s).
Proof.
  destruct s as [[pr tx [] pool seq al rs next] tasks asked]; unfold send_side, send_request, sent_first, set_side_conn, set_packet_tx;
    cbn; by rewrite ?app_assoc.
Qed.

Lemma finished_queue i k resp ps s :
  finished i k resp (sent_first (ps ++ packet_tx (side_conn s)) s) =
    sent_first (ps ++ packet_tx (side_conn (finished i k resp s))) (finished i k resp s).
Proof.
  destruct s as [[pr tx [] pool seq al rs next] tasks asked]; unfold finished, send_response, sent_first, set_side_conn, set_packet_tx;
    cbn; by rewrite ?app_assoc.
Qed.

(** How the ends of the two tasks act on a side. *)
Definition side_read_end (s : Side) : Side := set_side_conn (read_task_end (side_conn s)) s.
Definition side_write_end (n : nat) (s : Side) : Side := set_side_conn (write_task_end n (side_conn s)) s.

Lemma write_end_queue ps q s : side_write_end (length ps) (sent_first (ps ++ q) s) = sent_first ps (side_write_end 0 s).
Proof. unfold side_write_end, sent_first, write_task_end, set_side_conn, set_packet_tx. cbn. by rewrite take_app_length. Qed.

Lemma set_sides_eta b l : l = set_sides b (side b l) (side (negb b) l).
Proof. by destruct b, l. Qed.

Lemma refines_set b mine theirs l1 l2 :
  refines (set_ends b mine theirs) (set_sides b l1 l2) <->
    (end_ok mine /\ stands_for mine theirs l1) /\ (end_ok theirs /\ stands_for theirs mine l2).
Proof. destruct b; (split; [intros Hr; split; [exact (Hr true)|exact (Hr false)]|intros [? ?] []]; done) || (split; [intros Hr; split; [exact (Hr false)|exact (Hr true)]|intros [? ?] []]; done). Qed.

(** The peer of an end that has read nothing. *)
Lemma stands_for_arrived mine theirs theirs' s :
  arrived theirs' = arrived theirs -> stands_for mine theirs s -> stands_for mine theirs' s.
Proof. intros Ha (ps & cut & [Hb Hok Hcut] & ->). exists ps, cut. split; [|done]. split; [by rewrite Ha|done..]. Qed.

(** An end whose stream and channel state have not changed, for the worse at most. *)
Lemma carries_same mine mine' theirs ps cut :
  written mine' = written mine -> (tx_closed (end_conn mine) = true -> tx_closed (end_conn mine') = true) ->
  carries mine theirs ps cut -> carries mine' theirs ps cut.
Proof. intros Hw Hx [Hb Hok Hcut]. split; [by rewrite Hw|done|]. destruct Hcut as [|[? ?]]; [by left|right]. auto. Qed.

Lemma send_side_closed req s : tx_closed (side_conn (send_side req s)) = tx_closed (side_conn s).
Proof. unfold send_side, send_request. cbn. by destruct (tx_closed (side_conn s)). Qed.

Lemma finished_closed i k resp s : tx_closed (side_conn (finished i k resp s)) = tx_closed (side_conn s).
Proof. unfold finished, send_response. cbn. by destruct (tx_closed (side_conn s)) eqn:E. Qed.

Lemma send_side_ok req e : fits (PayloadRequest req) -> end_ok e -> end_ok (set_end_side (send_side req (end_side e)) e).
Proof.
  intros Hfit [Hs Hq Ht]. pose proof (Z.mod_pos_bound (local_seq (end_conn e) + 1) (2 ^ 64) ltac:(lia)).
  unfold set_end_side, send_side, send_request, end_conn in *. cbn in *.
  destruct (tx_closed (side_conn (end_side e))); (split; cbn; [done| |done]); [done|].
  apply Forall_app. split; [done|]. apply Forall_singleton. by destruct Hfit.
Qed.

Lemma finished_ok i k resp e : fits (PayloadResponse resp) -> (0 <= k < 2 ^ 64)%Z -> end_ok e ->
  end_ok (set_end_side (finished i k resp (end_side e)) e).
Proof.
  intros Hfit Hk [Hs Hq Ht]. unfold set_end_side, finished, send_response, end_conn in *.
  destruct (tx_closed (side_conn (end_side e))); (split; cbn; [done| |by apply Forall_delete]); [done|].
  apply Forall_app. split; [done|]. apply Forall_singleton. by destruct Hfit.
Qed.

Lemma read_packet_ok p e w a d : (0 <= seq_id p < 2 ^ 64)%Z -> end_ok e -> end_ok (mkEnd (read_packet p (end_side e)) w a d).
Proof.
  intros Hk [Hs Hq Ht]. unfold read_packet, end_conn in *. destruct (alive (side_conn (end_side e))); [|by split].
  destruct (payload p); [split; cbn; [done|done|]; apply Forall_app; by rewrite Forall_singleton|].
  unfold receive_response. destruct (wait_poll (side_conn (end_side e)) !! seq_id p); by split.
Qed.

Lemma write_end_ok n e : end_ok e -> end_ok (write_end n e).
Proof. intros [Hs Hq Ht]. by split; [|constructor|]. Qed.

Lemma read_end_ok e : end_ok e -> end_ok (set_end_conn (read_task_end (end_conn e)) e).
Proof. intros [Hs Hq Ht]. by split. Qed.

Lemma write_iteration_spec e e' : write_iteration e = Some e' ->
  exists p rest, tx_closed (end_conn e) = false /\ packet_tx (end_conn e) = p :: rest /\
    e' = mkEnd (sent_first rest (end_side e)) (written e ++ write_packet serialize p) (arrived e) (dropped e).
Proof.
  unfold write_iteration. destruct (tx_closed _); [done|]. destruct (packet_tx _) as [|p rest]; [done|].
  intros [= <-]. by exists p, rest.
Qed.

Lemma frames_snoc ps p : frames (ps ++ [p]) = frames ps ++ write_packet serialize p.
Proof. unfold frames. rewrite fmap_app, concat_app. cbn. by rewrite app_nil_r. Qed.

(** What ends on the stream when the write task ends. *)
Lemma stands_write_end n mine theirs s : end_ok mine -> stands_for mine theirs s ->
  exists k, stands_for (write_end n mine) theirs (side_write_end k s).
Proof.
  intros [_ Hq _] (ps & cut & [Hb Hok Hcut] & ->). unfold write_end, stands_for. fold (side_write_end 0 (end_side mine)).
  destruct (tx_closed (end_conn mine)) eqn:Hx.
  { exists (length ps), ps, cut. split; [split; cbn; [by rewrite app_nil_r|done|]|].
    - destruct Hcut as [|[_ ?]]; [by left|by right].
    - cbn. rewrite app_nil_r. apply write_end_queue. }
  destruct Hcut as [->|[? _]]; [|congruence]. rewrite app_nil_r in Hb.
  destruct (packet_tx (end_conn mine)) as [|p rest] eqn:Hp.
  { exists (length ps), ps, []. split; [split; cbn; [by rewrite !app_nil_r|done|by left]|].
    cbn. rewrite take_0, app_nil_r. pose proof (write_end_queue ps [] (end_side mine)) as Hw.
    rewrite app_nil_r in Hw. exact Hw. }
  apply Forall_cons in Hq as [Hpok _]. assert (packet_ok serialize p) as Hp0 by apply Hpok. destruct (decide (n < length (write_packet serialize p))) as [Hn|Hn].
  - exists (length ps), ps, (take n (write_packet serialize p)). split; [split; cbn; [by rewrite app_assoc, Hb|done|right]|].
    + split; [done|]. by exists p, n.
    + cbn. rewrite app_nil_r. apply write_end_queue.
  - exists (length (ps ++ [p])), (ps ++ [p]), []. split; [split; cbn|].
    + rewrite (take_ge (write_packet serialize p) n) by lia. by rewrite frames_snoc, app_nil_r, app_assoc, Hb.
    + apply Forall_app. by rewrite Forall_singleton.
    + by left.
    + cbn. rewrite app_nil_r. change (p :: rest) with ([p] ++ rest). rewrite app_assoc. apply write_end_queue.
Qed.

Lemma stands_read_end mine theirs s :
  stands_for mine theirs s -> stands_for (set_end_conn (read_task_end (end_conn mine)) mine) theirs (side_read_end s).
Proof. intros (ps & cut & Hc & ->). exists ps, cut. split; [|done]. by eapply carries_same; [..|exact Hc]. Qed.

Lemma set_ends_eta b s : s = set_ends b (end_of b s) (end_of (negb b) s).
Proof. by destruct b, s. Qed.

(** At most two events of the link lead to one that [s'] refines. *)
Definition simulated (s' : Pair) (l : Link) : Prop :=
  exists levs l', length levs <= 2 /\ link_run levs l = Some l' /\ refines s' l'.

(** An event at one end only. *)
Lemma simulate_mine levs b mine mine' theirs l1 l1' l2 :
  refines (set_ends b mine theirs) (set_sides b l1 l2) -> length levs <= 2 ->
  link_run levs (set_sides b l1 l2) = Some (set_sides b l1' l2) ->
  arrived mine' = arrived mine -> end_ok mine' -> stands_for mine' theirs l1' ->
  simulated (set_ends b mine' theirs) (set_sides b l1 l2).
Proof.
  intros [_ [Hok2 Hst2]]%refines_set Hl Hrun Ha Hok Hst. exists levs, (set_sides b l1' l2). split; [done|]. split; [done|].
  apply refines_set. split; [done|]. split; [done|]. by eapply stands_for_arrived; [|exact Hst2].
Qed.

Section Simulate.
Context (b : bool) (mine theirs : End) (l1 l2 : Side).
Context (Hr : refines (set_ends b mine theirs) (set_sides b l1 l2)).

Lemma link_run_one ev l1' : link_step ev (set_sides b l1 l2) = Some (set_sides b l1' l2) ->
  link_run [ev] (set_sides b l1 l2) = Some (set_sides b l1' l2).
Proof. intros Hs. cbn. by rewrite Hs. Qed.

Lemma simulate_send req : fits (PayloadRequest req) ->
  simulated (set_ends b (set_end_side (send_side req (end_side mine)) mine) theirs) (set_sides b l1 l2).
Proof using Hr.
  intros Hfit. apply refines_set in Hr as H'. destruct H' as [[Hok (ps & cut & Hc & E)] _].
  eapply (simulate_mine [EvSend b req]); [exact Hr|cbn; lia| |done|by apply send_side_ok|].
  - apply link_run_one. rewrite link_step_send. destruct (side_set_sides b l1 l2) as [-> ->]. done.
  - rewrite E. exists ps, cut. split; [|apply send_side_queue].
    eapply carries_same; [..|exact Hc]; [done|]. unfold end_conn. cbn [end_side set_end_side]. by rewrite send_side_closed.
Qed.

Lemma simulate_serve i k req raft : (forall req, fits (PayloadResponse (serve raft req))) ->
  side_tasks (end_side mine) !! i = Some (k, req) ->
  simulated (set_ends b (set_end_side (finished i k (serve raft req) (end_side mine)) mine) theirs) (set_sides b l1 l2).
Proof using Hr.
  intros Hfit Hi. apply refines_set in Hr as H'. destruct H' as [[Hok (ps & cut & Hc & E)] _].
  eapply (simulate_mine [EvFinish b i raft] b mine _ theirs l1 (finished i k (serve raft req) l1)); [exact Hr|cbn; lia| |done| |].
  - apply link_run_one. cbn [link_step]. destruct (side_set_sides b l1 l2) as [-> ->].
    rewrite E. cbn [side_tasks sent_first set_side_conn]. by rewrite Hi.
  - apply finished_ok; [apply Hfit| |done]. pose proof (eok_tasks _ Hok) as Ht. rewrite Forall_lookup in Ht. apply (Ht _ _ Hi).
  - rewrite E. exists ps, cut. split; [|apply finished_queue].
    eapply carries_same; [..|exact Hc]; [done|]. unfold end_conn. cbn [end_side set_end_side]. by rewrite finished_closed.
Qed.

Lemma simulate_write mine' : write_iteration mine = Some mine' -> simulated (set_ends b mine' theirs) (set_sides b l1 l2).
Proof using Hr.
  intros (p & rest & Hx & Hq & ->)%write_iteration_spec. apply refines_set in Hr as H'.
  destruct H' as [[[Hs1 Hq1 Ht1] (ps & cut & [Hb Hok Hcut] & E)] _]. rewrite Hq in Hq1. apply Forall_cons in Hq1 as [Hp Hq1].
  destruct Hcut as [->|[? _]]; [|congruence].
  eapply (simulate_mine []); [exact Hr|cbn; lia|reflexivity|done|by split|]. exists (ps ++ [p]), []. split; [split|].
  - cbn. by rewrite frames_snoc, app_nil_r, app_assoc, Hb, app_nil_r.
  - apply Forall_app. by rewrite Forall_singleton.
  - by left.
  - rewrite E, Hq. cbn. by rewrite <-app_assoc.
Qed.

Lemma simulate_arrive n :
  simulated (set_ends b (mkEnd (end_side mine) (drop n (written mine)) (arrived mine) (dropped mine))
    (mkEnd (end_side theirs) (written theirs) (arrived theirs ++ take n (written mine)) (dropped theirs))) (set_sides b l1 l2).
Proof using Hr.
  apply refines_set in Hr as H'. destruct H' as [[[] (ps & cut & [Hb Hok Hcut] & E1)] [[] (qs & cut2 & [Hb2 Hok2 Hcut2] & E2)]].
  exists [], (set_sides b l1 l2). split; [cbn; lia|]. split; [done|]. apply refines_set. split; (split; [by split|]).
  - exists ps, cut. split; [split; [|done..]|done]. cbn. by rewrite <-app_assoc, take_drop.
  - exists qs, cut2. by split; [split|].
Qed.

Lemma simulate_read_end : simulated (set_ends b (set_end_conn (read_task_end (end_conn mine)) mine) theirs) (set_sides b l1 l2).
Proof using Hr.
  apply refines_set in Hr as H'. destruct H' as [[Hok Hst] _].
  eapply (simulate_mine [EvReadEnd b] b mine _ theirs l1 (side_read_end l1));
    [exact Hr|cbn; lia| |done|by apply read_end_ok|by apply stands_read_end].
  apply link_run_one. cbn [link_step]. by destruct (side_set_sides b l1 l2) as [-> ->].
Qed.

Lemma simulate_write_end n : simulated (set_ends b (write_end n mine) theirs) (set_sides b l1 l2).
Proof using Hr.
  apply refines_set in Hr as H'. destruct H' as [[Hok Hst] _]. destruct (stands_write_end n _ _ _ Hok Hst) as [k Hst'].
  eapply (simulate_mine [EvWriteEnd b k]); [exact Hr|cbn; lia| |done|by apply write_end_ok|exact Hst'].
  apply link_run_one. cbn [link_step]. by destruct (side_set_sides b l1 l2) as [-> ->].
Qed.

Lemma simulate_drop n : simulated (set_ends b (drop_connection n mine) theirs) (set_sides b l1 l2).
Proof using Hr.
  apply refines_set in Hr as H'. destruct H' as [[Hok%read_end_ok Hst%stands_read_end] _].
  destruct (stands_write_end n _ _ _ Hok Hst) as [k (ps & cut & [Hb Hps Hcut] & E)]. apply (write_end_ok n) in Hok as [].
  eapply (simulate_mine [EvReadEnd b; EvWriteEnd b k]); [exact Hr|cbn; lia| |done|by split|].
  2: { exists ps, cut. split; [by split|exact E]. }
  cbn [link_run link_step]. destruct (side_set_sides b l1 l2) as [-> ->]. cbn [mbind option_bind]. fold (side_read_end l1).
  by destruct (side_set_sides b (side_read_end l1) l2) as [-> ->].
Qed.

Lemma simulate_read mine' : read_iteration (end_of_stream theirs) mine = Some mine' ->
  simulated (set_ends b mine' theirs) (set_sides b l1 l2).
Proof using Hr.
  unfold read_iteration. destruct (alive (end_conn mine)) eqn:Ha; [|done].
  destruct (read_frame _ (arrived mine)) as [k data rest| |] eqn:Hread; intros [= <-]; [|apply simulate_read_end].
  apply refines_set in Hr as H'. destruct H' as [[Hok1 (qs & cut1 & Hc1 & E1)] [Hok2 (ps & cut & Hc & E2)]].
  destruct (carries_read _ _ _ _ _ _ _ _ Hc Hread) as (p & ps' & -> & -> & -> & Hb).
  destruct Hc as [_ [[[Hk _] ->] Hok]%Forall_cons Hcut]. destruct p as [k p]. cbn [seq_id payload]. set (p0 := mkPacket k p) in *.
  exists [EvDeliver (negb b)], (set_sides b (read_packet p0 l1) (sent_first (ps' ++ packet_tx (end_conn theirs)) (end_side theirs))).
  split; [cbn; lia|]. split.
  - cbn [link_run link_step]. destruct (side_set_sides b l1 l2) as [H1 H2]. rewrite H2, negb_involutive, H1, E2.
    cbn [side_conn sent_first packet_tx set_packet_tx set_side_conn app mbind option_bind]. by rewrite set_sides_negb.
  - apply refines_set. split.
    + split; [by apply read_packet_ok; [exact Hk|]|]. destruct (read_packet_kept p0 (end_side mine)) as (Hq & Hx & _).
      exists qs, cut1. split.
      * eapply carries_same; [..|exact Hc1]; [done|]. unfold end_conn. cbn [end_side]. by rewrite Hx.
      * rewrite E1. unfold end_conn. cbn [end_side]. rewrite Hq. apply read_packet_queue.
    + split; [done|]. exists ps', cut. by split; [split|].
Qed.
End Simulate.

(** An event of the tasks is at most two of the link. *)
Lemma refines_step ev s s' l : event_fits ev -> refines s l -> task_step ev s = Some s' -> simulated s' l.
Proof.
  intros Hfit Hr Hstep.
  assert (exists b mine theirs l1 l2, s = set_ends b mine theirs /\ l = set_sides b l1 l2 /\
    match ev with TaskSend e _ | TaskServe e _ _ | TaskWrite e | TaskArrive e _ | TaskRead e | TaskReadEnd e
      | TaskWriteEnd e _ | TaskDrop e _ => e = b end) as (b & mine & theirs & l1 & l2 & -> & -> & Hb).
  { destruct ev as [b ?|b ? ?|b|b ?|b|b|b ?|b ?]; exists b, (end_of b s), (end_of (negb b) s), (side b l), (side (negb b) l);
      (split; [apply set_ends_eta|split; [apply set_sides_eta|done]]). }
  destruct (end_of_set b mine theirs) as [He1 He2].
  destruct ev as [e req|e i raft|e|e n|e|e|e n|e n]; subst e; cbn [task_step] in Hstep; rewrite ?He1, ?He2 in Hstep.
  - injection Hstep as <-. by apply simulate_send.
  - destruct (side_tasks (end_side mine) !! i) as [[k req]|] eqn:Hi; [|done]. injection Hstep as <-. by apply simulate_serve.
  - destruct (write_iteration mine) eqn:Hw; [|done]. injection Hstep as <-. by eapply simulate_write.
  - injection Hstep as <-. by apply simulate_arrive.
  - destruct (read_iteration _ mine) eqn:Hread; [|done]. injection Hstep as <-. by eapply simulate_read.
  - injection Hstep as <-. by apply simulate_read_end.
  - destruct (tx_closed (end_conn mine)); [done|]. injection Hstep as <-. by apply simulate_write_end.
  - injection Hstep as <-. by apply simulate_drop.
Qed.

Lemma pair_new_refines a b : refines (pair_new a b) (link_new a b).
Proof. intros []; (split; [split; cbn; [lia|constructor..]|]); exists [], []; (split; [split; [done|constructor|by left]|done]). Qed.

Lemma task_run_refines evs s s' l : Forall event_fits evs -> refines s l -> task_run evs s = Some s' ->
  exists levs l', length levs <= 2 * length evs /\ link_run levs l = Some l' /\ refines s' l'.
Proof.
  intros Hfits. revert s l. induction Hfits as [|ev evs Hfit _ IH]; intros s l Hr Hrun.
  - injection Hrun as <-. by exists [], l.
  - cbn [task_run] in Hrun. destruct (task_step ev s) as [s1|] eqn:Hs; [|done].
    destruct (refines_step ev s s1 l Hfit Hr Hs) as (levs1 & l1 & Hl1 & Hrun1 & Hr1).
    destruct (IH s1 l1 Hr1 Hrun) as (levs2 & l2 & Hl2 & Hrun2 & Hr2).
    exists (levs1 ++ levs2), l2. split; [rewrite length_app; cbn [length]; lia|]. split; [|done]. by rewrite link_run_app, Hrun1.
Qed.

(** What an event does to an end whose read task has ended. *)
Definition drops (b : bool) (ev : task_event) : bool :=
  match ev with TaskDrop e _ => Bool.eqb e b | _ => false end.

(** A caller that waits on a connection whose read task has ended, which has [n]
    numbers behind it. *)
Record stranded (k : Z) (c : loc) (n : Z) (e : End) : Prop := mkStranded {
  str_dead : alive (end_conn e) = false;
  str_kept : dropped e = false;
  str_pool : wait_poll (end_conn e) !! k = Some c;
  str_receiver : receivers (end_conn e) !! c = Some None;
  str_number : (0 <= k < local_seq (end_conn e))%Z;
  str_count : (local_seq (end_conn e) <= n)%Z;
}.

Lemma stranded_same k c n m e e' : stranded k c n e -> (n <= m)%Z -> dropped e' = dropped e ->
  alive (end_conn e') = alive (end_conn e) -> wait_poll (end_conn e') = wait_poll (end_conn e) ->
  receivers (end_conn e') = receivers (end_conn e) -> local_seq (end_conn e') = local_seq (end_conn e) -> stranded k c m e'.
Proof. intros [] Hn Hd Ha Hp Hrc Hl. split; rewrite ?Hd, ?Ha, ?Hp, ?Hrc, ?Hl; done || lia. Qed.

Lemma stranded_send k c n req e : (n + 1 < 2 ^ 64)%Z -> stranded k c n e ->
  stranded k c (n + 1) (set_end_side (send_side req (end_side e)) e).
Proof.
  intros Hn [Ha Hd Hp Hrc Hk Hl]. destruct e as [[[pr tx x pool seq al rs next] tasks asked] w ar d].
  unfold end_conn in *. cbn in *. unfold set_end_side, send_side, send_request. cbn. rewrite Z.mod_small by lia.
  assert (<[next := None]> rs !! c = Some (None : option Response)) as Hc.
  { destruct (decide (next = c)) as [->|]; [apply lookup_insert_eq|by rewrite lookup_insert_ne]. }
  destruct x; (split; cbn; [done|done| |done|lia|lia]); rewrite ?lookup_delete_ne, ?lookup_insert_ne by lia; done.
Qed.

Lemma stranded_step k c n b ev s s' : (n + 1 < 2 ^ 64)%Z -> drops b ev = false ->
  stranded k c n (end_of b s) -> task_step ev s = Some s' -> stranded k c (n + 1) (end_of b s').
Proof.
  intros Hn Hdrop Hst Hstep.
  assert (forall e mine theirs, (e = b -> stranded k c (n + 1) mine) -> (e = negb b -> stranded k c (n + 1) theirs) ->
    stranded k c (n + 1) (end_of b (set_ends e mine theirs))) as Hends.
  { intros e mine theirs H1 H2. destruct e, b; cbn in *; auto. }
  assert (forall e, e = negb b -> stranded k c (n + 1) (end_of (negb e) s)) as Htheirs.
  { intros e ->. rewrite negb_involutive. eapply stranded_same; [exact Hst|lia|done..]. }
  pose proof (fun mine' => stranded_same k c n (n + 1) _ mine' Hst ltac:(lia)) as Hsame.
  destruct ev as [e req|e i raft|e|e m|e|e|e m|e m]; cbn [task_step] in Hstep.
  - injection Hstep as <-. apply Hends; [intros ->; by apply stranded_send|apply Htheirs].
  - destruct (side_tasks _ !! i) as [[seq req]|]; [|done]. injection Hstep as <-.
    apply Hends; [intros ->|apply Htheirs]. apply Hsame; unfold set_end_side, finished, send_response, end_conn;
      cbn; by destruct (tx_closed (side_conn (end_side (end_of b s)))).
  - destruct (write_iteration (end_of e s)) as [mine'|] eqn:Hw; [|done]. injection Hstep as <-.
    apply write_iteration_spec in Hw as (p & rest & _ & _ & ->). apply Hends; [intros ->; by apply Hsame|apply Htheirs].
  - injection Hstep as <-. apply Hends; [intros ->; by apply Hsame|]. intros ->. rewrite negb_involutive. by apply Hsame.
  - unfold read_iteration in Hstep. destruct (alive (end_conn (end_of e s))) eqn:Ha; [|done].
    destruct (read_frame _ _); cbn in Hstep; injection Hstep as <- || done;
      (apply Hends; [intros ->; destruct Hst; congruence|apply Htheirs]).
  - injection Hstep as <-. apply Hends; [intros ->|apply Htheirs]. apply Hsame; try done. cbn. by destruct Hst.
  - destruct (tx_closed _); [done|]. injection Hstep as <-. apply Hends; [intros ->; by apply Hsame|apply Htheirs].
  - injection Hstep as <-. apply Hends; [intros ->; by destruct b|apply Htheirs].
Qed.

Lemma stranded_run k c n b evs s s' : (n + Z.of_nat (length evs) < 2 ^ 64)%Z -> Forall (fun ev => drops b ev = false) evs ->
  stranded k c n (end_of b s) -> task_run evs s = Some s' -> stranded k c (n + Z.of_nat (length evs)) (end_of b s').
Proof.
  revert n s. induction evs as [|ev evs IH]; intros n s Hn Hdrops Hst Hrun; cbn [length] in *.
  - injection Hrun as <-. by rewrite Z.add_0_r.
  - apply Forall_cons in Hdrops as [Hdrop Hdrops]. cbn in Hrun. destruct (task_step ev s) as [s1|] eqn:Hs; [|done]. cbn in Hrun.
    replace (n + Z.of_nat (S (length evs)))%Z with (n + 1 + Z.of_nat (length evs))%Z by lia.
    eapply IH; [lia|done| |exact Hrun]. eapply stranded_step; [lia|exact Hdrop|exact Hst|exact Hs].
Qed.

Lemma stranded_polls k c n e : stranded k c n e -> receiver_poll c e = Pending.
Proof.
  intros [_ Hd Hp Hr _ _]. unfold receiver_poll. rewrite Hr, Hd, decide_True; [done|].
  apply list_elem_of_fmap. exists (k, c). split; [done|]. by apply elem_of_map_to_list.
Qed.

(** ** Properties *)

(** C27: The two tasks of a connection do what the link of packets says.  However the
    bytes arrive, whenever a task is cancelled, fails in the middle of a frame or is
    aborted with its connection, the ends are in the state some run of the link has
    led to, with the packets whose frames are on the stream still to be delivered;
    so a caller only ever gets what its peer's Raft answered to its own request. *)
Theorem tasks_refine_link (a b : RaftNodeInfo) (evs : list task_event) (s : Pair)
    (Hfits : Forall event_fits evs) (Hlen : (2 * Z.of_nat (length evs) < 2 ^ 64)%Z)
    (Hrun : task_run evs (pair_new a b) = Some s) :
  exists levs l, length levs <= 2 * length evs /\ link_run levs (link_new a b) = Some l /\ refines s l /\
    forall e c resp, receivers (end_conn (end_of e s)) !! c = Some (Some resp) ->
      exists req, side_asked (end_side (end_of e s)) !! c = Some req /\ own_answer (link_new a b) levs e c req resp.
Proof.
  destruct (task_run_refines evs _ _ _ Hfits (pair_new_refines a b) Hrun) as (levs & l & Hl & Hlrun & Hr).
  exists levs, l. split_and!; [done..|]. intros e c resp Hgot.
  pose proof (link_run_own a b levs l ltac:(lia) Hlrun e) as [Hc _ _ _ _].
  destruct (Hr e) as (_ & ps & cut & _ & E). rewrite E in Hc. apply (cor_answer _ _ _ _ _ _ Hc c resp).
  unfold answered, end_conn in *. cbn. by rewrite lookup_omap, Hgot.
Qed.

(** A caller whose request is in the pool when the read task ends waits until the
    connection is dropped, whatever else happens: the task leaves the pool as it is,
    and nobody answers any more.  When it is dropped, the caller gets an error. *)
Theorem dead_read_strands_callers (k : Z) (c : loc) (n : Z) (b : bool) (evs : list task_event) (s s' : Pair) (m : nat)
    (Hn : (n + Z.of_nat (length evs) < 2 ^ 64)%Z) (Hdrops : Forall (fun ev => drops b ev = false) evs)
    (Hst : stranded k c n (end_of b s)) (Hrun : task_run evs s = Some s') :
  receiver_poll c (end_of b s') = Pending /\
  exists s'', task_step (TaskDrop b m) s' = Some s'' /\ receiver_poll c (end_of b s'') = Ready None.
Proof.
  pose proof (stranded_run k c n b evs s s' Hn Hdrops Hst Hrun) as Hst'. split; [by eapply stranded_polls|].
  eexists. split; [reflexivity|]. destruct (end_of_set b (drop_connection m (end_of b s')) (end_of (negb b) s')) as [-> _].
  unfold receiver_poll. change (receivers (end_conn (drop_connection m _))) with (receivers (end_conn (end_of b s'))).
  by rewrite (str_receiver _ _ _ _ Hst').
Qed.
End Tasks.

Section TaskWitnesses.
Import Sample.
#[local] Existing Instance sample_wire.

(** An encoding that carries votes and what [sample_raft] answers. *)
Definition bit (v : bool) : u8 := if v then x01 else x00.
Definition vote_serialize (p : Payload) : list u8 :=
  match p with
  | PayloadRequest (ReqVote n) => [x00; byte_of_Z (Z.of_nat n)]
  | PayloadResponse (RespVote (Ok v)) => [x01; bit v]
  | PayloadResponse (RespAppendEntries (Ok v)) => [x02; bit v]
  | PayloadResponse (RespInstallSnapshot _) => [x03]
  | PayloadResponse (RespProposal _) => [x04]
  | _ => []
  end.
Definition vote_deserialize (bs : list u8) : option Payload :=
  match bs with
  | [x00; n] => Some (PayloadRequest (ask (Z.to_nat (byte_to_Z n))))
  | [x01; v] => Some (PayloadResponse (RespVote (H := sample_wire) (Ok (bool_decide (v = x01)))))
  | [x02; v] => Some (PayloadResponse (RespAppendEntries (H := sample_wire) (Ok (bool_decide (v = x01)))))
  | [x03] => Some (PayloadResponse (RespInstallSnapshot (H := sample_wire) (Err "busy")))
  | [x04] => Some (PayloadResponse (RespProposal (H := sample_wire) (Ok 7)))
  | _ => None
  end.

Lemma sample_raft_fits b i : event_fits vote_serialize vote_deserialize (TaskServe b i sample_raft).
Proof. intros [n|n|n|p]; split; try done; cbn; [by destruct (Nat.even n)|by destruct (Nat.odd n)]. Qed.

(** A request whose frame arrives in two pieces, its answer, and a second request,
    which is on its way when the end that made it loses its stream. *)
Definition answer_events : list task_event :=
  [TaskSend true (ask 4); TaskWrite true; TaskArrive true 5; TaskArrive true 100; TaskRead false;
   TaskServe false 0 sample_raft; TaskWrite false; TaskArrive false 100; TaskRead true].
Definition break_events : list task_event :=
  [TaskSend true (ask 6); TaskWrite true; TaskReadEnd true].

Definition answered_pair : Pair :=
  default (pair_new node_a node_b) (task_run vote_serialize vote_deserialize answer_events (pair_new node_a node_b)).
Definition broken_pair : Pair :=
  default (pair_new node_a node_b) (task_run vote_serialize vote_deserialize break_events answered_pair).

Lemma answer_events_fit : Forall (event_fits vote_serialize vote_deserialize) answer_events.
Proof. repeat apply Forall_cons_2; try apply sample_raft_fits; try exact I; [by split|constructor]. Qed.

Lemma tasks_refine_link_witness :
  exists levs l, length levs <= 2 * length answer_events /\ link_run levs (link_new node_a node_b) = Some l /\
    refines vote_serialize vote_deserialize answered_pair l /\
    forall e c resp, receivers (end_conn (end_of e answered_pair)) !! c = Some (Some resp) ->
      exists req, side_asked (end_side (end_of e answered_pair)) !! c = Some req /\
        own_answer (link_new node_a node_b) levs e c req resp.
Proof.
  apply (tasks_refine_link vote_serialize vote_deserialize node_a node_b answer_events answered_pair);
    [exact answer_events_fit|cbn; lia|vm_compute; reflexivity].
Defined.

(** The caller of the second request, whatever is sent and served afterwards. *)
Definition later_events : list task_event := [TaskSend true (ask 8); TaskArrive true 3; TaskSend false (ask 1); TaskWrite false].
Definition later_pair : Pair :=
  default broken_pair (task_run vote_serialize vote_deserialize later_events broken_pair).

Lemma dead_read_strands_callers_witness :
  receiver_poll 1 (end_of true later_pair) = Pending /\
  exists s'', task_step vote_serialize vote_deserialize (TaskDrop true 0) later_pair = Some s'' /\
    receiver_poll 1 (end_of true s'') = Ready None.
Proof.
  apply (dead_read_strands_callers vote_serialize vote_deserialize 1 1 2 true later_events broken_pair later_pair 0).
  - cbn. lia.
  - repeat constructor.
  - split; vm_compute; try reflexivity; try split; (reflexivity || discriminate).
  - vm_compute. reflexivity.
Defined.
End TaskWitnesses.
