(* ===== verification/DurableLoad.v ===== *)
(** * Loading topics from the durable service

    [Node::load_from_durable_service] in [server/src/protocol/node.rs] and the page
    query of [server/src/protocol/topic/durable_message.rs]: every topic the
    service knows is read page by page and proposed with its messages.  The service
    is an implementation of the trait [Durable], a parameter here. *)

From S2P Require Import Prelude Ids Interest Message Proposal Edge Codec Queue Topic NodeData EdgeNode Tasks.

Record DurableMessageQuery : Type := mkQuery { limit : Z; offset : Z }.

(** Checked [u32] addition, as the dev profile compiles it. *)
Definition u32_add (a b : Z) : Outcome Z :=
  if decide (a + b <= u32_MAX)%Z then Done (a + b)%Z else Panic.

Definition next_page (q : DurableMessageQuery) : Outcome DurableMessageQuery :=
  offset ← u32_add (offset q) (limit q);
  Done (mkQuery (limit q) offset).

Definition PAGE_SIZE : Z := 100.

(** Errors of the load, by what failed. *)
Inductive LoadError : Type :=
  | TopicListFailed (e : string)
  | BatchRetrieveFailed (e : string)
  | LoadTopicFailed (e : LoadTopicError).

Section DurableLoad.
Context (raft_propose : Proposal -> EdgeNode -> Result () string * EdgeNode).
Context (batch_retrieve : TopicCode -> DurableMessageQuery -> Result (list DurableMessage) string).
Context (topic_list : Result (list TopicConfig) string).

(** The loop of a topic's task over the pages. *)
Fixpoint retrieve_pages (fuel : nat) (code : TopicCode) (query : DurableMessageQuery) (queue : list DurableMessage) :
    Outcome (Result (list DurableMessage) LoadError) :=
  match fuel with
  | 0 => OutOfFuel
  | S fuel =>
      match batch_retrieve code query with
      | Err e => Done (Err (BatchRetrieveFailed e))
      | Ok page =>
          let queue := queue ++ page in
          if decide (Z.of_nat (length page) < PAGE_SIZE)%Z then Done (Ok queue)
          else
            query ← next_page query;
            retrieve_pages fuel code query queue
      end
  end.

(** A topic's task; an existing topic is no error.  ([propose] never builds the
    error kind [NotLeader], which the code ignores too.) *)
Definition load_stored_topic (fuel : nat) (topic : TopicConfig) (s : TaskState) :
    Outcome (Result () LoadError * (TaskState * list Proposal)) :=
  queue ← retrieve_pages fuel (config_code topic) (mkQuery PAGE_SIZE 0) [];
  match queue with
  | Err e => Done (Err e, (s, []))
  | Ok queue =>
      let '(r, (s, ps)) := load_topic raft_propose topic queue s in
      match r with
      | Ok _ | Err TopicAlreadyExists => Done (Ok (), (s, ps))
      | Err e => Done (Err (LoadTopicFailed e), (s, ps))
      end
  end.

(** The tasks in the order in which they are done; the first error ends the load
    and drops the tasks that are left. *)
Fixpoint load_topics (fuel : nat) (topics : list TopicConfig) (s : TaskState) :
    Outcome (Result () LoadError * (TaskState * list Proposal)) :=
  match topics with
  | [] => Done (Ok (), (s, []))
  | topic :: topics =>
      '(r, (s, ps)) ← load_stored_topic fuel topic s;
      match r with
      | Err e => Done (Err e, (s, ps))
      | Ok _ =>
          '(r, (s, ps')) ← load_topics fuel topics s;
          Done (r, (s, ps ++ ps'))
      end
  end.

(** [load_from_durable_service]; [order] is how the runtime happens to order the tasks. *)
Definition load_from_durable_service (durable : bool) (order : list TopicConfig -> list TopicConfig) (fuel : nat)
    (s : TaskState) : Outcome (Result () LoadError * (TaskState * list Proposal)) :=
  if durable then
    match topic_list with
    | Err e => Done (Err (TopicListFailed e), (s, []))
    | Ok topics => load_topics fuel (order topics) s
    end
  else Done (Ok (), (s, [])).

(** ** Facts *)

(** The service keeps the messages [l] for a topic, and answers a query with the
    page it asks for. *)
Definition stores (code : TopicCode) (l : list DurableMessage) : Prop :=
  forall q, batch_retrieve code q = Ok (take (Z.to_nat (limit q)) (drop (Z.to_nat (offset q)) l)).

Lemma retrieve_pages_stored code l n k : stores code l -> (Z.of_nat (length l) + PAGE_SIZE <= u32_MAX)%Z ->
  100 * k <= length l < 100 * (k + n) ->
  retrieve_pages n code (mkQuery PAGE_SIZE (Z.of_nat (100 * k))) (take (100 * k) l) = Done (Ok l).
Proof.
  intros Hst Hsize. revert k. induction n as [|n IH]; intros k Hk; [lia|]. cbn [retrieve_pages].
  rewrite Hst. cbn [limit offset]. rewrite Nat2Z.id. change (Z.to_nat PAGE_SIZE) with 100.
  assert (take (100 * k) l ++ take 100 (drop (100 * k) l) = take (100 * (k + 1)) l) as ->.
  { replace (100 * (k + 1)) with (100 * k + 100) by lia. by rewrite take_take_drop. }
  rewrite length_take, length_drop. case_decide as Hlast; unfold PAGE_SIZE in *.
  - do 2 f_equal. apply take_ge. lia.
  - unfold next_page, u32_add. cbn [limit offset]. rewrite decide_True by lia. cbn [mbind Outcome_bind].
    replace (Z.of_nat (100 * k) + 100)%Z with (Z.of_nat (100 * (k + 1))) by lia. apply IH. lia.
Qed.

(** Rounds enough for a topic of [n] messages: full pages and a last one. *)
Definition pages (n : nat) : nat := S (n / 100).

Lemma retrieve_all code l : stores code l -> (Z.of_nat (length l) + PAGE_SIZE <= u32_MAX)%Z ->
  forall n, pages (length l) <= n -> retrieve_pages n code (mkQuery PAGE_SIZE 0) [] = Done (Ok l).
Proof.
  intros Hst Hsize n Hn. pose proof (retrieve_pages_stored code l n 0 Hst Hsize) as Hr.
  rewrite Nat.mul_0_r, take_0 in Hr. apply Hr. unfold pages in Hn.
  pose proof (Nat.mul_succ_div_gt (length l) 100). lia.
Qed.

Lemma load_stored_absent topic l s n : stores (config_code topic) l -> (Z.of_nat (length l) + PAGE_SIZE <= u32_MAX)%Z ->
  pages (length l) <= n ->
  load_stored_topic n topic s =
    let '(r, (s, ps)) := load_topic raft_propose topic l s in
    Done (match r with Ok _ | Err TopicAlreadyExists => Ok () | Err e => Err (LoadTopicFailed e) end, (s, ps)).
Proof.
  intros Hst Hsize Hn. unfold load_stored_topic. rewrite (retrieve_all _ _ Hst Hsize n Hn). cbn [mbind Outcome_bind].
  destruct (load_topic raft_propose topic l s) as [[t|[]] [s' ps]]; reflexivity.
Qed.

(** The load as it is meant: every topic in turn, with all its messages at hand,
    until one that the node does not have yet cannot be loaded. *)
Fixpoint spec_load (stored : TopicCode -> list DurableMessage) (topics : list TopicConfig) (s : TaskState) :
    Result () LoadError * (TaskState * list Proposal) :=
  match topics with
  | [] => (Ok (), (s, []))
  | topic :: topics =>
      match get_topic (config_code topic) (task_world s) with
      | Some _ => spec_load stored topics s
      | None =>
          match load_topic raft_propose topic (stored (config_code topic)) s with
          | (Err e, (s, ps)) => (Err (LoadTopicFailed e), (s, ps))
          | (Ok _, (s, ps)) =>
              let '(r, (s, ps')) := spec_load stored topics s in (r, (s, ps ++ ps'))
          end
      end
  end.

(** ** Properties *)

(** C33: On a service that answers queries with the pages they ask for, the paged
    load does what a load of whole topics does: it ends after one query per
    hundred messages of a topic and one more, gets every message of every topic
    once and in order, skips the topics the node has, proposes each other topic
    with all its messages, and stops at the first that cannot be loaded. *)
Theorem load_from_durable_refines (stored : TopicCode -> list DurableMessage) (topics : list TopicConfig)
    (order : list TopicConfig -> list TopicConfig) (fuel : nat) (s : TaskState)
    (Hlist : topic_list = Ok topics) (Hstored : forall code, stores code (stored code))
    (Hsize : forall code, (Z.of_nat (length (stored code)) + PAGE_SIZE <= u32_MAX)%Z)
    (Hfuel : forall topic, topic ∈ order topics -> pages (length (stored (config_code topic))) <= fuel) :
  load_from_durable_service true order fuel s = Done (spec_load stored (order topics) s).
Proof.
  unfold load_from_durable_service. rewrite Hlist. clear Hlist. revert s Hfuel.
  induction (order topics) as [|topic l IH]; intros s Hfuel; [done|]. cbn [load_topics spec_load].
  assert (forall topic, topic ∈ l -> pages (length (stored (config_code topic))) <= fuel) as Hfuel'
    by (intros; apply Hfuel; by right).
  rewrite (load_stored_absent topic (stored (config_code topic))) by (auto; apply Hfuel; by left).
  unfold load_topic. destruct (get_topic (config_code topic) (task_world s)) as [h|] eqn:Hg.
  - cbn [mbind Outcome_bind]. rewrite IH by done. by destruct (spec_load stored l s) as [r [s' ps]].
  - destruct (raft_propose _ _) as [[u|e] n]; [|done].
    destruct (get_topic (config_code topic) (task_world (set_task_node n s))) as [h|]; [|done].
    cbn [mbind Outcome_bind]. rewrite IH by done. by destruct (spec_load stored l (set_task_node n s)) as [r [s' ps]].
Qed.

(** A service that never gives a short page is asked until the offset overflows. *)
Lemma full_pages_panic code page : (forall q, batch_retrieve code q = Ok page) -> length page = 100 ->
  exists n, retrieve_pages n code (mkQuery PAGE_SIZE (u32_MAX - 99)) [] = Panic.
Proof.
  intros Hpage Hlen. exists 1. cbn. rewrite Hpage. cbn. rewrite decide_False by (unfold PAGE_SIZE; lia).
  unfold next_page, u32_add. cbn. by rewrite decide_False by (unfold PAGE_SIZE, u32_MAX; lia).
Qed.
End DurableLoad.

(** ** Witness *)

Section DurableLoadWitness.
Import Sample.

(** A service with 150 messages of one topic. *)
Definition stored_message (n : nat) : DurableMessage :=
  mkDurableMessage (msg Durable (byte_of_Z (Z.of_nat n))) ∅ (Z.of_nat n).
Definition stored_messages : list DurableMessage := stored_message <$> seq 0 150.
Definition sample_service (code : TopicCode) (q : DurableMessageQuery) : Result (list DurableMessage) string :=
  Ok (take (Z.to_nat (limit q)) (drop (Z.to_nat (offset q)) stored_messages)).
Definition sample_topics : list TopicConfig := [topic_config_of_code topic; topic_config_of_code (topic_code_new "u")].

Lemma load_from_durable_refines_witness :
  load_from_durable_service accept sample_service (Ok sample_topics) true (fun l => l) 2 sample_tasks =
    Done (spec_load accept (fun _ => stored_messages) sample_topics sample_tasks).
Proof.
  apply (load_from_durable_refines accept sample_service (Ok sample_topics) (fun _ => stored_messages) sample_topics
    (fun l => l) 2 sample_tasks).
  - reflexivity.
  - intros code q. reflexivity.
  - intros code. vm_compute. discriminate.
  - intros t _. vm_compute. lia.
Defined.
End DurableLoadWitness.
