(* ===== verification/DurableStore.v ===== *)
(** * The durable service, and recovery from it

    [server/src/protocol/topic/durable_message.rs]: the trait [Durable], its boxed
    form and the [DurableService] that forwards to it; the task of
    [commit_durable_commands] ([raft/proposal.rs]) that hands a topic's commands to
    the service; [MemoryDurable] of [server/tests/test_durable_service.rs], the
    repository's implementation of the trait.  The class [DurableLaws] states what
    the node relies on, recovery is proved against it, and [MemoryDurable] has it. *)

From S2P Require Import Prelude Ids Interest Message Proposal Queue Topic Delivery Replica NodeData Edge Codec EdgeNode Tasks DurableLoad.

(** ** Errors *)

Record DurableError : Type := mkDurableError {
  durable_context : string;
  durable_source : option string;
}.
Definition durable_error_new_local (context : string) : DurableError := mkDurableError context None.
Definition durable_error_with_source (context source : string) : DurableError :=
  mkDurableError context (Some source).
Definition durable_error_display (e : DurableError) : string :=
  "DurableError: " +:+ durable_context e +:+
    match durable_source e with Some source => "with source: " +:+ source | None => "" end.

Definition query_new (limit offset : Z) : DurableMessageQuery := mkQuery limit offset.

(** ** The trait and the service

    A method takes the service's state and gives its result and the new state. *)
Record Durable (S : Type) : Type := mkDurable {
  durable_save : TopicCode -> DurableMessage -> S -> Result () DurableError * S;
  durable_update_status : TopicCode -> MessageStateUpdate -> S -> Result () DurableError * S;
  durable_retrieve : TopicCode -> MessageId -> S -> Result DurableMessage DurableError;
  durable_batch_retrieve : TopicCode -> DurableMessageQuery -> S -> Result (list DurableMessage) DurableError;
  durable_archive : TopicCode -> MessageId -> S -> Result () DurableError * S;
  durable_create_topic : TopicConfig -> S -> Result () DurableError * S;
  durable_delete_topic : TopicCode -> S -> Result () DurableError * S;
  durable_topic_code_list : S -> Result (list TopicCode) DurableError;
  durable_topic_list : S -> Result (list TopicConfig) DurableError;
}.
Arguments mkDurable {S}.
Arguments durable_save {S} d.
Arguments durable_update_status {S} d.
Arguments durable_retrieve {S} d.
Arguments durable_batch_retrieve {S} d.
Arguments durable_archive {S} d.
Arguments durable_create_topic {S} d.
Arguments durable_delete_topic {S} d.
Arguments durable_topic_code_list {S} d.
Arguments durable_topic_list {S} d.

(** [impl DurabilityObjectTrait for T]: every method boxes the future of the
    method of the same name. *)
Definition boxed {S} (d : Durable S) : Durable S :=
  mkDurable (fun topic message => durable_save d topic message)
    (fun topic update => durable_update_status d topic update)
    (fun topic id => durable_retrieve d topic id) (fun topic query => durable_batch_retrieve d topic query)
    (fun topic id => durable_archive d topic id) (fun topic => durable_create_topic d topic)
    (fun topic => durable_delete_topic d topic) (durable_topic_code_list d) (durable_topic_list d).

(** [TypeId] of the standard library, of which equality is used. *)
Class TypeIds : Type := { TypeId : Type; type_id_eq_dec :: EqDecision TypeId }.

Record DurableService `{TypeIds} (S : Type) : Type := mkService {
  provider : string;
  provider_type : TypeId;
  service_inner : Durable S;
}.
Arguments mkService {_ S}.
Arguments provider {_ S} d.
Arguments provider_type {_ S} d.
Arguments service_inner {_ S} d.

Section Service.
Context `{TypeIds} {S : Type}.
Implicit Types (d : DurableService S) (topic : TopicCode) (s : S).

(** [DurableService::new]: [type_name::<T>()] and [TypeId::of::<T>()] are given. *)
Definition service_new (type_name : string) (type_id : TypeId) (imp : Durable S) : DurableService S :=
  mkService type_name type_id (boxed imp).

(** [downcast_ref::<T>]: the object is there when [T] is the type it was made of. *)
Definition downcast_ref (type_id : TypeId) d : option (Durable S) :=
  if decide (provider_type d = type_id) then Some (service_inner d) else None.

Definition service_save d topic (message : DurableMessage) s := durable_save (service_inner d) topic message s.
Definition service_update_status d topic (update : MessageStateUpdate) s :=
  durable_update_status (service_inner d) topic update s.
Definition service_archive d topic (message_id : MessageId) s :=
  durable_archive (service_inner d) topic message_id s.
Definition service_retrieve d topic (message_id : MessageId) s :=
  durable_retrieve (service_inner d) topic message_id s.
Definition service_batch_retrieve d topic (query : DurableMessageQuery) s :=
  durable_batch_retrieve (service_inner d) topic query s.
Definition service_create_topic d (topic : TopicConfig) s := durable_create_topic (service_inner d) topic s.
Definition service_delete_topic d topic s := durable_delete_topic (service_inner d) topic s.
Definition service_topic_code_list d s := durable_topic_code_list (service_inner d) s.
Definition service_topic_list d s := durable_topic_list (service_inner d) s.
End Service.

(** ** Committing commands *)

Section Commit.
Context `{TypeIds, Clock} {S : Type} (service : DurableService S).

(** The [match command] of the task: a new message is saved without statuses and
    with the time of the commit; [reads] counts the readings of [Utc::now]. *)
Definition commit_command (topic : TopicCode) (command : DurableCommand) (st : S * nat) :
    Result () DurableError * (S * nat) :=
  let '(s, reads) := st in
  match command with
  | CmdCreate message =>
      let '(r, s) := service_save service topic (mkDurableMessage message ∅ (clock_at reads)) s in
      (r, (s, Datatypes.S reads))
  | CmdUpdateStatus update => let '(r, s) := service_update_status service topic update s in (r, (s, reads))
  | CmdArchive id => let '(r, s) := service_archive service topic id s in (r, (s, reads))
  end.

(** The loop over the commands; an error is logged. *)
Definition commit_commands (commands : list (TopicCode * DurableCommand)) (st : S * nat) : S * nat :=
  foldl (fun st '(topic, command) => snd (commit_command topic command st)) st commands.
End Commit.

(** ** What the node relies on

    [view]: the messages a topic has in the store; [listing]: the order pages are
    cut from. *)
Class DurableLaws {S : Type} (d : Durable S) : Type := {
  view : S -> TopicCode -> gmap MessageId DurableMessage;
  listing : S -> TopicCode -> list DurableMessage;
  law_save topic m s :
    view (snd (durable_save d topic m s)) topic = <[msg_id (dm_message m) := m]> (view s topic);
  law_update_status topic u s :
    view (snd (durable_update_status d topic u s)) topic =
      alter (fun m => mkDurableMessage (dm_message m) (update_status u ∪ dm_status m) (dm_time m))
        (update_message_id u) (view s topic);
  law_archive topic i s : view (snd (durable_archive d topic i s)) topic = delete i (view s topic);
  law_listing s topic : listing s topic ≡ₚ (map_to_list (view s topic)).*2;
  law_batch_retrieve topic q s :
    durable_batch_retrieve d topic q s =
      Ok (take (Z.to_nat (limit q)) (drop (Z.to_nat (offset q)) (listing s topic)));
}.

(** ** MemoryDurable (tests/test_durable_service.rs)

    [BTreeMap::values] visits the messages in the order of their ids, which is
    that of their bytes. *)
Record MemoryDurable : Type := mkMemory {
  messages : gmap TopicCode (gmap MessageId DurableMessage);
  archived : gmap TopicCode (gmap MessageId DurableMessage);
  memory_topics : gmap TopicCode TopicConfig;
}.
Definition memory_default : MemoryDurable := mkMemory ∅ ∅ ∅.

Definition set_messages (m : gmap TopicCode (gmap MessageId DurableMessage)) (s : MemoryDurable) : MemoryDurable :=
  mkMemory m (archived s) (memory_topics s).

Definition memory_save (topic : TopicCode) (m : DurableMessage) (s : MemoryDurable) :
    Result () DurableError * MemoryDurable :=
  (Ok (), set_messages (<[topic := <[msg_id (dm_message m) := m]> (default ∅ (messages s !! topic))]> (messages s)) s).

Definition memory_update_status (topic : TopicCode) (u : MessageStateUpdate) (s : MemoryDurable) :
    Result () DurableError * MemoryDurable :=
  let topic_messages := default ∅ (messages s !! topic) in
  let topic_messages :=
    match topic_messages !! update_message_id u with
    | Some m =>
        <[update_message_id u := mkDurableMessage (dm_message m) (update_status u ∪ dm_status m) (dm_time m)]>
          topic_messages
    | None => topic_messages
    end in
  (Ok (), set_messages (<[topic := topic_messages]> (messages s)) s).

Definition memory_archive (topic : TopicCode) (message_id : MessageId) (s : MemoryDurable) :
    Result () DurableError * MemoryDurable :=
  match messages s !! topic ≫= (fun m => m !! message_id) with
  | None => (Err (durable_error_new_local "message not found"), s)
  | Some message =>
      (Ok (),
       mkMemory (alter (delete message_id) topic (messages s))
         (<[topic := <[message_id := message]> (default ∅ (archived s !! topic))]> (archived s)) (memory_topics s))
  end.

Definition memory_create_topic (topic : TopicConfig) (s : MemoryDurable) : Result () DurableError * MemoryDurable :=
  (Ok (), mkMemory (messages s) (archived s) (<[config_code topic := topic]> (memory_topics s))).
Definition memory_delete_topic (topic : TopicCode) (s : MemoryDurable) : Result () DurableError * MemoryDurable :=
  (Ok (), mkMemory (messages s) (archived s) (delete topic (memory_topics s))).

(** [values()] of a [BTreeMap] keyed by message ids. *)
Definition btree_values (m : gmap MessageId DurableMessage) : list DurableMessage :=
  (sort_by_key (fun '(i, _) => from_be_bytes (message_id_bytes i)) (map_to_list m)).*2.

Definition memory_batch_retrieve (topic : TopicCode) (q : DurableMessageQuery) (s : MemoryDurable) :
    Result (list DurableMessage) DurableError :=
  match messages s !! topic with
  | Some queue => Ok (take (Z.to_nat (limit q)) (drop (Z.to_nat (offset q)) (btree_values queue)))
  | None => Ok []
  end.

Definition memory_retrieve (topic : TopicCode) (message_id : MessageId) (s : MemoryDurable) :
    Result DurableMessage DurableError :=
  match messages s !! topic with
  | None => Err (durable_error_new_local "topic not found")
  | Some topic_messages =>
      match topic_messages !! message_id with
      | Some m => Ok m
      | None => Err (durable_error_new_local "message not found")
      end
  end.

Definition memory_durable `{HashOrder} : Durable MemoryDurable :=
  mkDurable memory_save memory_update_status memory_retrieve memory_batch_retrieve memory_archive
    memory_create_topic memory_delete_topic
    (fun s => Ok (hm_iter (memory_topics s)).*1) (fun s => Ok (hm_iter (memory_topics s)).*2).

#[export, refine] Instance memory_laws `{HashOrder} : DurableLaws memory_durable := {|
  view s topic := default ∅ (messages s !! topic);
  listing s topic := btree_values (default ∅ (messages s !! topic));
|}.
Proof.
  - intros topic m s. cbn. by rewrite lookup_insert_eq.
  - intros topic u s. cbn. rewrite lookup_insert_eq. cbn.
    destruct (default ∅ (messages s !! topic) !! update_message_id u) as [m|] eqn:Hm.
    + apply map_eq. intros i. destruct (decide (i = update_message_id u)) as [->|Hne].
      * by rewrite lookup_insert_eq, lookup_alter_eq, Hm.
      * by rewrite lookup_insert_ne, lookup_alter_ne.
    + by rewrite alter_id by (intros x Hx; congruence).
  - intros topic i s. cbn. unfold memory_archive.
    destruct (messages s !! topic) as [m|] eqn:Hm; cbn; [|by rewrite Hm, delete_empty].
    destruct (m !! i) as [x|] eqn:Hx; cbn.
    + by rewrite lookup_alter_eq, Hm.
    + rewrite Hm. cbn. by rewrite delete_id.
  - intros s topic. unfold btree_values. by rewrite sort_by_key_perm.
  - intros topic q s. cbn. unfold memory_batch_retrieve. destruct (messages s !! topic); [done|].
    assert (btree_values ∅ = []) as Hnil by (unfold btree_values; by rewrite map_to_list_empty).
    cbn. by rewrite Hnil, drop_nil, take_nil.
Defined.

(** ** The commands of a topic are its journal *)

Section Journal.
Context `{HashOrder, Clock, Hash64}.
Implicit Types (l : list HoldMessage) (ctx : ProposalContext) (t : TopicData).

(** What a command means for the list of messages. *)
Definition journal (l : list Message) (c : DurableCommand) : list Message :=
  match c with
  | CmdCreate m => l ++ [m]
  | CmdUpdateStatus _ => l
  | CmdArchive i => filter (fun m => msg_id m <> i) l
  end.

(** A message is created once. *)
Fixpoint journal_ok (l : list Message) (cmds : list DurableCommand) : Prop :=
  match cmds with
  | [] => True
  | c :: cmds =>
      match c with CmdCreate m => msg_id m ∉ msg_id <$> l | _ => True end /\ journal_ok (journal l c) cmds
  end.

Lemma journal_ok_app (l : list Message) k1 k2 : journal_ok l k1 -> journal_ok (foldl journal l k1) k2 -> journal_ok l (k1 ++ k2).
Proof. revert l. induction k1 as [|c k1 IH]; intros l; [done|]. cbn. intros [? ?] ?. split; [done|by apply IH]. Qed.

(** The commands issued between two contexts turn the messages of [l] into those
    of [l']. *)
Definition journaled l ctx l' ctx' : Prop :=
  exists cmds, commands_of ctx' = commands_of ctx ++ cmds /\
    message <$> l' = foldl journal (message <$> l) cmds /\ journal_ok (message <$> l) cmds.

Lemma journaled_refl l l' ctx ctx' :
  commands_of ctx' = commands_of ctx -> message <$> l' = message <$> l -> journaled l ctx l' ctx'.
Proof. intros Hc Hl. exists []. by rewrite app_nil_r. Qed.

Lemma journaled_trans l1 l2 l3 ctx1 ctx2 ctx3 :
  journaled l1 ctx1 l2 ctx2 -> journaled l2 ctx2 l3 ctx3 -> journaled l1 ctx1 l3 ctx3.
Proof.
  intros (k1 & Hc1 & Hl1 & Hk1) (k2 & Hc2 & Hl2 & Hk2). exists (k1 ++ k2).
  split_and!; [by rewrite Hc2, Hc1, app_assoc|by rewrite foldl_app, <-Hl1|].
  apply journal_ok_app; [done|]. by rewrite <-Hl1.
Qed.

Lemma journal_filter_absent l i : i ∉ hold_id <$> l -> filter (fun m => msg_id m <> i) (message <$> l) = message <$> l.
Proof.
  intros Hni. apply filter_all, Forall_fmap, Forall_forall. intros hm Hhm Hi. cbn in Hi. apply Hni.
  rewrite <-Hi. by apply (list_elem_of_fmap_2 hold_id).
Qed.

(** A message that resolved is archived: the first of its list, *)
Lemma journaled_head hm hm' l ctx ctx2 :
  NoDup (hold_id <$> hm :: l) -> commands_of ctx2 = commands_of ctx ->
  journaled (hm :: l) ctx l (finish (hold_id hm) hm' ctx2).
Proof.
  intros Hnd Hc. exists [CmdArchive (hold_id hm)]. rewrite commands_of_finish, Hc. split_and!; [done| |done].
  cbn [foldl journal]. rewrite fmap_cons, filter_cons_False by (intros Hne; by apply Hne).
  symmetry. apply journal_filter_absent. rewrite fmap_cons in Hnd. by apply NoDup_cons in Hnd as [? _].
Qed.

(** A send and a test issue no commands. *)
Lemma poll_one_commands reach hm ctx hm' ctx1 done ctx2 :
  send_unsent reach hm ctx = (hm', ctx1) -> hold_is_resolved hm' ctx1 = (done, ctx2) ->
  commands_of ctx2 = commands_of ctx /\ message hm' = message hm.
Proof.
  intros Hs Hr. rewrite send_unsent_eq in Hs. injection Hs as <- <-. split; [|done].
  destruct (hold_is_resolved_observe (sent_hold reach hm)
    (foldl (fun ctx ep => dispatch_message (message hm) ep ctx) ctx (to_send reach hm))) as (_ & _ & Hc).
  rewrite Hr in Hc. cbn [snd] in Hc. by rewrite Hc, commands_foldl_dispatch.
Qed.

Lemma spec_flush_journaled reach l ctx :
  NoDup (hold_id <$> l) ->
  journaled l ctx (fst (spec_flush reach l ctx)) (snd (spec_flush reach l ctx)).
Proof.
  revert ctx. induction l as [|hm l IH]; intros ctx Hnd; [by apply journaled_refl|]. cbn [spec_flush].
  destruct (send_unsent reach hm ctx) as [hm' ctx1] eqn:Hs.
  destruct (hold_is_resolved hm' ctx1) as [done ctx2] eqn:Hr.
  destruct (poll_one_commands _ _ _ _ _ _ _ Hs Hr) as [Hc Hm]. destruct done.
  - assert (hold_id hm' = hold_id hm) as -> by (unfold hold_id; by rewrite Hm).
    eapply journaled_trans; [by apply (journaled_head hm hm' l ctx ctx2)|]. apply IH.
    rewrite fmap_cons in Hnd. by apply NoDup_cons in Hnd as [_ ?].
  - apply journaled_refl; [done|]. cbn [fst]. by rewrite !fmap_cons, Hm.
Qed.

Lemma spec_poll_at_journaled reach id l ctx :
  NoDup (hold_id <$> l) ->
  journaled l ctx (fst (spec_poll_at reach id l ctx)) (snd (spec_poll_at reach id l ctx)).
Proof.
  intros Hnd. destruct (decide (id ∈ hold_id <$> l)) as [Hin|Hni].
  2: { rewrite spec_poll_at_absent by done. by apply journaled_refl. }
  apply list_elem_of_fmap in Hin as (hm & -> & Hin).
  destruct (send_unsent reach hm ctx) as [hm' ctx1] eqn:Hs.
  destruct (hold_is_resolved hm' ctx1) as [done ctx2] eqn:Hr.
  destruct (poll_one_commands _ _ _ _ _ _ _ Hs Hr) as [Hc Hm].
  rewrite (spec_poll_at_held reach (hold_id hm) l hm ctx hm' ctx1 done ctx2) by done.
  destruct done; cbn [fst snd].
  - exists [CmdArchive (hold_id hm)]. rewrite commands_of_finish, Hc. split_and!; [done| |done].
    cbn [foldl journal]. by rewrite filter_fmap.
  - apply journaled_refl; [done|]. rewrite <-list_fmap_compose. apply Forall_fmap_ext_1, Forall_forall.
    intros h Hh. cbn. case_decide as He; [|done]. rewrite Hm. f_equal.
    symmetry. by apply (NoDup_fmap_inj hold_id l).
Qed.

Lemma spec_acks_messages u l : message <$> spec_acks u l = message <$> l.
Proof.
  unfold spec_acks. generalize (hm_iter (update_status u)). intros k. revert l.
  induction k as [|[from st] k IH]; intros l; [done|]. cbn [foldl]. rewrite IH, <-list_fmap_compose.
  apply list_fmap_ext. intros i hm _. cbn. by case_decide.
Qed.

Lemma spec_update_journaled b reach u l ctx :
  NoDup (hold_id <$> l) ->
  journaled l ctx (fst (spec_update b reach u l ctx)) (snd (spec_update b reach u l ctx)).
Proof.
  intros Hnd. apply (journaled_trans _ (spec_acks u l) _ _ (push_durable_command (CmdUpdateStatus u) ctx)).
  - exists [CmdUpdateStatus u]. split_and!; [done|apply spec_acks_messages|done].
  - rewrite <-(spec_acks_ids u) in Hnd. unfold spec_update, spec_poll. destruct b; [case_decide|].
    + by apply spec_flush_journaled.
    + by apply journaled_refl.
    + by apply spec_poll_at_journaled.
Qed.

Lemma spec_poll_all_journaled b reach ids l ctx :
  NoDup (hold_id <$> l) ->
  journaled l ctx (fst (spec_poll_all b reach ids l ctx)) (snd (spec_poll_all b reach ids l ctx)).
Proof.
  unfold spec_poll_all. revert l ctx. induction ids as [|i ids IH]; intros l ctx Hnd; cbn [foldl].
  { by apply journaled_refl. }
  pose proof (spec_update_journaled b reach (state_update_new_empty i) l ctx Hnd) as Hj.
  pose proof (spec_update_ids b reach (state_update_new_empty i) l ctx) as Hids.
  destruct (spec_update b reach (state_update_new_empty i) l ctx) as [l1 ctx1]. cbn [fst snd] in *.
  eapply journaled_trans; [exact Hj|]. apply IH. by eapply sublist_NoDup.
Qed.

Lemma spec_append_journaled m receivers t l ctx :
  NoDup (msg_id m :: (hold_id <$> l)) ->
  journaled l ctx (fst (spec_append m receivers t l ctx)) (snd (spec_append m receivers t l ctx)).
Proof.
  intros Hnd. unfold spec_append. set (hm := mkHold m _).
  apply (journaled_trans _ (l ++ [hm]) _ _ (push_durable_command (CmdCreate m) (snd (utc_now ctx)))).
  - exists [CmdCreate m]. split_and!; [done|by rewrite fmap_app|]. split; [|done].
    rewrite <-list_fmap_compose. by apply NoDup_cons in Hnd as [? _].
  - apply spec_update_journaled. by rewrite fmap_app, Permutation_app_comm.
Qed.

(** A topic that never drops a message it accepted. *)
Definition keeps_old (c : TopicConfig) : Prop :=
  forall o, overflow_config c = Some o -> overflow_policy o = RejectNew.

Lemma shape_journaled c t ctx l' ctx' :
  topic_wf t -> keeps_old (topic_config t) -> call_ready c t ctx -> call_shape t ctx l' ctx' c ->
  journaled (topic_abs t) ctx l' ctx'.
Proof.
  intros Ht Hkeep Hready Hshape. pose proof (queue_abs_NoDup _ (twf_queue t Ht)) as Hnd.
  destruct Hshape as [m receivers Hs|m Hs|u Hs|c f ids Hc Hf _ _ _ Hs].
  - unfold spec_hold in Hs. destruct (room_of t) eqn:Hroom.
    + pose proof (spec_append_journaled m receivers t (topic_abs t) ctx) as Hj. rewrite <-Hs in Hj. apply Hj.
      constructor; [apply Hready|done].
    + injection Hs as -> ->. apply journaled_refl; [apply commands_of_resolve_ack|done].
    + exfalso. unfold room_of in Hroom. destruct (overflow_config (topic_config t)) as [o|] eqn:Ho; [|done].
      rewrite (Hkeep o Ho) in Hroom. by destruct (_ <=? _)%Z.
  - injection Hs as -> ->. apply journaled_refl; [apply commands_of_resolve_ack|done].
  - pose proof (spec_update_journaled (config_blocking (topic_config t)) (reachable_eps (ctx_node_id ctx) t)
      u (topic_abs t) ctx Hnd) as Hj. by rewrite <-Hs in Hj.
  - apply (journaled_trans _ (f <$> topic_abs t) _ _ ctx).
    + apply journaled_refl; [done|]. rewrite <-list_fmap_compose. apply list_fmap_ext. intros i hm _. apply Hf.
    + pose proof (spec_poll_all_journaled (config_blocking (topic_config t)) (default ∅ (call_table c t !! ctx_node_id ctx)) ids (f <$> topic_abs t) ctx) as Hj.
      rewrite <-Hs in Hj. apply Hj. by rewrite <-fmap_hold_id.
Qed.

Lemma run_calls_journaled cs t ctx :
  topic_wf t -> keeps_old (topic_config t) -> calls_ready cs t ctx ->
  exists t' ctx', run_calls cs t ctx = Done (t', ctx') /\ topic_wf t' /\ topic_config t' = topic_config t /\
    ctx_extends ctx ctx' /\ journaled (topic_abs t) ctx (topic_abs t') ctx'.
Proof.
  revert t ctx. induction cs as [|c cs IH]; intros t ctx Ht Hkeep Hready.
  { exists t, ctx. split_and!; try done. by apply journaled_refl. }
  destruct Hready as [Hc Hcs].
  destruct (run_call_done c t ctx Ht Hc) as (t1 & ctx1 & Hr & Hwf & Hcfg & _ & Hshape).
  destruct (IH t1 ctx1 Hwf) as (t' & ctx' & Hr' & Hwf' & Hcfg' & He' & Hj'); [by rewrite Hcfg|by apply Hcs|].
  exists t', ctx'. cbn [run_calls]. rewrite Hr. cbn [mbind Outcome_bind]. split_and!; try done.
  - by rewrite Hcfg'.
  - etrans; [by eapply shape_extends|done].
  - eapply journaled_trans; [by apply (shape_journaled c t ctx)|done].
Qed.
End Journal.

(** ** The store follows the journal *)

Section Store.
Context `{HashOrder, Clock, Hash64, TypeIds}.
Context {S : Type} (service : DurableService S) `{!DurableLaws (service_inner service)}.
Implicit Types (l : list Message) (v : gmap MessageId DurableMessage) (now : Z).

(** The store has the messages of [l], saved one after the other before [now]. *)
Definition tracks l v now : Prop :=
  exists dms, dm_message <$> dms = l /\ StronglySorted (fun a b => (dm_time a < dm_time b)%Z) dms /\
    (forall dm, dm ∈ dms -> (dm_time dm < now)%Z) /\ NoDup (msg_id <$> l) /\
    (forall i dm, v !! i = Some dm <-> dm ∈ dms /\ msg_id (dm_message dm) = i).

Lemma tracks_create l v now now' m :
  tracks l v now -> msg_id m ∉ msg_id <$> l -> (now < now')%Z ->
  tracks (l ++ [m]) (<[msg_id m := mkDurableMessage m ∅ now]> v) now'.
Proof.
  intros (dms & <- & Hs & Hnow & Hnd & Hv) Hni Hlt. exists (dms ++ [mkDurableMessage m ∅ now]). split_and!.
  - by rewrite fmap_app.
  - apply StronglySorted_app_2; [|done|repeat constructor].
    intros a b Ha ->%list_elem_of_singleton. by apply Hnow.
  - intros dm [Hin|Hin%list_elem_of_singleton]%elem_of_app; [|by subst dm]. specialize (Hnow _ Hin). lia.
  - rewrite fmap_app. apply NoDup_app. split; [done|]. split; [|repeat constructor; set_solver].
    intros i Hi ->%list_elem_of_singleton. done.
  - intros i dm. rewrite elem_of_app, list_elem_of_singleton. destruct (decide (i = msg_id m)) as [->|Hne].
    + rewrite lookup_insert_eq. split; [intros [= <-]; by split; [right|]|].
      intros [[Hin|Hin] Hi]; [|by subst dm]. exfalso. apply Hni. rewrite <-Hi.
      by apply (list_elem_of_fmap_2 msg_id), (list_elem_of_fmap_2 dm_message).
    + rewrite lookup_insert_ne, Hv by done. split; [intros [? ?]; by split; [left|]|].
      intros [[Hd|Hd] Hi]; [done|]. subst dm. by destruct Hne.
Qed.

Lemma tracks_update l v now u :
  tracks l v now ->
  tracks l (alter (fun m => mkDurableMessage (dm_message m) (update_status u ∪ dm_status m) (dm_time m))
    (update_message_id u) v) now.
Proof.
  intros (dms & <- & Hs & Hnow & Hnd & Hv). set (g := fun m => mkDurableMessage _ _ _).
  set (f := fun dm => if decide (msg_id (dm_message dm) = update_message_id u) then g dm else dm).
  assert (forall dm, dm_message (f dm) = dm_message dm) as Hfm by (intros dm; unfold f; by case_decide).
  assert (forall dm, dm_time (f dm) = dm_time dm) as Hft by (intros dm; unfold f; by case_decide).
  exists (f <$> dms). split_and!; [| | |done|].
  - rewrite <-list_fmap_compose. apply list_fmap_ext. intros i dm _. apply Hfm.
  - eapply StronglySorted_fmap; [|exact Hs]. intros a b Hab. cbn. by rewrite !Hft.
  - intros dm (dm0 & -> & Hin)%list_elem_of_fmap. rewrite Hft. by apply Hnow.
  - intros i dm. rewrite list_elem_of_fmap. destruct (decide (i = update_message_id u)) as [->|Hne].
    + rewrite lookup_alter_eq, fmap_Some. setoid_rewrite Hv. split.
      * intros (dm0 & [Hin Hi] & ->). split; [|done]. exists dm0. split; [|done]. unfold f. by rewrite decide_True.
      * intros [(dm0 & -> & Hin) Hi]. rewrite Hfm in Hi. exists dm0. split; [done|]. unfold f. by rewrite decide_True.
    + rewrite lookup_alter_ne, Hv by done. split.
      * intros [Hin Hi]. split; [|done]. exists dm. split; [|done]. unfold f. rewrite decide_False; congruence.
      * intros [(dm0 & -> & Hin) Hi]. rewrite Hfm in Hi. unfold f. by rewrite decide_False by congruence.
Qed.

Lemma tracks_archive l v now i : tracks l v now -> tracks (filter (fun m => msg_id m <> i) l) (delete i v) now.
Proof.
  intros (dms & <- & Hs & Hnow & Hnd & Hv). exists (filter (fun dm => msg_id (dm_message dm) <> i) dms). split_and!.
  - by rewrite filter_fmap.
  - clear -Hs. induction Hs as [|x dms Hs IH Hx]; [constructor|]. rewrite filter_cons. case_decide; [|done].
    constructor; [done|]. apply Forall_forall. intros y [_ Hy]%list_elem_of_filter. by eapply Forall_forall in Hx.
  - intros dm [_ Hin]%list_elem_of_filter. by apply Hnow.
  - eapply sublist_NoDup; [exact Hnd|]. apply fmap_sublist, sublist_filter.
  - intros j dm. rewrite list_elem_of_filter. destruct (decide (j = i)) as [->|Hne].
    + rewrite lookup_delete_eq. split; [done|]. intros [[? _] ?]. done.
    + rewrite lookup_delete_ne, Hv by done. split; [intros [? <-]; done|intros [[_ ?] ?]; done].
Qed.

(** The listing of a store that follows [l] is, sorted by time, [l]. *)
Lemma tracks_listing l v now dms :
  tracks l v now -> dms ≡ₚ (map_to_list v).*2 ->
  NoDup ((fun dm => msg_id (dm_message dm)) <$> dms) /\ NoDup (dm_time <$> dms) /\
  length dms = length l /\ dm_message <$> sort_by_key dm_time dms = l.
Proof.
  intros (dms0 & <- & Hs & _ & Hnd & Hv) Hdms. rewrite <-list_fmap_compose in Hnd.
  assert (dms ≡ₚ dms0) as Hp.
  { rewrite Hdms. apply NoDup_Permutation.
    - apply NoDup_fmap_2_strong; [|apply NoDup_map_to_list].
      intros [i a] [j b] Ha%elem_of_map_to_list%Hv Hb%elem_of_map_to_list%Hv. cbn. intros ->.
      destruct Ha as [_ <-], Hb as [_ <-]. done.
    - by eapply NoDup_fmap_1.
    - intros dm. rewrite list_elem_of_fmap. split.
      + by intros ([i dm'] & -> & [Hin _]%elem_of_map_to_list%Hv).
      + intros Hin. exists (msg_id (dm_message dm), dm). split; [done|]. by apply elem_of_map_to_list, Hv. }
  assert (NoDup (dm_time <$> dms0)) as Htimes.
  { clear -Hs. induction Hs as [|x l Hl IH Hx]; [constructor|]. rewrite fmap_cons. constructor; [|done].
    intros (y & Hy & Hin)%list_elem_of_fmap. rewrite Forall_forall in Hx. specialize (Hx y Hin). lia. }
  split_and!; [by rewrite Hp|by rewrite Hp|by rewrite Hp, length_fmap|].
  f_equal. apply (btree_sorted_ext dm_time); [| |by intros x; rewrite sort_by_key_perm, Hp].
  - apply StronglySorted_fmap_key, sort_by_key_strict. by rewrite sort_by_key_perm, Hp.
  - exact Hs.
Qed.

(** Time moves on between readings. *)
Definition clock_moves : Prop := forall n, (clock_at n < clock_at (Datatypes.S n))%Z.

Lemma commit_tracks code cmds l s reads :
  clock_moves -> journal_ok l cmds -> tracks l (view s code) (clock_at reads) ->
  let '(s', reads') := commit_commands service ((fun c => (code, c)) <$> cmds) (s, reads) in
  tracks (foldl journal l cmds) (view s' code) (clock_at reads').
Proof.
  intros Hclk. revert l s reads. induction cmds as [|c cmds IH]; intros l s reads Hok Htr; [done|].
  cbn [commit_commands fmap list_fmap foldl]. cbn [journal_ok] in Hok. destruct Hok as [Hc Hok].
  change (foldl _ ?x ((fun c => (code, c)) <$> cmds)) with (commit_commands service ((fun c => (code, c)) <$> cmds) x).
  destruct c as [m|u|i]; cbn [commit_command journal] in *.
  - pose proof (law_save (d := service_inner service) code (mkDurableMessage m ∅ (clock_at reads)) s) as Hl.
    unfold service_save. destruct (durable_save _ _ _ _) as [r s1]. cbn [snd] in *. apply IH; [done|].
    rewrite Hl. by apply tracks_create with (now := clock_at reads).
  - pose proof (law_update_status (d := service_inner service) code u s) as Hl.
    unfold service_update_status. destruct (durable_update_status _ _ _ _) as [r s1]. cbn [snd] in *. apply IH; [done|].
    rewrite Hl. by apply tracks_update.
  - pose proof (law_archive (d := service_inner service) code i s) as Hl.
    unfold service_archive. destruct (durable_archive _ _ _ _) as [r s1]. cbn [snd] in *. apply IH; [done|].
    rewrite Hl. by apply tracks_archive.
Qed.
End Store.

(** ** Topics that get stuck *)

Section Stuck.
Context `{HashOrder, Clock, Hash64}.
Implicit Types (hm : HoldMessage) (l : list HoldMessage) (ctx : ProposalContext) (t : TopicData).

(** A blocking topic does not poll behind its first message. *)
Lemma spec_poll_behind reach id hm l ctx :
  hold_id hm <> id -> spec_poll true reach id (hm :: l) ctx = (hm :: l, ctx).
Proof. intros Hne. unfold spec_poll. cbn. rewrite decide_False; [done|]. by intros [= ?]. Qed.

Lemma spec_poll_all_behind reach ids hm l ctx :
  hold_id hm ∉ ids -> fst (spec_poll_all true reach ids (hm :: l) ctx) = hm :: l.
Proof.
  unfold spec_poll_all. revert ctx. induction ids as [|i ids IH]; intros ctx Hni; [done|]. cbn [foldl].
  rewrite not_elem_of_cons in Hni. destruct Hni as [Hne Hni]. unfold spec_update. rewrite spec_acks_empty.
  rewrite spec_poll_behind by done. by apply IH.
Qed.

(** A call that is no acknowledgement of the first message. *)
Definition not_about (id : MessageId) (c : topic_call) : Prop :=
  match c with CallUpdate u => update_message_id u <> id | _ => True end.

Lemma stuck_call c t ctx l' ctx' hm l :
  config_blocking (topic_config t) = true -> keeps_old (topic_config t) ->
  topic_abs t = hm :: l -> NoDup (hold_id <$> topic_abs t) -> idle hm -> call_ready c t ctx ->
  not_about (hold_id hm) c -> call_shape t ctx l' ctx' c ->
  exists l1, l' = hm :: l1 /\ hold_id <$> l `prefix_of` hold_id <$> l1.
Proof.
  intros Hb Hkeep Habs Hnd Hidle Hready Habout Hshape. rewrite Habs in Hnd.
  assert (forall hm', hm' ∈ topic_abs t -> hold_id hm' = hold_id hm -> hm' = hm) as Huniq.
  { rewrite Habs. intros hm' Hin Hid. apply (NoDup_fmap_inj hold_id (hm :: l)); [done|done|by left|done]. }
  destruct Hshape as [m receivers Hs|m Hs|u Hs|c f ids Hc Hf Hfi _ Hids Hs]; rewrite ?Hb in Hs.
  - unfold spec_hold in Hs. rewrite Habs in Hs. destruct (room_of t) eqn:Hroom.
    + unfold spec_append, spec_update in Hs. rewrite spec_acks_empty, Hb in Hs. cbn [app] in Hs.
      rewrite spec_poll_behind in Hs.
      2: { cbn. intros Heq. destruct Hready as [_ Hr]. apply (ready_id _ _ _ Hr). rewrite Habs, <-Heq. by left. }
      injection Hs as -> _. eexists. split; [done|]. rewrite fmap_app. by eexists.
    + injection Hs as -> _. by exists l.
    + exfalso. unfold room_of in Hroom. destruct (overflow_config (topic_config t)) as [o|] eqn:Ho; [|done].
      rewrite (Hkeep o Ho) in Hroom. by destruct (_ <=? _)%Z.
  - injection Hs as -> _. by exists l.
  - cbn in Habout. unfold spec_update in Hs. pose proof (spec_acks_ids u (topic_abs t)) as Hi.
    rewrite Habs in Hs, Hi. rewrite spec_acks_eq in Hs, Hi. rewrite fmap_cons in Hs, Hi.
    rewrite decide_False in Hs, Hi by congruence. rewrite spec_poll_behind in Hs by congruence.
    injection Hs as -> _. eexists. split; [done|]. rewrite !fmap_cons in Hi. by injection Hi as ->.
  - rewrite Habs, fmap_cons, (Hfi hm Hidle) in Hs.
    assert (hold_id hm ∉ ids) as Hni.
    { intros (hm' & Hin & Hid & Hn)%Hids. apply Hn. by rewrite (Huniq hm'). }
    apply (f_equal fst) in Hs. rewrite spec_poll_all_behind in Hs by done. cbn in Hs.
    exists (f <$> l). split; [done|]. by rewrite <-fmap_hold_id.
Qed.

Lemma stuck_calls cs t ctx hm l :
  topic_wf t -> config_blocking (topic_config t) = true -> keeps_old (topic_config t) ->
  topic_abs t = hm :: l -> idle hm -> calls_ready cs t ctx -> Forall (not_about (hold_id hm)) cs ->
  exists t' ctx' l', run_calls cs t ctx = Done (t', ctx') /\ topic_abs t' = hm :: l' /\
    hold_id <$> l `prefix_of` hold_id <$> l'.
Proof.
  intros Ht Hb Hkeep Habs Hidle Hready Hcs. revert t ctx l Ht Hb Hkeep Habs Hready.
  induction Hcs as [|c cs Hc Hcs IH]; intros t ctx l Ht Hb Hkeep Habs Hready; [by exists t, ctx, l|].
  destruct Hready as [Hrc Hrcs].
  destruct (run_call_done c t ctx Ht Hrc) as (t1 & ctx1 & Hr & Hwf & Hcfg & _ & Hshape).
  destruct (stuck_call c t ctx (topic_abs t1) ctx1 hm l) as (l1 & Habs1 & Hp1); try done.
  { apply queue_abs_NoDup, Ht. }
  destruct (IH t1 ctx1 l1) as (t' & ctx' & l' & Hr' & Habs' & Hp'); [done|by rewrite Hcfg..|done|by apply Hrcs|].
  exists t', ctx', l'. cbn [run_calls]. rewrite Hr. split_and!; [done|done|by etrans].
Qed.
End Stuck.

(** ** Properties *)

Section DurableProperties.
Context `{HashOrder, Clock, Hash64, TypeIds}.

Lemma clock_le (Hclk : clock_moves) n m : n <= m -> (clock_at n <= clock_at m)%Z.
Proof. induction 1 as [|m Hle IH]; [done|]. specialize (Hclk m). lia. Qed.

Lemma tracks_later l v now now' : tracks l v now -> (now <= now')%Z -> tracks l v now'.
Proof.
  intros (dms & ? & ? & Hnow & ? & ?) Hle. exists dms. split_and!; try done.
  intros dm Hin. specialize (Hnow dm Hin). lia.
Qed.

(** C7: A leader's durable service follows its topic.  If the service has the messages
    a topic holds, and the topic, which never drops an accepted message, goes
    through calls that bring new messages at later times, on a clock that moves
    between readings, and their commands are committed, then the service again has
    the messages the topic holds, and loading the topic from the pages the service
    gives restores which messages are held and in which order; their receivers and
    statuses are not restored, which [restored_front_wedges] is about. *)
Theorem recovery_restores_queue {S : Type} (service : DurableService S) `{!DurableLaws (service_inner service)}
    (cs : list topic_call) (t : TopicData) (ctx : ProposalContext) (code : TopicCode) (s : S)
    (Ht : topic_wf t) (Hkeep : keeps_old (topic_config t)) (Hready : calls_ready cs t ctx)
    (Hempty : commands_of ctx = []) (Hclk : clock_moves)
    (Hstore : tracks (message <$> topic_abs t) (view s code) (clock_at (clock_reads (runtime (ctx_world ctx))))) :
  exists t' ctx' w' log, run_calls cs t ctx = Done (t', ctx') /\
    run_commit true code (ctx_world ctx') = (w', log) /\
    let '(s', reads') := commit_commands service log (s, clock_reads (runtime w')) in
    tracks (message <$> topic_abs t') (view s' code) (clock_at reads') /\
    (forall q, service_batch_retrieve service code q s' =
       Ok (take (Z.to_nat (limit q)) (drop (Z.to_nat (offset q)) (listing s' code)))) /\
    ((Z.of_nat (length (topic_abs t')) <= usize_MAX)%Z ->
     exists restored, from_durable (topic_config t) (listing s' code) = Done restored /\ topic_wf restored /\
       message <$> topic_abs restored = message <$> topic_abs t').
Proof.
  destruct (run_calls_journaled cs t ctx Ht Hkeep Hready) as (t' & ctx' & Hr & _ & _ & He & cmds & Hc & Hl & Hok).
  rewrite Hempty in Hc. cbn [app] in Hc.
  exists t', ctx', (set_durable_queue [] (ctx_world ctx')), ((fun c => (code, c)) <$> cmds).
  split_and!; [done|unfold run_commit; cbn; by rewrite <-Hc|].
  change (clock_reads (runtime (set_durable_queue [] (ctx_world ctx')))) with (clock_reads (runtime (ctx_world ctx'))).
  pose proof (commit_tracks service code cmds _ s (clock_reads (runtime (ctx_world ctx'))) Hclk Hok) as Htr.
  destruct (commit_commands _ _ _) as [s' reads'].
  assert (tracks (message <$> topic_abs t') (view s' code) (clock_at reads')) as Htr'.
  { rewrite Hl. apply Htr. eapply tracks_later; [exact Hstore|]. apply clock_le; [done|]. apply (ext_clock _ _ He). }
  split_and!; [done|intros q; apply law_batch_retrieve|]. intros Hsize.
  destruct (tracks_listing _ _ _ _ Htr' (law_listing s' code)) as (Hids & Htimes & Hlen & Hsort).
  destruct (from_durable_spec (topic_config t) (listing s' code) Hids Htimes) as (restored & Hf & Hwf & _ & _ & Habs).
  { by rewrite Hlen, length_fmap. }
  exists restored. split_and!; [done|done|]. by rewrite Habs, <-list_fmap_compose.
Qed.

(** C37: A restart can wedge a blocking topic.  Every accepted message is stored, but
    without its receivers; if the first message restored is not of the durable
    kind, nobody is sent it and no endpoint's coming, going or new interest has it
    polled: whatever calls follow, short of an acknowledgement of that very
    message, it stays first and every message restored behind it stays held. *)
Theorem restored_front_wedges (config : TopicConfig) (dms : list DurableMessage) (dm : DurableMessage)
    (cs : list topic_call) (ctx : ProposalContext)
    (Hb : config_blocking config = true) (Hkeep : keeps_old config)
    (Hids : NoDup ((fun m => msg_id (dm_message m)) <$> dms)) (Htimes : NoDup (dm_time <$> dms))
    (Hsize : (Z.of_nat (length dms) <= usize_MAX)%Z)
    (Hhead : head (sort_by_key dm_time dms) = Some dm)
    (Hkind : target_kind (header (dm_message dm)) <> Message.Durable) (Hstatus : dm_status dm = ∅)
    (Hready : forall t, from_durable config dms = Done t -> calls_ready cs t ctx)
    (Habout : Forall (not_about (msg_id (dm_message dm))) cs) :
  exists t t' ctx', from_durable config dms = Done t /\ run_calls cs t ctx = Done (t', ctx') /\
    hold_id <$> topic_abs t `prefix_of` hold_id <$> topic_abs t' /\
    head (topic_abs t') = Some (durable_hold dm).
Proof.
  destruct (from_durable_spec config dms Hids Htimes Hsize) as (t & Hf & Hwf & Hcfg & _ & Habs).
  destruct (sort_by_key dm_time dms) as [|d l] eqn:Hsort; [done|]. injection Hhead as ->.
  destruct (stuck_calls cs t ctx (durable_hold dm) (durable_hold <$> l)) as (t' & ctx' & l' & Hr & Habs' & Hp);
    [done|by rewrite Hcfg..|done|by split|by apply Hready|done|].
  exists t, t', ctx'. rewrite Habs', Habs. split_and!; [done|done| |done].
  cbn [fmap list_fmap]. by apply prefix_cons.
Qed.
End DurableProperties.

(** ** Witnesses *)

Section DurableWitnesses.
Import Sample.
#[local] Existing Instance sample_hash.

#[local] Instance string_types : TypeIds := {| TypeId := string |}.

Definition memory_service : DurableService MemoryDurable := service_new "MemoryDurable" "MemoryDurable" memory_durable.

#[local] Instance memory_service_laws : DurableLaws (service_inner memory_service) := memory_laws.

(** An empty topic with one interested endpoint. *)
Definition kept_topic (blocking : bool) : TopicData :=
  mkTopicData (mkTopicConfig topic blocking None) {[nid x01 := {[ep x05]}]}
    (interest_map_insert (interest_new "a/*") (ep x05) interest_map_new) (queue_new blocking 8).

Lemma kept_topic_wf b : topic_wf (kept_topic b).
Proof. split; [apply queue_new_wf|done|done|]. apply map_ok_insert, map_ok_new. Qed.

Definition kept_calls : list topic_call :=
  [CallHold (msg Push x03); CallUpdate (mkStateUpdate (mid x03) {[ep x05 := Received]}); CallOffline (nid x01) (ep x06)].

Lemma recovery_restores_queue_witness :
  exists t' ctx' w' log, run_calls kept_calls (kept_topic false) later = Done (t', ctx') /\
    run_commit true topic (ctx_world ctx') = (w', log) /\
    let '(s', reads') := commit_commands memory_service log (memory_default, clock_reads (runtime w')) in
    tracks (message <$> topic_abs t') (view s' topic) (clock_at reads') /\
    (forall q, service_batch_retrieve memory_service topic q s' =
       Ok (take (Z.to_nat (limit q)) (drop (Z.to_nat (offset q)) (listing s' topic)))) /\
    ((Z.of_nat (length (topic_abs t')) <= usize_MAX)%Z ->
     exists restored, from_durable (topic_config (kept_topic false)) (listing s' topic) = Done restored /\
       topic_wf restored /\ message <$> topic_abs restored = message <$> topic_abs t').
Proof.
  apply (recovery_restores_queue memory_service kept_calls (kept_topic false) later topic memory_default
    (kept_topic_wf false)).
  - intros o [=].
  - split; [split; [discriminate|]|].
    + split; [by intros ?%not_elem_of_nil|by intros e ?%not_elem_of_nil|reflexivity|intros o [=]].
    + intros t1 c1 _. split; [exact I|]. intros t2 c2 _. split; [exact I|]. intros t3 c3 _. exact I.
  - reflexivity.
  - intros n. unfold clock_at, ticking. lia.
  - exists []. split_and!; [reflexivity|constructor|by intros ? ?%not_elem_of_nil|constructor|].
    intros i dm. split; [intros Hi; vm_compute in Hi; discriminate Hi|by intros [?%not_elem_of_nil _]].
Defined.

(** A blocking topic restored with a message for online endpoints in front. *)
Definition front : DurableMessage := mkDurableMessage (msg Online x01) ∅ 0.
Definition wedged : list DurableMessage := [mkDurableMessage (msg Message.Durable x02) ∅ 1; front].
Definition wedged_calls : list topic_call :=
  [CallOnline (ep x05) [interest_new "a/b"] (nid x01); CallUpdate (mkStateUpdate (mid x02) {[ep x05 := Processed]});
   CallOffline (nid x01) (ep x05)].

Lemma restored_front_wedges_witness :
  exists t t' ctx', from_durable (mkTopicConfig topic true None) wedged = Done t /\
    run_calls wedged_calls t later = Done (t', ctx') /\
    hold_id <$> topic_abs t `prefix_of` hold_id <$> topic_abs t' /\
    head (topic_abs t') = Some (durable_hold front).
Proof.
  apply (restored_front_wedges (mkTopicConfig topic true None) wedged front wedged_calls later).
  - reflexivity.
  - intros o [=].
  - apply (bool_decide_unpack _). vm_compute. exact I.
  - apply (bool_decide_unpack _). vm_compute. exact I.
  - vm_compute. discriminate.
  - reflexivity.
  - discriminate.
  - reflexivity.
  - intros t _. split; [exact I|]. intros t1 c1 _. split; [exact I|]. intros t2 c2 _. split; [exact I|].
    intros t3 c3 _. exact I.
  - repeat constructor. cbn. intros Heq. vm_compute in Heq. discriminate Heq.
Defined.
End DurableWitnesses.
