(* ===== verification/Commit.v ===== *)
(** * Committing to the durable service, step by step

    The tasks that [ProposalContext::commit_durable_commands] spawns and
    [get_durable_lock] of [raft/proposal.rs], with their waits: each apply spawns one,
    several are under way at once, and a lock per topic lets one at a time take the
    node's commands and hand them to the service.  [DurableStore] reasons about the
    commands committed one after the other; here that is what the tasks of a node
    with one topic come to, in every interleaving. *)

From stdpp Require Import relations.
From S2P Require Import Prelude Ids Interest Message Proposal Queue Topic Delivery Replica NodeData Edge Codec EdgeNode Tasks DurableLoad DurableStore.

(** Where a task waits: at the lock, at [ensure_linearizable] with the commands it
    has taken, or at the service with those that are left. *)
Inductive CommitPhase : Type :=
  | AtLock
  | AtCheck (commands : list DurableCommand)
  | Committing (commands : list DurableCommand).

Record CommitTask : Type := mkCommitTask { commit_topic : TopicCode; commit_phase : CommitPhase }.

(** The node's queue of commands, its [durable_syncs] with whether each is locked,
    the tasks, and the service's state with the readings of the clock. *)
Record CommitState (S : Type) : Type := mkCommitState {
  commit_queue : list DurableCommand;
  durable_syncs : gmap TopicCode bool;
  commit_tasks : list CommitTask;
  commit_store : S * nat;
}.
Arguments mkCommitState {S}.
Arguments commit_queue {S} c.
Arguments durable_syncs {S} c.
Arguments commit_tasks {S} c.
Arguments commit_store {S} c.

Section Commit.
Context `{TypeIds, Clock} {S : Type} (service : DurableService S).
Implicit Types s : CommitState S.

(** [get_durable_lock]: [entry(topic).or_default()]. *)
Definition get_durable_lock (topic : TopicCode) (syncs : gmap TopicCode bool) : bool * gmap TopicCode bool :=
  let locked := default false (syncs !! topic) in (locked, <[topic := locked]> syncs).

(** A handler has queued commands, and commits. *)
Definition commit_spawn (topic : TopicCode) (commands : list DurableCommand) s : CommitState S :=
  mkCommitState (commit_queue s ++ commands) (durable_syncs s) (commit_tasks s ++ [mkCommitTask topic AtLock])
    (commit_store s).

(** The lock is free: the task has it, and takes all the commands there are. *)
Definition commit_lock (i : nat) s : option (CommitState S) :=
  match commit_tasks s !! i with
  | Some (mkCommitTask topic AtLock) =>
      let '(locked, syncs) := get_durable_lock topic (durable_syncs s) in
      if locked then None
      else Some (mkCommitState [] (<[topic := true]> syncs)
                   (<[i := mkCommitTask topic (AtCheck (commit_queue s))]> (commit_tasks s)) (commit_store s))
  | _ => None
  end.

(** The task ends: its guard is dropped. *)
Definition commit_end (i : nat) (topic : TopicCode) s : CommitState S :=
  mkCommitState (commit_queue s) (<[topic := false]> (durable_syncs s)) (delete i (commit_tasks s)) (commit_store s).

Definition commit_check (i : nat) (is_leader : bool) s : option (CommitState S) :=
  match commit_tasks s !! i with
  | Some (mkCommitTask topic (AtCheck commands)) =>
      Some (if is_leader then
              mkCommitState (commit_queue s) (durable_syncs s)
                (<[i := mkCommitTask topic (Committing commands)]> (commit_tasks s)) (commit_store s)
            else commit_end i topic s)
  | _ => None
  end.

(** A call of the service, or the end of the loop. *)
Definition commit_next (i : nat) s : option (CommitState S) :=
  match commit_tasks s !! i with
  | Some (mkCommitTask topic (Committing (command :: commands))) =>
      Some (mkCommitState (commit_queue s) (durable_syncs s)
              (<[i := mkCommitTask topic (Committing commands)]> (commit_tasks s))
              (snd (commit_command service topic command (commit_store s))))
  | Some (mkCommitTask topic (Committing [])) => Some (commit_end i topic s)
  | _ => None
  end.

Inductive commit_event : Type :=
  | CommitSpawn (topic : TopicCode) (commands : list DurableCommand)
  | CommitLock (i : nat)
  | CommitCheck (i : nat) (is_leader : bool)
  | CommitNext (i : nat).

Definition commit_step (ev : commit_event) s : option (CommitState S) :=
  match ev with
  | CommitSpawn topic commands => Some (commit_spawn topic commands s)
  | CommitLock i => commit_lock i s
  | CommitCheck i is_leader => commit_check i is_leader s
  | CommitNext i => commit_next i s
  end.

Fixpoint commit_run (evs : list commit_event) s : option (CommitState S) :=
  match evs with
  | [] => Some s
  | ev :: evs => commit_step ev s ≫= commit_run evs
  end.

Definition commit_idle (store : S * nat) : CommitState S := mkCommitState [] ∅ [] store.

(** ** A node with one topic that leads *)

Definition event_of (code : TopicCode) (ev : commit_event) : Prop :=
  match ev with
  | CommitSpawn topic _ => topic = code
  | CommitCheck _ is_leader => is_leader = true
  | _ => True
  end.

(** What has been queued, in order. *)
Definition queued (evs : list commit_event) : list DurableCommand :=
  evs ≫= fun ev => match ev with CommitSpawn _ commands => commands | _ => [] end.

(** The commands a task has taken and not committed. *)
Definition taken (t : CommitTask) : list DurableCommand :=
  match commit_phase t with AtLock => [] | AtCheck commands | Committing commands => commands end.
Definition holds_lock (t : CommitTask) : bool := match commit_phase t with AtLock => false | _ => true end.

(** What is left to do: no event but a spawn adds to it. *)
Definition task_left (t : CommitTask) : nat :=
  match commit_phase t with
  | AtLock => 3
  | AtCheck commands => 2 + length commands
  | Committing commands => 1 + length commands
  end.
Definition commit_left s : nat := length (commit_queue s) + sum_list_with task_left (commit_tasks s).

(** Of what was queued, [done] is committed; one task at most has the lock and the
    commands that come next, and if some are still in the queue a task will come. *)
Record commits code store0 (all : list DurableCommand) s : Prop := mkCommits {
  com_topic : Forall (fun t => commit_topic t = code) (commit_tasks s);
  com_locked : default false (durable_syncs s !! code) = existsb holds_lock (commit_tasks s);
  com_once : length (filter (fun t => holds_lock t = true) (commit_tasks s)) <= 1;
  com_coming : commit_queue s <> [] -> exists t, t ∈ commit_tasks s /\ holds_lock t = false;
  com_done : exists done, all = done ++ (commit_tasks s ≫= taken) ++ commit_queue s /\
    commit_store s = commit_commands service ((fun c => (code, c)) <$> done) store0;
}.

(** ** Facts *)

Lemma not_holding_takes l : Forall (fun t => holds_lock t = false) l -> l ≫= taken = [].
Proof.
  induction 1 as [|t l Ht _ IH]; [done|]. cbn. rewrite IH, app_nil_r. unfold holds_lock, taken in *. by destruct (commit_phase t).
Qed.

Lemma holders_none l : existsb holds_lock l = false <-> Forall (fun t => holds_lock t = false) l.
Proof.
  induction l as [|t l IH]; [done|]. cbn. rewrite orb_false_iff, Forall_cons. by rewrite IH.
Qed.

Lemma filter_holders_none l : Forall (fun t => holds_lock t = false) l -> filter (fun t => holds_lock t = true) l = [].
Proof. induction 1 as [|t l Ht _ IH]; [done|]. by rewrite filter_cons_False by congruence. Qed.

(** The one that has the lock is alone. *)
Lemma holder_alone l1 t l2 : length (filter (fun t => holds_lock t = true) (l1 ++ t :: l2)) <= 1 -> holds_lock t = true ->
  Forall (fun t => holds_lock t = false) l1 /\ Forall (fun t => holds_lock t = false) l2.
Proof.
  intros Hl Ht. rewrite filter_app, filter_cons_True, length_app in Hl by done. cbn [length] in Hl.
  assert (forall l : list CommitTask, length (filter (fun t => holds_lock t = true) l) = 0 -> Forall (fun t => holds_lock t = false) l) as Hn.
  { intros l Hz. apply Forall_forall. intros x Hx. destruct (holds_lock x) eqn:Hh; [|done].
    apply nil_length_inv in Hz. assert (x ∈ filter (fun t => holds_lock t = true) l) as Hf by by apply list_elem_of_filter.
    rewrite Hz in Hf. by apply elem_of_nil in Hf. }
  split; apply Hn; lia.
Qed.

Section Step.
Context (code : TopicCode) (store0 : S * nat) (all : list DurableCommand).

(** A holder's place among the tasks, before and after its step. *)
Lemma commits_holder l1 t t' l2 q syncs store' done :
  Forall (fun t => holds_lock t = false) l1 -> Forall (fun t => holds_lock t = false) l2 ->
  Forall (fun t => commit_topic t = code) (l1 ++ t :: l2) -> commit_topic t' = code -> holds_lock t' = true ->
  default false (syncs !! code) = true ->
  (q <> [] -> exists t, t ∈ l1 ++ t' :: l2 /\ holds_lock t = false) ->
  all = done ++ taken t' ++ q -> store' = commit_commands service ((fun c => (code, c)) <$> done) store0 ->
  commits code store0 all (mkCommitState q syncs (l1 ++ t' :: l2) store').
Proof.
  intros H1 H2 Htop Ht' Hh Hs Hc Hall Hst. split; cbn.
  - rewrite !Forall_app, !Forall_cons in *. intuition.
  - rewrite Hs, existsb_app. cbn. rewrite Hh. by destruct (existsb holds_lock l1).
  - rewrite filter_app, filter_cons_True, (filter_holders_none l1), (filter_holders_none l2) by done. done.
  - exact Hc.
  - exists done. rewrite bind_app, bind_cons, (not_holding_takes l1), (not_holding_takes l2), app_nil_r by done. by split.
Qed.

(** The holder has ended. *)
Lemma commits_ended l1 t l2 q syncs store done :
  Forall (fun t => holds_lock t = false) l1 -> Forall (fun t => holds_lock t = false) l2 ->
  Forall (fun t => commit_topic t = code) (l1 ++ t :: l2) -> holds_lock t = true ->
  (q <> [] -> exists t', t' ∈ l1 ++ t :: l2 /\ holds_lock t' = false) ->
  all = done ++ q -> store = commit_commands service ((fun c => (code, c)) <$> done) store0 ->
  commits code store0 all (mkCommitState q (<[code := false]> syncs) (l1 ++ l2) store).
Proof.
  intros H1 H2 Htop Ht Hc Hall Hst. split; cbn.
  - rewrite !Forall_app, !Forall_cons in *. intuition.
  - rewrite lookup_insert_eq, existsb_app. cbn. apply holders_none in H1, H2. by rewrite H1, H2.
  - rewrite filter_app, (filter_holders_none l1), (filter_holders_none l2) by done. cbn. lia.
  - intros Hq. destruct (Hc Hq) as (t' & Hin & Hn). exists t'. split; [|done]. set_solver by congruence.
  - exists done. rewrite bind_app, (not_holding_takes l1), (not_holding_takes l2) by done. by split.
Qed.
End Step.

(** Around a task that has the lock. *)
Lemma commits_at code store0 all i t s : commits code store0 all s -> commit_tasks s !! i = Some t -> holds_lock t = true ->
  commit_topic t = code /\ default false (durable_syncs s !! code) = true /\
  exists l1 l2 done, commit_tasks s = l1 ++ t :: l2 /\ delete i (commit_tasks s) = l1 ++ l2 /\
    (forall t', <[i := t']> (commit_tasks s) = l1 ++ t' :: l2) /\
    Forall (fun t => holds_lock t = false) l1 /\ Forall (fun t => holds_lock t = false) l2 /\
    all = done ++ taken t ++ commit_queue s /\
    commit_store s = commit_commands service ((fun c => (code, c)) <$> done) store0.
Proof.
  intros [Htop Hlock Honce _ (done & Hall & Hst)] Hi Hh. pose proof (take_drop_middle _ _ _ Hi) as Hsplit.
  split; [rewrite Forall_lookup in Htop; apply (Htop _ _ Hi)|]. rewrite <-Hsplit in Honce, Hall, Hlock.
  destruct (holder_alone _ _ _ Honce Hh) as [H1 H2]. rewrite existsb_app in Hlock. cbn in Hlock. rewrite Hh, orb_true_r in Hlock.
  split; [done|]. exists (take i (commit_tasks s)), (drop (Datatypes.S i) (commit_tasks s)), done. split; [by rewrite Hsplit|].
  split; [apply delete_take_drop|]. split; [intros t'; by rewrite (insert_take_drop _ _ _ (lookup_lt_Some _ _ _ Hi))|].
  by rewrite bind_app, bind_cons, (not_holding_takes _ H1), (not_holding_takes _ H2), app_nil_r in Hall.
Qed.

(** A task that waits for the lock is not the one that has it. *)
Lemma still_coming t t' (l1 l2 : list CommitTask) (q : list DurableCommand) : holds_lock t = true ->
  (q <> [] -> exists u, u ∈ l1 ++ t :: l2 /\ holds_lock u = false) ->
  q <> [] -> exists u, u ∈ l1 ++ t' :: l2 /\ holds_lock u = false.
Proof.
  intros Ht Hc Hq. destruct (Hc Hq) as (u & [Hu|[->|Hu]%elem_of_cons]%elem_of_app & Hn); [|congruence|];
    (exists u; split; [|done]); apply elem_of_app; [by left|right; by right].
Qed.

Section Events.
Context (code : TopicCode) (store0 : S * nat) (all : list DurableCommand) (s : CommitState S).
Context (Hs : commits code store0 all s).

Lemma commits_spawn commands : commits code store0 (all ++ commands) (commit_spawn code commands s).
Proof using Hs.
  destruct Hs as [Htop Hlock Honce Hcoming (done & Hall & Hst)]. split; cbn.
  - rewrite Forall_app, Forall_singleton. done.
  - rewrite existsb_app, Hlock. cbn. by rewrite orb_false_r.
  - rewrite filter_app, filter_cons_False by done. by rewrite app_nil_r.
  - intros _. exists (mkCommitTask code AtLock). split; [set_solver|done].
  - exists done. rewrite bind_app. cbn. rewrite app_nil_r, Hall, <-!app_assoc. done.
Qed.

Lemma commits_lock i s' : commit_lock i s = Some s' -> commits code store0 all s'.
Proof using Hs.
  unfold commit_lock, get_durable_lock. destruct (commit_tasks s !! i) as [[topic []]|] eqn:Hi; try done.
  destruct Hs as [Htop Hlock _ _ (done & Hall & Hst)].
  assert (topic = code) as -> by (rewrite Forall_lookup in Htop; apply (Htop _ _ Hi)).
  rewrite Hlock. destruct (existsb holds_lock (commit_tasks s)) eqn:Hn; [done|]. intros [= <-].
  apply holders_none in Hn. pose proof (take_drop_middle _ _ _ Hi) as Hsplit.
  rewrite (insert_take_drop _ _ _ (lookup_lt_Some _ _ _ Hi)). rewrite (not_holding_takes _ Hn) in Hall. rewrite <-Hsplit in Hn, Htop.
  apply Forall_app in Hn as [H1 [_ H2]%Forall_cons].
  eapply (commits_holder code store0 _ _ (mkCommitTask code AtLock)); [done..|by rewrite lookup_insert_eq|done| |exact Hst].
  by rewrite app_nil_r.
Qed.

Lemma commits_check i s' : commit_check i true s = Some s' -> commits code store0 all s'.
Proof using Hs.
  unfold commit_check. destruct (commit_tasks s !! i) as [[topic [|commands|]]|] eqn:Hi; try done. intros [= <-].
  destruct (commits_at _ _ _ _ _ _ Hs Hi eq_refl) as (Ht & Hl & l1 & l2 & done & Htasks & _ & -> & H1 & H2 & Hall & Hst).
  cbn in Ht. subst topic. destruct Hs as [Htop _ _ Hcoming _]. rewrite Htasks in Htop, Hcoming.
  eapply (commits_holder code store0); [exact H1|exact H2|exact Htop|done|done|done|by eapply still_coming; [|exact Hcoming]|exact Hall|exact Hst].
Qed.

Lemma commits_next i s' : commit_next i s = Some s' -> commits code store0 all s'.
Proof using Hs.
  unfold commit_next. destruct (commit_tasks s !! i) as [[topic [| |commands]]|] eqn:Hi; try done.
  destruct (commits_at _ _ _ _ _ _ Hs Hi eq_refl) as (Ht & Hl & l1 & l2 & done & Htasks & Hdel & Hins & H1 & H2 & Hall & Hst).
  cbn in Ht. subst topic. destruct Hs as [Htop _ _ Hcoming _]. rewrite Htasks in Htop, Hcoming.
  destruct commands as [|command commands]; intros [= <-].
  - unfold commit_end. rewrite Hdel. by eapply commits_ended; [| |exact Htop| |exact Hcoming|exact Hall|].
  - rewrite Hins. eapply (commits_holder code store0 _ _ _ _ _ _ _ _ (done ++ [command]));
      [exact H1|exact H2|exact Htop|done|done|done|by eapply still_coming; [|exact Hcoming]| |].
    + rewrite Hall, <-app_assoc. done.
    + unfold commit_commands in *. rewrite fmap_app, foldl_app, <-Hst. done.
Qed.
End Events.

Lemma commits_step code store0 all ev s s' : event_of code ev -> commits code store0 all s -> commit_step ev s = Some s' ->
  commits code store0 (all ++ queued [ev]) s'.
Proof.
  intros Hev Hs. unfold queued. cbn [mbind list_bind]. rewrite app_nil_r.
  destruct ev as [topic commands|i|i is_leader|i]; cbn [event_of commit_step] in *; rewrite ?app_nil_r; [|subst..|].
  - subst topic. intros [= <-]. by apply commits_spawn.
  - by eapply commits_lock.
  - by eapply commits_check.
  - by eapply commits_next.
Qed.

Lemma commits_run code store0 all evs s s' : Forall (event_of code) evs -> commits code store0 all s ->
  commit_run evs s = Some s' -> commits code store0 (all ++ queued evs) s'.
Proof.
  intros Hevs. revert all s. induction Hevs as [|ev evs Hev _ IH]; intros all s Hs Hrun.
  - injection Hrun as <-. unfold queued. cbn. by rewrite app_nil_r.
  - cbn [commit_run] in Hrun. apply bind_Some in Hrun as (s1 & Hstep & Hrun).
    pose proof (commits_step _ _ _ _ _ _ Hev Hs Hstep) as Hs1. specialize (IH _ _ Hs1 Hrun).
    unfold queued in *. cbn [mbind list_bind] in *. by rewrite app_nil_r, <-app_assoc in IH.
Qed.

Lemma commits_idle code store0 : commits code store0 [] (commit_idle store0).
Proof. split; cbn; [constructor|by rewrite lookup_empty|lia|done|by exists []]. Qed.

(** *** Every event but a spawn is work done *)

Definition spawns (ev : commit_event) : bool := match ev with CommitSpawn _ _ => true | _ => false end.

Lemma left_insert i t t' (l : list CommitTask) : l !! i = Some t ->
  sum_list_with task_left l + task_left t' = sum_list_with task_left (<[i := t']> l) + task_left t.
Proof.
  intros Hi. rewrite (insert_take_drop _ _ _ (lookup_lt_Some _ _ _ Hi)). rewrite <-(take_drop_middle _ _ _ Hi) at 1.
  rewrite !sum_list_with_app. cbn. lia.
Qed.

Lemma left_delete i t (l : list CommitTask) : l !! i = Some t ->
  sum_list_with task_left l = sum_list_with task_left (delete i l) + task_left t.
Proof. intros Hi. rewrite delete_take_drop. rewrite <-(take_drop_middle _ _ _ Hi) at 1. rewrite !sum_list_with_app. cbn. lia. Qed.

Lemma commit_step_left ev s s' : spawns ev = false -> commit_step ev s = Some s' -> commit_left s' < commit_left s.
Proof.
  intros Hev. unfold commit_left. destruct ev as [|i|i is_leader|i]; [done|..]; cbn [commit_step].
  - unfold commit_lock. destruct (commit_tasks s !! i) as [[topic []]|] eqn:Hi; try done. destruct (get_durable_lock _ _) as [[] syncs]; [done|].
    intros [= <-]. pose proof (left_insert i _ (mkCommitTask topic (AtCheck (commit_queue s))) _ Hi). cbn in *. lia.
  - unfold commit_check. destruct (commit_tasks s !! i) as [[topic [|commands|]]|] eqn:Hi; try done. intros [= <-].
    destruct is_leader; cbn.
    + pose proof (left_insert i _ (mkCommitTask topic (Committing commands)) _ Hi). cbn in *. lia.
    + pose proof (left_delete i _ _ Hi). cbn in *. lia.
  - unfold commit_next. destruct (commit_tasks s !! i) as [[topic [| |[|command commands]]]|] eqn:Hi; try done; intros [= <-]; cbn.
    + pose proof (left_delete i _ _ Hi). cbn in *. lia.
    + pose proof (left_insert i _ (mkCommitTask topic (Committing commands)) _ Hi). cbn in *. lia.
Qed.

Lemma commit_run_left evs s s' : Forall (fun ev => spawns ev = false) evs -> commit_run evs s = Some s' ->
  length evs + commit_left s' <= commit_left s.
Proof.
  intros Hevs. revert s. induction Hevs as [|ev evs Hev _ IH]; intros s Hrun; [by injection Hrun as <-|].
  cbn [commit_run] in Hrun. apply bind_Some in Hrun as (s1 & Hstep & Hrun).
  pose proof (commit_step_left _ _ _ Hev Hstep). specialize (IH _ Hrun). cbn [length]. lia.
Qed.

(** Some task can go on. *)
Lemma commit_progress code store0 all s : commits code store0 all s -> commit_tasks s <> [] ->
  exists ev s', event_of code ev /\ spawns ev = false /\ commit_step ev s = Some s'.
Proof.
  intros [Htop Hlock _ _ _] Hne. destruct (existsb holds_lock (commit_tasks s)) eqn:Hh.
  - apply existsb_exists in Hh as ([topic phase] & Hin%list_elem_of_In & Hh). apply list_elem_of_lookup in Hin as [i Hi].
    destruct phase as [|commands|[|command commands]]; [done|exists (CommitCheck i true)|exists (CommitNext i)..];
      cbn; unfold commit_check, commit_next; rewrite Hi; eauto.
  - destruct (commit_tasks s) as [|[topic phase] l] eqn:Htasks; [done|]. cbn in Hh. apply orb_false_iff in Hh as [Hh _].
    destruct phase; try done. apply Forall_cons in Htop as [Ht _]. cbn in Ht. subst topic.
    exists (CommitLock 0). cbn. unfold commit_lock, get_durable_lock. rewrite Htasks. cbn. rewrite Hlock. cbn. eauto.
Qed.

Lemma commit_drains code store0 all s : commits code store0 all s ->
  exists evs s', Forall (event_of code) evs /\ Forall (fun ev => spawns ev = false) evs /\ commit_run evs s = Some s' /\
    commit_tasks s' = [].
Proof.
  remember (commit_left s) as n eqn:Hn. revert s Hn all. induction (lt_wf n) as [n _ IH]. intros s -> all Hs.
  destruct (decide (commit_tasks s = [])) as [|Hne]; [by exists [], s|].
  destruct (commit_progress _ _ _ _ Hs Hne) as (ev & s1 & Hev & Hsp & Hstep).
  destruct (IH (commit_left s1) (commit_step_left _ _ _ Hsp Hstep) s1 eq_refl _ (commits_step _ _ _ _ _ _ Hev Hs Hstep))
    as (evs & s' & Hevs & Hsps & Hrun & Hend).
  exists (ev :: evs), s'. split_and!; [by constructor|by constructor| |done]. cbn [commit_run]. by rewrite Hstep.
Qed.

Lemma commit_tasks_settled code store0 all s : commits code store0 all s -> commit_tasks s = [] ->
  commit_queue s = [] /\ commit_store s = commit_commands service ((fun c => (code, c)) <$> all) store0.
Proof.
  intros [_ _ _ Hcoming (done & Hall & Hst)] Hend. rewrite Hend in *.
  assert (commit_queue s = []) as Hq.
  { destruct (commit_queue s); [done|]. destruct Hcoming as (t & Ht%elem_of_nil & _); done. }
  split; [done|]. rewrite Hq in Hall. cbn in Hall. rewrite app_nil_r in Hall. by subst done.
Qed.

Lemma queued_spawnless evs : Forall (fun ev => spawns ev = false) evs -> queued evs = [].
Proof. unfold queued. induction 1 as [|[] evs ? _ IH]; done || exact IH. Qed.

(** ** Properties *)

(** C8: The tasks of a leader with one topic commit its commands one after the other.
    Whatever the interleaving of applies that spawn tasks and of the tasks' waits,
    what has reached the service is what was queued first, in order, as if it had
    been committed by one task; when no task is left, all of it has.  Tasks do not
    block each other: unless another is spawned, at most [commit_left] steps remain,
    and they can be taken. *)
Theorem commits_serialise (code : TopicCode) (store0 : S * nat) (evs : list commit_event) (s : CommitState S)
    (Hevs : Forall (event_of code) evs) (Hrun : commit_run evs (commit_idle store0) = Some s) :
  (exists done rest, queued evs = done ++ rest /\
     commit_store s = commit_commands service ((fun c => (code, c)) <$> done) store0) /\
  (commit_tasks s = [] -> commit_queue s = [] /\
     commit_store s = commit_commands service ((fun c => (code, c)) <$> queued evs) store0) /\
  (forall evs' s', Forall (fun ev => spawns ev = false) evs' -> commit_run evs' s = Some s' -> length evs' <= commit_left s) /\
  exists evs' s', Forall (event_of code) evs' /\ Forall (fun ev => spawns ev = false) evs' /\
    commit_run evs' s = Some s' /\ commit_tasks s' = [] /\ commit_queue s' = [] /\
    commit_store s' = commit_commands service ((fun c => (code, c)) <$> queued evs) store0.
Proof.
  pose proof (commits_run code store0 [] evs _ s Hevs (commits_idle code store0) Hrun) as Hs. cbn [app] in Hs.
  split; [|split; [by apply commit_tasks_settled|split]].
  - destruct Hs as [_ _ _ _ (done & Hall & Hst)]. eauto.
  - intros evs' s' Hsp Hr. pose proof (commit_run_left _ _ _ Hsp Hr). lia.
  - destruct (commit_drains _ _ _ _ Hs) as (evs' & s' & Hevs' & Hsp & Hr & Hend). exists evs', s'.
    pose proof (commits_run _ _ _ _ _ _ Hevs' Hs Hr) as Hs'. rewrite (queued_spawnless _ Hsp), app_nil_r in Hs'.
    destruct (commit_tasks_settled _ _ _ _ Hs' Hend). by split_and!.
Qed.

(** The commands are taken before the check: a check that fails drops them, and
    they are in no store and no queue, although the node may lead again at once. *)
Lemma failed_check_loses topic commands s :
  commit_queue s = [] -> commit_tasks s = [] -> durable_syncs s !! topic = None ->
  exists s', commit_run [CommitSpawn topic commands; CommitLock 0; CommitCheck 0 false] s = Some s' /\
    commit_tasks s' = [] /\ commit_queue s' = [] /\ commit_store s' = commit_store s.
Proof.
  intros Hq Ht Hl. destruct s as [q syncs tasks store]. cbn in *. subst q tasks. unfold commit_lock, get_durable_lock. cbn.
  rewrite Hl. cbn. by eexists.
Qed.
End Commit.

Section CommitWitnesses.
Import Sample.
#[local] Existing Instance sample_hash.
#[local] Existing Instance string_types.

(** A second apply comes while the first task is at the service. *)
Definition overlapping : list commit_event :=
  [CommitSpawn topic [CmdCreate (msg Push x01); CmdCreate (msg Push x02)]; CommitLock 0; CommitCheck 0 true; CommitNext 0;
   CommitSpawn topic [CmdArchive (mid x01)]].
Definition overlapped : CommitState MemoryDurable :=
  default (commit_idle (memory_default, 0)) (commit_run memory_service overlapping (commit_idle (memory_default, 0))).

Lemma commits_serialise_witness :
  length (commit_tasks overlapped) = 2 /\
  (exists done rest, queued overlapping = done ++ rest /\
     commit_store overlapped = commit_commands memory_service ((fun c => (topic, c)) <$> done) (memory_default, 0)) /\
  (commit_tasks overlapped = [] -> commit_queue overlapped = [] /\
     commit_store overlapped = commit_commands memory_service ((fun c => (topic, c)) <$> queued overlapping) (memory_default, 0)) /\
  (forall evs' s', Forall (fun ev => spawns ev = false) evs' -> commit_run memory_service evs' overlapped = Some s' ->
     length evs' <= commit_left overlapped) /\
  exists evs' s', Forall (event_of topic) evs' /\ Forall (fun ev => spawns ev = false) evs' /\
    commit_run memory_service evs' overlapped = Some s' /\ commit_tasks s' = [] /\ commit_queue s' = [] /\
    commit_store s' = commit_commands memory_service ((fun c => (topic, c)) <$> queued overlapping) (memory_default, 0).
Proof.
  split; [vm_compute; reflexivity|].
  apply (commits_serialise memory_service topic (memory_default, 0) overlapping overlapped).
  - repeat constructor.
  - vm_compute. reflexivity.
Defined.
End CommitWitnesses.
