(* ===== verification/Errors.v ===== *)
(** * Errors and edge authorisation

    [server/src/error.rs]: the crate's error, its kinds and constructors, and
    [server/src/protocol/node/edge/auth.rs]: the authorisation service an edge
    request is checked with, and its error. *)

From S2P Require Import Prelude Ids Interest Message Proposal Edge Codec EdgeNode DurableStore.

(** ** crate::Error *)
Module Errors.
(** [IoError], [Boxed] and [RaftError] are [std::io::Error], a boxed
    [std::error::Error] and openraft's client error; [str_error] is the
    conversion of a string literal into a box. *)
Class ForeignErrors : Type := {
  IoError : Type;
  Boxed : Type;
  RaftError : Type;
  str_error : string -> Boxed;
}.

Section Error.
Context `{ForeignErrors}.

Inductive ErrorKind : Type :=
  | Durability (e : DurableError)
  | Offline
  | TopicAlreadyExists
  | NotLeader
  | Io (e : IoError)
  | Ack (e : WaitAckError)
  | Custom (e : Boxed)
  | RaftClient (e : RaftError).

Record Error : Type := mkError {
  context : string;
  kind : ErrorKind;
}.

(** The conversions [From<InnerType> for ErrorKind] of the macro, and the
    reflexive one. *)
Class IntoErrorKind (T : Type) : Type := into_kind : T -> ErrorKind.
#[export] Instance into_kind_self : IntoErrorKind ErrorKind := fun k => k.
#[export] Instance into_kind_durable : IntoErrorKind DurableError := Durability.
#[export] Instance into_kind_io : IntoErrorKind IoError := Io.
#[export] Instance into_kind_ack : IntoErrorKind WaitAckError := Ack.
#[export] Instance into_kind_raft : IntoErrorKind RaftError := RaftClient.

Definition contextual {T} `{IntoErrorKind T} (context : string) : T -> Error :=
  fun kind => mkError context (into_kind kind).
Definition error_new {T} `{IntoErrorKind T} (context : string) (kind : T) : Error :=
  mkError context (into_kind kind).
Definition unknown (context : string) : Error := mkError context (Custom (str_error "unknown error")).
(** [custom] and [contextual_custom] box any error: [box] is the boxing of its type. *)
Definition custom {E} (box : E -> Boxed) (context : string) (error : E) : Error :=
  mkError context (Custom (box error)).
Definition contextual_custom {E} (box : E -> Boxed) (context : string) : E -> Error :=
  fun error => mkError context (Custom (box error)).

(** [Display]; [debug] is the derived [Debug] of the kind. *)
Definition error_display (debug : ErrorKind -> string) (e : Error) : string :=
  (context e ++ ": " ++ debug (kind e))%string.
End Error.
Arguments ErrorKind {_}.
Arguments Error {_}.
End Errors.

(** ** EdgeAuth *)
Module EdgeAuth.
(** [source] is a boxed error, of which only the text is read. *)
Record EdgeAuthError : Type := mkAuthError {
  reason : string;
  source : option string;
}.

Definition auth_error_new (reason source : string) : EdgeAuthError := mkAuthError reason (Some source).
Definition auth_error_new_local (reason : string) : EdgeAuthError := mkAuthError reason None.

Definition auth_error_display (e : EdgeAuthError) : string :=
  ("EdgeAuthError: " ++ reason e ++
     match source e with Some source => "with source: " ++ source | None => "" end)%string.

(** The trait [EdgeAuth]. *)
Record EdgeAuth (T : Type) : Type := mkEdgeAuth {
  auth_check : T -> NodeId -> EdgeRequestEnum -> Result () EdgeAuthError;
}.
Arguments mkEdgeAuth {T}.
Arguments auth_check {T}.

(** [BoxedEdgeAuth]: the check of the type behind the box. *)
Definition BoxedEdgeAuth : Type := NodeId -> EdgeRequestEnum -> Result () EdgeAuthError.
Definition boxed_check {T} (a : EdgeAuth T) (self : T) : BoxedEdgeAuth := auth_check a self.

Record EdgeAuthService : Type := mkAuthService {
  service_inner : BoxedEdgeAuth;
  service_source : string;
}.

(** [EdgeAuthService::new]; [type_name] is [std::any::type_name::<T>()]. *)
Definition auth_service_new {T} (a : EdgeAuth T) (type_name : string) (inner : T) : EdgeAuthService :=
  mkAuthService (boxed_check a inner) type_name.
Definition auth_service_check (s : EdgeAuthService) (from : NodeId) (request : EdgeRequestEnum) :
    Result () EdgeAuthError := service_inner s from request.
Definition auth_service_display (s : EdgeAuthService) : string := ("EdgeAuthService: " ++ service_source s)%string.

(** The authorisation [handle_edge_request] is given: the configured service, its
    errors as their text. *)
Definition edge_auth_of (s : option EdgeAuthService) : option (NodeId -> EdgeRequestEnum -> Result () string) :=
  (fun s from request =>
     match auth_service_check s from request with Ok u => Ok u | Err e => Err (auth_error_display e) end) <$> s.
End EdgeAuth.
