(* ===== verification/EventHandler.v ===== *)
(** * Typed events and the handler loop of an endpoint

    [server/src/event_handler.rs] and [event_handler/json.rs]: the traits of events
    and their codec, [HandleEventLoop] with its registered handlers, and
    [Topic::send_event].

    A handler's future is awaited at every acknowledgement, which is a proposal
    ([raft_propose], as in [Tasks]), and at the user's handler; it is a value of
    the monad [Async] here: the result, the state and the proposals made. *)

From S2P Require Import Prelude Ids Interest Message Proposal Queue Topic Delivery Replica NodeData Edge Codec EdgeNode Tasks.

(** ** Events *)

(** [EventCodec]; [to_bytes] may panic. *)
Class EventCodec (E : Type) : Type := mkEventCodec {
  from_bytes : list u8 -> option E;
  to_bytes : E -> Outcome (list u8);
}.

(** [EventAttribute]: constants of the type. *)
Class EventAttribute (E : Type) : Type := mkEventAttribute {
  SUBJECT : Subject;
  BROADCAST : bool;
  EXPECT_ACK_KIND : MessageAckExpectKind;
}.
Arguments SUBJECT E {_}.
Arguments BROADCAST E {_}.
Arguments EXPECT_ACK_KIND E {_}.

(** The constants the trait defaults. *)
Definition attribute_of_subject (E : Type) (subject : Subject) : EventAttribute E :=
  mkEventAttribute E subject false ExpectSent.

(** [Event]: every type with both. *)
Class Event (E : Type) : Type := mkEvent {
  event_attribute :: EventAttribute E;
  event_codec :: EventCodec E;
}.

(** *** json.rs *)
Inductive Json (T : Type) : Type := mkJson (value : T).
Arguments mkJson {T} value.
Definition json_value {T} (j : Json T) : T := match j with mkJson value => value end.

(** [serde_json]'s writer and reader of the type. *)
Class SerdeJson (T : Type) : Type := mkSerdeJson {
  json_to_vec : T -> option (list u8);
  json_from_slice : list u8 -> option T;
}.

#[export] Instance Json_codec {T} `{SerdeJson T} : EventCodec (Json T) :=
  mkEventCodec (Json T) (fun bytes => mkJson <$> json_from_slice bytes)
    (fun j => expect (json_to_vec (json_value j))).

#[export] Instance Json_attribute {T} `{EventAttribute T} : EventAttribute (Json T) :=
  mkEventAttribute (Json T) (SUBJECT T) (BROADCAST T) (EXPECT_ACK_KIND T).

(** ** Futures *)

Definition Async (A : Type) : Type := TaskState -> Result A string * (TaskState * list Proposal).

#[export] Instance Async_ret : MRet Async := fun A a s => (Ok a, (s, [])).
(** [m.await?], and then [f]. *)
#[export] Instance Async_bind : MBind Async := fun A B f m s =>
  let '(r, (s, ps)) := m s in
  match r with
  | Err e => (Err e, (s, ps))
  | Ok a => let '(r, (s, ps')) := f a s in (r, (s, ps ++ ps'))
  end.

(** ** HandleEventLoop *)

Record LocalEndpoint : Type := mkLocalEndpoint {
  ep_address : EndpointAddr;
  ep_topic_code : TopicCode;
}.

Definition InnerEventHandler : Type := Message -> Async ().

Record HandleEventLoop : Type := mkEventLoop {
  loop_ep : LocalEndpoint;
  handlers : gmap Subject InnerEventHandler;
}.

Definition loop_new (ep : LocalEndpoint) : HandleEventLoop := mkEventLoop ep ∅.

(** [LocalEndpoint::create_event_loop]. *)
Definition create_event_loop (ep : LocalEndpoint) : HandleEventLoop := loop_new ep.

Section EventLoop.
Context (raft_propose : Proposal -> EdgeNode -> Result () string * EdgeNode).
(** Whether the endpoint's weak reference to its topic upgrades. *)
Context (topic_alive : TaskState -> bool).

(** [LocalEndpoint::ack_received] and its kind. *)
Definition ack (make : MessageHeader -> TopicCode -> EndpointAddr -> MessageAck) (ep : LocalEndpoint)
    (h : MessageHeader) : Async () := fun s =>
  endpoint_ack raft_propose make (topic_alive s) h (ep_topic_code ep) (ep_address ep) s.

Section Register.
Context {E : Type} `{Event E}.
(** The user's handler, awaited: it may do anything to the state. *)
Context (handle : E -> TaskState -> Result () string * TaskState).

Definition await_user (event : E) : Async (Result () string) := fun s =>
  let '(r, s) := handle event s in (Ok r, (s, [])).

(** The closure [register_handler] boxes. *)
Definition inner_handler (ep : LocalEndpoint) : InnerEventHandler := fun message =>
  _ ← (if bool_decide (EXPECT_ACK_KIND E = ExpectReceived) || bool_decide (EXPECT_ACK_KIND E = ExpectProcessed)
       then ack ack_received ep (header message) else mret ());
  match from_bytes (payload message) with
  | None =>
      if bool_decide (EXPECT_ACK_KIND E = ExpectProcessed)
      then _ ← ack ack_failed ep (header message); mret ()
      else mret ()
  | Some event =>
      handle_result ← await_user event;
      if bool_decide (EXPECT_ACK_KIND E = ExpectProcessed) then
        match handle_result with
        | Err e => ack ack_received ep (header message)
        | Ok _ => ack ack_processed ep (header message)
        end
      else mret ()
  end.

Definition register_handler (l : HandleEventLoop) : HandleEventLoop :=
  mkEventLoop (loop_ep l) (<[SUBJECT E := inner_handler (loop_ep l)]> (handlers l)).

Definition with_handler (l : HandleEventLoop) : HandleEventLoop := register_handler l.
End Register.

(** The body of the loop of [run]: the futures spawned for one message, in order. *)
Definition spawn_handlers (l : HandleEventLoop) (m : Message) : list (Async ()) :=
  omap (fun subject => (fun handler => handler m) <$> handlers l !! subject) (subjects (header m)).

(** The iterations of [run] until it has to wait for the next message.  The
    endpoint holds a sender of its own mailbox, so [next_message] never yields
    [None] and the loop never breaks. *)
Fixpoint run_ready (fuel : nat) (l : HandleEventLoop) (s : TaskState) : Outcome (list (Async ()) * TaskState) :=
  match fuel with
  | O => OutOfFuel
  | S fuel =>
      match next_message (ep_address (loop_ep l)) s with
      | (None, s) => Done ([], s)
      | (Some m, s) =>
          '(futures, s) ← run_ready fuel l s;
          Done (spawn_handlers l m ++ futures, s)
      end
  end.
End EventLoop.

(** ** Topic::send_event *)

(** The crate's error: of [send_message], or the kind [Ack] under the context
    "waiting event ack". *)
Inductive EventError : Type :=
  | EventSend (e : string)
  | EventAck (e : WaitAckError).

Section SendEvent.
Context (raft_propose : Proposal -> EdgeNode -> Result () string * EdgeNode).
Context (await_handle : MessageId -> EdgeNode -> WaitAckResult * EdgeNode).
Context (timestamp executor_digest : Z).

(** [Topic::send_message]. *)
Definition topic_send_message (code : TopicCode) (topic : loc) (m : Message) (n : EdgeNode) :
    Result MessageId string * (EdgeNode * list Proposal) :=
  let n := set_edge_world (wait_ack_handle topic (msg_id m) (edge_world n)) n in
  let p := PDelegateMessage (mkDelegateMessage code m) in
  let '(r, n) := raft_propose p n in
  (match r with Ok _ => Ok (msg_id m) | Err e => Err e end, (n, [p])).

(** The message of an event. *)
Definition event_header_builder (E : Type) `{EventAttribute E} : HeaderBuilder.MessageHeaderBuilder :=
  let header_builder := HeaderBuilder.new [SUBJECT E] in
  let header_builder :=
    if BROADCAST E then HeaderBuilder.mode_online header_builder else HeaderBuilder.mode_push header_builder in
  HeaderBuilder.ack_kind (EXPECT_ACK_KIND E) header_builder.

Definition send_event {E : Type} `{Event E} (code : TopicCode) (topic : loc) (event : E) (n : EdgeNode) :
    Outcome (Result () EventError * (EdgeNode * list Proposal)) :=
  bytes ← to_bytes event;
  let '(header, counter) :=
    HeaderBuilder.build timestamp executor_digest (message_counter n) (event_header_builder E) in
  let message := message_new header bytes in
  let '(r, (n, ps)) := topic_send_message code topic message (set_message_counter counter n) in
  Done match r with
       | Err e => (Err (EventSend e), (n, ps))
       | Ok handle =>
           let '(response, n) := await_handle handle n in
           (match response with Ok _ => Ok () | Err e => Err (EventAck e) end, (n, ps))
       end.
End SendEvent.

(** ** Facts *)

(** A map that changes only what the filter drops. *)
Lemma filter_fmap_dropped {A} (P : A -> Prop) `{forall x, Decision (P x)} (f : A -> A) (l : list A) :
  (forall x, P x -> f x = x) -> (forall x, P (f x) -> P x) -> filter P (f <$> l) = filter P l.
Proof.
  intros Hfix Hdrop. induction l as [|x l IH]; [done|]. rewrite fmap_cons, !filter_cons, IH.
  destruct (decide (P (f x))) as [Hp|Hn], (decide (P x)) as [Hx|Hx]; [by rewrite Hfix|naive_solver| |done].
  rewrite Hfix in Hn by done. done.
Qed.

(** One acknowledgement, by the only receiver of a held message. *)
Section SingleReceiver.
Context `{HashOrder, Clock, Hash64}.
Implicit Types (hm : HoldMessage) (ctx : ProposalContext).

(** A message that is sent to one endpoint, and its status there. *)
Definition sent_to (ep : EndpointAddr) (k : MessageStatusKind) hm : Prop :=
  hold_status hm = {[ep := k]} /\ target_kind (header (message hm)) <> Durable.

Lemma hm_iter_one {V} (ep : EndpointAddr) (v : V) : hm_iter {[ep := v]} = [(ep, v)].
Proof. apply Permutation_singleton_r. by rewrite hm_iter_perm, map_to_list_singleton. Qed.

Lemma acked_one ep k k' hm :
  sent_to ep k hm -> is_resolved k (expect_kind (wait_ack hm)) = false ->
  acked_hold ep k' hm = with_status {[ep := k']} hm.
Proof.
  intros [Hs _] Hk. unfold acked_hold, acked_status. rewrite Hs, lookup_singleton_eq, Hk.
  by rewrite insert_singleton_eq.
Qed.

Lemma send_settled ep k reach hm ctx :
  hold_status hm = {[ep := k]} -> is_unsent k = false -> send_unsent reach hm ctx = (hm, ctx).
Proof.
  intros Hs Hk. rewrite send_unsent_eq. unfold to_send, sent_hold. rewrite Hs, hm_iter_one.
  rewrite filter_cons_False by (by rewrite Hk). cbn. f_equal. rewrite <-(with_status_id hm) at 2. f_equal.
  rewrite Hs. apply map_eq. intros i. rewrite map_lookup_imap.
  destruct (decide (i = ep)) as [->|Hne]; [|by rewrite lookup_singleton_ne].
  rewrite lookup_singleton_eq. cbn. unfold sent_status. by rewrite Hk.
Qed.

Lemma resolved_one ep k hm ctx :
  sent_to ep k hm -> hold_is_resolved hm ctx = (is_resolved k (expect_kind (wait_ack hm)), ctx).
Proof.
  intros [Hs Hk]. unfold hold_is_resolved. rewrite Hs, hm_iter_one. cbn. rewrite andb_true_r.
  by destruct (target_kind _).
Qed.

(** The receiver's status is recorded, and the message leaves exactly when it settles it. *)
Lemma single_update ep k k' hm (t : TopicData) ctx :
  topic_wf t -> config_blocking (topic_config t) = false -> is_Some (ctx_topic ctx) ->
  hm ∈ topic_abs t -> sent_to ep k hm -> is_resolved k (expect_kind (wait_ack hm)) = false -> is_unsent k' = false ->
  let hm' := with_status {[ep := k']} hm in
  exists t' ctx', run_call (CallUpdate (state_update_new (hold_id hm) {[ep := k']})) t ctx = Done (t', ctx') /\
    topic_wf t' /\ topic_config t' = topic_config t /\ ctx_topic ctx' = ctx_topic ctx /\
    if is_resolved k' (expect_kind (wait_ack hm))
    then topic_abs t' = filter (fun h => hold_id h <> hold_id hm) (topic_abs t) /\
      acks_of ctx' = acks_of ctx ++ [(hold_id hm, hold_resolve hm')]
    else topic_abs t' = (fun h => if decide (hold_id h = hold_id hm) then hm' else h) <$> topic_abs t /\
      acks_of ctx' = acks_of ctx.
Proof.
  intros Ht Hb [tl Htl] Hin Hst Hk Hk' hm'.
  destruct (update_and_flush_spec (state_update_new (hold_id hm) {[ep := k']}) t ctx Ht)
    as (t' & ctx' & Hr & Hwf & Hcfg & _ & _ & Hspec).
  exists t', ctx'. pose proof (queue_abs_NoDup _ (twf_queue t Ht)) as Hnd. fold (topic_abs t) in Hnd.
  rewrite Hb in Hspec. unfold spec_update, spec_poll, spec_acks, state_update_new in Hspec.
  cbn [update_status update_message_id] in Hspec. rewrite hm_iter_one in Hspec. cbn [foldl] in Hspec.
  set (f := fun h => if decide (hold_id h = hold_id hm) then acked_hold ep k' h else h) in Hspec.
  set (ctx1 := push_durable_command _ _) in Hspec.
  assert (f <$> topic_abs t = (fun h => if decide (hold_id h = hold_id hm) then hm' else h) <$> topic_abs t) as Hf.
  { apply list_fmap_ext. intros i h Hh%list_elem_of_lookup_2. unfold f. case_decide as Hid; [|done].
    assert (h = hm) as -> by by apply (NoDup_fmap_inj hold_id (topic_abs t)). by eapply acked_one. }
  assert (hold_id <$> (f <$> topic_abs t) = hold_id <$> topic_abs t) as Hids.
  { symmetry. apply fmap_hold_id. intros h. unfold f. by case_decide. }
  rewrite (spec_poll_at_held _ (hold_id hm) (f <$> topic_abs t) hm' ctx1 hm' ctx1
    (is_resolved k' (expect_kind (wait_ack hm))) ctx1) in Hspec.
  - split_and!; [done|done|done| |].
    { apply (f_equal snd) in Hspec. rewrite <-(extends_ctx_topic ctx ctx1) by apply extends_push_durable.
      apply extends_ctx_topic. destruct (is_resolved k' _); cbn in Hspec; subst ctx'; [apply extends_finish|done]. }
    destruct (is_resolved k' _); injection Hspec as <- <-; (split; [|]).
    + apply filter_fmap_dropped; intros h; unfold f; by case_decide.
    + rewrite acks_of_finish, (extends_ctx_topic ctx), Htl by apply extends_push_durable. done.
    + rewrite Hf, <-list_fmap_compose. apply list_fmap_ext. intros i h _. cbn. by repeat case_decide.
    + done.
  - by rewrite Hids.
  - rewrite Hf. apply list_elem_of_fmap. exists hm. by rewrite decide_True.
  - done.
  - by apply (send_settled ep k').
  - apply (resolved_one ep k' hm' ctx1). split; [done|]. apply Hst.
Qed.
End SingleReceiver.

(** What the handler of an event proposes, when every proposal is accepted. *)
Definition status_proposal (ep : LocalEndpoint) (h : MessageHeader) (k : MessageStatusKind) : Proposal :=
  PSetState (mkSetState (ep_topic_code ep) (state_update_new (message_id h) {[ep_address ep := k]})).

Definition handler_statuses (expect : MessageAckExpectKind) (verdict : option (Result () string)) :
    list MessageStatusKind :=
  match expect with
  | ExpectSent => []
  | ExpectReceived => [Received]
  | ExpectProcessed =>
      [Received; match verdict with None => Failed | Some (Err _) => Received | Some (Ok _) => Processed end]
  end.

Section HandlerFacts.
Context (raft_propose : Proposal -> EdgeNode -> Result () string * EdgeNode).
Context (topic_alive : TaskState -> bool).
Context {E : Type} `{Event E}.
Context (handle : E -> TaskState -> Result () string * TaskState).

(** The node after a proposal. *)
Definition proposed (p : Proposal) (s : TaskState) : TaskState :=
  set_task_node (snd (raft_propose p (task_node s))) s.

(** The state the user's handler is called in. *)
Definition user_state (ep : LocalEndpoint) (h : MessageHeader) (s : TaskState) : TaskState :=
  match EXPECT_ACK_KIND E with
  | ExpectSent => s
  | ExpectReceived | ExpectProcessed => proposed (status_proposal ep h Received) s
  end.

(** The decoding and the user's answer. *)
Definition verdict (ep : LocalEndpoint) (m : Message) (s : TaskState) : option (Result () string) :=
  (fun event => fst (handle event (user_state ep (header m) s))) <$> from_bytes (payload m).

Definition accepting : Prop :=
  (forall p n, fst (raft_propose p n) = Ok ()) /\ forall s, topic_alive s = true.

Lemma ack_accepted make k ep h s :
  accepting -> (forall h code e, make h code e = header_ack h code e k) ->
  ack raft_propose topic_alive make ep h s =
    (Ok (), (proposed (status_proposal ep h k) s, [status_proposal ep h k])).
Proof.
  intros [Hraft Halive] Hmake. unfold ack, endpoint_ack, single_ack. rewrite Halive, Hmake. cbn.
  fold (status_proposal ep h k). unfold proposed. pose proof (Hraft (status_proposal ep h k) (task_node s)) as Ho.
  destruct (raft_propose _ _) as [r n]. cbn in Ho. by rewrite Ho.
Qed.

Lemma inner_handler_statuses ep m s :
  accepting ->
  exists s', inner_handler raft_propose topic_alive handle ep m s =
    (Ok (), (s', status_proposal ep (header m) <$> handler_statuses (EXPECT_ACK_KIND E) (verdict ep m s))).
Proof.
  intros Hok. unfold inner_handler, verdict, user_state, handler_statuses, mbind, Async_bind.
  destruct (EXPECT_ACK_KIND E); cbn [bool_decide orb].
  all: rewrite ?bool_decide_false, ?bool_decide_true by done; cbn [orb mret Async_ret].
  all: rewrite ?(ack_accepted _ Received) by done.
  all: destruct (from_bytes (payload m)) as [event|]; cbn [fmap option_fmap option_map];
    [|rewrite ?(ack_accepted _ Failed) by done; by eexists].
  all: unfold await_user.
  all: match goal with |- context [handle ?event ?s] => destruct (handle event s) as [[u|e] s1] end.
  all: cbn [fst]; rewrite ?(ack_accepted _ Received), ?(ack_accepted _ Processed) by done; by eexists.
Qed.
End HandlerFacts.

(** ** Properties *)

Section EventProperties.
Context (raft_propose : Proposal -> EdgeNode -> Result () string * EdgeNode).
Context (topic_alive : TaskState -> bool).

(** C6: What a handler does to the message it was called for, end to end.  The
    message is held by a non-blocking topic, sent to this endpoint alone and must
    be processed; the handler's proposals are accepted and applied in order.  When
    the payload decodes and the user's handler succeeds, the message leaves the
    queue and its sender is answered [Ok]; when it does not decode, the message
    leaves and the sender is answered with [Failed]; when the user's handler fails,
    the message stays held as [Received] and its sender is never told. *)
Theorem event_settles_message `{HashOrder, Clock, Hash64} {E : Type} `{Event E}
    (handle : E -> TaskState -> Result () string * TaskState) (ep : LocalEndpoint) (s : TaskState)
    (k : MessageStatusKind) (hm : HoldMessage) (t : TopicData) (ctx : ProposalContext)
    (Hok : accepting raft_propose topic_alive) (Hexpect : EXPECT_ACK_KIND E = ExpectProcessed)
    (Ht : topic_wf t) (Hblocking : config_blocking (topic_config t) = false) (Hctx : is_Some (ctx_topic ctx))
    (Hin : hm ∈ topic_abs t) (Hsent : sent_to (ep_address ep) k hm)
    (Hheld : expect_kind (wait_ack hm) = ExpectProcessed) (Hk : is_resolved k ExpectProcessed = false) :
  let m := message hm in
  exists s' ps t' ctx',
    inner_handler raft_propose topic_alive handle ep m s = (Ok (), (s', ps)) /\
    run_calls (omap proposal_call ps) t ctx = Done (t', ctx') /\
    match verdict raft_propose handle ep m s with
    | Some (Ok _) =>
        topic_abs t' = filter (fun h => hold_id h <> msg_id m) (topic_abs t) /\
        acks_of ctx' = acks_of ctx ++ [(msg_id m, Ok (mkWaitAckSuccess {[ep_address ep := Processed]}))]
    | Some (Err _) =>
        topic_abs t' = (fun h => if decide (hold_id h = msg_id m) then with_status {[ep_address ep := Received]} hm
                                 else h) <$> topic_abs t /\
        acks_of ctx' = acks_of ctx
    | None =>
        topic_abs t' = filter (fun h => hold_id h <> msg_id m) (topic_abs t) /\
        acks_of ctx' = acks_of ctx ++ [(msg_id m, Err (mkWaitAckError {[ep_address ep := Failed]} None))]
    end.
Proof.
  intros m. destruct (inner_handler_statuses raft_propose topic_alive handle ep m s Hok) as [s' Hrun].
  rewrite Hexpect in Hrun. set (v := verdict raft_propose handle ep m s) in *.
  destruct (single_update (ep_address ep) k Received hm t ctx) as (t1 & ctx1 & Hr1 & Hwf1 & Hcfg1 & Hctx1 & Hres1);
    [done|done|done|done|done|by rewrite Hheld|done|].
  rewrite Hheld in Hres1. destruct Hres1 as [Habs1 Hacks1].
  set (hm1 := with_status {[ep_address ep := Received]} hm) in *.
  pose (k2 := match v with None => Failed | Some (Err _) => Received | Some (Ok _) => Processed end).
  destruct (single_update (ep_address ep) Received k2 hm1 t1 ctx1) as (t2 & ctx2 & Hr2 & _ & _ & _ & Hres2).
  { done. } { by rewrite Hcfg1. } { by rewrite Hctx1. }
  { rewrite Habs1. apply list_elem_of_fmap. exists hm. by rewrite decide_True. }
  { split; [done|apply Hsent]. } { cbn. by rewrite Hheld. } { unfold k2. by destruct v as [[]|]. }
  exists s'. eexists. exists t2, ctx2. split; [exact Hrun|]. split.
  { cbn [handler_statuses fmap list_fmap omap list_omap proposal_call status_proposal set_state_update run_calls].
    change (message_id (header m)) with (hold_id hm). rewrite Hr1. cbn [mbind Outcome_bind].
    fold k2. change (hold_id hm) with (hold_id hm1). by rewrite Hr2. }
  change (expect_kind (wait_ack hm1)) with (expect_kind (wait_ack hm)) in Hres2.
  change (hold_id hm1) with (msg_id m) in Hres2. change (hold_id hm) with (msg_id m) in Habs1.
  rewrite Hheld, Hacks1, Habs1 in Hres2. unfold k2 in Hres2. destruct v as [[u|e]|]; cbn [is_resolved] in Hres2.
  - destruct Hres2 as [-> ->]. split; [|unfold hold_resolve; by rewrite hold_status_with, hm_iter_one].
    apply filter_fmap_dropped; intros h; by case_decide.
  - destruct Hres2 as [-> ->]. split; [|done]. rewrite <-list_fmap_compose. apply list_fmap_ext. intros i h _. cbn.
    by repeat case_decide.
  - destruct Hres2 as [-> ->]. split; [|unfold hold_resolve; by rewrite hold_status_with, hm_iter_one].
    apply filter_fmap_dropped; intros h; by case_decide.
Qed.

(** An event comes out as it went in.  [send_event] proposes one message, under
    the event's subject, with its acknowledgement kind and pushed or broadcast as
    the type says; an event loop that has a handler of the type, given that
    message, spawns that handler and nothing else, and the handler decodes the
    very event that was sent.  A second handler of the same subject replaces the
    first. *)
Theorem event_reaches_handler {E : Type} `{Event E}
    (handle : E -> TaskState -> Result () string * TaskState)
    (await_handle : MessageId -> EdgeNode -> WaitAckResult * EdgeNode) (timestamp executor_digest : Z)
    (code : TopicCode) (topic : loc) (event : E) (bytes : list u8) (n : EdgeNode)
    (Hto : to_bytes event = Done bytes) (Hfrom : from_bytes bytes = Some event) :
  exists r n' m,
    send_event raft_propose await_handle timestamp executor_digest code topic event n =
      Done (r, (n', [PDelegateMessage (mkDelegateMessage code m)])) /\
    header m = mkHeader (msg_id m) (EXPECT_ACK_KIND E) (if BROADCAST E then Online else Push) None [SUBJECT E] /\
    (forall l, spawn_handlers (register_handler raft_propose topic_alive handle l) m =
       [inner_handler raft_propose topic_alive handle (loop_ep l) m]) /\
    (forall ep s, verdict raft_propose handle ep m s =
       Some (fst (handle event (user_state raft_propose (E := E) ep (header m) s)))).
Proof.
  unfold send_event. rewrite Hto. cbn [mbind Outcome_bind]. unfold HeaderBuilder.build.
  destruct (message_id_new_snowflake _ _ _) as [id c]. unfold topic_send_message.
  set (m := message_new _ bytes). destruct (raft_propose _ _) as [r n1].
  assert (header m = mkHeader (msg_id m) (EXPECT_ACK_KIND E) (if BROADCAST E then Online else Push) None [SUBJECT E])
    as Hm by (unfold m, event_header_builder; by destruct (BROADCAST E)).
  assert (forall l, spawn_handlers (register_handler raft_propose topic_alive handle l) m =
    [inner_handler raft_propose topic_alive handle (loop_ep l) m]) as Hspawn.
  { intros l. unfold spawn_handlers. rewrite Hm. cbn. by rewrite lookup_insert_eq. }
  assert (forall ep s, verdict raft_propose handle ep m s =
    Some (fst (handle event (user_state raft_propose (E := E) ep (header m) s)))) as Hv.
  { intros ep s. unfold verdict. change (payload m) with bytes. by rewrite Hfrom. }
  destruct r as [u|e]; [destruct (await_handle (msg_id m) n1) as [w n2]|]; eexists _, _, m; by split_and!.
Qed.

(** The statuses a handler reports.  Nothing for an event that need only be
    sent; [Received] before decoding for the other two kinds; and after it, for one
    that must be processed, [Failed] when the payload does not decode, [Processed]
    when the user's handler succeeds, and [Received] once more when it fails.  When
    the first acknowledgement is refused the future ends with that error: the
    message is not decoded and the user's handler is not called. *)
Theorem handler_reports {E : Type} `{Event E} (handle : E -> TaskState -> Result () string * TaskState)
    (ep : LocalEndpoint) (m : Message) (s : TaskState) :
  (accepting raft_propose topic_alive ->
   exists s', inner_handler raft_propose topic_alive handle ep m s =
     (Ok (), (s', status_proposal ep (header m) <$>
        handler_statuses (EXPECT_ACK_KIND E) (verdict raft_propose handle ep m s)))) /\
  (forall e s' ps, EXPECT_ACK_KIND E <> ExpectSent ->
     ack raft_propose topic_alive ack_received ep (header m) s = (Err e, (s', ps)) ->
     inner_handler raft_propose topic_alive handle ep m s = (Err e, (s', ps))).
Proof.
  split; [apply inner_handler_statuses|]. intros e s' ps Hk Hack. unfold inner_handler, mbind, Async_bind.
  destruct (EXPECT_ACK_KIND E); [done| |]; rewrite ?bool_decide_false, ?bool_decide_true by done; cbn [orb];
    by rewrite Hack.
Qed.

(** The event loop never stops for want of iterations: with as many as there
    are messages in the mailbox, and one to find it empty, it takes every message
    in order and spawns, for each, the handlers of its subjects in their order. *)
Theorem run_ready_drains (l : HandleEventLoop) (fuel : nat) (s : TaskState) (box : list Message)
    (Hbox : mailboxes s !! ep_address (loop_ep l) = Some box) (Hfuel : length box < fuel) :
  run_ready fuel l s =
    Done (box ≫= spawn_handlers l, set_mailboxes (<[ep_address (loop_ep l) := []]> (mailboxes s)) s).
Proof.
  revert fuel s Hbox Hfuel. induction box as [|m box IH]; intros [|fuel] s Hbox Hfuel; try (cbn in Hfuel; lia);
    cbn [run_ready]; unfold next_message; rewrite Hbox.
  - rewrite insert_id by done. by destruct s.
  - rewrite (IH fuel); [|cbn; by rewrite lookup_insert_eq|cbn in Hfuel; lia]. cbn. by rewrite insert_insert_eq.
Qed.
End EventProperties.

Section EventWitnesses.
Import Sample.
#[local] Existing Instance sample_hash.

(** A boolean event in JSON, which must be processed; its handler fails on [false]. *)
#[local] Instance serde_bool : SerdeJson bool :=
  mkSerdeJson bool
    (fun b => Some (String.list_byte_of_string (if b then "true" else "false")))
    (fun bytes =>
       if decide (bytes = String.list_byte_of_string "true") then Some true
       else if decide (bytes = String.list_byte_of_string "false") then Some false else None).
#[local] Instance attribute_bool : EventAttribute bool := mkEventAttribute bool (subject_new "a/1") false ExpectProcessed.
#[local] Instance event_bool : Event (Json bool) := mkEvent (Json bool) _ _.

Definition handle_bool (e : Json bool) (s : TaskState) : Result () string * TaskState :=
  (if json_value e then Ok () else Err "refused", s).
Definition always_alive : TaskState -> bool := fun _ => true.
Definition handler_ep : LocalEndpoint := mkLocalEndpoint (ep x05) topic.

Lemma accepting_sample : accepting accept always_alive.
Proof. by split. Qed.

(** The message of such an event, held and sent to the endpoint. *)
Definition event_hold : HoldMessage :=
  mkHold (mkMessage (mkHeader (mid x01) ExpectProcessed Push None [subject_new "a/1"])
            (String.list_byte_of_string "true"))
    (mkWaitAck ExpectProcessed {[ep x05 := Sent]}).
Definition event_topic : TopicData :=
  match queue_push event_hold (queue_new false DEFAULT_CAPACITY) ctx with
  | Done (q, _) => mkTopicData (topic_config_of_code topic) ∅ interest_map_new q
  | _ => mkTopicData (topic_config_of_code topic) ∅ interest_map_new (queue_new false DEFAULT_CAPACITY)
  end.

Lemma event_topic_wf : topic_wf event_topic.
Proof.
  unfold event_topic. destruct (queue_push event_hold (queue_new false DEFAULT_CAPACITY) ctx) as [[q c]| |] eqn:Hp.
  - split; [|by injection Hp as <- _|by injection Hp as <- _|apply map_ok_new].
    eapply queue_push_wf; [apply queue_new_wf|..|exact Hp]; [by vm_compute|]. intros e He. by apply not_elem_of_nil in He.
  - split; [apply queue_new_wf|done|done|apply map_ok_new].
  - split; [apply queue_new_wf|done|done|apply map_ok_new].
Qed.

Lemma event_settles_message_witness :
  exists s' ps t' ctx',
    inner_handler accept always_alive handle_bool handler_ep (message event_hold) sample_tasks = (Ok (), (s', ps)) /\
    run_calls (omap proposal_call ps) event_topic ctx = Done (t', ctx') /\
    topic_abs t' = filter (fun h => hold_id h <> msg_id (message event_hold)) (topic_abs event_topic) /\
    acks_of ctx' = acks_of ctx ++
      [(msg_id (message event_hold), Ok (mkWaitAckSuccess {[ep x05 := Processed]}))].
Proof.
  assert (verdict accept handle_bool handler_ep (message event_hold) sample_tasks = Some (Ok ())) as Hv
    by (vm_compute; reflexivity).
  pose proof (event_settles_message accept always_alive handle_bool handler_ep sample_tasks Sent event_hold event_topic ctx
    accepting_sample eq_refl event_topic_wf eq_refl ltac:(eexists; vm_compute; reflexivity) ltac:(vm_compute; left)
    ltac:(split; [reflexivity|discriminate]) eq_refl eq_refl) as Hx.
  cbv zeta in Hx. rewrite Hv in Hx. exact Hx.
Defined.

Lemma event_reaches_handler_witness :
  exists r n' m,
    send_event accept (fun _ n => (Ok (mkWaitAckSuccess ∅), n)) 1 2 topic 0 (mkJson true) sample_edge =
      Done (r, (n', [PDelegateMessage (mkDelegateMessage topic m)])) /\
    header m = mkHeader (msg_id m) ExpectProcessed Push None [subject_new "a/1"] /\
    (forall l, spawn_handlers (register_handler accept always_alive handle_bool l) m =
       [inner_handler accept always_alive handle_bool (loop_ep l) m]) /\
    (forall ep s, verdict accept handle_bool ep m s =
       Some (fst (handle_bool (mkJson true) (user_state accept (E := Json bool) ep (header m) s)))).
Proof.
  pose proof (event_reaches_handler accept always_alive handle_bool (fun _ n => (Ok (mkWaitAckSuccess ∅), n)) 1 2
    topic 0 (mkJson true) (String.list_byte_of_string "true") sample_edge eq_refl ltac:(vm_compute; reflexivity)) as Hx.
  exact Hx.
Defined.

(** An endpoint of a dropped topic: nothing is proposed and nobody is called. *)
Lemma handler_reports_witness :
  inner_handler accept (fun _ => false) handle_bool handler_ep (message event_hold) sample_tasks =
    (Err "topic not found", (sample_tasks, [])).
Proof.
  apply (proj2 (handler_reports accept (fun _ => false) handle_bool handler_ep (message event_hold) sample_tasks)).
  - discriminate.
  - reflexivity.
Defined.

Definition handler_tasks : TaskState := mkTaskState sample_edge {[ep x05 := [message event_hold]]}.

Lemma run_ready_drains_witness :
  let l := with_handler accept always_alive handle_bool (create_event_loop handler_ep) in
  run_ready 2 l handler_tasks =
    Done ([message event_hold] ≫= spawn_handlers l,
          set_mailboxes (<[ep x05 := []]> (mailboxes handler_tasks)) handler_tasks).
Proof.
  apply (run_ready_drains (with_handler accept always_alive handle_bool (create_event_loop handler_ep)) 2 handler_tasks
    [message event_hold]).
  - vm_compute. reflexivity.
  - vm_compute. lia.
Defined.
End EventWitnesses.
