(* ===== verification/System.v ===== *)
(** * A node at work

    The parts of a node put together: callers of [Topic::send_message], proposals
    that Raft has yet to commit, the state machine that applies them, and the tasks
    it spawns, in every interleaving.  [Tasks] and [EventHandler] model what a
    caller and a task do, [NodeData] what applying does; here they act on one state,
    and the theorems are about the callers that wait. *)

From S2P Require Import Prelude Ids Interest Message Proposal Queue Topic Delivery NodeData Edge Codec EdgeNode Tasks EventHandler.

(** A caller of [send_message] that was given its handle. *)
Record Sender : Type := mkSender {
  sender_topic : TopicCode;
  sender_id : MessageId;
  sender_channel : loc;
}.

(** The node, its replicated state, the proposals made and not yet applied, the
    callers that wait, and the history of the outcomes the state machine decided. *)
Record System : Type := mkSystem {
  sys_tasks : TaskState;
  sys_data : NodeData;
  sys_flight : list Proposal;
  sys_senders : list Sender;
  sys_decided : list (loc * MessageId * WaitAckResult);
}.

Definition sys_world (s : System) : World := task_world (sys_tasks s).
Definition set_sys_tasks (t : TaskState) (s : System) : System :=
  mkSystem t (sys_data s) (sys_flight s) (sys_senders s) (sys_decided s).

(** A proposal is made and its maker goes on; what Raft makes of it is a step of
    its own. *)
Definition logged (p : Proposal) (n : EdgeNode) : Result () string * EdgeNode := (Ok (), n).

Definition task_answer (t : Task) : option (loc * MessageId * WaitAckResult) :=
  match t with TaskResolveAck topic id r => Some (topic, id, r) | _ => None end.

(** ** Steps *)

(** [Topic::send_message] on the handle the node has. *)
Definition sys_send (code : TopicCode) (topic : loc) (m : Message) (s : System) : System :=
  let channel := next_loc (runtime (sys_world s)) in
  let '(_, (n, ps)) := topic_send_message logged code topic m (task_node (sys_tasks s)) in
  mkSystem (set_task_node n (sys_tasks s)) (sys_data s) (sys_flight s ++ ps)
    (sys_senders s ++ [mkSender code (msg_id m) channel]) (sys_decided s).

(** A proposal of anybody else, on this node or another. *)
Definition sys_propose (p : Proposal) (s : System) : System :=
  mkSystem (sys_tasks s) (sys_data s) (sys_flight s ++ [p]) (sys_senders s) (sys_decided s).

(** Raft commits a proposal and the state machine applies it. *)
Definition sys_apply `{HashOrder, Clock, Hash64} (i : nat) (s : System) : Outcome System :=
  match sys_flight s !! i with
  | None => Done s
  | Some p =>
      let w := sys_world s in
      '(nd, ctx) ← apply_proposal p (sys_data s) (context_new w);
      let new := drop (length (spawned (runtime w))) (spawned (runtime (ctx_world ctx))) in
      Done (mkSystem (set_task_world (ctx_world ctx) (sys_tasks s)) nd (delete i (sys_flight s))
              (sys_senders s) (sys_decided s ++ omap task_answer new))
  end.

(** Whose message a proposal brings. *)
Definition brings (p : Proposal) (x : Sender) : bool :=
  match p with
  | PDelegateMessage d =>
      bool_decide (sender_topic x = delegate_topic d /\ sender_id x = msg_id (delegate_message d))
  | _ => false
  end.

(** Raft refuses a proposal for good: [send_message] returns the error, and the
    caller never gets its handle; what it put into the pool stays there. *)
Definition sys_refuse (i : nat) (s : System) : System :=
  match sys_flight s !! i with
  | None => s
  | Some p =>
      mkSystem (sys_tasks s) (sys_data s) (delete i (sys_flight s))
        (filter (fun x => brings p x = false) (sys_senders s)) (sys_decided s)
  end.

(** A caller drops its handle. *)
Definition sys_leave (j : nat) (s : System) : System :=
  mkSystem (sys_tasks s) (sys_data s) (sys_flight s) (delete j (sys_senders s)) (sys_decided s).

(** The body of a spawned task. *)
Definition run_task (timestamp executor_digest : Z) (is_leader : bool) (t : Task) (s : TaskState) :
    TaskState * list Proposal :=
  match t with
  | TaskResolveAck topic id r => (set_task_world (run_resolve_ack topic id r (task_world s)) s, [])
  | TaskDispatchMessage topic code m ep => run_dispatch logged timestamp executor_digest topic code m ep s
  | TaskCommitDurable code => (set_task_world (fst (run_commit is_leader code (task_world s))) s, [])
  end.

(** One of the spawned tasks runs to its end. *)
Definition sys_run (timestamp executor_digest : Z) (is_leader : bool) (i : nat) (s : System) : System :=
  let w := sys_world s in
  match spawned (runtime w) !! i with
  | None => s
  | Some t =>
      let tasks := set_task_world (set_spawned (delete i (spawned (runtime w))) w) (sys_tasks s) in
      let '(tasks, ps) := run_task timestamp executor_digest is_leader t tasks in
      mkSystem tasks (sys_data s) (sys_flight s ++ ps) (sys_senders s) (sys_decided s)
  end.

(** ** Where a message may be *)

Definition flight_id (code : TopicCode) (p : Proposal) : option MessageId :=
  match p with
  | PDelegateMessage d =>
      if decide (delegate_topic d = code) then Some (msg_id (delegate_message d)) else None
  | _ => None
  end.
Definition flight_ids (code : TopicCode) (s : System) : list MessageId :=
  omap (flight_id code) (sys_flight s).

Definition held_in (code : TopicCode) (nd : NodeData) : list MessageId :=
  match nd_topics nd !! code with Some t => hold_id <$> topic_abs t | None => [] end.
Definition held_ids (code : TopicCode) (s : System) : list MessageId := held_in code (sys_data s).

Definition resolving_id (topic : loc) (t : Task) : option MessageId :=
  match t with
  | TaskResolveAck l id _ => if decide (l = topic) then Some id else None
  | _ => None
  end.
Definition resolving_ids (topic : loc) (s : System) : list MessageId :=
  omap (resolving_id topic) (spawned (runtime (sys_world s))).

(** In a proposal, in the queue, or on its way to the caller. *)
Definition pending_ids (code : TopicCode) (topic : loc) (s : System) : list MessageId :=
  flight_ids code s ++ held_ids code s ++ resolving_ids topic s.

Definition pool_of (topic : loc) (w : World) : gmap MessageId loc :=
  match topic_heap (runtime w) !! topic with Some inner => ack_waiting_pool inner | None => ∅ end.

(** An id that is new to a topic: ids are drawn from snowflakes. *)
Definition fresh_id (code : TopicCode) (topic : loc) (id : MessageId) (s : System) : Prop :=
  id ∉ pending_ids code topic s /\ pool_of topic (sys_world s) !! id = None.

(** What the queue of a topic asks of a message besides being new: a supported
    mode, a clock that has moved on, and room in the counter. *)
Definition apply_ready `{Clock} (p : Proposal) (s : System) : Prop :=
  match p with
  | PDelegateMessage d =>
      forall t, nd_topics (sys_data s) !! delegate_topic d = Some t ->
        target_kind (header (delegate_message d)) <> Available /\
        (forall e, e ∈ time_id (queue t) -> (time e < fst (utc_now (context_new (sys_world s))))%Z) /\
        (queue_size (queue t) < usize_MAX)%Z
  | _ => True
  end.

(** What the rest of the node leaves alone: handles and pools, channels, spawned
    tasks.  It may register endpoints, take durable commands, read the clock. *)
Record same_waiting (w w' : World) : Prop := mkSame {
  same_topics : topics (node w') = topics (node w);
  same_heap : forall l, (fun i => (inner_code i, ack_waiting_pool i)) <$> topic_heap (runtime w') !! l =
                        (fun i => (inner_code i, ack_waiting_pool i)) <$> topic_heap (runtime w) !! l;
  same_oneshots : oneshots (runtime w') = oneshots (runtime w);
  same_next : next_loc (runtime w') = next_loc (runtime w);
  same_spawned : spawned (runtime w') = spawned (runtime w);
}.

Section Steps.
Context `{HashOrder, Clock, Hash64}.

(** The steps of a node whose topics stay loaded. *)
Inductive sys_step (s : System) : System -> Prop :=
  | step_send code topic m :
      get_topic code (sys_world s) = Some topic -> fresh_id code topic (msg_id m) s ->
      sys_step s (sys_send code topic m s)
  | step_propose p :
      is_Some (proposal_call p) ->
      (forall d topic, p = PDelegateMessage d -> get_topic (delegate_topic d) (sys_world s) = Some topic ->
         fresh_id (delegate_topic d) topic (msg_id (delegate_message d)) s) ->
      sys_step s (sys_propose p s)
  | step_apply i p s' :
      sys_flight s !! i = Some p -> apply_ready p s -> sys_apply i s = Done s' -> sys_step s s'
  | step_refuse i : sys_step s (sys_refuse i s)
  | step_leave j : sys_step s (sys_leave j s)
  | step_run timestamp executor_digest is_leader i :
      sys_step s (sys_run timestamp executor_digest is_leader i s)
  | step_other tasks :
      (** connections, routing, mailboxes, counters: whatever the rest of the node does *)
      same_waiting (sys_world s) (task_world tasks) -> sys_step s (set_sys_tasks tasks s).
End Steps.

(** ** The invariant *)

(** A caller is answered with what was decided, or waits and its message is
    somewhere. *)
Definition sender_ok (s : System) (x : Sender) : Prop :=
  exists topic, get_topic (sender_topic x) (sys_world s) = Some topic /\
    sender_channel x < next_loc (runtime (sys_world s)) /\
    ((exists r, oneshots (runtime (sys_world s)) !! sender_channel x = Some (OneshotSent r) /\
        (topic, sender_id x, r) ∈ sys_decided s) \/
     (oneshots (runtime (sys_world s)) !! sender_channel x = Some OneshotWaiting /\
      pool_of topic (sys_world s) !! sender_id x = Some (sender_channel x) /\
      sender_id x ∈ pending_ids (sender_topic x) topic s)).

Record sys_ok (s : System) : Prop := mkSysOk {
  ok_data : node_wf (sys_data s);
  ok_handle : forall code topic, get_topic code (sys_world s) = Some topic ->
    exists inner t, topic_heap (runtime (sys_world s)) !! topic = Some inner /\ inner_code inner = code /\
      nd_topics (sys_data s) !! code = Some t;
  ok_loaded : forall code, is_Some (nd_topics (sys_data s) !! code) -> is_Some (get_topic code (sys_world s));
  ok_calls : Forall (fun p => is_Some (proposal_call p)) (sys_flight s);
  ok_pools : pools_ok (sys_world s);
  ok_pending : forall code topic, get_topic code (sys_world s) = Some topic -> NoDup (pending_ids code topic s);
  ok_decided : forall topic id r, TaskResolveAck topic id r ∈ spawned (runtime (sys_world s)) ->
    (topic, id, r) ∈ sys_decided s;
  ok_senders : forall x, x ∈ sys_senders s -> sender_ok s x;
}.

(** ** Facts *)

Lemma omap_delete {A B} (f : A -> option B) (l : list A) i x :
  l !! i = Some x -> omap f l ≡ₚ option_list (f x) ++ omap f (delete i l).
Proof. intros Hx. rewrite (delete_Permutation l i x Hx) at 1. cbn. by destruct (f x). Qed.

Lemma elem_of_pool topic w inner : topic_heap (runtime w) !! topic = Some inner -> pool_of topic w = ack_waiting_pool inner.
Proof. unfold pool_of. by intros ->. Qed.

Section Facts.
Context `{HashOrder, Clock, Hash64}.
Implicit Types (s : System) (w : World).

(** Two codes have two handles. *)
Lemma handle_inj s code1 code2 topic :
  sys_ok s -> get_topic code1 (sys_world s) = Some topic -> get_topic code2 (sys_world s) = Some topic -> code1 = code2.
Proof.
  intros Hok Hc1 Hc2. destruct (ok_handle s Hok _ _ Hc1) as (i1 & _ & E1 & <- & _).
  destruct (ok_handle s Hok _ _ Hc2) as (i2 & _ & E2 & <- & _). congruence.
Qed.

(** The acknowledgements among tasks on one handle. *)
Lemma resolving_on topic new :
  Forall (task_on (Some topic)) new -> omap (resolving_id topic) new = (omap task_ack new).*1.
Proof.
  induction 1 as [|t new Ht _ IH]; [done|]. cbn. rewrite IH. destruct t; try done. cbn in Ht |- *.
  injection Ht as <-. by rewrite decide_True.
Qed.

Lemma resolving_off topic o new :
  Forall (task_on o) new -> o <> Some topic -> omap (resolving_id topic) new = [].
Proof.
  intros Hnew Ho. apply omap_none. intros t Ht. rewrite Forall_forall in Hnew. specialize (Hnew t Ht).
  destruct t; try done. cbn in Hnew |- *. by rewrite decide_False by congruence.
Qed.

Lemma call_flight_id p c : proposal_call p = Some c -> call_id c = option_list (flight_id (proposal_code p) p).
Proof. destruct p; intros Hc; cbn in Hc; simplify_eq; cbn; by rewrite ?decide_True. Qed.

Lemma flight_id_other code p : code <> proposal_code p -> flight_id code p = None.
Proof. destruct p; try done. cbn. intros Hne. by rewrite decide_False. Qed.

(** A message in flight is new to the queue, as every id is at one place. *)
Lemma flight_ready s i p :
  sys_ok s -> sys_flight s !! i = Some p -> apply_ready p s -> is_Some (proposal_call p) ->
  proposal_ready p (sys_data s) (context_new (sys_world s)).
Proof.
  intros Hok Hp Hready [c Hc]. unfold proposal_ready. destruct p as [d| | | | | |]; try done.
  all: cbn [proposal_call proposal_code]; destruct (nd_topics (sys_data s) !! _) as [t|] eqn:Ht; try done.
  destruct (Hready t Ht) as (Hk & Htime & Hsize). split; [done|]. split; [|done|done|by apply (ok_data s Hok _ _ Ht)].
  destruct (ok_loaded s Hok (delegate_topic d)) as [topic Htopic]; [by rewrite Ht|].
  pose proof (ok_pending s Hok _ _ Htopic) as Hnd. apply NoDup_app in Hnd as (_ & Hnd & _).
  intros Hin. apply (Hnd (msg_id (delegate_message d))).
  - apply list_elem_of_omap. exists (PDelegateMessage d). split; [by eapply list_elem_of_lookup_2|].
    cbn. by rewrite decide_True.
  - apply elem_of_app. left. unfold held_ids, held_in. by rewrite Ht.
Qed.

(** Who is answered by the tasks a call spawns. *)
Lemma commit_answers (ctx ctx1 ctx2 : ProposalContext) answers new :
  commit_durable_commands ctx1 = Done ctx2 -> is_Some (ctx_topic_code ctx1) -> acks_of ctx1 = acks_of ctx ++ answers ->
  spawned (runtime (ctx_world ctx2)) = spawned (runtime (ctx_world ctx)) ++ new -> omap task_ack new = answers.
Proof.
  intros Hcommit [code Hcode] Hans Hnew. destruct (commit_done ctx1 code Hcode) as (ctx' & Hr & _ & Ha & _).
  assert (ctx' = ctx2) as -> by congruence. rewrite Hans in Ha. unfold acks_of at 1 in Ha.
  rewrite Hnew, omap_app in Ha. by apply app_inv_head in Ha.
Qed.

(** What applying a call does to a node: tasks are spawned on the topic's handle,
    and each of its messages is where it may be, or on its way out. *)
Definition applied s p (nd : NodeData) (ctx : ProposalContext) (new : list Task) : Prop :=
  node_wf nd /\
  (forall code, is_Some (nd_topics nd !! code) <-> is_Some (nd_topics (sys_data s) !! code)) /\
  topics (node (ctx_world ctx)) = topics (node (sys_world s)) /\
  topic_heap (runtime (ctx_world ctx)) = topic_heap (runtime (sys_world s)) /\
  oneshots (runtime (ctx_world ctx)) = oneshots (runtime (sys_world s)) /\
  next_loc (runtime (ctx_world ctx)) = next_loc (runtime (sys_world s)) /\
  spawned (runtime (ctx_world ctx)) = spawned (runtime (sys_world s)) ++ new /\
  (forall code topic, get_topic code (sys_world s) = Some topic ->
     option_list (flight_id code p) ++ held_in code (sys_data s) ≡ₚ
       held_in code nd ++ omap (resolving_id topic) new).

Lemma apply_loaded s p c t :
  sys_ok s -> proposal_call p = Some c -> nd_topics (sys_data s) !! proposal_code p = Some t ->
  proposal_ready p (sys_data s) (context_new (sys_world s)) ->
  exists nd ctx new,
    apply_proposal p (sys_data s) (context_new (sys_world s)) = Done (nd, ctx) /\ applied s p nd ctx new.
Proof.
  intros Hok Hc Ht Hpr.
  pose proof (apply_call_spec p c (sys_data s) (context_new (sys_world s)) Hc (ok_data s Hok) Hpr) as Hspec.
  destruct (apply_proposal_ok p (sys_data s) (context_new (sys_world s)) (ok_data s Hok) Hpr) as (nd & ctx & Happ & Hwf & _).
  rewrite Ht in Hspec. destruct Hspec as (t' & ctx1 & ctx' & _ & (_ & _ & Hext1 & Hcons) & Hcommit & Happ').
  rewrite Happ in Happ'. injection Happ' as -> <-.
  assert (ctx_extends (set_topic_code (proposal_code p) (context_new (sys_world s))) ctx) as Hext
    by (etrans; [done|by apply extends_commit]).
  destruct (ok_loaded s Hok (proposal_code p)) as [topic Htopic]; [by rewrite Ht|].
  destruct Hext as [_ _ Htop Hheap Hone Hnext (new & Hnew & Hon) _ _].
  assert (ctx_topic (set_topic_code (proposal_code p) (context_new (sys_world s))) = Some topic) as Hct by done.
  rewrite Hct in Hon. destruct (Hcons ltac:(by rewrite Hct)) as (answers & Hans & Hperm).
  apply (commit_answers _ _ _ _ new Hcommit) in Hans; [|by rewrite (ext_code _ _ Hext1)|done].
  eexists _, ctx, new. split; [exact Happ|]. split_and!; try done.
  - intros code. cbn [nd_topics]. rewrite lookup_insert. case_decide; [subst; rewrite Ht; naive_solver|done].
  - intros code topic' Hcode. unfold held_in. cbn [nd_topics]. destruct (decide (code = proposal_code p)) as [->|Hne].
    + assert (topic' = topic) as -> by congruence. rewrite lookup_insert_eq, Ht.
      rewrite resolving_on, Hans, <-(call_flight_id p c), Hperm by done. apply Permutation_app_comm.
    + rewrite flight_id_other by done. rewrite lookup_insert_ne by done.
      rewrite (resolving_off topic' (Some topic)); [by rewrite app_nil_r|done|].
      intros [= ->]. apply Hne. by eapply handle_inj.
Qed.

(** A call on a topic that is not loaded does nothing. *)
Lemma apply_unloaded s p c :
  sys_ok s -> proposal_call p = Some c -> nd_topics (sys_data s) !! proposal_code p = None ->
  proposal_ready p (sys_data s) (context_new (sys_world s)) ->
  exists nd ctx new,
    apply_proposal p (sys_data s) (context_new (sys_world s)) = Done (nd, ctx) /\ applied s p nd ctx new.
Proof.
  intros Hok Hc Ht Hpr.
  pose proof (apply_call_spec p c (sys_data s) (context_new (sys_world s)) Hc (ok_data s Hok) Hpr) as Hspec.
  rewrite Ht in Hspec. destruct Hspec as (ctx & Happ & _ & _ & _ & Hext).
  assert (get_topic (proposal_code p) (sys_world s) = None) as Hnone.
  { destruct (get_topic (proposal_code p) (sys_world s)) as [topic|] eqn:E; [|done].
    destruct (ok_handle s Hok _ _ E) as (inner & t & _ & _ & Ht'). congruence. }
  assert (forall code topic, get_topic code (sys_world s) = Some topic -> flight_id code p = None) as Hfl.
  { intros code topic Hcode. apply flight_id_other. congruence. }
  destruct Hext as [-> |[_ _ Htop Hheap Hone Hnext (new & Hnew & Hon) _ _]].
  - exists (sys_data s), (context_new (sys_world s)), []. split; [done|]. split_and!; try done; [apply Hok|..].
    + by rewrite app_nil_r.
    + intros code topic Hcode. by rewrite (Hfl code topic), app_nil_r.
  - exists (sys_data s), ctx, new. split; [done|]. split_and!; try done; [apply Hok|].
    intros code topic Hcode. rewrite (Hfl code topic) by done.
    rewrite (resolving_off topic (ctx_topic (set_topic_code (proposal_code p) (context_new (sys_world s)))));
      [by rewrite app_nil_r|done|].
    unfold ctx_topic. cbn. by rewrite Hnone.
Qed.

Lemma apply_flight s i p :
  sys_ok s -> sys_flight s !! i = Some p -> apply_ready p s ->
  exists nd ctx new,
    apply_proposal p (sys_data s) (context_new (sys_world s)) = Done (nd, ctx) /\ applied s p nd ctx new.
Proof.
  intros Hok Hp Hready.
  assert (is_Some (proposal_call p)) as Hc.
  { pose proof (ok_calls s Hok) as Hcalls. rewrite Forall_forall in Hcalls. by eapply Hcalls, list_elem_of_lookup_2. }
  pose proof (flight_ready s i p Hok Hp Hready Hc) as Hpr. destruct Hc as [c Hc].
  destruct (nd_topics (sys_data s) !! proposal_code p) as [t|] eqn:Ht; [by eapply apply_loaded|by eapply apply_unloaded].
Qed.

(** ** Each step keeps the invariant *)

(** A caller is where it was when nothing of it has changed. *)
Lemma sender_keep s s' x :
  sender_ok s x ->
  topics (node (sys_world s')) = topics (node (sys_world s)) ->
  next_loc (runtime (sys_world s)) <= next_loc (runtime (sys_world s')) ->
  oneshots (runtime (sys_world s')) !! sender_channel x = oneshots (runtime (sys_world s)) !! sender_channel x ->
  (forall topic, get_topic (sender_topic x) (sys_world s) = Some topic ->
     (pool_of topic (sys_world s) !! sender_id x = Some (sender_channel x) ->
      pool_of topic (sys_world s') !! sender_id x = Some (sender_channel x)) /\
     (sender_id x ∈ pending_ids (sender_topic x) topic s -> sender_id x ∈ pending_ids (sender_topic x) topic s')) ->
  (forall y, y ∈ sys_decided s -> y ∈ sys_decided s') ->
  sender_ok s' x.
Proof.
  intros (topic & Htopic & Hlt & Hx) Htop Hnext Hone Hkeep Hdec. exists topic. unfold get_topic in *. rewrite Htop.
  split; [done|]. split; [lia|]. destruct (Hkeep topic Htopic) as [Hpool Hpend]. rewrite Hone.
  destruct Hx as [(r & Hr & Hd)|(Hr & Hp & Hi)]; [left; eauto|right; auto].
Qed.

(** The rest of the node may change what nobody waits for. *)
Definition with_world (w : World) s : System := set_sys_tasks (set_task_world w (sys_tasks s)) s.

Lemma same_pool w w' topic : same_waiting w w' -> pool_of topic w' = pool_of topic w.
Proof.
  intros [_ Hheap _ _ _]. unfold pool_of. specialize (Hheap topic).
  destruct (topic_heap (runtime w') !! topic), (topic_heap (runtime w) !! topic); naive_solver.
Qed.

Lemma sys_ok_same s tasks : sys_ok s -> same_waiting (sys_world s) (task_world tasks) -> sys_ok (set_sys_tasks tasks s).
Proof.
  intros Hok Hs. pose proof (fun topic => same_pool _ _ topic Hs) as Hpool. destruct Hs as [Htop Hheap Hone Hnext Hsp].
  assert (forall l i', topic_heap (runtime (task_world tasks)) !! l = Some i' ->
    exists i, topic_heap (runtime (sys_world s)) !! l = Some i /\ inner_code i' = inner_code i /\
      ack_waiting_pool i' = ack_waiting_pool i) as Hback.
  { intros l i' Hl. specialize (Hheap l). rewrite Hl in Hheap.
    destruct (topic_heap (runtime (sys_world s)) !! l) as [i|]; [|done]. exists i. cbn in Hheap. naive_solver. }
  assert (forall code topic, pending_ids code topic (set_sys_tasks tasks s) = pending_ids code topic s) as Hpend.
  { intros code topic. unfold pending_ids, resolving_ids.
    change (sys_world (set_sys_tasks tasks s)) with (task_world tasks). by rewrite Hsp. }
  assert (sys_world (set_sys_tasks tasks s) = task_world tasks) as Hw by done.
  destruct Hok as [Hd Hh Hl Hc [Hp1 Hp2] Hn Hdec Hx].
  split; rewrite ?Hw; unfold get_topic; rewrite ?Htop; try done.
  - intros code topic (i & t & Hi & Hcode & Ht)%Hh. specialize (Hheap topic). rewrite Hi in Hheap.
    destruct (topic_heap (runtime (task_world tasks)) !! topic) as [i'|]; [|done]. exists i', t. cbn in Hheap. naive_solver.
  - split.
    + rewrite Hnext. intros t inner i c (inner0 & Ht & _ & ->)%Hback Hi. by eapply Hp1.
    + intros t1 t2 i1 i2 id1 id2 c (j1 & Ht1 & _ & ->)%Hback (j2 & Ht2 & _ & ->)%Hback. by eapply Hp2.
  - intros code topic Ht. rewrite Hpend. by apply Hn.
  - by rewrite Hsp.
  - intros x Hin. apply (sender_keep s); rewrite ?Hw, ?Hnext, ?Hone; try done; [by apply Hx|].
    intros topic _. by rewrite Hpend, Hpool.
Qed.

(** A proposal joins those in flight. *)
Lemma sys_ok_propose s p :
  sys_ok s -> is_Some (proposal_call p) ->
  (forall code topic, get_topic code (sys_world s) = Some topic ->
     forall id, flight_id code p = Some id -> id ∉ pending_ids code topic s) ->
  sys_ok (sys_propose p s).
Proof.
  intros Hok Hp Hfresh. destruct Hok as [Hd Hh Hl Hc Hpools Hn Hdec Hx].
  assert (forall code topic, pending_ids code topic (sys_propose p s) ≡ₚ
    option_list (flight_id code p) ++ pending_ids code topic s) as Hpend.
  { intros code topic. unfold pending_ids, flight_ids. cbn [sys_propose sys_flight]. rewrite omap_app. cbn.
    destruct (flight_id code p); cbn; [solve_Permutation|by rewrite app_nil_r]. }
  split; try done; cbn [sys_propose sys_flight sys_senders].
  - apply Forall_app. by rewrite Forall_singleton.
  - intros code topic Ht. rewrite Hpend. destruct (flight_id code p) as [id|] eqn:Hid; cbn; [|by apply Hn].
    apply NoDup_cons. split; [by apply Hfresh|by apply Hn].
  - intros x Hin. apply (sender_keep s); [by apply Hx|done|done|done| |done].
    intros topic _. rewrite Hpend, elem_of_app. tauto.
Qed.

(** A caller registers and proposes its message. *)
Lemma sys_ok_send s code topic m :
  sys_ok s -> get_topic code (sys_world s) = Some topic -> fresh_id code topic (msg_id m) s ->
  sys_ok (sys_send code topic m s).
Proof.
  intros Hok Htopic [Hfresh Hpool]. destruct (ok_handle s Hok _ _ Htopic) as (inner & t & Hinner & Hcode & Ht).
  rewrite (elem_of_pool _ _ _ Hinner) in Hpool. set (c := next_loc (runtime (sys_world s))).
  assert (sys_world (sys_send code topic m s) = mkWorld (node (sys_world s)) (mkRuntime
     (<[topic := mkTopicInner (inner_code inner) (<[msg_id m := c]> (ack_waiting_pool inner)) (local_endpoints inner)]>
        (topic_heap (runtime (sys_world s)))) (<[c := OneshotWaiting]> (oneshots (runtime (sys_world s)))) (S c)
     (spawned (runtime (sys_world s))) (clock_reads (runtime (sys_world s))))) as Hw.
  { change (sys_world (sys_send code topic m s)) with (wait_ack_handle topic (msg_id m) (sys_world s)).
    unfold wait_ack_handle. by rewrite Hinner, Hpool. }
  set (s' := sys_send code topic m s) in *. set (d := mkDelegateMessage code m).
  assert (sys_flight s' = sys_flight s ++ [PDelegateMessage d]) as Hfl by done.
  assert (forall code' topic', pending_ids code' topic' s' ≡ₚ
    option_list (flight_id code' (PDelegateMessage d)) ++ pending_ids code' topic' s) as Hpend.
  { intros code' topic'. unfold pending_ids, flight_ids, resolving_ids, held_ids. rewrite Hfl, Hw, omap_app. cbn.
    case_decide; cbn; [solve_Permutation|by rewrite app_nil_r]. }
  assert (pool_of topic (sys_world s') = <[msg_id m := c]> (ack_waiting_pool inner)) as Hpool'.
  { unfold pool_of. rewrite Hw. cbn. by rewrite lookup_insert_eq. }
  pose proof Hok as [Hd Hh Hl Hc [Hp1 Hp2] Hn Hdec Hx].
  split; unfold get_topic; rewrite ?Hw; cbn [node runtime topic_heap oneshots next_loc spawned]; try done.
  - intros code' topic' Ht'. destruct (Hh _ _ Ht') as (i & t' & Hi & Hcode' & Hd').
    destruct (decide (topic' = topic)) as [->|Hne].
    + assert (i = inner) as -> by congruence. rewrite lookup_insert_eq. by eexists _, t'.
    + rewrite lookup_insert_ne by done. by exists i, t'.
  - rewrite Hfl. apply Forall_app. split; [done|]. apply Forall_singleton. by eexists.
  - split; unfold pools_ok; cbn [runtime topic_heap next_loc].
    + intros l i id c' Hl' Hi. apply lookup_insert_Some in Hl' as [[<- <-]|[_ Hl']].
      * cbn in Hi. apply lookup_insert_Some in Hi as [[_ <-]|[_ Hi]]; [lia|].
        pose proof (Hp1 _ _ _ _ Hinner Hi). fold c. lia.
      * pose proof (Hp1 _ _ _ _ Hl' Hi). fold c. lia.
    + intros l1 l2 i1 i2 id1 id2 c' Hl1 Hl2 Hi1 Hi2.
      assert (forall l i id, <[topic := mkTopicInner (inner_code inner) (<[msg_id m := c]> (ack_waiting_pool inner))
                (local_endpoints inner)]> (topic_heap (runtime (sys_world s))) !! l = Some i ->
              ack_waiting_pool i !! id = Some c' ->
              (l = topic /\ id = msg_id m /\ c' = c) \/
              (c' < c /\ exists i0, topic_heap (runtime (sys_world s)) !! l = Some i0 /\ ack_waiting_pool i0 !! id = Some c'))
        as Hcase.
      { intros l i id Hli Hci. apply lookup_insert_Some in Hli as [[<- <-]|[_ Hli]]; cbn in Hci.
        - apply lookup_insert_Some in Hci as [[<- <-]|[_ Hci]]; [by left|right]. split; [by eapply Hp1|eauto].
        - right. split; [by eapply Hp1|eauto]. }
      destruct (Hcase _ _ _ Hl1 Hi1) as [(-> & -> & ->)|(? & j1 & ? & ?)],
        (Hcase _ _ _ Hl2 Hi2) as [(-> & -> & E)|(? & j2 & ? & ?)]; try done; try lia. by eapply Hp2.
  - intros code' topic' Ht'. rewrite Hpend. cbn. case_decide as Hcd; cbn; [|by apply Hn].
    cbn in Hcd. subst code'. assert (topic' = topic) as -> by (unfold get_topic in Htopic; congruence).
    apply NoDup_cons. split; [done|by apply Hn].
  - intros x [Hin|Hin%list_elem_of_singleton]%elem_of_app.
    + destruct (Hx x Hin) as (topic' & Ht' & Hlt & Hcase). fold c in Hlt.
      apply (sender_keep s); [by apply Hx|by rewrite Hw|rewrite Hw; cbn; lia| | |done].
      * rewrite Hw. cbn. rewrite lookup_insert_ne by lia. done.
      * intros topic2 Ht2. split; [|intros Hi; rewrite Hpend, elem_of_app; by right]. intros Hp.
        destruct (decide (topic2 = topic)) as [->|Hne].
        -- rewrite Hpool'. rewrite (elem_of_pool _ _ _ Hinner) in Hp.
           rewrite lookup_insert_ne; [done|]. intros E. by rewrite <-E, Hpool in Hp.
        -- unfold pool_of in *. rewrite Hw. cbn. by rewrite lookup_insert_ne.
    + subst x. exists topic. cbn [sender_topic sender_id sender_channel]. fold c. split; [by rewrite Hw|].
      split; [rewrite Hw; cbn; lia|]. right. split; [rewrite Hw; cbn; by rewrite lookup_insert_eq|].
      split; [by rewrite Hpool', lookup_insert_eq|]. rewrite Hpend, elem_of_app. left. cbn.
      rewrite decide_True by done. by left.
Qed.

(** A proposal leaves the flight. *)
Lemma flight_ids_delete code s i p :
  sys_flight s !! i = Some p ->
  flight_ids code s ≡ₚ option_list (flight_id code p) ++ omap (flight_id code) (delete i (sys_flight s)).
Proof. apply omap_delete. Qed.

(** Applying a proposal moves its message, and those it settles, to their next place. *)
Lemma sys_apply_ok s i p :
  sys_ok s -> sys_flight s !! i = Some p -> apply_ready p s -> exists s', sys_apply i s = Done s' /\ sys_ok s'.
Proof.
  intros Hok Hp Hready.
  destruct (apply_flight s i p Hok Hp Hready) as (nd & ctx & new & Happ & Hwf & Hdom & Htop & Hheap & Hone & Hnext & Hnew & Hperm).
  unfold sys_apply. rewrite Hp, Happ. cbn [mbind Outcome_bind]. eexists. split; [reflexivity|].
  rewrite Hnew, drop_app_length. set (s' := mkSystem _ _ _ _ _).
  assert (sys_world s' = ctx_world ctx) as Hw by done.
  assert (forall code topic, get_topic code (sys_world s) = Some topic ->
    pending_ids code topic s ≡ₚ pending_ids code topic s') as Hpend.
  { intros code topic Ht. unfold pending_ids, resolving_ids, held_ids. rewrite (flight_ids_delete _ _ _ _ Hp), Hw, Hnew, omap_app.
    change (flight_ids code s') with (omap (flight_id code) (delete i (sys_flight s))).
    change (sys_data s') with nd. specialize (Hperm code topic Ht).
    set (F := option_list _) in *. set (R := omap (flight_id code) _). set (Rs := omap (resolving_id topic) (spawned _)).
    trans (R ++ (F ++ held_in code (sys_data s)) ++ Rs); [solve_Permutation|]. rewrite Hperm. solve_Permutation. }
  pose proof Hok as [Hd Hh Hl Hc [Hp1 Hp2] Hn Hdec Hx]. split; rewrite ?Hw; unfold get_topic; rewrite ?Htop.
  - done.
  - intros code topic (inner & t & Hi & Hcode & Ht)%Hh. destruct (proj2 (Hdom code) ltac:(eauto)) as [t' Ht'].
    rewrite Hheap. by exists inner, t'.
  - intros code Ht. apply Hl. by apply Hdom.
  - change (sys_flight s') with (delete i (sys_flight s)). rewrite (delete_Permutation _ _ _ Hp) in Hc. by apply Forall_cons in Hc as [_ ?].
  - split; rewrite Hheap, ?Hnext; done.
  - intros code topic Ht. rewrite <-Hpend by done. by apply Hn.
  - rewrite Hnew. intros topic id r [Hin|Hin]%elem_of_app; apply elem_of_app; [left; by apply Hdec|right].
    apply list_elem_of_omap. by eexists.
  - intros x Hin. apply (sender_keep s); rewrite ?Hw, ?Hnext, ?Hone; try done; [by apply Hx| |].
    + intros topic Ht. split; [unfold pool_of; by rewrite Hheap|]. by rewrite (Hpend _ _ Ht).
    + intros y Hy. apply elem_of_app. by left.
Qed.

Lemma delete_sub {A} i (l : list A) x : x ∈ delete i l -> x ∈ l.
Proof. rewrite !list_elem_of_lookup. intros [j Hj]. rewrite list_lookup_delete in Hj. case_decide; eauto. Qed.

(** Callers that go leave the others as they are. *)
Lemma sys_ok_leave s senders :
  sys_ok s -> (forall x, x ∈ senders -> x ∈ sys_senders s) ->
  sys_ok (mkSystem (sys_tasks s) (sys_data s) (sys_flight s) senders (sys_decided s)).
Proof. intros [Hd Hh Hl Hc Hpools Hn Hdec Hx] Hsub. split; try done. intros x Hin. apply Hx, Hsub, Hin. Qed.

Lemma sys_ok_refuse s i : sys_ok s -> sys_ok (sys_refuse i s).
Proof.
  intros Hok. unfold sys_refuse. destruct (sys_flight s !! i) as [p|] eqn:Hp; [|done]. set (s' := mkSystem _ _ _ _ _).
  assert (forall code topic, pending_ids code topic s ≡ₚ option_list (flight_id code p) ++ pending_ids code topic s') as Hpend.
  { intros code topic. unfold pending_ids. rewrite (flight_ids_delete _ _ _ _ Hp). by rewrite <-app_assoc. }
  destruct Hok as [Hd Hh Hl Hc Hpools Hn Hdec Hx]. split; try done.
  - rewrite (delete_Permutation _ _ _ Hp) in Hc. by apply Forall_cons in Hc as [_ ?].
  - intros code topic Ht. specialize (Hn code topic Ht). rewrite Hpend in Hn. by apply NoDup_app in Hn as (_ & _ & ?).
  - intros x [Hb Hin]%list_elem_of_filter. apply (sender_keep s); try done; [by apply Hx|].
    intros topic Ht. split; [done|]. rewrite Hpend, elem_of_app. intros [Hid|?]; [exfalso|done].
    destruct p as [d| | | | | |]; try (by apply not_elem_of_nil in Hid). cbn in Hid. case_decide as Hcode; [|by apply not_elem_of_nil in Hid].
    apply list_elem_of_singleton in Hid. cbn in Hb. apply bool_decide_eq_false in Hb. by apply Hb.
Qed.

(** A task that answers nobody goes. *)
Definition without_task (i : nat) s : System :=
  with_world (set_spawned (delete i (spawned (runtime (sys_world s)))) (sys_world s)) s.

Lemma without_task_pending s i t code topic :
  spawned (runtime (sys_world s)) !! i = Some t ->
  pending_ids code topic s ≡ₚ option_list (resolving_id topic t) ++ pending_ids code topic (without_task i s).
Proof.
  intros Ht. unfold pending_ids, resolving_ids. rewrite (omap_delete _ _ _ _ Ht).
  change (flight_ids code (without_task i s)) with (flight_ids code s).
  change (held_ids code (without_task i s)) with (held_ids code s). cbn. solve_Permutation.
Qed.

Lemma sys_ok_without s i t :
  sys_ok s -> spawned (runtime (sys_world s)) !! i = Some t -> task_answer t = None -> sys_ok (without_task i s).
Proof.
  intros Hok Ht Hno.
  assert (forall code topic, pending_ids code topic s ≡ₚ pending_ids code topic (without_task i s)) as Hpend.
  { intros code topic. rewrite (without_task_pending _ _ _ _ _ Ht). by destruct t. }
  destruct Hok as [Hd Hh Hl Hc Hpools Hn Hdec Hx]. split; try done.
  - intros code topic Htop. rewrite <-Hpend. by apply Hn.
  - intros topic id r Hin. apply Hdec. apply (delete_sub i), Hin.
  - intros x Hin. apply (sender_keep s); try done; [by apply Hx|]. intros topic _. split; [done|]. by rewrite Hpend.
Qed.

(** A task's answer: the caller whose channel the pool holds is answered, and the
    message is nowhere any more. *)
Lemma resolve_pending s i topic id r code topic' id' :
  spawned (runtime (sys_world s)) !! i = Some (TaskResolveAck topic id r) -> (topic', id') <> (topic, id) ->
  id' ∈ pending_ids code topic' s -> id' ∈ pending_ids code topic' (without_task i s).
Proof.
  intros Ht Hne. rewrite (without_task_pending _ _ _ _ _ Ht), elem_of_app. intros [Hin|Hin]; [exfalso|done].
  cbn in Hin. case_decide; [|by apply not_elem_of_nil in Hin]. apply list_elem_of_singleton in Hin. congruence.
Qed.

Lemma sys_ok_resolve_nobody s i topic id r :
  sys_ok s -> spawned (runtime (sys_world s)) !! i = Some (TaskResolveAck topic id r) ->
  pool_of topic (sys_world s) !! id = None -> sys_ok (without_task i s).
Proof.
  intros Hok Ht Hnone. pose proof (fun code topic => without_task_pending s i _ code topic Ht) as Hpend.
  pose proof Hok as [Hd Hh Hl Hc Hpools Hn Hdec Hx]. split; try done.
  - intros code topic' Htop. specialize (Hn code topic' Htop). rewrite Hpend in Hn. by apply NoDup_app in Hn as (_ & _ & ?).
  - intros topic' id' r' Hin. apply Hdec. apply (delete_sub i), Hin.
  - intros x Hin. destruct (Hx x Hin) as (topic' & Htop' & Hlt & Hcase). exists topic'. split; [done|]. split; [done|].
    destruct Hcase as [?|(Hw & Hp & Hi)]; [by left|right]. split; [done|]. split; [done|].
    eapply resolve_pending; [done| |done]. intros [= -> E]. by rewrite E, Hnone in Hp.
Qed.

Lemma sys_ok_resolve s i topic id r :
  sys_ok s -> spawned (runtime (sys_world s)) !! i = Some (TaskResolveAck topic id r) ->
  sys_ok (with_world (run_resolve_ack topic id r (sys_world (without_task i s))) (without_task i s)).
Proof.
  intros Hok Ht. unfold run_resolve_ack. change (topic_heap (runtime (sys_world (without_task i s)))) with
    (topic_heap (runtime (sys_world s))).
  destruct (topic_heap (runtime (sys_world s)) !! topic) as [inner|] eqn:Hinner.
  2: { eapply (sys_ok_resolve_nobody s i topic id r); [done..|]. unfold pool_of. by rewrite Hinner. }
  destruct (ack_waiting_pool inner !! id) as [tx|] eqn:Htx.
  2: { eapply (sys_ok_resolve_nobody s i topic id r); [done..|]. by rewrite (elem_of_pool _ _ _ Hinner). }
  set (w' := oneshot_send tx r _). set (s' := with_world w' (without_task i s)).
  set (inner' := mkTopicInner (inner_code inner) (delete id (ack_waiting_pool inner)) (local_endpoints inner)) in *.
  assert (node w' = node (sys_world s) /\ topic_heap (runtime w') = <[topic := inner']> (topic_heap (runtime (sys_world s))) /\
    next_loc (runtime w') = next_loc (runtime (sys_world s)) /\
    spawned (runtime w') = delete i (spawned (runtime (sys_world s))) /\
    (forall c, c <> tx -> oneshots (runtime w') !! c = oneshots (runtime (sys_world s)) !! c) /\
    (oneshots (runtime (sys_world s)) !! tx = Some OneshotWaiting -> oneshots (runtime w') !! tx = Some (OneshotSent r)) /\
    (forall r', oneshots (runtime (sys_world s)) !! tx = Some (OneshotSent r') ->
       oneshots (runtime w') !! tx = Some (OneshotSent r')))
    as (Hnode & Hheap & Hnext & Hsp & Hone & Hwait & Hsent).
  { unfold w', oneshot_send. cbn [runtime oneshots set_topic_heap]. change (oneshots (runtime (sys_world (without_task i s)))) with
      (oneshots (runtime (sys_world s))). destruct (oneshots (runtime (sys_world s)) !! tx) as [[| |]|] eqn:Ho; split_and!; try done.
    - intros c Hne. cbn. by rewrite lookup_insert_ne.
    - intros _. cbn. by rewrite lookup_insert_eq.
    - intros r1 <-. exact Ho. }
  clearbody w'. assert (sys_world s' = w') as Hw by done.
  pose proof Hok as [Hd Hh Hl Hc [Hp1 Hp2] Hn Hdec Hx]. split; rewrite ?Hw; unfold get_topic; rewrite ?Hnode; try done.
  - intros code topic' (j & t & Hj & Hcode & Hdt)%Hh. rewrite Hheap. destruct (decide (topic' = topic)) as [->|Hne].
    + rewrite lookup_insert_eq. exists inner', t. naive_solver.
    + rewrite lookup_insert_ne by done. by exists j, t.
  - assert (forall l j k c, topic_heap (runtime w') !! l = Some j -> ack_waiting_pool j !! k = Some c ->
      exists j0, topic_heap (runtime (sys_world s)) !! l = Some j0 /\ ack_waiting_pool j0 !! k = Some c) as Hback.
    { intros l j k c Hlj Hk. rewrite Hheap in Hlj. apply lookup_insert_Some in Hlj as [[<- <-]|[_ Hlj]]; [|eauto].
      exists inner. split; [done|]. cbn in Hk. by apply lookup_delete_Some in Hk as [_ ?]. }
    split.
    + intros l j k c Hlj Hk. rewrite Hnext. destruct (Hback _ _ _ _ Hlj Hk) as (j0 & ? & ?). by eapply Hp1.
    + intros l1 l2 j1 j2 k1 k2 c Hl1 Hl2 Hk1 Hk2. destruct (Hback _ _ _ _ Hl1 Hk1) as (? & ? & ?).
      destruct (Hback _ _ _ _ Hl2 Hk2) as (? & ? & ?). by eapply Hp2.
  - intros code topic' Htop. specialize (Hn code topic' Htop). rewrite (without_task_pending _ _ _ _ _ Ht) in Hn.
    apply NoDup_app in Hn as (_ & _ & Hn). unfold pending_ids, resolving_ids in *. rewrite Hw, Hsp. exact Hn.
  - rewrite Hsp. intros topic' id' r' Hin. apply Hdec. apply (delete_sub i), Hin.
  - intros x Hin. destruct (Hx x Hin) as (topic' & Htop' & Hlt & Hcase). exists topic'. rewrite Hw. unfold get_topic.
    rewrite Hnode, Hnext. split; [done|]. split; [done|].
    destruct Hcase as [(r' & Hr' & Hd')|(Hwx & Hp & Hi)].
    { left. exists r'. split; [|done]. destruct (decide (sender_channel x = tx)) as [E|Hne]; [|by rewrite Hone].
      rewrite E in *. by apply Hsent. }
    assert (exists j, topic_heap (runtime (sys_world s)) !! topic' = Some j /\ ack_waiting_pool j !! sender_id x = Some (sender_channel x))
      as (j & Hj & Hjx).
    { unfold pool_of in Hp. destruct (topic_heap (runtime (sys_world s)) !! topic'); [eauto|by rewrite lookup_empty in Hp]. }
    destruct (decide (sender_channel x = tx)) as [E|Hne].
    { rewrite E in *. destruct (Hp2 _ _ _ _ _ _ _ Hj Hinner Hjx Htx) as [-> ->]. left. exists r. split; [by apply Hwait|].
      apply Hdec. by eapply list_elem_of_lookup_2. }
    right. rewrite Hone by done. split; [done|]. split.
    + unfold pool_of. rewrite Hheap. destruct (decide (topic' = topic)) as [->|Hnt].
      * rewrite lookup_insert_eq. cbn. rewrite lookup_delete_ne by congruence. congruence.
      * rewrite lookup_insert_ne by done. by rewrite Hj.
    + assert (sender_id x ∈ pending_ids (sender_topic x) topic' (without_task i s)) as Hi'
        by (eapply resolve_pending; [done|congruence|done]).
      unfold pending_ids, resolving_ids in *. rewrite Hw, Hsp. exact Hi'.
Qed.

(** Dispatching changes mailboxes and connections, not what callers wait for. *)
Lemma run_dispatch_world raft timestamp executor_digest topic code m ep (s : TaskState) :
  (forall p n, edge_world (snd (raft p n)) = edge_world n) ->
  task_world (fst (run_dispatch raft timestamp executor_digest topic code m ep s)) = task_world s.
Proof.
  intros Hraft. unfold run_dispatch.
  assert (task_world (snd (topic_dispatch_message timestamp executor_digest topic m ep s)) = task_world s) as Hd.
  { unfold topic_dispatch_message, edge_push_message, encode_packet, send_packet.
    repeat (case_match; simplify_eq; try done). }
  destruct (topic_dispatch_message timestamp executor_digest topic m ep s) as [o s1]. cbn [snd] in Hd.
  unfold task_world in *. cbn. by rewrite Hraft.
Qed.

Lemma sys_ok_run s timestamp executor_digest is_leader i :
  sys_ok s -> sys_ok (sys_run timestamp executor_digest is_leader i s).
Proof.
  intros Hok. unfold sys_run. destruct (spawned (runtime (sys_world s)) !! i) as [t|] eqn:Ht; [|done].
  change (set_task_world _ (sys_tasks s)) with (sys_tasks (without_task i s)).
  destruct t as [topic id r|topic code m ep|code]; cbn [run_task].
  - rewrite app_nil_r. apply (sys_ok_resolve s i topic id r Hok Ht).
  - pose proof (run_dispatch_world logged timestamp executor_digest topic code m ep (sys_tasks (without_task i s))
      ltac:(done)) as Hw.
    unfold run_dispatch in *. destruct (topic_dispatch_message _ _ _ _ _ _) as [o tasks0]. cbn [fst] in Hw.
    set (tasks := set_task_node _ tasks0) in *. apply (sys_ok_propose (set_sys_tasks tasks (without_task i s))); [|by eexists|by intros code' topic' _ id].
    apply sys_ok_same; [by eapply sys_ok_without|]. unfold sys_world. rewrite <-Hw. by split.
  - rewrite app_nil_r. apply (sys_ok_same (without_task i s)); [by eapply sys_ok_without|]. by split.
Qed.

Lemma sys_step_ok s s' : sys_ok s -> sys_step s s' -> sys_ok s'.
Proof.
  intros Hok. destruct 1 as [code topic m Ht Hf|p Hp Hf|i p s' Hp Hr Ha|i|j|timestamp digest is_leader i|tasks Hs].
  - by eapply sys_ok_send.
  - apply sys_ok_propose; [done..|]. intros code topic Ht id Hid. destruct p as [d| | | | | |]; try done.
    cbn in Hid. case_decide; simplify_eq. by eapply Hf.
  - destruct (sys_apply_ok s i p Hok Hp Hr) as (s1 & Ha' & Hok'). congruence.
  - by apply sys_ok_refuse.
  - apply (sys_ok_leave s); [done|]. intros x. apply delete_sub.
  - by apply sys_ok_run.
  - by apply sys_ok_same.
Qed.

Lemma sys_steps_ok s s' : sys_ok s -> rtc sys_step s s' -> sys_ok s'.
Proof. intros Hok Hs. induction Hs as [|s s1 s' Hstep _ IH]; [done|]. by eapply IH, sys_step_ok. Qed.

End Facts.

(** ** Properties *)

Section SystemProperties.
Context `{HashOrder, Clock, Hash64}.

(** C3: No caller is forgotten.  Whatever the interleaving of callers, proposals,
    commits, refusals and tasks, and whatever the rest of the node does, a caller of
    [send_message] that waits on its handle is either answered, and then with an
    outcome the state machine decided for its message, or its handle is pending and
    its message is at exactly one place from which it moves on: in a proposal Raft
    has not settled, in its topic's queue, or in a spawned task that will answer.
    Its handle never reports a message that was dropped. *)
Theorem no_sender_forgotten (s s' : System) (x : Sender)
    (Hok : sys_ok s) (Hrun : rtc sys_step s s') (Hx : x ∈ sys_senders s') :
  exists topic, get_topic (sender_topic x) (sys_world s') = Some topic /\
    ((exists r, poll_handle (sender_channel x) (sys_world s') = Ready r /\ (topic, sender_id x, r) ∈ sys_decided s') \/
     (poll_handle (sender_channel x) (sys_world s') = Pending /\
      sender_id x ∈ pending_ids (sender_topic x) topic s' /\ NoDup (pending_ids (sender_topic x) topic s'))).
Proof.
  apply (sys_steps_ok s s' Hok) in Hrun as Hok'.
  destruct (ok_senders s' Hok' x Hx) as (topic & Ht & _ & Hcase). exists topic. split; [done|]. unfold poll_handle.
  destruct Hcase as [(r & -> & Hd)|(-> & _ & Hi)]; [left; eauto|right]. split_and!; [done|done|].
  by apply (ok_pending s' Hok').
Qed.
End SystemProperties.

Section SystemWitnesses.
Import Sample.
#[local] Existing Instance sample_hash.

(** A node with one topic, before anything is asked of it. *)
Definition rest_edge : EdgeNode := set_edge_world (ctx_world later) sample_edge.
Definition rest : System := mkSystem (mkTaskState rest_edge ∅) sample_node [] [] [].

Lemma rest_ok : sys_ok rest.
Proof.
  assert (forall code h, get_topic code (sys_world rest) = Some h -> code = topic /\ h = 0) as Hone.
  { intros code h Hc. change (({[topic := 0]} : gmap TopicCode loc) !! code = Some h) in Hc. by apply lookup_singleton_Some in Hc as [<- <-]. }
  split.
  - exact sample_node_wf.
  - intros code h [-> ->]%Hone. exists (mkTopicInner topic ∅ ∅), sample_topic.
    split; [reflexivity|]. split; [reflexivity|exact sample_lookup].
  - intros code [t Ht]. change (({[topic := sample_topic]} : gmap TopicCode TopicData) !! code = Some t) in Ht.
    apply lookup_singleton_Some in Ht as [<- _]. exists 0. reflexivity.
  - constructor.
  - exact sample_pools.
  - intros code h [-> ->]%Hone. apply (bool_decide_unpack _). vm_compute. exact I.
  - intros h id r Hin. by apply not_elem_of_nil in Hin.
  - intros x Hin. by apply not_elem_of_nil in Hin.
Qed.

(** A caller sends a message, and the proposal is committed. *)
Definition asked : System := sys_send topic 0 (msg Push x03) rest.
Definition committed : System := match sys_apply 0 asked with Done s => s | _ => asked end.

Lemma asked_run : rtc sys_step rest asked.
Proof.
  apply rtc_once, step_send; [reflexivity|]. split; [|reflexivity].
  apply (bool_decide_unpack _). vm_compute. exact I.
Qed.

Lemma committed_apply : sys_apply 0 asked = Done committed.
Proof.
  assert (match sys_apply 0 asked with Done _ => true | _ => false end = true) as Hd by (vm_compute; reflexivity).
  unfold committed. by destruct (sys_apply 0 asked).
Qed.

Lemma committed_run : rtc sys_step rest committed.
Proof.
  eapply rtc_r; [exact asked_run|]. eapply (step_apply asked 0); [reflexivity| |exact committed_apply].
  intros t Ht. change (nd_topics sample_node !! topic = Some t) in Ht. rewrite sample_lookup in Ht. injection Ht as <-.
  destruct sample_hold_ready as [_ Htime Hsize _]. split; [discriminate|]. split; [exact Htime|exact Hsize].
Qed.

Definition caller : Sender := mkSender topic (mid x03) 1.

Lemma no_sender_forgotten_witness :
  caller ∈ sys_senders committed /\
  exists h, get_topic (sender_topic caller) (sys_world committed) = Some h /\
    ((exists r, poll_handle (sender_channel caller) (sys_world committed) = Ready r /\
        (h, sender_id caller, r) ∈ sys_decided committed) \/
     (poll_handle (sender_channel caller) (sys_world committed) = Pending /\
      sender_id caller ∈ pending_ids (sender_topic caller) h committed /\
      NoDup (pending_ids (sender_topic caller) h committed))).
Proof.
  assert (caller ∈ sys_senders committed) as Hx by (vm_compute; left).
  split; [exact Hx|]. exact (no_sender_forgotten rest committed caller rest_ok committed_run Hx).
Defined.
End SystemWitnesses.
