(* ===== verification/Drain.v ===== *)
(** * Deliveries come to an end

    A status a task reports is a proposal; applied, it may flush a queue and spawn
    more deliveries, which report in turn.  This file bounds that loop: [sys_work]
    is a measure that every commit of a reported status and every task decreases,
    so a node left to itself comes to rest, and at rest a caller that still waits
    waits for receivers, not for the node. *)

From S2P Require Import Prelude Ids Interest Message Proposal Queue Topic Delivery NodeData Edge Codec EdgeNode Tasks EventHandler System.

(** ** The measure *)

(** The receivers a delivery is still to be started for. *)
Definition unsent_at (st : gmap EndpointAddr MessageStatusKind) : gset EndpointAddr :=
  dom (filter (fun x => x.2 = Unsent) st).

(** A held message will be delivered to each of these, and be answered once. *)
Definition hold_work (hm : HoldMessage) : nat := 2 + 4 * size (unsent_at (hold_status hm)).

(** A delivery reports a status; an answer and a commit to the store report nothing. *)
Definition task_work (t : Task) : nat :=
  match t with TaskDispatchMessage _ _ _ _ => 3 | TaskResolveAck _ _ _ | TaskCommitDurable _ => 1 end.

(** A status update is committed to the store; one that says [Unsent] asks for a
    delivery again. *)
Definition unsent_in (l : list (EndpointAddr * MessageStatusKind)) : nat :=
  length (filter (fun x => x.2 = Unsent) l).
Definition proposal_work (p : Proposal) : nat :=
  match p with PSetState u => 2 + 4 * unsent_in (map_to_list (update_status (set_state_update u))) | _ => 0 end.

Definition hold_works (l : list HoldMessage) : nat := sum_list_with hold_work l.
Definition topic_works (m : gmap TopicCode TopicData) : nat :=
  sum_list_with (fun x => hold_works (topic_abs x.2)) (map_to_list m).
Definition tasks_work (w : World) : nat := sum_list_with task_work (spawned (runtime w)).

Definition sys_work (s : System) : nat :=
  tasks_work (sys_world s) + sum_list_with proposal_work (sys_flight s) + topic_works (nd_topics (sys_data s)).

(** The steps a node makes by itself: what was reported is committed, what was
    spawned runs. *)
Inductive work_step `{HashOrder, Clock, Hash64} (s : System) : System -> Prop :=
  | work_apply i u s' :
      sys_flight s !! i = Some (PSetState u) -> sys_apply i s = Done s' -> work_step s s'
  | work_run timestamp executor_digest is_leader i t :
      spawned (runtime (sys_world s)) !! i = Some t -> work_step s (sys_run timestamp executor_digest is_leader i s).

(** ** Facts *)

Lemma topic_works_insert (m : gmap TopicCode TopicData) code t t' :
  m !! code = Some t ->
  topic_works (<[code := t']> m) + hold_works (topic_abs t) = topic_works m + hold_works (topic_abs t').
Proof.
  intros Ht. unfold topic_works. rewrite <-(insert_delete_id m code t) at 2 by done. rewrite <-insert_delete_eq.
  rewrite !map_to_list_insert by apply lookup_delete_eq. cbn. lia.
Qed.

Section DrainFacts.
Context `{HashOrder, Clock, Hash64}.
Implicit Types (hm : HoldMessage) (l : list HoldMessage) (ctx : ProposalContext).

Definition ctx_work ctx : nat := tasks_work (ctx_world ctx).

Lemma elem_of_unsent_at st ep : ep ∈ unsent_at st <-> st !! ep = Some Unsent.
Proof.
  unfold unsent_at. rewrite elem_of_dom. unfold is_Some. setoid_rewrite map_lookup_filter_Some. naive_solver.
Qed.

Lemma spawn_work t ctx : ctx_work (ctx_map (spawn t) ctx) = ctx_work ctx + task_work t.
Proof. unfold ctx_work, tasks_work. cbn. rewrite sum_list_with_app. cbn. lia. Qed.

Lemma dispatch_work m ep ctx : ctx_work (dispatch_message m ep ctx) <= ctx_work ctx + 3.
Proof.
  unfold dispatch_message. destruct (ctx_topic_code ctx); [|lia]. destruct (get_topic _ _); [|lia].
  rewrite spawn_work. cbn. lia.
Qed.

Lemma finish_work i hm ctx : ctx_work (finish i hm ctx) <= ctx_work ctx + 1.
Proof.
  change (ctx_work (resolve_ack i (hold_resolve hm) ctx) <= ctx_work ctx + 1). unfold resolve_ack.
  destruct (ctx_topic_code ctx); [|lia]. destruct (get_topic _ _); [|lia]. rewrite spawn_work. cbn. lia.
Qed.

Lemma resolved_work hm ctx : ctx_work (snd (hold_is_resolved hm ctx)) = ctx_work ctx.
Proof.
  unfold hold_is_resolved. destruct (target_kind _); try done. destruct (durability _) as [d|]; [|done].
  cbn. repeat case_match; done.
Qed.

Lemma commit_work ctx ctx' : commit_durable_commands ctx = Done ctx' -> ctx_work ctx' <= ctx_work ctx + 1.
Proof.
  unfold commit_durable_commands. case_match; [|intros [= <-]; lia].
  intros (code & _ & Hc)%Outcome_bind_Done. destruct (get_topic _ _); simplify_eq; [|lia].
  rewrite spawn_work. cbn. lia.
Qed.

(** Sending spawns a task for each receiver it takes off the list. *)
Lemma send_work reach hm ctx :
  ctx_work (snd (send_unsent reach hm ctx)) + hold_work (fst (send_unsent reach hm ctx)) <= ctx_work ctx + hold_work hm.
Proof.
  rewrite send_unsent_eq. cbn [fst snd].
  assert (forall eps c, ctx_work (foldl (fun c ep => dispatch_message (message hm) ep c) c eps) <= ctx_work c + 3 * length eps)
    as Hctx.
  { induction eps as [|ep eps IH]; intros c; cbn [foldl length]; [lia|].
    pose proof (IH (dispatch_message (message hm) ep c)). pose proof (dispatch_work (message hm) ep c). lia. }
  specialize (Hctx (to_send reach hm) ctx).
  pose proof (NoDup_to_send reach hm) as Hnd.
  assert (unsent_at (hold_status (sent_hold reach hm)) = unsent_at (hold_status hm) ∖ list_to_set (to_send reach hm)) as Hset.
  { apply set_eq. intros ep. rewrite elem_of_difference, elem_of_list_to_set, !elem_of_unsent_at, elem_of_to_send.
    change (hold_status (sent_hold reach hm)) with (map_imap (fun ep k => Some (sent_status reach ep k)) (hold_status hm)).
    rewrite map_lookup_imap. destruct (hold_status hm !! ep) as [k|]; cbn; [|naive_solver].
    unfold sent_status, is_unsent. repeat case_bool_decide; cbn; naive_solver. }
  assert (list_to_set (to_send reach hm) ⊆ unsent_at (hold_status hm)) as Hsub.
  { intros ep. rewrite elem_of_list_to_set, elem_of_unsent_at, elem_of_to_send. tauto. }
  pose proof (subseteq_size _ _ Hsub) as Hle.
  unfold hold_work. rewrite Hset, size_difference by done. rewrite size_list_to_set in * by done. lia.
Qed.

(** A poll turns what it takes off a message into tasks. *)
Lemma polled_work reach hm ctx :
  let '(hm1, ctx1) := send_unsent reach hm ctx in
  let '(done, ctx2) := hold_is_resolved hm1 ctx1 in
  ctx_work ctx2 + hold_work hm1 <= ctx_work ctx + hold_work hm /\
  forall i, ctx_work (finish i hm1 ctx2) <= ctx_work ctx + hold_work hm.
Proof.
  pose proof (send_work reach hm ctx) as Hs. destruct (send_unsent reach hm ctx) as [hm1 ctx1]. cbn [fst snd] in Hs.
  pose proof (resolved_work hm1 ctx1) as Hr. destruct (hold_is_resolved hm1 ctx1) as [done ctx2]. cbn [snd] in Hr.
  split; [lia|]. intros i. pose proof (finish_work i hm1 ctx2). unfold hold_work in Hs at 1. lia.
Qed.

Lemma spec_flush_work reach l ctx :
  ctx_work (snd (spec_flush reach l ctx)) + hold_works (fst (spec_flush reach l ctx)) <= ctx_work ctx + hold_works l.
Proof.
  revert ctx. induction l as [|hm l IH]; intros ctx; [done|]. cbn [spec_flush].
  pose proof (polled_work reach hm ctx) as Hp. destruct (send_unsent reach hm ctx) as [hm1 ctx1].
  destruct (hold_is_resolved hm1 ctx1) as [[] ctx2]; destruct Hp as [Hp Hf]; unfold hold_works in *; cbn in *.
  - pose proof (IH (finish (hold_id hm1) hm1 ctx2)). specialize (Hf (hold_id hm1)). lia.
  - lia.
Qed.

Lemma spec_poll_at_work reach id l ctx :
  ctx_work (snd (spec_poll_at reach id l ctx)) + hold_works (fst (spec_poll_at reach id l ctx)) <= ctx_work ctx + hold_works l.
Proof.
  revert ctx. induction l as [|hm l IH]; intros ctx; [done|]. cbn [spec_poll_at]. case_decide.
  - pose proof (polled_work reach hm ctx) as Hp. destruct (send_unsent reach hm ctx) as [hm1 ctx1].
    destruct (hold_is_resolved hm1 ctx1) as [[] ctx2]; destruct Hp as [Hp Hf]; unfold hold_works in *; cbn in *; [|lia].
    specialize (Hf id). lia.
  - specialize (IH ctx). destruct (spec_poll_at reach id l ctx). unfold hold_works in *. cbn in *. lia.
Qed.

(** What an acknowledgement gives back: at most the receiver it is about. *)
Lemma acked_work from k hm :
  hold_work (acked_hold from k hm) <= hold_work hm + 4 * (if decide (k = Unsent) then 1 else 0).
Proof.
  assert (unsent_at (hold_status (acked_hold from k hm)) ⊆
    (if decide (k = Unsent) then {[from]} else ∅) ∪ unsent_at (hold_status hm)) as Hsub.
  { intros ep. rewrite elem_of_union, !elem_of_unsent_at. unfold acked_hold, acked_status.
    change (hold_status (with_status ?st hm)) with st.
    assert (<[from := k]> (hold_status hm) !! ep = Some Unsent ->
      ep ∈ (if decide (k = Unsent) then {[from]} else ∅ : gset EndpointAddr) \/ hold_status hm !! ep = Some Unsent) as Hins.
    { intros [[-> ->]|[_ ?]]%lookup_insert_Some; [left; by rewrite decide_True, elem_of_singleton|by right]. }
    destruct (hold_status hm !! from) as [cur|]; [|done]. destruct (is_resolved _ _); [by right|done]. }
  apply subseteq_size in Hsub. pose proof (size_union_alt (if decide (k = Unsent) then {[from]} else ∅)
    (unsent_at (hold_status hm))) as Hu. unfold hold_work.
  pose proof (subseteq_size (unsent_at (hold_status hm) ∖ (if decide (k = Unsent) then {[from]} else ∅))
    (unsent_at (hold_status hm)) ltac:(set_solver)) as Hd.
  destruct (decide (k = Unsent)); [rewrite size_singleton in Hu|rewrite size_empty in Hu]; lia.
Qed.

Lemma ack_one_work id from k l :
  NoDup (hold_id <$> l) ->
  hold_works ((fun hm => if decide (hold_id hm = id) then acked_hold from k hm else hm) <$> l) <=
    hold_works l + 4 * (if decide (k = Unsent) then 1 else 0).
Proof.
  unfold hold_works. induction l as [|hm l IH]; [cbn; lia|]. rewrite !fmap_cons. intros [Hni Hnd]%NoDup_cons. cbn [sum_list_with].
  destruct (decide (hold_id hm = id)) as [Hid|Hne]; [|specialize (IH Hnd); lia].
  pose proof (acked_work from k hm).
  replace ((fun hm => if decide (hold_id hm = id) then acked_hold from k hm else hm) <$> l) with l; [lia|].
  rewrite <-(list_fmap_id l) at 1. apply list_fmap_ext. intros i h Hh. cbn. rewrite decide_False; [done|].
  intros Hc. apply Hni. rewrite Hid, <-Hc. apply list_elem_of_fmap_2. by eapply list_elem_of_lookup_2.
Qed.

Lemma acks_work u l :
  NoDup (hold_id <$> l) ->
  hold_works (spec_acks u l) <= hold_works l + 4 * unsent_in (map_to_list (update_status u)).
Proof.
  assert (unsent_in (hm_iter (update_status u)) = unsent_in (map_to_list (update_status u))) as <-.
  { unfold unsent_in. by rewrite hm_iter_perm. }
  unfold spec_acks. generalize (hm_iter (update_status u)). intros k. revert l.
  induction k as [|[from st] k IH]; intros l Hnd; [cbn [foldl]; lia|]. cbn [foldl].
  set (l1 := _ <$> l).
  assert (hold_id <$> l1 = hold_id <$> l) as Hids.
  { symmetry. apply fmap_hold_id. intros hm. by case_decide. }
  pose proof (IH l1 ltac:(by rewrite Hids)) as Hi. pose proof (ack_one_work (update_message_id u) from st l Hnd) as Ho.
  fold l1 in Ho. unfold unsent_in in *. rewrite filter_cons. cbn. case_decide; cbn; lia.
Qed.

Lemma spec_update_work b reach u l ctx :
  NoDup (hold_id <$> l) ->
  ctx_work (snd (spec_update b reach u l ctx)) + hold_works (fst (spec_update b reach u l ctx)) <=
    ctx_work ctx + hold_works l + 4 * unsent_in (map_to_list (update_status u)).
Proof.
  intros Hnd. pose proof (acks_work u l Hnd) as Ha. unfold spec_update, spec_poll.
  change (ctx_work ctx) with (ctx_work (push_durable_command (CmdUpdateStatus u) ctx)).
  set (ctx1 := push_durable_command _ ctx). destruct b; [case_decide|].
  - pose proof (spec_flush_work reach (spec_acks u l) ctx1). lia.
  - cbn [fst snd]. lia.
  - pose proof (spec_poll_at_work reach (update_message_id u) (spec_acks u l) ctx1). lia.
Qed.

(** Applying a reported status: what it asks for again was counted with it. *)
Lemma apply_set_state_work u nd ctx nd' ctx' :
  node_wf nd -> apply_set_state u nd ctx = Done (nd', ctx') ->
  ctx_work ctx' + topic_works (nd_topics nd') < ctx_work ctx + topic_works (nd_topics nd) + proposal_work (PSetState u).
Proof.
  intros Hwf. unfold apply_set_state, with_topic. set (ctx0 := set_topic_code (set_state_topic u) ctx).
  change (ctx_work ctx) with (ctx_work ctx0). cbn [proposal_work].
  destruct (nd_topics nd !! set_state_topic u) as [t|] eqn:Ht.
  2: { cbn [mbind Outcome_bind]. intros (c & Hc & [= <- <-])%Outcome_bind_Done. apply commit_work in Hc. lia. }
  destruct (Hwf _ _ Ht) as (Htwf & _).
  destruct (update_and_flush_spec (set_state_update u) t ctx0 Htwf) as (t' & ctx1 & Hr & _ & _ & _ & _ & Hs).
  rewrite Hr. cbn [mbind Outcome_bind]. intros (c & Hc & [= <- <-])%Outcome_bind_Done. apply commit_work in Hc.
  pose proof (spec_update_work (config_blocking (topic_config t)) (reachable_eps (ctx_node_id ctx0) t) (set_state_update u)
    (topic_abs t) ctx0 (queue_abs_NoDup _ (twf_queue t Htwf))) as Hw. rewrite Hs in Hw. cbn [fst snd] in Hw.
  pose proof (topic_works_insert (nd_topics nd) _ _ t' Ht) as Hm. cbn [nd_topics]. lia.
Qed.

(** ** The loop *)

(** Only reported statuses are in flight. *)
Definition only_reports (s : System) : Prop := Forall (fun p => exists u, p = PSetState u) (sys_flight s).

Lemma work_step_sys s s' : sys_ok s -> work_step s s' -> sys_step s s'.
Proof. intros Hok. destruct 1; [by eapply step_apply|constructor]. Qed.

Lemma flight_work_delete (l : list Proposal) i p :
  l !! i = Some p -> sum_list_with proposal_work l = proposal_work p + sum_list_with proposal_work (delete i l).
Proof. intros Hp. by rewrite (delete_Permutation l i p Hp) at 1. Qed.

Lemma dispatch_not_unsent timestamp executor_digest topic m ep (s : TaskState) :
  default Unreachable (fst (topic_dispatch_message timestamp executor_digest topic m ep s)) <> Unsent.
Proof. unfold topic_dispatch_message. repeat (case_match; try done). Qed.

Lemma run_work s timestamp executor_digest is_leader i t :
  spawned (runtime (sys_world s)) !! i = Some t ->
  sys_work (sys_run timestamp executor_digest is_leader i s) < sys_work s.
Proof.
  intros Ht. unfold sys_run. rewrite Ht. change (set_task_world _ (sys_tasks s)) with (sys_tasks (without_task i s)).
  assert (tasks_work (sys_world s) = task_work t + tasks_work (sys_world (without_task i s))) as Hw.
  { unfold tasks_work. rewrite (delete_Permutation _ _ _ Ht) at 1. done. }
  unfold sys_work. rewrite Hw. destruct t as [topic id r|topic code m ep|code]; cbn [run_task task_work].
  - cbn [sys_flight sys_data]. rewrite app_nil_r. set (tasks := set_task_world _ _).
    assert (spawned (runtime (task_world tasks)) = spawned (runtime (sys_world (without_task i s)))) as Hsp.
    { unfold tasks, run_resolve_ack, oneshot_send. cbn. repeat case_match; done. }
    unfold sys_world, tasks_work in *. cbn [sys_tasks] in *. rewrite Hsp. lia.
  - pose proof (run_dispatch_world logged timestamp executor_digest topic code m ep (sys_tasks (without_task i s))
      ltac:(done)) as Hd.
    pose proof (dispatch_not_unsent timestamp executor_digest topic m ep (sys_tasks (without_task i s))) as Hk.
    unfold run_dispatch in *. destruct (topic_dispatch_message _ _ _ _ _ _) as [o tasks]. cbn [fst sys_flight sys_data] in *.
    rewrite sum_list_with_app. unfold sys_world at 1. cbn [sys_tasks]. rewrite Hd.
    change (task_world (sys_tasks (without_task i s))) with (sys_world (without_task i s)).
    cbn [sum_list_with proposal_work set_state_update state_update_new update_status].
    rewrite map_to_list_singleton. unfold unsent_in. rewrite filter_cons_False by done. cbn. lia.
  - cbn [sys_flight sys_data]. rewrite app_nil_r. unfold sys_world, tasks_work. cbn. lia.
Qed.

Lemma apply_work s i u s' :
  sys_ok s -> sys_flight s !! i = Some (PSetState u) -> sys_apply i s = Done s' -> sys_work s' < sys_work s.
Proof.
  intros Hok Hu. unfold sys_apply. rewrite Hu. cbn [apply_proposal].
  intros ([nd ctx] & Happ & [= <-])%Outcome_bind_Done.
  pose proof (apply_set_state_work u _ _ _ _ (ok_data s Hok) Happ) as Hw. unfold sys_work. cbn [sys_flight sys_data].
  rewrite (flight_work_delete _ _ _ Hu). change (ctx_work (context_new (sys_world s))) with (tasks_work (sys_world s)) in Hw.
  unfold sys_world at 1. change (task_world (set_task_world (ctx_world ctx) (sys_tasks s))) with (ctx_world ctx).
  unfold ctx_work in Hw. cbn [sys_tasks]. change (task_world (set_task_world (ctx_world ctx) (sys_tasks s))) with (ctx_world ctx). lia.
Qed.

Lemma work_step_decreases s s' : sys_ok s -> work_step s s' -> sys_work s' < sys_work s.
Proof. intros Hok. destruct 1; [by eapply apply_work|by eapply run_work]. Qed.

Lemma work_step_reports s s' : only_reports s -> work_step s s' -> only_reports s'.
Proof.
  unfold only_reports. intros Hr. destruct 1 as [i u s' Hu Ha|timestamp digest is_leader i t Ht].
  - unfold sys_apply in Ha. rewrite Hu in Ha. apply Outcome_bind_Done in Ha as ([nd ctx] & _ & [= <-]). cbn [sys_flight].
    rewrite (delete_Permutation _ _ _ Hu) in Hr. by apply Forall_cons in Hr as [_ ?].
  - unfold sys_run. rewrite Ht. destruct t as [topic id r|topic code m ep|code]; cbn [run_task sys_flight].
    1,3: by rewrite app_nil_r.
    unfold run_dispatch. destruct (topic_dispatch_message _ _ _ _ _ _) as [o tasks]. cbn [sys_flight].
    apply Forall_app. split; [done|]. apply Forall_singleton. by eexists.
Qed.

Lemma work_nsteps s s' n :
  sys_ok s -> only_reports s -> nsteps work_step n s s' ->
  sys_ok s' /\ only_reports s' /\ n + sys_work s' <= sys_work s.
Proof.
  intros Hok Hr Hn. induction Hn as [s|n s s1 s' Hstep _ IH]; [by split_and!|].
  pose proof (work_step_decreases _ _ Hok Hstep). apply work_step_sys in Hstep as Hsys; [|done].
  destruct IH as (? & ? & ?); [by eapply sys_step_ok|by eapply work_step_reports|]. split_and!; [done|done|lia].
Qed.

(** A node with something to do does it. *)
Lemma work_step_exists s :
  sys_ok s -> only_reports s -> sys_flight s <> [] \/ spawned (runtime (sys_world s)) <> [] -> exists s', work_step s s'.
Proof.
  intros Hok Hr [Hne|Hne].
  - destruct (sys_flight s) as [|p l] eqn:Hl; [done|]. assert (sys_flight s !! 0 = Some p) as Hp by by rewrite Hl.
    unfold only_reports in Hr. rewrite Hl in Hr. apply Forall_cons in Hr as [[u ->] _].
    destruct (sys_apply_ok s 0 (PSetState u) Hok Hp I) as (s' & Ha & _). exists s'. by eapply work_apply.
  - destruct (spawned (runtime (sys_world s))) as [|t l] eqn:Hl; [done|].
    eexists. apply (work_run s 0 0 false 0 t). by rewrite Hl.
Qed.

Lemma drains s :
  sys_ok s -> only_reports s ->
  exists s', rtc work_step s s' /\ sys_flight s' = [] /\ spawned (runtime (sys_world s')) = [].
Proof.
  remember (sys_work s) as n eqn:Hn. revert s Hn. induction (lt_wf n) as [n _ IH]. intros s -> Hok Hr.
  assert (Decision (sys_flight s = [] /\ spawned (runtime (sys_world s)) = [])) as [[Hf Hs]|Hne].
  { destruct (sys_flight s) eqn:Hf, (spawned (runtime (sys_world s))) eqn:Hs; first [by left|by right; intros []]. }
  { by exists s. }
  destruct (work_step_exists s Hok Hr) as [s1 Hstep].
  { destruct (sys_flight s); [right; intros E; by apply Hne|by left]. }
  destruct (IH (sys_work s1)) with (s := s1) as (s' & Hs' & ?);
    [by apply work_step_decreases|done|by eapply sys_step_ok, work_step_sys|by eapply work_step_reports|].
  exists s'. split; [by eapply rtc_l|done].
Qed.
End DrainFacts.

(** ** Properties *)

Section DrainProperties.
Context `{HashOrder, Clock, Hash64}.

(** C4: The delivery loop ends.  From any state of a node in which the proposals in
    flight are reported statuses, committing them and running tasks, in any order,
    takes at most [sys_work] steps, although a commit may spawn deliveries and a
    delivery reports a status.  A run that cannot go on has settled everything: no
    proposal and no task is left, and a caller that has not been answered has its
    message held in its topic's queue.  Such a state is reached. *)
Theorem delivery_drains (s : System) (Hok : sys_ok s) (Hreports : only_reports s) :
  (forall n s', nsteps work_step n s s' -> n <= sys_work s) /\
  (exists s', rtc work_step s s' /\ nf work_step s') /\
  forall s', rtc work_step s s' -> nf work_step s' ->
    sys_flight s' = [] /\ spawned (runtime (sys_world s')) = [] /\
    forall x, x ∈ sys_senders s' ->
      (exists r, poll_handle (sender_channel x) (sys_world s') = Ready r) \/
      (poll_handle (sender_channel x) (sys_world s') = Pending /\ sender_id x ∈ held_ids (sender_topic x) s').
Proof.
  split_and!.
  - intros n s' Hn. destruct (work_nsteps s s' n Hok Hreports Hn) as (_ & _ & ?). lia.
  - destruct (drains s Hok Hreports) as (s' & Hs & Hf & Ht). exists s'. split; [done|]. intros [s1 Hstep].
    destruct Hstep as [i u s1 Hu _|? ? ? i t Hi]; [by rewrite Hf in Hu|by rewrite Ht in Hi].
  - intros s' [n Hn]%rtc_nsteps Hnf. destruct (work_nsteps s s' n Hok Hreports Hn) as (Hok' & Hr' & _).
    assert (sys_flight s' = []) as Hf.
    { destruct (sys_flight s') eqn:E; [done|]. destruct Hnf. apply work_step_exists; [done..|]. left. by rewrite E. }
    assert (spawned (runtime (sys_world s')) = []) as Ht.
    { destruct (spawned (runtime (sys_world s'))) eqn:E; [done|]. destruct Hnf. apply work_step_exists; [done..|]. right. by rewrite E. }
    split_and!; [done|done|]. intros x Hx. destruct (ok_senders s' Hok' x Hx) as (topic & _ & _ & Hcase). unfold poll_handle.
    destruct Hcase as [(r & -> & _)|(-> & _ & Hi)]; [left; eauto|right]. split; [done|].
    unfold pending_ids, flight_ids, resolving_ids in Hi. rewrite Hf, Ht, app_nil_r in Hi. exact Hi.
Qed.
End DrainProperties.

Section DrainWitnesses.
Import Sample.
#[local] Existing Instance sample_hash.

Lemma delivery_drains_witness :
  spawned (runtime (sys_world committed)) <> [] /\
  (forall n s', nsteps work_step n committed s' -> n <= sys_work committed) /\
  (exists s', rtc work_step committed s' /\ nf work_step s') /\
  forall s', rtc work_step committed s' -> nf work_step s' ->
    sys_flight s' = [] /\ spawned (runtime (sys_world s')) = [] /\
    forall x, x ∈ sys_senders s' ->
      (exists r, poll_handle (sender_channel x) (sys_world s') = Ready r) \/
      (poll_handle (sender_channel x) (sys_world s') = Pending /\ sender_id x ∈ held_ids (sender_topic x) s').
Proof.
  split; [vm_compute; discriminate|]. apply (delivery_drains committed).
  - exact (sys_steps_ok rest committed rest_ok committed_run).
  - vm_compute. constructor.
Defined.
End DrainWitnesses.
