(* ===== verification/Cluster.v ===== *)
(** * Cluster providers

    [server/src/protocol/node/raft/cluster.rs], [cluster/static.rs] and
    [cluster/k8s.rs]: where a node learns which nodes form the cluster.

    Kubernetes' client is a parameter (what it answers to the two [get]s), as are
    the digest of [sha2] and the parser of IPv6 addresses; its objects carry the
    fields that are read. *)

From S2P Require Import Prelude Ids Proposal.

(** ** Socket addresses *)

(** [std::net::SocketAddr]: an IPv4 address as its four bytes, or an IPv6 address,
    which is opaque, and a port. *)
Inductive SocketAddr : Type :=
  | SocketV4 (a b c d port : Z)
  | SocketV6 (text : string).

#[export] Instance SocketAddr_eq_dec : EqDecision SocketAddr.
Proof. solve_decision. Defined.

(** [Display] of a number of at most five digits. *)
Definition digit (z : Z) : u8 := byte_of_Z (48 + z).
Fixpoint decimal_digits (fuel : nat) (z : Z) : list u8 :=
  match fuel with
  | O => []
  | S fuel => if (z <? 10)%Z then [digit z] else decimal_digits fuel (z / 10) ++ [digit (z mod 10)]
  end.
Definition decimal (z : Z) : list u8 := decimal_digits 5 z.

Definition digit_of (b : u8) : option Z :=
  let z := byte_to_Z b in if (48 <=? z)%Z && (z <=? 57)%Z then Some (z - 48)%Z else None.

(** The longest prefix of digits, as their value and number, and what follows. *)
Fixpoint read_digits (value : Z) (count : nat) (bs : list u8) : Z * nat * list u8 :=
  match bs with
  | [] => (value, count, [])
  | b :: rest =>
      match digit_of b with
      | Some d => read_digits (value * 10 + d)%Z (S count) rest
      | None => (value, count, bs)
      end
  end.

(** The standard library's [read_number]: at most [max_digits] digits when that is
    given, no leading zero in an address byte, and a value within the type. *)
Definition read_number (max_digits : option nat) (allow_zero_prefix : bool) (max : Z) (bs : list u8) :
    option (Z * list u8) :=
  let has_leading_zero := match bs with b :: _ => bool_decide (digit_of b = Some 0%Z) | [] => false end in
  let '(value, count, rest) := read_digits 0 0 bs in
  if bool_decide (count = 0) then None
  else if match max_digits with Some m => m <? count | None => false end then None
  else if negb allow_zero_prefix && has_leading_zero && (1 <? count) then None
  else if (max <? value)%Z then None
  else Some (value, rest).

Definition read_char (c : u8) (bs : list u8) : option (list u8) :=
  match bs with
  | b :: rest => if decide (b = c) then Some rest else None
  | [] => None
  end.

Definition dot : u8 := x2e.
Definition colon : u8 := x3a.
Definition bracket : u8 := x5b.

Definition read_octet : list u8 -> option (Z * list u8) := read_number (Some 3) false 255.

(** [Ipv4Addr], a colon and a port. *)
Definition parse_socket_v4 (bs : list u8) : option SocketAddr :=
  '(a, bs) ← read_octet bs; bs ← read_char dot bs;
  '(b, bs) ← read_octet bs; bs ← read_char dot bs;
  '(c, bs) ← read_octet bs; bs ← read_char dot bs;
  '(d, bs) ← read_octet bs; bs ← read_char colon bs;
  '(port, bs) ← read_number None true 65535 bs;
  match bs with [] => Some (SocketV4 a b c d port) | _ => None end.

(** [<SocketAddr as FromStr>]: an IPv6 socket address begins with a bracket. *)
Definition parse_socket_addr (parse_v6 : list u8 -> option SocketAddr) (bs : list u8) : option SocketAddr :=
  match bs with
  | b :: _ => if decide (b = bracket) then parse_v6 bs else parse_socket_v4 bs
  | [] => None
  end.

(** ** ClusterProvider (cluster.rs) *)

(** What an awaited call of a provider may come to: the answer, or never. *)
Inductive Awaited (A : Type) : Type :=
  | Answered (a : A)
  | Never
  | Panicked.
Arguments Answered {A} a.
Arguments Never {A}.
Arguments Panicked {A}.

Abbreviation Members := (gmap NodeId SocketAddr).

(** The trait: [pristine_nodes] defaults to [next_update]. *)
Class ClusterProvider (P : Type) : Type := {
  next_update : P -> Awaited (Result Members string) * P;
  pristine_nodes : P -> Awaited (Result Members string) * P;
}.

Definition provider_of_next_update {P} (next : P -> Awaited (Result Members string) * P) : ClusterProvider P :=
  {| next_update := next; pristine_nodes := next |}.

(** ** StaticClusterProvider (static.rs) *)
Module Static.
Record StaticClusterProvider : Type := mkStatic { nodes : Members }.

Definition static_new (nodes : Members) : StaticClusterProvider := mkStatic nodes.
(** The node's own id and address, of its configuration. *)
Definition singleton (id : NodeId) (addr : SocketAddr) : StaticClusterProvider := mkStatic {[id := addr]}.

#[export] Instance static_provider : ClusterProvider StaticClusterProvider := {|
  next_update p := (Never, p);
  pristine_nodes p := (Answered (Ok (nodes p)), p);
|}.
End Static.

(** ** K8sClusterProvider (k8s.rs) *)
Module K8s.
(** The fields of Kubernetes' objects that are read; [IntOrString]'s texts are bytes. *)
Inductive IntOrString : Type :=
  | IntPort (value : Z)
  | StringPort (text : list u8).

Record ServicePort : Type := mkServicePort { port : Z; target_port : option IntOrString }.
Record ServiceSpec : Type := mkServiceSpec { ports : option (list ServicePort) }.
Record Service : Type := mkService { spec : option ServiceSpec }.

Record ObjectReference : Type := mkObjectReference { uid : option (list u8) }.
Record EndpointAddress : Type := mkEndpointAddress { ip : list u8; target_ref : option ObjectReference }.
Record EndpointSubset : Type := mkSubset {
  addresses : option (list EndpointAddress);
  not_ready_addresses : option (list EndpointAddress);
}.
Record Endpoints : Type := mkEndpoints { subsets : option (list EndpointSubset) }.

(** Instants and durations are nanoseconds. *)
Record K8sClusterProvider : Type := mkK8s {
  namespace : string;
  service : string;
  next_update_at : Z;
  poll_interval : Z;
  own_port : Z;
}.

(** [K8sClusterProvider::new], given the pod's namespace and the time. *)
Definition k8s_new (pod_namespace service : string) (port now : Z) : K8sClusterProvider :=
  mkK8s pod_namespace service now 1000000000 port.

(** [parse::<u16>()]. *)
Definition parse_u16 (bs : list u8) : option Z :=
  let digits := match bs with b :: rest => if decide (b = x2b) then rest else bs | [] => [] end in
  match read_digits 0 0 digits with
  | (_, O, _) => None
  | (value, S _, rest) =>
      match rest with
      | [] => if (value <=? 65535)%Z then Some value else None
      | _ => None
      end
  end.

(** The closure of [find]. *)
Definition matches_port (own : Z) (p : ServicePort) : bool :=
  match target_port p with
  | None => false
  | Some (IntPort target) => (target =? own)%Z
  | Some (StringPort text) => bool_decide (parse_u16 text = Some own)
  end.

(** [as u16] of an [i32]. *)
Definition port_mapped (own : Z) (s : Service) : Outcome Z :=
  spec ← expect (spec s);
  ports ← expect (ports spec);
  p ← expect (snd <$> list_find (fun p => matches_port own p = true) ports);
  Done (port p mod 2 ^ 16)%Z.

Section Update.
Context (digest : list u8 -> list u8) (parse_v6 : list u8 -> option SocketAddr).
(** The two [get]s, by namespace and name; [None] is an error. *)
Context (get_service : string -> string -> option Service) (get_endpoints : string -> string -> option Endpoints).

(** [format!("{}:{}", ip, port)]. *)
Definition socket_text (ip : list u8) (port : Z) : list u8 := ip ++ colon :: decimal port.

(** The closure of [map] on an address. *)
Definition address_entry (mapped : Z) (a : EndpointAddress) : Outcome (SocketAddr * NodeId) :=
  target ← expect (target_ref a);
  addr ← expect (parse_socket_addr parse_v6 (socket_text (ip a) mapped));
  u ← expect (uid target);
  Done (addr, node_id_sha256 digest u).

(** The addresses of a subset in the order of [chain]: those not ready come first. *)
Definition subset_addresses (s : EndpointSubset) : list EndpointAddress :=
  default [] (not_ready_addresses s) ++ default [] (addresses s).

(** The last loop; the iterator is lazy, so a panic leaves nothing behind. *)
Fixpoint collect_nodes (mapped : Z) (l : list EndpointAddress) (nodes : Members) : Outcome Members :=
  match l with
  | [] => Done nodes
  | a :: l =>
      '(addr, node_id) ← address_entry mapped a;
      collect_nodes mapped l (<[node_id := addr]> nodes)
  end.

(** [next_update]; it sleeps until [next_update_at] first. *)
Definition k8s_next_update (p : K8sClusterProvider) : Awaited (Result Members string) * K8sClusterProvider :=
  let p' := mkK8s (namespace p) (service p) (next_update_at p + poll_interval p) (poll_interval p) (own_port p) in
  let update :=
    s ← expect (get_service (namespace p) (service p));
    mapped ← port_mapped (own_port p) s;
    ep_list ← expect (get_endpoints (namespace p) (service p));
    collect_nodes mapped (default [] (subsets ep_list) ≫= subset_addresses) ∅ in
  (match update with Done nodes => Answered (Ok nodes) | _ => Panicked end, p').

#[export] Instance k8s_provider : ClusterProvider K8sClusterProvider := provider_of_next_update k8s_next_update.
End Update.
End K8s.

(** ** Facts *)

Definition is_digit (b : u8) : Prop := is_Some (digit_of b).

(** Reading never adds bytes. *)
Lemma read_digits_suffix bs value count : snd (read_digits value count bs) `suffix_of` bs.
Proof.
  revert value count. induction bs as [|b bs IH]; intros value count; [done|]. cbn.
  destruct (digit_of b); [|done]. by apply suffix_cons_r.
Qed.

Lemma read_number_suffix md az max bs v rest : read_number md az max bs = Some (v, rest) -> rest `suffix_of` bs.
Proof.
  unfold read_number. pose proof (read_digits_suffix bs 0 0) as Hs.
  destruct (read_digits 0 0 bs) as [[value count] r]. cbn in Hs. repeat case_match; naive_solver.
Qed.

(** An IPv4 socket address has a dot. *)
Lemma parse_v4_dot bs a : parse_socket_v4 bs = Some a -> dot ∈ bs.
Proof.
  unfold parse_socket_v4, read_octet. destruct (read_number (Some 3) false 255 bs) as [[o rest]|] eqn:Ho; [|done].
  apply read_number_suffix in Ho as [pre ->]. cbn. destruct rest as [|b rest]; [done|]. cbn.
  case_decide; [subst b|done]. set_solver.
Qed.

Lemma digit_of_digit z : (0 <= z < 10)%Z -> digit_of (digit z) = Some z.
Proof.
  intros Hz. unfold digit_of, digit. rewrite byte_to_of_Z, Z.mod_small by lia.
  destruct (48 <=? 48 + z)%Z eqn:H1; [|lia]. destruct (48 + z <=? 57)%Z eqn:H2; [|lia]. cbn. f_equal. lia.
Qed.

Lemma read_digits_app l l2 value count :
  Forall is_digit l ->
  read_digits value count (l ++ l2) =
    read_digits (fst (fst (read_digits value count l))) (snd (fst (read_digits value count l))) l2.
Proof.
  intros Hl. revert value count. induction Hl as [|b l [d Hd] Hl IH]; intros value count; [done|].
  cbn. rewrite Hd. apply IH.
Qed.

Lemma div_ten k z : (0 <= z < 10 ^ Z.of_nat (S k))%Z -> (0 <= z / 10 < 10 ^ Z.of_nat k)%Z.
Proof.
  rewrite Nat2Z.inj_succ, Z.pow_succ_r by lia. intros Hz.
  split; [apply Z.div_pos; lia|]. apply Z.div_lt_upper_bound; lia.
Qed.

(** What [Display] writes is read back. *)
Lemma decimal_read fuel z value count :
  fuel <> 0 -> (0 <= z < 10 ^ Z.of_nat fuel)%Z ->
  Forall is_digit (decimal_digits fuel z) /\
  read_digits value count (decimal_digits fuel z) =
    ((value * 10 ^ Z.of_nat (length (decimal_digits fuel z)) + z)%Z, count + length (decimal_digits fuel z), []).
Proof.
  revert z value count. induction fuel as [|fuel IH]; intros z value count Hne Hz; [done|]. cbn [decimal_digits].
  destruct (z <? 10)%Z eqn:Hlt.
  - split; [constructor; [|done]; eexists; apply digit_of_digit; lia|]. cbn. rewrite digit_of_digit by lia.
    f_equal. f_equal; lia.
  - pose proof (div_ten fuel z Hz) as Hdiv.
    assert (0 <= z mod 10 < 10)%Z by (apply Z.mod_pos_bound; lia).
    assert (fuel <> 0) as Hf by (intros ->; cbn in Hdiv; assert (1 <= z / 10)%Z by (apply Z.div_le_lower_bound; lia); lia).
    destruct (IH (z / 10)%Z value count Hf Hdiv) as [Hd Hr]. split.
    { apply Forall_app. split; [done|]. constructor; [|done]. eexists. by apply digit_of_digit. }
    rewrite read_digits_app, Hr by done. cbn [fst snd read_digits]. rewrite digit_of_digit by done.
    rewrite length_app. cbn [length]. rewrite Nat2Z.inj_add, Z.pow_add_r by lia.
    change (Z.of_nat 1) with 1%Z. rewrite Z.pow_1_r. pose proof (Z.div_mod z 10).
    apply (f_equal (fun x => (x, []))), (f_equal2 pair); lia.
Qed.

Lemma decimal_head fuel z :
  (0 < z)%Z -> (0 <= z < 10 ^ Z.of_nat fuel)%Z ->
  exists b rest, decimal_digits fuel z = b :: rest /\ digit_of b <> Some 0%Z.
Proof.
  revert z. induction fuel as [|fuel IH]; intros z Hpos Hz; [cbn in Hz; lia|]. cbn [decimal_digits].
  destruct (z <? 10)%Z eqn:Hlt.
  - eexists _, _. split; [done|]. rewrite digit_of_digit by lia. intros [= ->]. lia.
  - destruct (IH (z / 10)%Z) as (b & rest & -> & Hb); [apply Z.div_str_pos; lia|by apply div_ten|by eexists _, _].
Qed.

Lemma decimal_length fuel k z :
  k <> 0 -> (0 <= z < 10 ^ Z.of_nat k)%Z -> length (decimal_digits fuel z) <= k.
Proof.
  revert k z. induction fuel as [|fuel IH]; intros k z Hk Hz; cbn [decimal_digits length]; [lia|].
  destruct (z <? 10)%Z eqn:Hlt; [cbn; lia|]. destruct k as [|k]; [done|].
  pose proof (div_ten k z Hz) as Hdiv.
  rewrite length_app. cbn. destruct k as [|k].
  - cbn in Hdiv. assert (1 <= z / 10)%Z by (apply Z.div_le_lower_bound; lia). lia.
  - specialize (IH (S k) (z / 10)%Z ltac:(done) Hdiv). lia.
Qed.

Lemma read_number_decimal md az max z rest :
  (0 <= z < 10 ^ 5)%Z -> (z <= max)%Z -> match rest with b :: _ => digit_of b = None | [] => True end ->
  match md with Some m => m <> 0 /\ (z < 10 ^ Z.of_nat m)%Z | None => True end ->
  read_number md az max (decimal z ++ rest) = Some (z, rest).
Proof.
  intros Hz Hmax Hrest Hmd. unfold read_number, decimal.
  destruct (decimal_read 5 z 0 0 ltac:(done) Hz) as [Hd Hr].
  rewrite read_digits_app, Hr by done. cbn [fst snd].
  assert (forall v c, read_digits v c rest = (v, c, rest)) as Hstop.
  { intros v c. destruct rest; [done|]. cbn. by rewrite Hrest. }
  rewrite Hstop. cbn [Nat.add]. rewrite Z.mul_0_l, Z.add_0_l.
  assert (z = 0%Z /\ decimal_digits 5 z = [digit 0] \/ exists b l, decimal_digits 5 z = b :: l /\ digit_of b <> Some 0%Z)
    as Hcase.
  { destruct (decide (z = 0%Z)) as [->|Hne]; [by left|]. right. apply decimal_head; [lia|done]. }
  assert (length (decimal_digits 5 z) <> 0) as Hlen.
  { destruct Hcase as [[_ ->]|(b & l & -> & _)]; done. }
  rewrite bool_decide_false by done.
  destruct (match md with Some m => m <? length (decimal_digits 5 z) | None => false end) eqn:Hm.
  { destruct md as [m|]; [|done]. apply Nat.ltb_lt in Hm. destruct Hmd as [Hm0 Hmz].
    pose proof (decimal_length 5 m z ltac:(lia) ltac:(lia)). lia. }
  destruct (max <? z)%Z eqn:Hmz; [lia|].
  destruct Hcase as [[-> ->]|(b & l & -> & Hb)]; cbn [app length].
  - by rewrite andb_false_r.
  - rewrite bool_decide_false by done. by rewrite andb_false_r.
Qed.

(** The text of an IPv4 address. *)
Definition ipv4_text (a b c d : Z) : list u8 :=
  decimal a ++ dot :: decimal b ++ dot :: decimal c ++ dot :: decimal d.

Definition octet (z : Z) : Prop := (0 <= z <= 255)%Z.

Lemma read_octet_decimal z rest :
  octet z -> match rest with b :: _ => digit_of b = None | [] => True end ->
  read_octet (decimal z ++ rest) = Some (z, rest).
Proof. intros Hz Hr. apply read_number_decimal; [unfold octet in *; lia|apply Hz|done|unfold octet in *; lia]. Qed.

Lemma socket_text_parsed parse_v6 a b c d port :
  octet a -> octet b -> octet c -> octet d -> (0 <= port <= 65535)%Z ->
  parse_socket_addr parse_v6 (K8s.socket_text (ipv4_text a b c d) port) = Some (SocketV4 a b c d port).
Proof.
  intros Ha Hb Hc Hd Hp. set (text := K8s.socket_text _ _).
  assert (text = decimal a ++ dot :: (decimal b ++ dot :: (decimal c ++ dot :: (decimal d ++ colon :: decimal port)))) as Ht.
  { unfold text, K8s.socket_text, ipv4_text. rewrite <-!app_assoc. cbn [app]. rewrite <-!app_assoc. cbn [app].
    by rewrite <-!app_assoc. }
  assert (exists d0 rest, text = d0 :: rest /\ is_digit d0) as (d0 & rest & Heq & [v Hv]).
  { destruct (decimal_read 5 a 0 0) as [Hall _]; [done|unfold octet in *; lia|].
    fold (decimal a) in Hall. rewrite Ht. destruct (decimal a) as [|x l] eqn:Hda.
    - exfalso. pose proof (read_octet_decimal a [] Ha I) as Hr. by rewrite Hda in Hr.
    - apply Forall_cons in Hall as [Hx _]. by exists x, (l ++ dot :: (decimal b ++ dot :: (decimal c ++ dot :: (decimal d ++ colon :: decimal port)))). }
  unfold parse_socket_addr. rewrite Heq, decide_False by (intros ->; by vm_compute in Hv). rewrite <-Heq, Ht.
  unfold parse_socket_v4. repeat (rewrite read_octet_decimal by done; cbn [mbind option_bind read_char];
    rewrite decide_True by done; cbn [mbind option_bind]).
  rewrite <-(app_nil_r (decimal port)), read_number_decimal by (try done; lia). done.
Qed.

Lemma port_mapped_range own s port : K8s.port_mapped own s = Done port -> (0 <= port <= 65535)%Z.
Proof.
  unfold K8s.port_mapped. destruct (K8s.spec s) as [sp|]; [|done]. cbn.
  destruct (K8s.ports sp) as [ps|]; [|done]. cbn. destruct (list_find _ ps) as [[i q]|]; [|done].
  intros [= <-]. pose proof (Z.mod_pos_bound (K8s.port q) 65536 ltac:(lia)). change (2 ^ 16)%Z with 65536%Z. lia.
Qed.

Lemma dot_decimal z : (0 <= z <= 65535)%Z -> dot ∉ decimal z.
Proof.
  intros Hz Hin. destruct (decimal_read 5 z 0 0) as [Hall _]; [done|lia|].
  rewrite Forall_forall in Hall. destruct (Hall _ Hin) as [d Hd]. by vm_compute in Hd.
Qed.

(** The text of a port: decimal digits, perhaps after a plus sign. *)
Definition port_text (text : list u8) (value : Z) : Prop :=
  exists digits, digits <> [] /\ Forall (fun d => 0 <= d < 10)%Z digits /\
    (text = digit <$> digits \/ text = x2b :: (digit <$> digits)) /\
    foldl (fun value d => value * 10 + d)%Z 0%Z digits = value.

(** The service's port leads to a port of the pods. *)
Definition targets (own : Z) (p : K8s.ServicePort) : Prop :=
  match K8s.target_port p with
  | Some (K8s.IntPort target) => target = own
  | Some (K8s.StringPort text) => port_text text own
  | None => False
  end.

Lemma digit_of_inv b d : digit_of b = Some d -> (0 <= d < 10)%Z /\ b = digit d.
Proof.
  unfold digit_of. destruct ((48 <=? byte_to_Z b) && (byte_to_Z b <=? 57))%Z eqn:Hb; [|done].
  apply andb_true_iff in Hb as [H1 H2]. intros [= <-]. split; [lia|]. unfold digit.
  replace (48 + (byte_to_Z b - 48))%Z with (byte_to_Z b) by lia. by rewrite byte_of_to_Z.
Qed.

Lemma read_digits_all bs value count v c :
  read_digits value count bs = (v, c, []) <->
    exists digits, bs = digit <$> digits /\ Forall (fun d => 0 <= d < 10)%Z digits /\
      v = foldl (fun value d => value * 10 + d)%Z value digits /\ c = count + length digits.
Proof.
  revert value count. induction bs as [|b bs IH]; intros value count; cbn [read_digits].
  - split; [intros [= <- <-]; exists []; split_and!; [done|constructor|done|cbn; lia]|].
    intros ([|d ds] & Heq & _ & -> & ->); [|done]. cbn. by rewrite Nat.add_0_r.
  - split.
    + destruct (digit_of b) as [d|] eqn:Hd; [|done]. apply digit_of_inv in Hd as [Hd ->].
      intros (ds & -> & Hall & -> & ->)%IH. exists (d :: ds). split_and!; [done|by constructor|done|cbn; lia].
    + intros ([|d ds] & Heq & Hall & -> & ->); [done|]. injection Heq as -> ->.
      apply Forall_cons in Hall as [Hd Hall]. rewrite digit_of_digit by done. apply IH.
      exists ds. split_and!; [done|done|done|cbn; lia].
Qed.

Lemma parse_u16_iff text own : (0 <= own <= 65535)%Z -> K8s.parse_u16 text = Some own <-> port_text text own.
Proof.
  intros Hown. unfold K8s.parse_u16, port_text.
  assert (forall bs, match read_digits 0 0 bs with
      | (_, O, _) => None
      | (value, S _, rest) => match rest with [] => if (value <=? 65535)%Z then Some value else None | _ => None end
      end = Some own <->
    exists ds, ds <> [] /\ Forall (fun d => 0 <= d < 10)%Z ds /\ bs = digit <$> ds /\
      foldl (fun value d => value * 10 + d)%Z 0%Z ds = own) as Hdigits.
  { intros bs. destruct (read_digits 0 0 bs) as [[v c] rest] eqn:Hr. split.
    - destruct c as [|c]; [done|]. destruct rest; [|done]. destruct (v <=? 65535)%Z; [|done]. intros [= ->].
      apply read_digits_all in Hr as (ds & -> & Hall & Hv & Hc). exists ds. split_and!; [by intros ->|done..].
    - intros (ds & Hne & Hall & -> & Hv).
      assert (read_digits 0 0 (digit <$> ds) = (own, length ds, [])) as Heq
        by (apply read_digits_all; exists ds; by split_and!).
      rewrite Heq in Hr. injection Hr as <- <- <-. destruct ds; [done|]. cbn [length].
      destruct (own <=? 65535)%Z eqn:Hle; [done|lia]. }
  assert (forall ds rest, digit <$> ds = x2b :: rest -> Forall (fun d => 0 <= d < 10)%Z ds -> False) as Hplus.
  { intros [|d ds] rest; [done|]. intros [= Hd _] [Hrange _]%Forall_cons.
    pose proof (digit_of_digit d Hrange) as Hx. rewrite Hd in Hx. by vm_compute in Hx. }
  destruct text as [|b text]; [|case_decide as Hb; [subst b|]]; rewrite Hdigits.
  - split; intros (ds & Hne & Hall & Heq & Hv); exists ds; [naive_solver|]. destruct Heq as [Heq|Heq]; [by split_and!|done].
  - split; intros (ds & Hne & Hall & Heq & Hv); exists ds; (split_and!; [done|done| |done]).
    + right. by rewrite Heq.
    + destruct Heq as [Heq|[= ->]]; [by destruct (Hplus ds text)|done].
  - split; intros (ds & Hne & Hall & Heq & Hv); exists ds; (split_and!; [done|done| |done]); [by left|].
    destruct Heq as [Heq|[= -> _]]; [done|done].
Qed.

Lemma matches_port_iff own p : (0 <= own <= 65535)%Z -> K8s.matches_port own p = true <-> targets own p.
Proof.
  intros Hown. unfold K8s.matches_port, targets. destruct (K8s.target_port p) as [[target|text]|]; [| |done].
  - by rewrite Z.eqb_eq.
  - rewrite bool_decide_eq_true. by apply parse_u16_iff.
Qed.

(** The first port that leads to the node's own is the one published. *)
Lemma port_mapped_first own before sp after s :
  (0 <= own <= 65535)%Z -> K8s.spec s = Some (K8s.mkServiceSpec (Some (before ++ sp :: after))) ->
  Forall (fun q => ~ targets own q) before -> targets own sp -> K8s.port_mapped own s = Done (K8s.port sp mod 2 ^ 16)%Z.
Proof.
  intros Hown Hspec Hbefore Hsp. unfold K8s.port_mapped. rewrite Hspec. cbn [expect mbind Outcome_bind K8s.ports].
  assert (list_find (fun p => K8s.matches_port own p = true) (before ++ sp :: after) = Some (length before, sp)) as ->; [|done].
  apply list_find_Some. split_and!; [by apply list_lookup_middle|by apply matches_port_iff|].
  intros j q Hq Hj. rewrite lookup_app_l in Hq by done. rewrite matches_port_iff by done.
  rewrite Forall_forall in Hbefore. by eapply Hbefore, list_elem_of_lookup_2.
Qed.

(** ** Properties *)

Section ClusterProperties.
Context (digest : list u8 -> list u8) (parse_v6 : list u8 -> option SocketAddr).
Context (get_service : string -> string -> option K8s.Service).
Context (get_endpoints : string -> string -> option K8s.Endpoints).

(** An address of a pod that has an IPv4 address and a uid, and the member it stands for. *)
Definition pod_member (mapped : Z) (a : K8s.EndpointAddress) (m : NodeId * SocketAddr) : Prop :=
  exists u o1 o2 o3 o4, K8s.target_ref a = Some (K8s.mkObjectReference (Some u)) /\
    K8s.ip a = ipv4_text o1 o2 o3 o4 /\ octet o1 /\ octet o2 /\ octet o3 /\ octet o4 /\
    m = (node_id_sha256 digest u, SocketV4 o1 o2 o3 o4 mapped).

Lemma collect_nodes_spec mapped l members nodes :
  (0 <= mapped <= 65535)%Z -> Forall2 (pod_member mapped) l members ->
  K8s.collect_nodes digest parse_v6 mapped l nodes =
    Done (foldl (fun (nodes : Members) m => <[fst m := snd m]> nodes) nodes members).
Proof.
  intros Hp Hl. revert nodes. induction Hl as [|a m l members Ha Hl IH]; intros nodes; [done|].
  destruct Ha as (u & o1 & o2 & o3 & o4 & Hu & Hip & H1 & H2 & H3 & H4 & ->). cbn [K8s.collect_nodes].
  unfold K8s.address_entry. rewrite Hu, Hip, socket_text_parsed by done. cbn. apply IH.
Qed.

(** C36: Kubernetes' answer becomes the members of the cluster: when every listed pod
    has a uid and an IPv4 address, the update is the map from the digests of the
    uids to the pods' addresses under the port that the service publishes first for
    the node's own port (cut to sixteen bits), which its target names as a number or
    as the text of one.  All pods are taken, of every subset first those that are
    not ready and then those that are, and of several with one digest the last.  The
    next update is due one interval after the last was, and [pristine_nodes] is
    the same call. *)
Theorem k8s_update_members (p : K8s.K8sClusterProvider) (s : K8s.Service) (e : K8s.Endpoints)
    (before after : list K8s.ServicePort) (sp : K8s.ServicePort) (members : list (NodeId * SocketAddr))
    (Hs : get_service (K8s.namespace p) (K8s.service p) = Some s) (Hown : (0 <= K8s.own_port p <= 65535)%Z)
    (Hspec : K8s.spec s = Some (K8s.mkServiceSpec (Some (before ++ sp :: after))))
    (Hbefore : Forall (fun q => ~ targets (K8s.own_port p) q) before) (Hsp : targets (K8s.own_port p) sp)
    (He : get_endpoints (K8s.namespace p) (K8s.service p) = Some e)
    (Hpods : Forall2 (pod_member (K8s.port sp mod 2 ^ 16))
      (concat ((fun sub => default [] (K8s.not_ready_addresses sub) ++ default [] (K8s.addresses sub)) <$>
         default [] (K8s.subsets e))) members) :
  let '(answer, p') := K8s.k8s_next_update digest parse_v6 get_service get_endpoints p in
  answer = Answered (Ok (foldl (fun (nodes : Members) m => <[fst m := snd m]> nodes) ∅ members)) /\
  K8s.next_update_at p' = (K8s.next_update_at p + K8s.poll_interval p)%Z /\
  @pristine_nodes _ (K8s.k8s_provider digest parse_v6 get_service get_endpoints) p = (answer, p').
Proof.
  cbn [pristine_nodes K8s.k8s_provider provider_of_next_update].
  pose proof (port_mapped_first _ _ _ _ _ Hown Hspec Hbefore Hsp) as Hport.
  destruct (K8s.k8s_next_update _ _ _ _ p) as [answer p'] eqn:Hu. split_and!; [|by injection Hu as _ <-|done].
  unfold K8s.k8s_next_update in Hu. rewrite Hs in Hu. cbn [expect mbind Outcome_bind] in Hu.
  rewrite Hport, He in Hu. cbn [expect mbind Outcome_bind] in Hu.
  rewrite (collect_nodes_spec _ _ members) in Hu; [by injection Hu as <- _|by eapply port_mapped_range|].
  replace (default [] (K8s.subsets e) ≫= K8s.subset_addresses) with
    (concat ((fun sub => default [] (K8s.not_ready_addresses sub) ++ default [] (K8s.addresses sub)) <$>
       default [] (K8s.subsets e))); [done|].
  clear. induction (default [] (K8s.subsets e)) as [|sub l IH]; [done|].
  cbn [fmap list_fmap concat mbind list_bind]. f_equal. exact IH.
Qed.

(** A pod with an IPv6 address, whose text has no brackets and no dots, ends the
    task that listens for membership changes: the update panics, whatever the other
    pods are. *)
Theorem k8s_ipv6_panics (p : K8s.K8sClusterProvider) (e : K8s.Endpoints) (a : K8s.EndpointAddress)
    (He : get_endpoints (K8s.namespace p) (K8s.service p) = Some e)
    (Hin : a ∈ default [] (K8s.subsets e) ≫= K8s.subset_addresses)
    (Hdots : dot ∉ K8s.ip a) (Hbracket : head (K8s.ip a) <> Some bracket) :
  fst (K8s.k8s_next_update digest parse_v6 get_service get_endpoints p) = Panicked.
Proof.
  unfold K8s.k8s_next_update. cbn [fst].
  destruct (get_service _ _) as [s|]; [|done]. cbn [expect mbind Outcome_bind].
  destruct (K8s.port_mapped (K8s.own_port p) s) as [port| |] eqn:Hport; [|done|done]. cbn [expect mbind Outcome_bind].
  rewrite He. cbn [expect mbind Outcome_bind]. generalize (∅ : Members).
  assert (K8s.address_entry digest parse_v6 port a = Panic) as Ha.
  { unfold K8s.address_entry. destruct (K8s.target_ref a) as [r|]; [|done]. cbn [expect mbind Outcome_bind].
    destruct (parse_socket_addr parse_v6 (K8s.socket_text (K8s.ip a) port)) as [addr|] eqn:Hparse; [|done].
    exfalso. unfold parse_socket_addr in Hparse.
    assert (dot ∉ K8s.socket_text (K8s.ip a) port) as Hnd.
    { unfold K8s.socket_text. rewrite elem_of_app, elem_of_cons. intros [Hd|[Hd|Hd]]; [done|done|].
      revert Hd. apply dot_decimal. by eapply port_mapped_range. }
    destruct (K8s.socket_text (K8s.ip a) port) as [|b rest] eqn:Ht; [done|].
    rewrite decide_False in Hparse.
    - by apply parse_v4_dot in Hparse.
    - intros ->. apply Hbracket. unfold K8s.socket_text in Ht. destruct (K8s.ip a); [done|]. by injection Ht as -> _. }
  intros nodes. revert nodes. clear He.
  induction (default [] (K8s.subsets e) ≫= K8s.subset_addresses) as [|x l IH]; intros nodes; [by apply not_elem_of_nil in Hin|].
  cbn [K8s.collect_nodes]. apply elem_of_cons in Hin as [<-|Hin]; [by rewrite Ha|].
  destruct (K8s.address_entry digest parse_v6 port x) as [[addr id]| |]; [|done|done]. by apply IH.
Qed.
End ClusterProperties.

Section ClusterWitnesses.
Definition sample_digest (bs : list u8) : list u8 := bs ++ replicate 32 x00.
Definition no_v6 (_ : list u8) : option SocketAddr := None.
Definition sample_k8s : K8s.K8sClusterProvider := K8s.k8s_new "default" "amq" 9559 0.
Definition sample_service : K8s.Service :=
  K8s.mkService (Some (K8s.mkServiceSpec (Some [K8s.mkServicePort 9559 (Some (K8s.IntPort 80));
    K8s.mkServicePort 80 (Some (K8s.StringPort [x39; x35; x35; x39]))]))).
Definition pod (o : Z) (u : u8) : K8s.EndpointAddress :=
  K8s.mkEndpointAddress (ipv4_text 10 0 12 o) (Some (K8s.mkObjectReference (Some [u]))).
Definition sample_endpoints : K8s.Endpoints :=
  K8s.mkEndpoints (Some [K8s.mkSubset (Some [pod 1 x01]) (Some [pod 2 x02])]).

Lemma k8s_update_members_witness :
  let '(answer, p') := K8s.k8s_next_update sample_digest no_v6 (fun _ _ => Some sample_service)
                         (fun _ _ => Some sample_endpoints) sample_k8s in
  answer = Answered (Ok (foldl (fun (nodes : Members) m => <[fst m := snd m]> nodes) ∅
    [(node_id_sha256 sample_digest [x02], SocketV4 10 0 12 2 80); (node_id_sha256 sample_digest [x01], SocketV4 10 0 12 1 80)])) /\
  K8s.next_update_at p' = (K8s.next_update_at sample_k8s + K8s.poll_interval sample_k8s)%Z /\
  @pristine_nodes _ (K8s.k8s_provider sample_digest no_v6 (fun _ _ => Some sample_service)
    (fun _ _ => Some sample_endpoints)) sample_k8s = (answer, p').
Proof.
  apply (k8s_update_members sample_digest no_v6 (fun _ _ => Some sample_service) (fun _ _ => Some sample_endpoints)
    sample_k8s sample_service sample_endpoints [K8s.mkServicePort 9559 (Some (K8s.IntPort 80))] []
    (K8s.mkServicePort 80 (Some (K8s.StringPort [x39; x35; x35; x39])))).
  - reflexivity.
  - cbn; lia.
  - reflexivity.
  - constructor; [discriminate|constructor].
  - exists [9; 5; 5; 9]%Z. split_and!; [discriminate|repeat (apply Forall_cons_2; [lia|]); constructor|by left|reflexivity].
  - reflexivity.
  - constructor; [|constructor; [|constructor]].
    + exists [x02], 10%Z, 0%Z, 12%Z, 2%Z. unfold octet. split_and!; try reflexivity; lia.
    + exists [x01], 10%Z, 0%Z, 12%Z, 1%Z. unfold octet. split_and!; try reflexivity; lia.
Defined.

Definition v6_pod : K8s.EndpointAddress :=
  K8s.mkEndpointAddress (String.list_byte_of_string "fd00::1") (Some (K8s.mkObjectReference (Some [x03]))).
Definition v6_endpoints : K8s.Endpoints := K8s.mkEndpoints (Some [K8s.mkSubset (Some [pod 1 x01; v6_pod]) None]).

Lemma k8s_ipv6_panics_witness :
  fst (K8s.k8s_next_update sample_digest no_v6 (fun _ _ => Some sample_service) (fun _ _ => Some v6_endpoints) sample_k8s) =
    Panicked.
Proof.
  apply (k8s_ipv6_panics sample_digest no_v6 (fun _ _ => Some sample_service) (fun _ _ => Some v6_endpoints) sample_k8s
    v6_endpoints v6_pod).
  - reflexivity.
  - right. left.
  - refine (bool_decide_eq_false_1 (dot ∈ K8s.ip v6_pod) _). vm_compute. reflexivity.
  - discriminate.
Defined.
End ClusterWitnesses.
