(* ===== verification/Membership.v ===== *)
(** * A node's Raft: construction, initialisation and membership

    [server/src/protocol/node/raft.rs] ([MaybeLoadingRaft]), [Node::new] and
    [Node::init_raft] of [node.rs] with the task it leaves behind, which turns the
    updates of a cluster provider into membership changes.

    openraft is a parameter: creating and initialising a Raft, its view of the
    leader, its answer to a membership change and its shutdown. *)

From stdpp Require Import relations.
From S2P Require Import Prelude Ids Interest Message Proposal Queue Topic NodeData Edge Codec EdgeNode Tasks Rpc RaftNetwork StateMachine Cluster.

(** ** MaybeLoadingRaft (raft.rs)

    The calls of [get] and [set] that are under way, each at the point it has
    reached; a step of the system is a step of one of them.  A [Notified] future
    misses the notifications sent before it was created, and [Notify] keeps no
    permit for [notify_waiters]. *)
Section Loading.
Context {Raft : Type}.

Inductive Getter : Type :=
  | GetCheck
  | GetNone
  | GetNotified
  | GetReturned (raft : Raft).

Inductive Setter : Type :=
  | SetStart (raft : Raft)
  | SetNotify
  | SetReturned.

Record MaybeLoadingRaft : Type := mkLoading {
  loading : option Raft;
  getters : list Getter;
  setters : list Setter;
}.

(** [new], with the calls that will be made. *)
Definition loading_new (gets : nat) (sets : list Raft) : MaybeLoadingRaft :=
  mkLoading None (replicate gets GetCheck) (SetStart <$> sets).

Definition get_opt (s : MaybeLoadingRaft) : option Raft := loading s.

(** A [notify_waiters] sends every waiting future back to the check. *)
Definition wake (g : Getter) : Getter := match g with GetNotified => GetCheck | _ => g end.

(** [get]: the check, the creation of the future after a failed one, the wait. *)
Definition get_step (i : nat) (s : MaybeLoadingRaft) : option MaybeLoadingRaft :=
  match getters s !! i with
  | Some GetCheck =>
      let g := match loading s with Some raft => GetReturned raft | None => GetNone end in
      Some (mkLoading (loading s) (<[i := g]> (getters s)) (setters s))
  | Some GetNone => Some (mkLoading (loading s) (<[i := GetNotified]> (getters s)) (setters s))
  | Some GetNotified | Some (GetReturned _) | None => None
  end.

(** [set]: the cell keeps its first value; only the call that filled it notifies. *)
Definition set_step (j : nat) (s : MaybeLoadingRaft) : option MaybeLoadingRaft :=
  match setters s !! j with
  | Some (SetStart raft) =>
      match loading s with
      | None => Some (mkLoading (Some raft) (getters s) (<[j := SetNotify]> (setters s)))
      | Some _ => Some (mkLoading (loading s) (getters s) (<[j := SetReturned]> (setters s)))
      end
  | Some SetNotify => Some (mkLoading (loading s) (wake <$> getters s) (<[j := SetReturned]> (setters s)))
  | Some SetReturned | None => None
  end.

Definition loading_step (s s' : MaybeLoadingRaft) : Prop :=
  exists i, get_step i s = Some s' \/ set_step i s = Some s'.

(** A schedule, [inl] a step of a [get] and [inr] one of a [set]. *)
Fixpoint loading_run (schedule : list (nat + nat)) (s : MaybeLoadingRaft) : option MaybeLoadingRaft :=
  match schedule with
  | [] => Some s
  | inl i :: schedule => get_step i s ≫= loading_run schedule
  | inr j :: schedule => set_step j s ≫= loading_run schedule
  end.
End Loading.
Arguments Getter : clear implicits.
Arguments Setter : clear implicits.
Arguments MaybeLoadingRaft : clear implicits.

(** ** Node::new *)

(** [TcpNetworkService::new], as [net_work_service] calls it. *)
Definition net_work_service `{RaftWire} (id : NodeId) (node : string) : TcpNetworkService :=
  mkService (mkNodeInfo id node) ∅ ∅ 0.

(** [Node::new]: in the runtime and with the counters of the process it is made in. *)
Definition node_new (config : NodeConfig) (rt : Runtime) (codecs : CodecRegistry)
    (message_counter endpoint_counter packet_counter : Z) : EdgeNode :=
  mkEdgeNode (mkWorld (mkNodeInner config ∅ []) rt) ∅ ∅ ∅ codecs message_counter endpoint_counter packet_counter [].

(** ** Membership *)

(** [BasicNode]: the text of an address. *)
Record BasicNode : Type := mkBasicNode { node_addr : list u8 }.
#[export] Instance BasicNode_eq_dec : EqDecision BasicNode.
Proof. solve_decision. Defined.

Definition basic_node (addr : SocketAddr) : BasicNode :=
  mkBasicNode match addr with
              | SocketV4 a b c d port => K8s.socket_text (ipv4_text a b c d) port
              | SocketV6 text => String.list_byte_of_string text
              end.

Inductive ChangeMembers : Type :=
  | AddNodes (nodes : gmap NodeId BasicNode)
  | AddVoterIds (ids : gset NodeId)
  | RemoveVoters (ids : gset NodeId)
  | RemoveNodes (ids : gset NodeId).

(** openraft's handle: what it answers and what it becomes. *)
Class RaftHandle (Raft : Type) : Type := {
  current_leader : Raft -> option NodeId;
  change_membership : ChangeMembers -> Raft -> Result () string * Raft;
  shutdown : Raft -> Raft;
  initialize : gmap NodeId BasicNode -> Raft -> Result () string * Raft;
}.

Section Listener.
Context {Raft : Type} `{RaftHandle Raft}.

(** [let _ = raft.change_membership(..).await]: an error is logged and forgotten. *)
Definition request_change (c : ChangeMembers) (raft : Raft) : Raft := snd (change_membership c raft).

(** One update of the provider, by the listener of the node [id]. *)
Definition listener_update (id : NodeId) (update : Members) (prev_members : gset NodeId) (raft : Raft) :
    gset NodeId * (Raft * list ChangeMembers) :=
  let members := basic_node <$> update in
  let now_members := dom members in
  let is_modified := negb (bool_decide (now_members = prev_members)) in
  let is_leader := bool_decide (current_leader raft = Some id) in
  let requests :=
    if is_modified && is_leader then
      let added_nodes := now_members ∖ prev_members in
      let removed_nodes := prev_members ∖ now_members in
      (if bool_decide (added_nodes = ∅) then []
       else [AddNodes (filter (fun '(i, _) => i ∈ added_nodes) members); AddVoterIds added_nodes]) ++
      (if bool_decide (removed_nodes = ∅) then []
       else [RemoveVoters removed_nodes; RemoveNodes removed_nodes])
    else [] in
  (if is_modified then now_members else prev_members,
   (foldl (fun raft c => request_change c raft) raft requests, requests)).

Record Listener : Type := mkListener {
  prev_members : gset NodeId;
  running : bool;
}.

(** What the [select!] of the loop yields. *)
Inductive ListenerEvent : Type :=
  | EvCancelled
  | EvUpdate (update : Result Members string).

Definition listener_step (id : NodeId) (ev : ListenerEvent) (l : Listener) (raft : Raft) :
    Listener * (Raft * list ChangeMembers) :=
  match ev with
  | EvCancelled => (mkListener (prev_members l) false, (shutdown raft, []))
  | EvUpdate (Err _) => (l, (raft, []))
  | EvUpdate (Ok update) =>
      let '(prev, effects) := listener_update id update (prev_members l) raft in
      (mkListener prev (running l), effects)
  end.

(** The loop, over the events it meets; [elect] is what happens to the Raft before
    each of them. *)
Fixpoint listener_run (id : NodeId) (events : list (ListenerEvent * (Raft -> Raft))) (l : Listener) (raft : Raft) :
    Listener * (Raft * list ChangeMembers) :=
  match events with
  | [] => (l, (raft, []))
  | (ev, elect) :: events =>
      if running l then
        let '(l, (raft, requests)) := listener_step id ev l (elect raft) in
        let '(l, (raft, requests')) := listener_run id events l raft in
        (l, (raft, requests ++ requests'))
      else (l, (raft, []))
  end.

(** ** Node::init_raft *)

(** The parts of a node it fills: its Raft, the network task and the listeners. *)
Record NodeRaft : Type := mkNodeRaft {
  raft_opt : option Raft;
  network_running : bool;
  listeners : list Listener;
}.

Context {P : Type} `{ClusterProvider P}.
(** [raft_config.validate()] and [Raft::new]. *)
Context (validate : Result () string) (raft_new : Result Raft string).

Definition init_raft (provider : P) (s : NodeRaft) : Awaited (Result () string) * NodeRaft :=
  match raft_opt s with
  | Some _ => (Answered (Ok ()), s)
  | None =>
      match validate with
      | Err e => (Answered (Err e), s)
      | Ok _ =>
          let s := mkNodeRaft (raft_opt s) true (listeners s) in
          match raft_new with
          | Err e => (Answered (Err e), s)
          | Ok raft =>
              match fst (pristine_nodes provider) with
              | Never => (Never, s)
              | Panicked => (Panicked, s)
              | Answered (Err e) => (Answered (Err e), s)
              | Answered (Ok nodes) =>
                  let members := basic_node <$> nodes in
                  match initialize members raft with
                  | (Err e, _) => (Answered (Err e), s)
                  | (Ok _, raft) =>
                      (Answered (Ok ()), mkNodeRaft (Some raft) true (listeners s ++ [mkListener (dom members) true]))
                  end
              end
          end
      end
  end.
End Listener.

(** ** Facts *)

Section LoadingFacts.
Context {Raft : Type}.
Implicit Type s : MaybeLoadingRaft Raft.

(** The steps, by what they do. *)
Inductive loading_move s : MaybeLoadingRaft Raft -> Prop :=
  | move_return i raft : getters s !! i = Some GetCheck -> loading s = Some raft ->
      loading_move s (mkLoading (loading s) (<[i := GetReturned raft]> (getters s)) (setters s))
  | move_miss i : getters s !! i = Some GetCheck -> loading s = None ->
      loading_move s (mkLoading (loading s) (<[i := GetNone]> (getters s)) (setters s))
  | move_wait i : getters s !! i = Some GetNone ->
      loading_move s (mkLoading (loading s) (<[i := GetNotified]> (getters s)) (setters s))
  | move_fill j raft : setters s !! j = Some (SetStart raft) -> loading s = None ->
      loading_move s (mkLoading (Some raft) (getters s) (<[j := SetNotify]> (setters s)))
  | move_late j raft raft' : setters s !! j = Some (SetStart raft) -> loading s = Some raft' ->
      loading_move s (mkLoading (loading s) (getters s) (<[j := SetReturned]> (setters s)))
  | move_notify j : setters s !! j = Some SetNotify ->
      loading_move s (mkLoading (loading s) (wake <$> getters s) (<[j := SetReturned]> (setters s))).

Lemma loading_step_move s s' : loading_step s s' <-> loading_move s s'.
Proof.
  split.
  - intros [i [Hg|Hs]].
    + unfold get_step in Hg. destruct (getters s !! i) as [[| | |r]|] eqn:Hi; simplify_eq; [|by apply move_wait].
      destruct (loading s) as [raft|] eqn:Hl; rewrite <-Hl; [by apply move_return|by apply move_miss].
    + unfold set_step in Hs. destruct (setters s !! i) as [[r| |]|] eqn:Hi; simplify_eq; [|by apply move_notify].
      destruct (loading s) as [raft|] eqn:Hl; simplify_eq; [rewrite <-Hl; by eapply move_late|by apply move_fill].
  - destruct 1 as [i r Hi Hl|i Hi Hl|i Hi|j r Hj Hl|j r r' Hj Hl|j Hj]; (exists i || exists j).
    all: unfold get_step, set_step; rewrite ?Hi, ?Hj, ?Hl; by eauto.
Qed.

Lemma move_loading s s' raft : loading_move s s' -> loading s = Some raft -> loading s' = Some raft.
Proof. destruct 1; cbn; congruence. Qed.

(** A call that has returned holds the cell's value, a notification is owed only
    after the cell was filled, and its value is one that was set. *)
Record loading_ok (sets : list Raft) s : Prop := mkLoadingOk {
  lo_returned : forall i raft, getters s !! i = Some (GetReturned raft) -> loading s = Some raft;
  lo_notify : forall j, setters s !! j = Some SetNotify -> is_Some (loading s);
  lo_start : forall j raft, setters s !! j = Some (SetStart raft) -> raft ∈ sets;
  lo_set : forall raft, loading s = Some raft -> raft ∈ sets;
}.

Lemma loading_new_ok gets sets : loading_ok sets (loading_new gets sets).
Proof.
  split; cbn; [| | |done].
  - by intros i raft [Hi _]%lookup_replicate.
  - intros j Hj. rewrite list_lookup_fmap in Hj. by destruct (sets !! j).
  - intros j raft Hj. rewrite list_lookup_fmap in Hj. destruct (sets !! j) eqn:Hs; simplify_eq/=.
    by eapply list_elem_of_lookup_2.
Qed.

Lemma move_ok sets s s' : loading_ok sets s -> loading_move s s' -> loading_ok sets s'.
Proof.
  intros [Hr Hn Hs Hv]. destruct 1 as [i r Hi Hl|i Hi Hl|i Hi|j r Hj Hl|j r r' Hj Hl|j Hj]; split; cbn; try done.
  1-3: intros k raft Hk; apply list_lookup_insert_Some in Hk as [(<- & Hk & _)|[_ Hk]]; [|by eapply Hr];
    by simplify_eq.
  - intros k raft Hk. apply Hr in Hk. congruence.
  - intros k raft Hk. apply list_lookup_insert_Some in Hk as [(_ & ? & _)|[_ Hk]]; [done|by eapply Hs].
  - intros raft [= <-]. by eapply Hs.
  - intros k raft Hk. apply list_lookup_insert_Some in Hk as [(_ & ? & _)|[_ Hk]]; [done|by eapply Hs].
  - intros k raft Hk. rewrite list_lookup_fmap in Hk. destruct (getters s !! k) as [g|] eqn:Hg; [|done].
    destruct g; simplify_eq/=. by eapply Hr.
  - intros k Hk. apply list_lookup_insert_Some in Hk as [(_ & ? & _)|[_ Hk]]; [done|by eapply Hn].
  - intros k raft Hk. apply list_lookup_insert_Some in Hk as [(_ & ? & _)|[_ Hk]]; [done|by eapply Hs].
Qed.

(** An invariant of the moves holds in every reachable state. *)
Lemma loading_reachable (P : MaybeLoadingRaft Raft -> Prop) s s' :
  (forall a b, P a -> loading_move a b -> P b) -> rtc loading_step s s' -> P s -> P s'.
Proof. intros Hstep. induction 1 as [|a b c Hab _ IH]; [done|]. intros HP. apply IH. by eapply Hstep, loading_step_move. Qed.

(** A call that waited before the cell was filled is waiting for a notification
    that is still to come, or was sent back to the check after it was filled. *)
Definition on_its_way (i : nat) s : Prop :=
  (forall j, setters s !! j = Some SetNotify -> is_Some (loading s)) /\
  ((getters s !! i = Some GetNotified /\ loading s = None) \/
   (getters s !! i = Some GetNotified /\ exists j, setters s !! j = Some SetNotify) \/
   (exists raft, loading s = Some raft /\
      (getters s !! i = Some GetCheck \/ getters s !! i = Some (GetReturned raft)))).

Lemma move_on_its_way i s s' : on_its_way i s -> loading_move s s' -> on_its_way i s'.
Proof.
  intros [Hn Hway] Hmove. unfold on_its_way. split.
  { destruct Hmove as [k r Hi Hl|k Hi Hl|k Hi|j r Hj Hl|j r r' Hj Hl|j Hj]; cbn; try done; try by intros; eexists.
    all: intros k Hk; apply list_lookup_insert_Some in Hk as [(_ & ? & _)|[_ Hk]]; [done|by eapply Hn]. }
  destruct Hmove as [k r Hi Hl|k Hi Hl|k Hi|j r Hj Hl|j r r' Hj Hl|j Hj]; cbn.
  - destruct (decide (k = i)) as [->|Hne]; [|rewrite list_lookup_insert_ne by done; exact Hway].
    rewrite list_lookup_insert_eq by (by eapply lookup_lt_Some). right. right. exists r. by split; [|right].
  - destruct (decide (k = i)) as [->|Hne]; [|rewrite list_lookup_insert_ne by done; exact Hway].
    exfalso. destruct Hway as [[? _]|[[? _]|(r & Hr & _)]]; congruence.
  - destruct (decide (k = i)) as [->|Hne]; [|rewrite list_lookup_insert_ne by done; exact Hway].
    exfalso. destruct Hway as [[? _]|[[? _]|(r & _ & [?|?])]]; congruence.
  - assert (j < length (setters s)) by (by eapply lookup_lt_Some). right.
    destruct Hway as [[Hg _]|[[Hg _]|(r' & Hr & _)]]; [| |congruence].
    all: left; split; [done|]; exists j; by apply list_lookup_insert_eq.
  - destruct Hway as [[Hg Hnone]|[[Hg [k Hk]]|Hdone]]; [congruence| |by right; right].
    right. left. split; [done|]. exists k. rewrite list_lookup_insert_ne; [done|]. intros ->. congruence.
  - right. right. destruct (Hn j Hj) as [r Hr]. exists r. split; [done|].
    rewrite list_lookup_fmap. destruct Hway as [[Hg Hnone]|[[Hg _]|(r' & Hr' & [Hg|Hg])]]; rewrite Hg; cbn.
    + by left.
    + by left.
    + by left.
    + right. congruence.
Qed.
End LoadingFacts.

Section ListenerFacts.
Context {Raft : Type} `{RaftHandle Raft}.

(** What membership changes ask for, taken over nodes and voters. *)
Definition asked (c : ChangeMembers) (cluster : gmap NodeId BasicNode * gset NodeId) :
    gmap NodeId BasicNode * gset NodeId :=
  let '(nodes, voters) := cluster in
  match c with
  | AddNodes new => (new ∪ nodes, voters)
  | AddVoterIds ids => (nodes, voters ∪ ids)
  | RemoveVoters ids => (nodes, voters ∖ ids)
  | RemoveNodes ids => (filter (fun '(i, _) => i ∉ ids) nodes, voters)
  end.

Definition asked_all (cs : list ChangeMembers) (cluster : gmap NodeId BasicNode * gset NodeId) :
    gmap NodeId BasicNode * gset NodeId := foldl (fun cluster c => asked c cluster) cluster cs.

(** A cluster of these members, all of them voters. *)
Definition cluster_of (ids : gset NodeId) (cluster : gmap NodeId BasicNode * gset NodeId) : Prop :=
  dom (fst cluster) = ids /\ snd cluster = ids.

Lemma dom_filter_in (P : gset NodeId) (m : gmap NodeId BasicNode) :
  dom (filter (fun '(i, _) => i ∈ P) m) = dom m ∩ P /\ dom (filter (fun '(i, _) => i ∉ P) m) = dom m ∖ P.
Proof.
  split; apply set_eq; intros i; rewrite ?elem_of_intersection, ?elem_of_difference, !elem_of_dom; split.
  1, 3: intros [n Hn]; apply map_lookup_filter_Some in Hn as [Hn Hp]; split; [by exists n|done].
  all: intros [[n Hn] Hp]; exists n; by apply map_lookup_filter_Some.
Qed.

Lemma update_asked id update prev raft cluster :
  current_leader raft = Some id -> cluster_of prev cluster ->
  let '(prev', (_, requests)) := listener_update id update prev raft in
  prev' = dom update /\ cluster_of (dom update) (asked_all requests cluster).
Proof.
  intros Hl [Hn Hv]. unfold listener_update. rewrite (bool_decide_true (current_leader raft = Some id)) by done.
  rewrite andb_true_r, dom_fmap_L. destruct cluster as [nodes voters]. cbn in Hn, Hv. subst voters.
  destruct (decide (dom update = prev)) as [Heq|Hne].
  { rewrite bool_decide_true by done. cbn. split; [done|]. by split; cbn; rewrite Heq. }
  rewrite bool_decide_false by done. cbn [negb]. split; [done|].
  set (added := dom update ∖ prev). set (removed := prev ∖ dom update).
  assert ((prev ∪ added) ∖ removed = dom update) as Hset.
  { apply set_eq. intros i. unfold added, removed. rewrite elem_of_difference, elem_of_union, !elem_of_difference.
    destruct (decide (i ∈ prev)), (decide (i ∈ dom update)); tauto. }
  set (new := filter (fun '(i, _) => i ∈ added) (basic_node <$> update)).
  assert (dom new = added) as Hnew.
  { unfold new. rewrite (proj1 (dom_filter_in added _)), dom_fmap_L. unfold added. set_solver. }
  assert (forall nodes' : gmap NodeId BasicNode, dom nodes' = prev ∪ added ->
    cluster_of (dom update) (asked_all
      (if bool_decide (removed = ∅) then [] else [RemoveVoters removed; RemoveNodes removed]) (nodes', prev ∪ added)))
    as Hrem.
  { intros nodes' Hnodes. case_bool_decide as Hr; cbn; unfold cluster_of; cbn [fst snd].
    - rewrite Hnodes. rewrite Hr, difference_empty_L in Hset. done.
    - by rewrite (proj2 (dom_filter_in removed nodes')), Hnodes. }
  unfold asked_all in *. rewrite foldl_app.
  destruct (decide (added = ∅)) as [Ha|Ha]; [rewrite (bool_decide_true (added = ∅)) by done
    |rewrite (bool_decide_false (added = ∅)) by done]; cbn [foldl asked].
  - assert (prev ∪ added = prev) as Hp by (by rewrite Ha, union_empty_r_L). rewrite Hp in Hrem. by apply Hrem.
  - apply Hrem. by rewrite dom_union_L, Hnew, Hn, union_comm_L.
Qed.
End ListenerFacts.

(** ** Properties *)

Section LoadingProperties.
Context {Raft : Type}.

(** However the calls interleave, every [get] that returns returns the Raft of
    the first [set] that filled the cell: all of them return the same one, it is
    one that was set, and later [set]s do not change it. *)
Theorem loading_answers_first (gets : nat) (sets : list Raft) (s : MaybeLoadingRaft Raft)
    (Hreach : rtc loading_step (loading_new gets sets) s) :
  (forall i raft, getters s !! i = Some (GetReturned raft) -> get_opt s = Some raft) /\
  (forall raft, get_opt s = Some raft -> raft ∈ sets /\ forall s', rtc loading_step s s' -> get_opt s' = Some raft).
Proof.
  assert (loading_ok sets s) as [Hr _ _ Hv].
  { eapply loading_reachable; [intros a b; apply move_ok|exact Hreach|apply loading_new_ok]. }
  split; [exact Hr|]. intros raft Hl. split; [by apply Hv|]. intros s' Hs.
  apply (loading_reachable (fun s => loading s = Some raft) s s'); [|done|done]. intros a b Ha Hm. by eapply move_loading.
Qed.

(** C28: A [get] that was already waiting when the Raft was set is not left waiting:
    in whatever state the system comes to rest after that, it has returned. *)
Theorem loading_get_woken (gets : nat) (sets : list Raft) (i : nat) (s s' : MaybeLoadingRaft Raft)
    (Hreach : rtc loading_step (loading_new gets sets) s) (Hwaits : getters s !! i = Some GetNotified)
    (Hunset : get_opt s = None) (Hrun : rtc loading_step s s') (Hset : is_Some (get_opt s'))
    (Hrest : forall s2, ~ loading_step s' s2) :
  exists raft, get_opt s' = Some raft /\ getters s' !! i = Some (GetReturned raft).
Proof.
  assert (loading_ok sets s) as [_ Hn _ _].
  { eapply loading_reachable; [intros a b; apply move_ok|exact Hreach|apply loading_new_ok]. }
  assert (on_its_way i s') as [_ Hway].
  { eapply loading_reachable; [intros a b; apply move_on_its_way|exact Hrun|]. split; [done|]. by left. }
  unfold get_opt in *. destruct Hway as [[_ Hl]|[[_ [j Hj]]|(raft & Hl & [Hg|Hg])]].
  - destruct Hset as [? Hset]. congruence.
  - destruct (Hrest (mkLoading (loading s') (wake <$> getters s') (<[j := SetReturned]> (setters s')))).
    by apply loading_step_move, move_notify.
  - destruct (Hrest (mkLoading (loading s') (<[i := GetReturned raft]> (getters s')) (setters s'))).
    by apply loading_step_move, move_return.
  - by exists raft.
Qed.

(** A [get] can wait for ever although the Raft is set: when the Raft is set
    between its check and the creation of its future, the notification is lost, and
    nothing that can happen afterwards wakes it. *)
Theorem loading_wakeup_lost (raft : Raft) :
  exists s, loading_run [inl 0; inr 0; inr 0; inl 0] (loading_new 1 [raft]) = Some s /\
    get_opt s = Some raft /\ getters s = [GetNotified] /\ setters s = [SetReturned] /\
    forall s', ~ loading_step s s'.
Proof.
  eexists. split; [reflexivity|]. split_and!; [done..|].
  intros s' Hm%loading_step_move. inversion Hm as [i r Hi|i Hi|i Hi|j r Hj|j r r' Hj|j Hj].
  all: repeat match goal with
       | i : nat |- _ => destruct i; [discriminate|cbn in *]
       end; discriminate.
Qed.
End LoadingProperties.

Section MembershipProperties.
Context {Raft : Type} `{RaftHandle Raft}.

(** The members the provider last answered. *)
Fixpoint last_members (events : list (ListenerEvent * (Raft -> Raft))) (ids : gset NodeId) : gset NodeId :=
  match events with
  | [] => ids
  | (EvUpdate (Ok update), _) :: events => last_members events (dom update)
  | (EvUpdate (Err _), _) :: events | (EvCancelled, _) :: events => last_members events ids
  end.

(** What openraft makes of the listener's requests when it accepts them all, and
    when nobody else changes its members. *)
Lemma listener_run_members id events l raft (members_of : Raft -> gmap NodeId BasicNode * gset NodeId) :
  (forall c r, members_of (request_change c r) = asked c (members_of r)) ->
  Forall (fun ev => (exists r, fst ev = EvUpdate r) /\ forall r, members_of (snd ev r) = members_of r) events ->
  let '(_, (raft', requests)) := listener_run id events l raft in
  members_of raft' = asked_all requests (members_of raft).
Proof.
  intros Haccept Hev. revert l raft. induction Hev as [|[ev elect] events [[r Hr] Hl] _ IH]; intros l raft; [done|].
  cbn in Hr, Hl. subst ev. cbn [listener_run]. destruct (running l); [|done].
  destruct r as [update|e]; cbn [listener_step].
  - unfold listener_update. set (requests := if _ && _ then _ else []). cbn zeta.
    specialize (IH (mkListener (if negb (bool_decide (dom (basic_node <$> update) = prev_members l))
      then dom (basic_node <$> update) else prev_members l) (running l))
      (foldl (fun raft c => request_change c raft) (elect raft) requests)).
    destruct (listener_run id events _ _) as [l' [raft' requests']]. rewrite IH. unfold asked_all. rewrite foldl_app. f_equal.
    rewrite <-(Hl raft). generalize (elect raft). clear -Haccept.
    induction requests as [|c cs IHc]; intros r; [done|]. cbn [foldl]. by rewrite IHc, Haccept.
  - specialize (IH l (elect raft)). destruct (listener_run id events l (elect raft)) as [l' [raft' requests']].
    by rewrite IH, Hl.
Qed.

(** C22: A leader asks for its provider's members: over any sequence of answers and
    errors of the provider during which the node leads, the changes it asks for are
    those that turn a cluster of the initial members, all voters, into a cluster of
    the members last answered, all voters, with no other node left in it.  So if
    openraft accepts each of them, and nobody else changes its members, its members
    are those last answered; a change it refuses is not asked for again, as
    [membership_change_lost] says. *)
Theorem listener_tracks_provider (id : NodeId) (events : list (ListenerEvent * (Raft -> Raft)))
    (prev : gset NodeId) (raft : Raft) (cluster : gmap NodeId BasicNode * gset NodeId)
    (Hleads : Forall (fun ev => (exists r, fst ev = EvUpdate r) /\ forall raft, current_leader (snd ev raft) = Some id) events)
    (Hstart : cluster_of prev cluster) :
  let '(l, (raft', requests)) := listener_run id events (mkListener prev true) raft in
  l = mkListener (last_members events prev) true /\
  cluster_of (last_members events prev) (asked_all requests cluster) /\
  forall members_of : Raft -> gmap NodeId BasicNode * gset NodeId,
    (forall c r, members_of (request_change c r) = asked c (members_of r)) ->
    Forall (fun ev => forall r, members_of (snd ev r) = members_of r) events -> members_of raft = cluster ->
    cluster_of (last_members events prev) (members_of raft').
Proof.
  assert (let '(l, (_, requests)) := listener_run id events (mkListener prev true) raft in
    l = mkListener (last_members events prev) true /\
    cluster_of (last_members events prev) (asked_all requests cluster)) as Hasked.
  { revert prev raft cluster Hstart. induction Hleads as [|[ev elect] events [[r Hr] Hl] _ IH]; intros prev raft cluster Hstart;
      [done|]. cbn in Hr, Hl. subst ev. cbn [listener_run running last_members].
    destruct r as [update|e]; cbn [listener_step prev_members running].
    - pose proof (update_asked id update prev (elect raft) cluster (Hl raft) Hstart) as Hu.
      destruct (listener_update id update prev (elect raft)) as [prev' [raft' requests]]. destruct Hu as [-> Hu].
      specialize (IH (dom update) raft' (asked_all requests cluster) Hu).
      destruct (listener_run id events _ raft') as [l [raft2 requests']]. destruct IH as [-> Hc]. split; [done|].
      unfold asked_all in *. by rewrite foldl_app.
    - specialize (IH prev (elect raft) cluster Hstart).
      by destruct (listener_run id events _ (elect raft)) as [l [raft2 requests']]. }
  pose proof (listener_run_members id events (mkListener prev true) raft) as Hmembers.
  destruct (listener_run id events (mkListener prev true) raft) as [l [raft' requests]]. destruct Hasked as [-> Hasked].
  split_and!; [done|done|]. intros members_of Haccept Hquiet <-. rewrite (Hmembers members_of Haccept); [done|].
  rewrite Forall_forall in Hleads. rewrite Forall_forall in Hquiet. apply Forall_forall. intros ev Hin.
  split; [by apply Hleads|by apply Hquiet].
Qed.

Lemma update_same id update raft : listener_update id update (dom update) raft = (dom update, (raft, [])).
Proof. unfold listener_update. rewrite dom_fmap_L, bool_decide_true by done. done. Qed.

Lemma listener_settled id events ids run raft :
  Forall (fun ev => forall update, fst ev = EvUpdate (Ok update) -> dom update = ids) events ->
  snd (snd (listener_run id events (mkListener ids run) raft)) = [].
Proof.
  intros Hev. revert run raft. induction Hev as [|[ev elect] events He _ IH]; intros run raft; [done|].
  cbn [listener_run running]. destruct run; [|done]. cbn in He. destruct ev as [|[update|e]]; cbn [listener_step].
  - cbn [prev_members]. specialize (IH false (shutdown (elect raft))).
    by destruct (listener_run id events _ _) as [? [? ?]].
  - cbn [prev_members running]. rewrite <-(He update eq_refl), update_same, (He update eq_refl).
    specialize (IH true (elect raft)).
    by destruct (listener_run id events _ _) as [? [? ?]].
  - specialize (IH true (elect raft)). by destruct (listener_run id events _ _) as [? [? ?]].
Qed.

(** A change of members is asked for once or never.  When the provider answers
    new members and goes on answering the same ids, all that is ever asked is what
    is asked in the first round, whether openraft refused it or not and whatever
    addresses the members move to; and when the node does not lead in that round,
    nothing is asked at all, even if it leads later. *)
Theorem membership_change_lost (id : NodeId) (update : Members) (elect : Raft -> Raft)
    (events : list (ListenerEvent * (Raft -> Raft))) (prev : gset NodeId) (raft : Raft)
    (Hsame : Forall (fun ev => forall update', fst ev = EvUpdate (Ok update') -> dom update' = dom update) events) :
  let requests := snd (snd (listener_run id ((EvUpdate (Ok update), elect) :: events) (mkListener prev true) raft)) in
  requests = snd (snd (listener_update id update prev (elect raft))) /\
  (current_leader (elect raft) <> Some id -> requests = []).
Proof.
  cbn [listener_run running listener_step prev_members].
  assert (fst (listener_update id update prev (elect raft)) = dom update) as Hprev.
  { unfold listener_update. rewrite dom_fmap_L. cbn [fst]. by case_bool_decide. }
  destruct (listener_update id update prev (elect raft)) as [prev' [raft' requests]] eqn:Hu. cbn [fst snd] in *. subst prev'.
  pose proof (listener_settled id events (dom update) true raft' Hsame) as Hs.
  destruct (listener_run id events _ raft') as [l [raft2 requests']]. cbn [snd] in *. subst requests'.
  rewrite app_nil_r. split; [done|]. intros Hl. unfold listener_update in Hu.
  rewrite (bool_decide_false (current_leader _ = _)), andb_false_r in Hu by done. by injection Hu as _ _ <-.
Qed.

(** [init_raft] sets the node's Raft and starts a listener exactly when it
    succeeds, and then the listener starts from the members the Raft was
    initialised with; on every error, and while the provider does not answer, the
    node is left without a Raft and without a listener, and the call can be made
    again; once it has succeeded, further calls change nothing. *)
Theorem init_raft_spec {P : Type} `{ClusterProvider P} (validate : Result () string) (raft_new : Result Raft string)
    (provider : P) (s : NodeRaft) :
  let '(answer, s') := init_raft validate raft_new provider s in
  match raft_opt s with
  | Some _ => answer = Answered (Ok ()) /\ s' = s
  | None =>
      (answer = Answered (Ok ()) /\ exists raft nodes raft',
         raft_new = Ok raft /\ fst (pristine_nodes provider) = Answered (Ok nodes) /\
         initialize (basic_node <$> nodes) raft = (Ok (), raft') /\
         s' = mkNodeRaft (Some raft') true (listeners s ++ [mkListener (dom nodes) true])) \/
      (answer <> Answered (Ok ()) /\ raft_opt s' = None /\ listeners s' = listeners s)
  end.
Proof.
  unfold init_raft. destruct (raft_opt s) as [raft|] eqn:Hopt; [done|].
  destruct validate as [u|e]; [|by right]. destruct raft_new as [raft|e]; [|by right].
  destruct (fst (pristine_nodes provider)) as [[nodes|e]| |]; [|by right..].
  destruct (initialize (basic_node <$> nodes) raft) as [[u'|e] raft'] eqn:Hi; [|by right].
  left. split; [done|]. destruct u'. exists raft, nodes, raft'. by rewrite dom_fmap_L.
Qed.
End MembershipProperties.

(** A new node starts in a state the other components rely on: it knows no
    topic, no edge node and no route, has nothing to commit, owes no
    acknowledgement to anybody, and its replicated state is well formed. *)
Theorem node_new_ok `{RaftWire, OpenraftMembership} (config : NodeConfig) (addr : string) (codecs : CodecRegistry) (mc ec pc : Z) :
  let n := node_new config (mkRuntime ∅ ∅ 0 [] 0) codecs mc ec pc in
  let s := net_work_service (edge_node_id n) addr in
  pools_ok (edge_world n) /\ node_wf (sm_node (state_machine store_new)) /\
  edge_node_id n = config_id config /\ info s = mkNodeInfo (config_id config) addr /\
  (forall code, get_topic code (edge_world n) = None) /\
  (forall peer, get_edge_connection peer n = None /\ is_connected peer s = false) /\
  (forall ep, get_edge_routing ep n = None) /\
  swap_out_durable_commands (edge_world n) = ([], edge_world n).
Proof.
  split_and!; try done.
Qed.

Section MembershipWitnesses.

Lemma loading_step_get {Raft : Type} (i : nat) (s s' : MaybeLoadingRaft Raft) : get_step i s = Some s' -> loading_step s s'.
Proof. intros Hs. exists i. by left. Qed.
Lemma loading_step_set {Raft : Type} (i : nat) (s s' : MaybeLoadingRaft Raft) : set_step i s = Some s' -> loading_step s s'.
Proof. intros Hs. exists i. by right. Qed.

(** Two calls of [set], the first of which wins, and a [get]. *)
Definition set_twice : MaybeLoadingRaft nat := mkLoading (Some 7) [GetReturned 7] [SetReturned; SetNotify].

Lemma set_twice_reached : rtc loading_step (loading_new 1 [8; 7]) set_twice.
Proof.
  eapply rtc_l; [by apply (loading_step_set 1)|].
  eapply rtc_l; [by apply (loading_step_set 0)|].
  eapply rtc_l; [by apply (loading_step_get 0)|]. apply rtc_refl.
Qed.

Lemma loading_answers_first_witness :
  (forall i raft, getters set_twice !! i = Some (GetReturned raft) -> get_opt set_twice = Some raft) /\
  (forall raft, get_opt set_twice = Some raft ->
     raft ∈ [8; 7] /\ forall s', rtc loading_step set_twice s' -> get_opt s' = Some raft).
Proof. exact (loading_answers_first 1 [8; 7] set_twice set_twice_reached). Defined.

Definition get_waits : MaybeLoadingRaft nat := mkLoading None [GetNotified] [SetStart 7].
Definition get_done : MaybeLoadingRaft nat := mkLoading (Some 7) [GetReturned 7] [SetReturned].

Lemma get_waits_reached : rtc loading_step (loading_new 1 [7]) get_waits.
Proof.
  eapply rtc_l; [by apply (loading_step_get 0)|]. eapply rtc_l; [by apply (loading_step_get 0)|]. apply rtc_refl.
Qed.

Lemma get_done_reached : rtc loading_step get_waits get_done.
Proof.
  eapply rtc_l; [by apply (loading_step_set 0)|]. eapply rtc_l; [by apply (loading_step_set 0)|].
  eapply rtc_l; [by apply (loading_step_get 0)|]. apply rtc_refl.
Qed.

Lemma loading_get_woken_witness :
  exists raft, get_opt get_done = Some raft /\ getters get_done !! 0 = Some (GetReturned raft).
Proof.
  apply (loading_get_woken 1 [7] 0 get_waits get_done get_waits_reached).
  - reflexivity.
  - reflexivity.
  - exact get_done_reached.
  - eexists. reflexivity.
  - intros s2 [i [Hs|Hs]]; destruct i as [|[|i]]; discriminate Hs.
Defined.

(** A Raft that is its leader and its members, and accepts all changes. *)
Definition Recording : Type := option NodeId * (gmap NodeId BasicNode * gset NodeId).
#[local] Instance recording_raft : RaftHandle Recording := {|
  current_leader raft := fst raft;
  change_membership c raft := (Ok (), (fst raft, asked c (snd raft)));
  shutdown raft := raft;
  initialize _ raft := (Ok (), raft);
|}.

Definition addr (o : Z) : SocketAddr := SocketV4 10 0 0 o 9559.
Definition elect_me : Recording -> Recording := fun raft => (Some (Sample.nid x01), snd raft).
Definition elect_nobody : Recording -> Recording := fun raft => (None, snd raft).
Definition one_member : Members := {[Sample.nid x01 := addr 1]}.
Definition two_members : Members := <[Sample.nid x02 := addr 2]> one_member.
Definition member_events : list (ListenerEvent * (Recording -> Recording)) :=
  [(EvUpdate (Ok two_members), elect_me); (EvUpdate (Err "timeout"), elect_me); (EvUpdate (Ok one_member), elect_me);
   (EvUpdate (Ok two_members), elect_me)].
Definition one_node : gmap NodeId BasicNode := {[Sample.nid x01 := basic_node (addr 1)]}.
Definition start_raft : Recording := (None, (one_node, {[Sample.nid x01]})).

Lemma listener_tracks_provider_witness :
  let '(l, (raft', requests)) :=
    listener_run (Sample.nid x01) member_events (mkListener {[Sample.nid x01]} true) start_raft in
  l = mkListener (last_members member_events {[Sample.nid x01]}) true /\
  cluster_of (last_members member_events {[Sample.nid x01]}) (asked_all requests (one_node, {[Sample.nid x01]})) /\
  cluster_of (last_members member_events {[Sample.nid x01]}) (snd raft').
Proof.
  pose proof (listener_tracks_provider (Sample.nid x01) member_events {[Sample.nid x01]} start_raft
    (one_node, {[Sample.nid x01]})) as Ht.
  destruct (listener_run _ _ _ _) as [l [raft' requests]].
  destruct Ht as (Hl & Hasked & Hmembers).
  - repeat (apply Forall_cons_2; [split; [by eexists|done]|]). constructor.
  - split; [|reflexivity]. apply dom_singleton_L.
  - split; [exact Hl|]. split; [exact Hasked|]. apply Hmembers; [done| |done].
    repeat (apply Forall_cons_2; [done|]). constructor.
Defined.

Lemma membership_change_lost_witness :
  let requests := snd (snd (listener_run (Sample.nid x01)
    ((EvUpdate (Ok two_members), elect_nobody) :: [(EvUpdate (Ok two_members), elect_me)])
    (mkListener {[Sample.nid x01]} true) start_raft)) in
  requests = snd (snd (listener_update (Sample.nid x01) two_members {[Sample.nid x01]} (elect_nobody start_raft))) /\
  (current_leader (elect_nobody start_raft) <> Some (Sample.nid x01) -> requests = []).
Proof.
  apply (membership_change_lost (Sample.nid x01) two_members elect_nobody [(EvUpdate (Ok two_members), elect_me)]
    {[Sample.nid x01]} start_raft).
  constructor; [|constructor]. intros update' Hu. injection Hu as <-. reflexivity.
Defined.
End MembershipWitnesses.
