(* ===== verification/Handshake.v ===== *)
(** * The handshake of the Raft transport, and the listening task

    The beginning of [RaftTcpConnection::from_tokio_tcp_stream] and
    [TcpNetworkService::run] of [raft/network_factory.rs], [create_connection] and
    [new_client] of the clients it makes: two nodes that connect tell each other
    who they are, and the listener does this with one stream after another. *)

From S2P Require Import Prelude Ids Interest Message Proposal Rpc RaftNetwork Cluster.

Section Handshake.
Context `{RaftWire}.
(** bincode on [RaftNodeInfo]. *)
Context (serialize_info : RaftNodeInfo -> option (list u8)) (deserialize_info : list u8 -> option RaftNodeInfo).

(** A stream as far as it is known: what has arrived, whether the peer has closed
    its side, and whether writing works. *)
Record Stream : Type := mkStream {
  arrived : list u8;
  closed : bool;
  writable : bool;
}.

(** What is written first: the length and the bincode of the node's own info. *)
Definition hello (packet : list u8) : list u8 :=
  to_be_bytes 4 (as_u32 (Z.of_nat (length packet))) ++ packet.

(** A read of exactly [n] bytes: an error at the end of the stream, a wait
    otherwise. *)
Definition await_exact {A} (n : nat) (s : Stream) (k : list u8 -> Stream -> Awaited (Result A string)) :
    Awaited (Result A string) :=
  match read_exact n (arrived s) with
  | Some (data, rest) => k data (mkStream rest (closed s) (writable s))
  | None => if closed s then Answered (Err "unexpected end of file") else Never
  end.

(** Up to the hello of the peer; the answer is the new connection and the stream
    its read task starts on.  [raft_set] is whether the node's Raft is there: the
    function waits for it before anything else. *)
Definition from_tokio_tcp_stream (raft_set : bool) (info : RaftNodeInfo) (stream : Stream) :
    Awaited (Result (RaftTcpConnection * Stream) string) :=
  if negb raft_set then Never
  else match serialize_info info with
       | None => Answered (Err "invalid data")
       | Some _ =>
           if negb (writable stream) then Answered (Err "write error")
           else
             await_exact 4 stream (fun hello_size stream =>
             await_exact (Z.to_nat (from_be_bytes hello_size)) stream (fun hello_data stream =>
             match deserialize_info hello_data with
             | None => Answered (Err "invalid data")
             | Some peer => Answered (Ok (connection_new peer, stream))
             end))
       end.

(** [TcpNetwork], as [new_client] makes it for a target. *)
Record TcpNetwork : Type := mkTcpNetwork { network_peer : RaftNodeInfo }.
Definition new_client (target : NodeId) (node : string) : TcpNetwork := mkTcpNetwork (mkNodeInfo target node).

(** [TcpNetwork::create_connection]; [dial] is the stream [TcpStream::connect] gives,
    if it does. *)
Definition create_connection (raft_set : bool) (dial : string -> Result Stream string) (info : RaftNodeInfo)
    (network : TcpNetwork) : Awaited (Result RaftTcpConnection Unreachable) :=
  match dial (info_addr (network_peer network)) with
  | Err e => Answered (Err (ConnectFailed e))
  | Ok stream =>
      match from_tokio_tcp_stream raft_set info stream with
      | Never => Never
      | Panicked => Panicked
      | Answered (Err e) => Answered (Err (ConnectFailed e))
      | Answered (Ok (connection, _)) => Answered (Ok connection)
      end
  end.

(** The loop of [run] on the streams the listener accepts, a failed [accept] being
    [None]: the handshake is part of the loop.  The second component is the streams
    it has not taken when it comes to a wait. *)
Fixpoint accept_loop (raft_set : bool) (accepted : list (option Stream)) (s : TcpNetworkService) :
    TcpNetworkService * list (option Stream) :=
  match accepted with
  | [] => (s, [])
  | None :: accepted => accept_loop raft_set accepted s
  | Some stream :: accepted =>
      match from_tokio_tcp_stream raft_set (info s) stream with
      | Never | Panicked => (s, accepted)
      | Answered (Err _) => accept_loop raft_set accepted s
      | Answered (Ok (connection, _)) => accept_loop raft_set accepted (accept_connection connection s)
      end
  end.

(** [TcpNetworkService::run]: the task is created once, whatever becomes of it; it
    binds its address and runs the loop.  [started] is whether [service_task] is set. *)
Definition service_run (bind : Result () string) (raft_set : bool) (accepted : list (option Stream)) (started : bool)
    (s : TcpNetworkService) : bool * (TcpNetworkService * list (option Stream)) :=
  (true,
   if started then (s, accepted)
   else match bind with
        | Err _ => (s, accepted)
        | Ok _ => accept_loop raft_set accepted s
        end).

(** ** Facts *)

Lemma read_exact_short n bs : length bs < n -> read_exact n bs = None.
Proof. intros Hl. unfold read_exact. by rewrite decide_False by lia. Qed.

Lemma accept_info c s : info (accept_connection c s) = info s.
Proof. unfold accept_connection. by repeat case_match. Qed.

(** The connections the handshakes yield, in order. *)
Definition shaken (i : RaftNodeInfo) (accepted : list (option Stream)) : list RaftTcpConnection :=
  omap (fun o => stream ← o;
          match from_tokio_tcp_stream true i stream with
          | Answered (Ok (connection, _)) => Some connection
          | _ => None
          end) accepted.

(** A node whose address cannot be bound goes on without a listener: [run] says
    nothing of it, and to call it again does not bind again. *)
Lemma failed_bind_never_listens e bind raft_set accepted s :
  let '(started, (s', waiting)) := service_run (Err e) raft_set accepted false s in
  s' = s /\ waiting = accepted /\ service_run bind raft_set waiting started s' = (true, (s, accepted)).
Proof. done. Qed.

(** ** Properties *)

(** C26: Two nodes learn who the other is, however the bytes arrive.  Of what a peer
    writes, its hello and then its frames, a node that has received less than the
    hello waits, or fails if the stream is closed; as soon as it has the hello, it
    has a connection to exactly that peer, and its read task starts at the first
    frame.  Before its own Raft is set it does not even begin. *)
Theorem handshake_roundtrip (mine theirs : RaftNodeInfo) (my_bytes their_bytes frames : list u8) (k : nat)
    (is_closed : bool)
    (Hmine : serialize_info mine = Some my_bytes) (Htheirs : serialize_info theirs = Some their_bytes)
    (Hback : deserialize_info their_bytes = Some theirs) (Hlen : (Z.of_nat (length their_bytes) < 2 ^ 32)%Z) :
  let stream := mkStream (take k (hello their_bytes ++ frames)) is_closed true in
  from_tokio_tcp_stream false mine stream = Never /\
  from_tokio_tcp_stream true mine stream =
    if decide (length (hello their_bytes) <= k)
    then Answered (Ok (connection_new theirs, mkStream (take (k - length (hello their_bytes)) frames) is_closed true))
    else if is_closed then Answered (Err "unexpected end of file") else Never.
Proof.
  intros stream. split; [done|]. unfold from_tokio_tcp_stream. rewrite Hmine. cbn [negb writable stream].
  unfold stream, hello, as_u32. rewrite Z.mod_small by lia.
  set (size := to_be_bytes 4 (Z.of_nat (length their_bytes))).
  assert (length size = 4) as Hsize by apply length_to_be_bytes.
  assert (from_be_bytes size = Z.of_nat (length their_bytes)) as Hval by (apply from_to_be_bytes; cbn; lia).
  unfold await_exact. cbn [arrived closed writable].
  destruct (decide (4 <= k)) as [H4|H4].
  2: { rewrite read_exact_short by (rewrite length_take; lia). rewrite decide_False; [done|]. rewrite length_app. lia. }
  rewrite <-app_assoc, take_app_ge by lia. rewrite read_exact_app by done. cbn [arrived closed writable].
  rewrite Hval, Nat2Z.id, Hsize, length_app, Hsize.
  destruct (decide (4 + length their_bytes <= k)) as [Hk|Hk].
  - rewrite take_app_ge by lia. rewrite read_exact_app by done. rewrite Hback. by rewrite Nat.sub_add_distr.
  - by rewrite read_exact_short by (rewrite length_take; lia).
Qed.

(** The listener takes every stream whose handshake ends, in order, and offers
    each connection to the table; but a peer that connects and says nothing stops
    it: no stream that comes after is taken, whatever it carries. *)
Theorem accept_loop_spec (accepted later : list (option Stream)) (silent : Stream) (s : TcpNetworkService)
    (Hends : Forall (fun o => forall stream, o = Some stream ->
       exists r, from_tokio_tcp_stream true (info s) stream = Answered r) accepted)
    (Hsilent : arrived silent = [] /\ closed silent = false /\ writable silent = true)
    (Hown : is_Some (serialize_info (info s))) :
  let served := foldl (fun s c => accept_connection c s) s (shaken (info s) accepted) in
  accept_loop true accepted s = (served, []) /\
  accept_loop true (accepted ++ Some silent :: later) s = (served, later).
Proof.
  revert s Hends Hown. induction accepted as [|o accepted IH]; intros s Hends Hown; cbn zeta.
  - split; [done|]. cbn. unfold from_tokio_tcp_stream. destruct Hown as [b ->], Hsilent as (Ha & Hc & Hw).
    rewrite Hw. cbn [negb]. unfold await_exact. by rewrite Ha, read_exact_short, Hc by (cbn; lia).
  - apply Forall_cons in Hends as [Ho Hends]. destruct o as [stream|]; cbn [accept_loop app shaken omap list_omap mbind option_bind].
    2: by apply IH.
    destruct (Ho stream eq_refl) as [[[c rest]|e] Hr]; rewrite Hr.
    + rewrite <-(accept_info c s) in Hends, Hown. destruct (IH (accept_connection c s) Hends Hown) as [IH1 IH2].
      rewrite accept_info in IH1, IH2. by rewrite IH1, IH2.
    + by apply IH.
Qed.
End Handshake.

Section HandshakeWitnesses.
#[local] Existing Instance sample_wire.

(** An info with an empty address, as the bytes of the id. *)
Definition info_bytes (i : RaftNodeInfo) : option (list u8) := Some (node_id_bytes (info_id i)).
Definition info_of_bytes (bs : list u8) : option RaftNodeInfo := Some (mkNodeInfo (mkNodeId bs) "").
Definition node_info (b : u8) : RaftNodeInfo := mkNodeInfo (Sample.nid b) "".

(** The hello and the first byte of a frame have arrived. *)
Lemma handshake_roundtrip_witness :
  let their_bytes := node_id_bytes (Sample.nid x01) in
  let stream := mkStream (take 21 (hello their_bytes ++ [x00; x00])) false true in
  from_tokio_tcp_stream info_bytes info_of_bytes false (node_info x02) stream = Never /\
  from_tokio_tcp_stream info_bytes info_of_bytes true (node_info x02) stream =
    if decide (length (hello their_bytes) <= 21)
    then Answered (Ok (connection_new (node_info x01),
      mkStream (take (21 - length (hello their_bytes)) [x00; x00]) false true))
    else Never.
Proof.
  apply (handshake_roundtrip info_bytes info_of_bytes (node_info x02) (node_info x01) (node_id_bytes (Sample.nid x02))
    (node_id_bytes (Sample.nid x01)) [x00; x00] 21 false).
  - reflexivity.
  - reflexivity.
  - reflexivity.
  - reflexivity.
Defined.

Definition said_hello (b : u8) : Stream := mkStream (hello (node_id_bytes (Sample.nid b))) false true.
Definition says_nothing : Stream := mkStream [] false true.

Lemma accept_loop_spec_witness :
  let s := mkService (node_info x09) ∅ ∅ 0 in
  let served := foldl (fun s c => accept_connection c s) s
    (shaken info_bytes info_of_bytes (node_info x09) [Some (said_hello x01); None]) in
  accept_loop info_bytes info_of_bytes true [Some (said_hello x01); None] s = (served, []) /\
  accept_loop info_bytes info_of_bytes true ([Some (said_hello x01); None] ++ Some says_nothing :: [Some (said_hello x02)]) s =
    (served, [Some (said_hello x02)]).
Proof.
  apply (accept_loop_spec info_bytes info_of_bytes [Some (said_hello x01); None] [Some (said_hello x02)] says_nothing
    (mkService (node_info x09) ∅ ∅ 0)).
  - constructor; [|constructor; [|constructor]]; intros stream Hs; [|discriminate Hs].
    injection Hs as <-. eexists. vm_compute. reflexivity.
  - split; [|split]; reflexivity.
  - eexists. reflexivity.
Defined.
End HandshakeWitnesses.
