(* ===== verification/Sdk.v ===== *)
(** * The Rust client of an edge node

    [sdk/rust/src/{node,endpoint,error}.rs]: a client that sends edge requests over
    a web socket, its two tasks, the pool of callers that wait for responses, and
    the mailboxes of its endpoints.  The socket carries JSON texts; here the wire
    carries the payloads themselves, in order. *)

From S2P Require Import Prelude Ids Interest Message Proposal Edge Codec EdgeNode Rpc.

(** ** Errors (error.rs); an error of the web socket or of I/O is known by its text. *)

Inductive ClientErrorKind : Type :=
  | UnexpectedResponse (resp : EdgeResponseEnum)
  | ClientEdge (e : EdgeError)
  | ClientWs (e : string)
  | NoConnection (req : EdgeRequestEnum)
  | Disconnected
  | ClientIo (e : string)
  | ClientWaitAck (e : WaitAckError).

Record ClientNodeError : Type := mkClientError { client_error_kind : ClientErrorKind }.

Definition unexpected_response (response : EdgeResponseEnum) : ClientNodeError :=
  mkClientError (UnexpectedResponse response).
Definition disconnected : ClientNodeError := mkClientError Disconnected.
(** The [From] conversions that [?] applies. *)
Definition client_error_from_wait_ack (e : WaitAckError) : ClientNodeError := mkClientError (ClientWaitAck e).
Definition client_error_from_ws (e : string) : ClientNodeError := mkClientError (ClientWs e).
Definition client_error_from_edge (value : EdgeError) : ClientNodeError := mkClientError (ClientEdge value).

(** [Display], over the derived [Debug] of what the kinds carry. *)
Section ErrorText.
Context (debug_response : EdgeResponseEnum -> string) (debug_edge : EdgeError -> string).
Context (debug_request : EdgeRequestEnum -> string) (debug_wait_ack : WaitAckError -> string).

Definition client_error_kind_text (k : ClientErrorKind) : string :=
  match k with
  | UnexpectedResponse response => "Unexpected response: " +:+ debug_response response
  | ClientEdge e => "Edge error: " +:+ debug_edge e
  | ClientWs e => "WebSocket error: " +:+ e
  | NoConnection req => "No connection for request: " +:+ debug_request req
  | Disconnected => "Disconnected"
  | ClientIo e => "IO error: " +:+ e
  | ClientWaitAck e => "WaitAck error: " +:+ debug_wait_ack e
  end.
Definition client_error_text (e : ClientNodeError) : string := client_error_kind_text (client_error_kind e).
End ErrorText.

(** What a responder sends, and what a caller finds at its receiver: nothing once
    the responder is dropped. *)
Abbreviation Answer := (Result EdgeResponseEnum EdgeError).

(** [ClientNodeInner] with its shared pools: [sender] holds the requests on their
    way to the transmitting task, [sender_closed] that this task has ended;
    [endpoint_map] the senders of the mailboxes, which are in [mailbox_heap] as
    long as their receivers live; [receivers] what the callers have got. *)
Record ClientNode : Type := mkClient {
  sender : list (EdgeRequest * loc);
  sender_closed : bool;
  endpoint_map : gmap EndpointAddr loc;
  mailbox_heap : gmap loc (list Message);
  seq : Z;
  response_pool : gmap Z loc;
  receivers : gmap loc (option Answer);
  next_receiver : loc;
}.

Definition set_sender (l : list (EdgeRequest * loc)) (c : ClientNode) : ClientNode :=
  mkClient l (sender_closed c) (endpoint_map c) (mailbox_heap c) (seq c) (response_pool c) (receivers c)
    (next_receiver c).
Definition set_endpoints (m : gmap EndpointAddr loc) (h : gmap loc (list Message)) (c : ClientNode) : ClientNode :=
  mkClient (sender c) (sender_closed c) m h (seq c) (response_pool c) (receivers c) (next_receiver c).
Definition set_pool (p : gmap Z loc) (r : gmap loc (option Answer)) (c : ClientNode) : ClientNode :=
  mkClient (sender c) (sender_closed c) (endpoint_map c) (mailbox_heap c) (seq c) p r (next_receiver c).

(** A client that has just connected. *)
Definition client_connected : ClientNode := mkClient [] false ∅ ∅ 0 ∅ ∅ 0.

(** ** Requests *)

(** [send_request], up to its wait: [fetch_add] on an [AtomicU32] wraps. *)
Definition send_request (request : EdgeRequestEnum) (c : ClientNode) : Result loc ClientNodeError * ClientNode :=
  let rx := next_receiver c in
  let request' := mkEdgeRequest (seq c) request in
  let c := mkClient (sender c) (sender_closed c) (endpoint_map c) (mailbox_heap c) (u32_wrapping_add (seq c) 1)
             (response_pool c) (<[rx := None]> (receivers c)) (S rx) in
  if sender_closed c then (Err (mkClientError (NoConnection request)), c)
  else (Ok rx, set_sender (sender c ++ [(request', rx)]) c).

(** The wait: [rx.await.map_err(disconnected)??]. *)
Definition await_response (answer : option Answer) : Result EdgeResponseEnum ClientNodeError :=
  match answer with
  | None => Err disconnected
  | Some (Err e) => Err (client_error_from_edge e)
  | Some (Ok response) => Ok response
  end.

(** The ends of the five calls, each of which expects the response of its kind. *)
Definition finish_send_message (answer : option Answer) : Result WaitAckSuccess ClientNodeError :=
  match await_response answer with
  | Err e => Err e
  | Ok (RespSendMessage edge_result) =>
      match edge_result_into_std edge_result with
      | Ok wait_ack => Ok wait_ack
      | Err e => Err (client_error_from_wait_ack e)
      end
  | Ok response => Err (unexpected_response response)
  end.
Definition finish_ep_online (answer : option Answer) : Result EndpointAddr ClientNodeError :=
  match await_response answer with
  | Err e => Err e
  | Ok (RespEndpointOnline ep_addr) => Ok ep_addr
  | Ok response => Err (unexpected_response response)
  end.
Definition finish_ep_offline (answer : option Answer) : Result () ClientNodeError :=
  match await_response answer with
  | Err e => Err e
  | Ok RespEndpointOffline => Ok ()
  | Ok response => Err (unexpected_response response)
  end.
Definition finish_ep_interests (answer : option Answer) : Result () ClientNodeError :=
  match await_response answer with
  | Err e => Err e
  | Ok RespEndpointInterest => Ok ()
  | Ok response => Err (unexpected_response response)
  end.
Definition finish_single_ack (answer : option Answer) : Result () ClientNodeError :=
  match await_response answer with
  | Err e => Err e
  | Ok RespSetState => Ok ()
  | Ok response => Err (unexpected_response response)
  end.

(** The requests the calls send. *)
Definition send_message_request (message : EdgeMessage) : EdgeRequestEnum := ReqSendMessage message.
Definition send_ep_online_request (topic_code : TopicCode) (interests : list Interest) : EdgeRequestEnum :=
  ReqEndpointOnline (mkEdgeOnline topic_code interests).
Definition send_ep_offline_request (topic_code : TopicCode) (endpoint : EndpointAddr) : EdgeRequestEnum :=
  ReqEndpointOffline (mkEdgeOffline topic_code endpoint).
Definition send_ep_interests_request (topic_code : TopicCode) (endpoint : EndpointAddr) (interests : list Interest) :
    EdgeRequestEnum :=
  ReqEndpointInterest (mkEndpointInterest topic_code endpoint interests).
Definition send_single_ack_request (ack : MessageAck) : EdgeRequestEnum :=
  ReqSetState (mkSetState (ack_topic_code ack) (mkStateUpdate (ack_to ack) {[ack_from ack := ack_status ack]})).

(** ** The two tasks *)

(** An iteration of the transmitting task: the responder waits in the pool before
    the request goes to the socket. *)
Definition tx_step (c : ClientNode) : option (EdgePayload * ClientNode) :=
  match sender c with
  | [] => None
  | (request, responder) :: rest =>
      let c := set_sender rest c in
      let c := set_pool (<[request_seq_id request := responder]> (response_pool c)) (receivers c) c in
      Some (PayloadRequest request, c)
  end.

(** A push of a message to one endpoint: the mailbox of an unknown endpoint, or one
    whose receiver has gone, gets nothing. *)
Definition push_one (message : Message) (ep : EndpointAddr) (c : ClientNode) : ClientNode :=
  match endpoint_map c !! ep with
  | None => c
  | Some mailbox =>
      match mailbox_heap c !! mailbox with
      | None => c
      | Some box => set_endpoints (endpoint_map c) (<[mailbox := box ++ [message]]> (mailbox_heap c)) c
      end
  end.

(** The receiving task on a payload. *)
Definition rx_payload (p : EdgePayload) (c : ClientNode) : ClientNode :=
  match p with
  | PayloadPush (PushMessage endpoints message) => foldl (fun c ep => push_one message ep c) c endpoints
  | PayloadResponse edge_response =>
      let seq_id := response_seq_id edge_response in
      match response_pool c !! seq_id with
      | None => c
      | Some responder =>
          set_pool (delete seq_id (response_pool c))
            (<[responder := Some (edge_result_into_std (response_of edge_response))]> (receivers c)) c
      end
  | _ => c
  end.

(** The cancellation of the receiving task. *)
Definition rx_cancelled (c : ClientNode) : ClientNode := set_endpoints ∅ (mailbox_heap c) c.

(** ** Endpoints *)

(** [ClientEndpoint], its receiver by the name of its mailbox. *)
Record ClientEndpoint : Type := mkClientEndpoint {
  client_addr : EndpointAddr;
  client_topic : TopicCode;
  client_interests : gset Interest;
  message_rx : loc;
}.

(** [create_endpoint], once the node has answered with an address: only now does
    the mailbox enter the map. *)
Definition register_endpoint (mailbox : loc) (topic_code : TopicCode) (interests : gset Interest)
    (answer : option Answer) (c : ClientNode) : Result ClientEndpoint ClientNodeError * ClientNode :=
  match finish_ep_online answer with
  | Err e => (Err e, c)
  | Ok addr =>
      (Ok (mkClientEndpoint addr topic_code interests mailbox),
       set_endpoints (<[addr := mailbox]> (endpoint_map c)) (mailbox_heap c) c)
  end.

(** [self.node.upgrade()]: the client, as long as somebody holds it. *)
Definition upgraded {A} (call : ClientNode -> Result A ClientNodeError * ClientNode) (node : option ClientNode) :
    Result A ClientNodeError * option ClientNode :=
  match node with
  | None => (Err disconnected, None)
  | Some c => let '(r, c) := call c in (r, Some c)
  end.

(** [update_interests], up to its wait and after it. *)
Definition start_update_interests (interests : list Interest) (ep : ClientEndpoint) (node : option ClientNode) :
    Result loc ClientNodeError * option ClientNode :=
  upgraded (send_request (send_ep_interests_request (client_topic ep) (client_addr ep) interests)) node.
Definition finish_update_interests (interests : list Interest) (answer : option Answer) (ep : ClientEndpoint) :
    Result () ClientNodeError * ClientEndpoint :=
  match finish_ep_interests answer with
  | Err e => (Err e, ep)
  | Ok _ => (Ok (), mkClientEndpoint (client_addr ep) (client_topic ep) (list_to_set interests) (message_rx ep))
  end.

(** [ClientReceivedMessage]; its [node] is the endpoint's. *)
Record ClientReceivedMessage : Type := mkReceived {
  ep_addr : EndpointAddr;
  received_topic : TopicCode;
  received_message : Message;
}.
Definition into_inner (m : ClientReceivedMessage) : Message := received_message m.

(** [next_message], when there is one. *)
Definition client_next_message (ep : ClientEndpoint) (c : ClientNode) : option ClientReceivedMessage * ClientNode :=
  match mailbox_heap c !! message_rx ep with
  | Some (m :: rest) =>
      (Some (mkReceived (client_addr ep) (client_topic ep) m),
       set_endpoints (endpoint_map c) (<[message_rx ep := rest]> (mailbox_heap c)) c)
  | _ => (None, c)
  end.

(** The three acknowledgements of a received message, up to their wait. *)
Definition client_ack_failed (m : ClientReceivedMessage) (node : option ClientNode) :
    Result loc ClientNodeError * option ClientNode :=
  upgraded (send_request (send_single_ack_request (ack_failed (header (received_message m)) (received_topic m) (ep_addr m)))) node.
Definition client_ack_processed (m : ClientReceivedMessage) (node : option ClientNode) :
    Result loc ClientNodeError * option ClientNode :=
  upgraded (send_request (send_single_ack_request (ack_processed (header (received_message m)) (received_topic m) (ep_addr m)))) node.
Definition client_ack_received (m : ClientReceivedMessage) (node : option ClientNode) :
    Result loc ClientNodeError * option ClientNode :=
  upgraded (send_request (send_single_ack_request (ack_received (header (received_message m)) (received_topic m) (ep_addr m)))) node.

(** [Drop for ClientEndpoint]: the receiver goes; if there is still a client, a
    detached task asks the node to take the endpoint offline and, whatever it
    answers, forgets the mailbox. *)
Definition drop_receiver (ep : ClientEndpoint) (c : ClientNode) : ClientNode :=
  set_endpoints (endpoint_map c) (delete (message_rx ep) (mailbox_heap c)) c.
Definition drop_request (ep : ClientEndpoint) : EdgeRequestEnum :=
  send_ep_offline_request (client_topic ep) (client_addr ep).
Definition client_drop_endpoint (ep : ClientEndpoint) (node : option ClientNode) : option ClientNode :=
  c ← node; Some (snd (send_request (drop_request ep) (drop_receiver ep c))).
Definition drop_finish (ep : ClientEndpoint) (c : ClientNode) : ClientNode :=
  set_endpoints (delete (client_addr ep) (endpoint_map c)) (mailbox_heap c) c.

(** ** A client and the node it talks to *)

Section Session.
Context `{HashOrder}.

(** What the node can answer to a request: the result of its request handler,
    whatever the node's state, its Raft, its authorisation service and its clock. *)
Definition serves (kind : EdgeRequestEnum) (answer : Answer) : Prop :=
  exists raft_propose await_handle edge_auth timestamp executor_digest from n,
    answer = fst (handle_edge_request raft_propose await_handle edge_auth timestamp executor_digest from kind n).

(** The kind of a response is that of its request. *)
Definition same_kind (kind : EdgeRequestEnum) (resp : EdgeResponseEnum) : Prop :=
  match kind, resp with
  | ReqSendMessage _, RespSendMessage _ | ReqEndpointOnline _, RespEndpointOnline _
  | ReqEndpointOffline _, RespEndpointOffline | ReqEndpointInterest _, RespEndpointInterest
  | ReqSetState _, RespSetState => True
  | _, _ => False
  end.

Lemma handler_bind_ok {A B} (m : Handler A) (f : A -> Handler B) n b :
  fst (handler_bind m f n) = Ok b -> exists a n', fst (f a n') = Ok b.
Proof.
  unfold handler_bind. destruct (m n) as [[a|e] [n1 p1]]; [|done].
  pose proof (eq_refl (f a n1)) as Hf. destruct (f a n1) as [r [n2 p2]] eqn:Hr. cbn. intros ->.
  exists a, n1. by rewrite Hr.
Qed.

Lemma serves_kind kind resp : serves kind (Ok resp) -> same_kind kind resp.
Proof.
  intros (raft & await & auth & ts & eid & from & n & Heq). symmetry in Heq.
  unfold handle_edge_request in Heq. apply handler_bind_ok in Heq as (_ & n1 & Heq).
  destruct kind; cbn [same_kind].
  - unfold edge_send_message in Heq. destruct (into_message _ _ _ _) as [[message code] counter].
    apply handler_bind_ok in Heq as (t & n2 & Heq). apply handler_bind_ok in Heq as (i & n3 & Heq).
    cbn in Heq. destruct (await i n3). cbn in Heq. by injection Heq as <-.
  - unfold edge_endpoint_online in Heq. repeat (apply handler_bind_ok in Heq as (? & ? & Heq)).
    cbn in Heq. by injection Heq as <-.
  - unfold edge_endpoint_offline in Heq. repeat (apply handler_bind_ok in Heq as (? & ? & Heq)).
    cbn in Heq. by injection Heq as <-.
  - unfold edge_endpoint_interest in Heq. repeat (apply handler_bind_ok in Heq as (? & ? & Heq)).
    cbn in Heq. by injection Heq as <-.
  - unfold edge_set_state in Heq. repeat (apply handler_bind_ok in Heq as (? & ? & Heq)).
    cbn in Heq. by injection Heq as <-.
Qed.

(** The client, the requests the node is handling, what the node has sent, and
    which request each receiver was made for. *)
Record Session : Type := mkSession {
  client : ClientNode;
  serving : list (Z * EdgeRequestEnum);
  downlink : list EdgePayload;
  asked : gmap loc EdgeRequestEnum;
}.
Definition session_new : Session := mkSession client_connected [] [] ∅.

(** What happens in a session: a call sends its request; the transmitting task
    takes the next request to the node; the node finishes a request, in whatever
    order, or pushes a message; the receiving task takes the next payload; an
    endpoint comes or goes. *)
Inductive session_event : Type :=
  | EvCall (kind : EdgeRequestEnum)
  | EvTx
  | EvServe (i : nat) (answer : Answer)
  | EvPush (endpoints : list EndpointAddr) (message : Message)
  | EvRx
  | EvEndpoints (m : gmap EndpointAddr loc) (h : gmap loc (list Message)).

Inductive session_step : session_event -> Session -> Session -> Prop :=
  | step_call kind s :
      session_step (EvCall kind) s
        (mkSession (snd (send_request kind (client s))) (serving s) (downlink s)
           (<[next_receiver (client s) := kind]> (asked s)))
  | step_tx s request c :
      tx_step (client s) = Some (PayloadRequest request, c) ->
      session_step EvTx s
        (mkSession c (serving s ++ [(request_seq_id request, Edge.request request)]) (downlink s) (asked s))
  | step_serve i answer s k kind :
      serving s !! i = Some (k, kind) -> serves kind answer ->
      session_step (EvServe i answer) s
        (mkSession (client s) (delete i (serving s))
           (downlink s ++ [PayloadResponse (edge_response_from_result k answer)]) (asked s))
  | step_push endpoints message s :
      session_step (EvPush endpoints message) s
        (mkSession (client s) (serving s) (downlink s ++ [PayloadPush (PushMessage endpoints message)]) (asked s))
  | step_rx s p rest :
      downlink s = p :: rest ->
      session_step EvRx s (mkSession (rx_payload p (client s)) (serving s) rest (asked s))
  | step_endpoints m h s :
      session_step (EvEndpoints m h) s (mkSession (set_endpoints m h (client s)) (serving s) (downlink s) (asked s)).

Inductive session_run : list session_event -> Session -> Session -> Prop :=
  | run_nil s : session_run [] s s
  | run_cons ev evs s1 s2 s3 :
      session_step ev s1 s2 -> session_run evs s2 s3 -> session_run (ev :: evs) s1 s3.

(** *** The invariant *)

Definition answered (c : ClientNode) : gmap loc Answer := omap id (receivers c).

(** The callers that wait: in the pool, or still with their requests. *)
Fixpoint wait_queued (pool : gmap Z loc) (q : list (EdgeRequest * loc)) : gmap Z loc :=
  match q with
  | [] => pool
  | (r, rx) :: q => <[request_seq_id r := rx]> (wait_queued pool q)
  end.
Definition waiting (c : ClientNode) : gmap Z loc := wait_queued (response_pool c) (sender c).
Definition numbers (q : list (EdgeRequest * loc)) : list Z := (fun '(r, _) => request_seq_id r) <$> q.
Definition queued (c : ClientNode) : list (Z * EdgeRequestEnum) :=
  (fun '(r, _) => (request_seq_id r, Edge.request r)) <$> sender c.
Definition responses_in (l : list EdgePayload) : list (Z * Answer) :=
  omap (fun p => match p with
    | PayloadResponse r => Some (response_seq_id r, edge_result_into_std (response_of r))
    | _ => None
    end) l.

Lemma wire_responses_in_app l1 l2 : responses_in (l1 ++ l2) = responses_in l1 ++ responses_in l2.
Proof. apply omap_app. Qed.

Lemma edge_result_std {T E} (r : Result T E) : edge_result_into_std (edge_result_from_std r) = r.
Proof. by destruct r. Qed.

(** The queue's numbers are waiting, the last one queued included. *)
Lemma waiting_snoc pool q r rx : request_seq_id r ∉ numbers q ->
  wait_queued pool (q ++ [(r, rx)]) =
  <[request_seq_id r := rx]> (wait_queued pool q).
Proof.
  induction q as [|[r' rx'] q IH]; intros Hk; [done|]. cbn in *. rewrite IH by set_solver.
  rewrite insert_insert_ne; [done|set_solver].
Qed.

Lemma waiting_insert (pool : gmap Z loc) k c q : k ∉ numbers q ->
  wait_queued (<[k := c]> pool) q =
  <[k := c]> (wait_queued pool q).
Proof.
  induction q as [|[r' rx'] q IH]; intros Hk; [done|]. cbn in *. rewrite IH by set_solver.
  rewrite insert_insert_ne; [done|set_solver].
Qed.

Lemma waiting_delete (pool : gmap Z loc) k q : k ∉ numbers q ->
  wait_queued (delete k pool) q =
  delete k (wait_queued pool q).
Proof.
  induction q as [|[r' rx'] q IH]; intros Hk; [done|]. cbn in *. rewrite IH by set_solver.
  rewrite delete_insert_ne; [done|set_solver].
Qed.

Lemma waiting_pool (pool : gmap Z loc) k q : k ∉ numbers q ->
  wait_queued pool q !! k = pool !! k.
Proof.
  induction q as [|[r' rx'] q IH]; intros Hk; [done|]. cbn in *. rewrite lookup_insert_ne by set_solver.
  apply IH. set_solver.
Qed.

Lemma queued_numbers c : (queued c).*1 = numbers (sender c).
Proof. unfold queued, numbers. rewrite <-list_fmap_compose. apply list_fmap_ext. by intros ? [r rx]. Qed.

Lemma caller_answered_insert_new c r : receivers c !! r = None -> omap id (<[r := None]> (receivers c)) = answered c.
Proof.
  intros Hr. apply map_eq. intros i. unfold answered. rewrite !lookup_omap.
  destruct (decide (i = r)) as [->|]; [by rewrite lookup_insert_eq, Hr|by rewrite lookup_insert_ne].
Qed.

(** The fields a session's invariant speaks of. *)
Definition same_callers (c c' : ClientNode) : Prop :=
  sender c' = sender c /\ response_pool c' = response_pool c /\ receivers c' = receivers c /\
  seq c' = seq c /\ next_receiver c' = next_receiver c.

Lemma push_all_callers message eps c : same_callers c (foldl (fun c ep => push_one message ep c) c eps).
Proof.
  revert c. induction eps as [|ep eps IH]; intros c; [done|]. cbn.
  assert (same_callers c (push_one message ep c)) as (E1 & E2 & E3 & E4 & E5).
  { unfold push_one. destruct (endpoint_map c !! ep); [|done]. by destruct (mailbox_heap c !! _). }
  destruct (IH (push_one message ep c)) as (F1 & F2 & F3 & F4 & F5). split_and!; congruence.
Qed.


(** What answers the requests of the client, by receiver. *)
Section Correlation.
Context (answers : loc -> EdgeRequestEnum -> Answer -> Prop).

Record session_ok (n : Z) (s : Session) : Prop := mkSessionOk {
  ses_cor : correlated answers (waiting (client s)) (asked s) (answered (client s))
    (queued (client s) ++ serving s) (responses_in (downlink s));
  ses_seq : (0 <= seq (client s) <= n)%Z;
  ses_waiting : forall k, is_Some (waiting (client s) !! k) -> (0 <= k < seq (client s))%Z;
  ses_asked : forall c, is_Some (asked s !! c) -> c < next_receiver (client s);
  ses_receivers : forall c, is_Some (receivers (client s) !! c) -> c < next_receiver (client s);
}.

Lemma session_less n m s c' serving' downlink' :
  session_ok n s -> (n <= m)%Z -> same_callers (client s) c' ->
  serving' ⊆+ serving s -> responses_in downlink' ⊆+ responses_in (downlink s) ->
  session_ok m (mkSession c' serving' downlink' (asked s)).
Proof.
  intros [Hc Hs Hw Ha Hr] Hn (Hse & Hpo & Hre & Hsq & Hnx) Hserve Hdown.
  split; cbn; unfold waiting, queued, answered; rewrite ?Hse, ?Hpo, ?Hre, ?Hsq, ?Hnx; [|lia|done..].
  eapply correlated_lose; [| |exact Hc]; [by apply submseteq_app|done].
Qed.

Lemma session_call_ok n s kind : (n + 1 < 2 ^ 32)%Z -> session_ok n s ->
  session_ok (n + 1) (mkSession (snd (send_request kind (client s))) (serving s) (downlink s)
    (<[next_receiver (client s) := kind]> (asked s))).
Proof.
  intros Hn [Hc Hs Hw Ha Hr]. destruct s as [c sv dl ask]. cbn in *.
  assert (ask !! next_receiver c = None) as Hask by (apply eq_None_not_Some; intros ?%Ha; lia).
  assert (receivers c !! next_receiver c = None) as Hrecv by (apply eq_None_not_Some; intros ?%Hr; lia).
  assert (waiting c !! seq c = None) as Hfree by (apply eq_None_not_Some; intros ?%Hw; lia).
  assert (seq c ∉ numbers (sender c)) as Hnum.
  { rewrite <-queued_numbers. intros ([k kd] & Heq & Hin)%list_elem_of_fmap. cbn in Heq.
    destruct (cor_request _ _ _ _ _ _ Hc k kd) as (x & Hx & _); [set_solver|]. congruence. }
  unfold send_request. cbn. destruct (sender_closed c); cbn; (split; cbn; unfold u32_wrapping_add;
    rewrite ?Z.mod_small by lia; [|lia| | |]).
  - unfold answered. cbn. rewrite caller_answered_insert_new by done. by apply correlated_ask.
  - intros k ?. cut (0 <= k < seq c)%Z; [lia|]. by apply Hw.
  - intros i. rewrite lookup_insert_is_Some. intros [<-|[_ ?%Ha]]; lia.
  - intros i. rewrite lookup_insert_is_Some. intros [<-|[_ ?%Hr]]; lia.
  - unfold answered, waiting. cbn. rewrite caller_answered_insert_new by done. rewrite waiting_snoc by done.
    eapply correlated_lose; [| |apply correlated_call; done]; [|done].
    unfold queued. cbn. rewrite fmap_app. cbn. rewrite <-app_assoc. cbn. by rewrite <-Permutation_middle.
  - intros k. unfold waiting. cbn. rewrite waiting_snoc by done. cbn.
    rewrite lookup_insert_is_Some. intros [<-|[_ ?]]; [lia|]. cut (0 <= k < seq c)%Z; [lia|]. by apply Hw.
  - intros i. rewrite lookup_insert_is_Some. intros [<-|[_ ?%Ha]]; lia.
  - intros i. rewrite lookup_insert_is_Some. intros [<-|[_ ?%Hr]]; lia.
Qed.

Lemma session_tx_ok n s request c : tx_step (client s) = Some (PayloadRequest request, c) -> session_ok n s ->
  session_ok n (mkSession c (serving s ++ [(request_seq_id request, Edge.request request)]) (downlink s) (asked s)).
Proof.
  intros Htx [Hc Hs Hw Ha Hr]. unfold tx_step in Htx.
  destruct (sender (client s)) as [|[r rx] rest] eqn:Hq; [done|]. injection Htx as -> <-.
  assert (request_seq_id request ∉ numbers rest) as Hnum.
  { apply cor_once in Hc. rewrite fmap_app, queued_numbers, Hq in Hc. cbn in Hc. inversion Hc. set_solver. }
  assert (wait_queued (<[request_seq_id request := rx]> (response_pool (client s))) rest = waiting (client s)) as Hsame.
  { rewrite waiting_insert by done. unfold waiting. by rewrite Hq. }
  split; cbn; unfold waiting; cbn; rewrite ?Hsame; [|done..].
  eapply correlated_lose; [| |exact Hc]; [|done]. unfold queued. cbn. rewrite Hq. cbn.
  by rewrite app_assoc, (Permutation_app_comm _ [_]).
Qed.

Lemma session_serve_ok n s i k kind answer : serving s !! i = Some (k, kind) ->
  (forall rx, waiting (client s) !! k = Some rx -> answers rx kind answer) -> session_ok n s ->
  session_ok n (mkSession (client s) (delete i (serving s))
    (downlink s ++ [PayloadResponse (edge_response_from_result k answer)]) (asked s)).
Proof.
  intros Hi Hserves [Hc Hs Hw Ha Hr]. split; cbn; [|done..].
  assert (queued (client s) ++ serving s ≡ₚ (k, kind) :: queued (client s) ++ delete i (serving s)) as Hperm.
  { rewrite Permutation_middle. f_equiv. by apply delete_Permutation. }
  assert (correlated answers (waiting (client s)) (asked s) (answered (client s))
    (queued (client s) ++ delete i (serving s)) ((k, answer) :: responses_in (downlink s))) as Hserved.
  { eapply correlated_serve; [|exact Hserves]. eapply correlated_lose; [| |exact Hc]; [by rewrite Hperm|done]. }
  eapply correlated_lose; [| |exact Hserved]; [done|].
  rewrite wire_responses_in_app. cbn. rewrite edge_result_std. by rewrite Permutation_app_comm.
Qed.

Lemma session_rx_ok n s p rest : downlink s = p :: rest -> session_ok n s ->
  session_ok n (mkSession (rx_payload p (client s)) (serving s) rest (asked s)).
Proof.
  intros Hd Hok. destruct p as [[eps message]|r|r|e].
  1: apply (session_less n n s); [done|lia|apply push_all_callers|done|by rewrite Hd].
  2, 3: apply (session_less n n s); [done|lia|done|done|by rewrite Hd].
  destruct Hok as [Hc Hs Hw Ha Hr]. rewrite Hd in Hc. cbn [responses_in omap list_omap] in Hc.
  assert (response_seq_id r ∉ numbers (sender (client s))) as Hnum.
  { apply cor_once in Hc. rewrite fmap_app, queued_numbers in Hc. apply NoDup_app in Hc as (_ & Hdis & _).
    intros Hin. apply (Hdis (response_seq_id r)); [set_solver|]. cbn. by left. }
  apply correlated_receive in Hc as (c & req & Hk & Hask & Hans & Hnone & Hc).
  pose proof Hk as Hpool. unfold waiting in Hpool. rewrite waiting_pool in Hpool by done.
  cbn [rx_payload]. rewrite Hpool. split; cbn; [|done| |done|].
  - unfold waiting, answered. cbn. rewrite omap_insert, waiting_delete by done. exact Hc.
  - intros k. unfold waiting. cbn. rewrite waiting_delete by done. rewrite lookup_delete_is_Some.
    intros [_ ?]. by apply Hw.
  - intros i. rewrite lookup_insert_is_Some. intros [<-|[_ ?]]; [|by apply Hr]. apply Ha. eauto.
Qed.

(** The request an event finishes is answered for the caller that waits for it. *)
Definition serves_caller (ev : session_event) (s : Session) : Prop :=
  match ev with
  | EvServe i answer =>
      forall k kind rx, serving s !! i = Some (k, kind) -> serves kind answer ->
        waiting (client s) !! k = Some rx -> answers rx kind answer
  | _ => True
  end.

Lemma session_step_ok n ev s s' : (n + 1 < 2 ^ 32)%Z -> session_step ev s s' -> serves_caller ev s ->
  session_ok n s -> session_ok (n + 1) s'.
Proof.
  intros Hn Hstep Hserves Hok.
  assert (forall s1, session_ok n s1 -> session_ok (n + 1) s1) as Hmono
    by (intros s1 []; split; [done|lia|done..]).
  destruct Hstep as [kind s|s request c Htx|i answer s k kind Hi Hs|eps message s|s p rest Hd|m h s].
  - by apply session_call_ok.
  - apply Hmono. by apply session_tx_ok.
  - apply Hmono. apply (session_serve_ok n s i k kind); [done| |done]. intros rx. by apply (Hserves k).
  - apply Hmono, (session_less n n s); [done|lia|done|done|]. by rewrite wire_responses_in_app, app_nil_r.
  - apply Hmono. by apply session_rx_ok.
  - apply Hmono, (session_less n n s); [done|lia|done|done|done].
Qed.

Lemma session_run_ok n evs s s' : (n + Z.of_nat (length evs) < 2 ^ 32)%Z -> session_run evs s s' ->
  (forall pre ev post s1, evs = pre ++ ev :: post -> session_run pre s s1 -> serves_caller ev s1) ->
  session_ok n s -> session_ok (n + Z.of_nat (length evs)) s'.
Proof.
  intros Hn Hrun. revert n Hn. induction Hrun as [s|ev evs s1 s2 s3 Hstep _ IH]; intros n Hn Hserves Hok; cbn [length] in *.
  - by rewrite Z.add_0_r.
  - replace (n + Z.of_nat (S (length evs)))%Z with (n + 1 + Z.of_nat (length evs))%Z by lia.
    apply IH; [lia| |].
    + intros pre ev' post s4 -> Hpre. apply (Hserves (ev :: pre) ev' post); [done|]. by eapply run_cons.
    + eapply session_step_ok; [lia|exact Hstep| |exact Hok]. apply (Hserves [] ev evs); [done|apply run_nil].
Qed.

Lemma session_new_ok : session_ok 0 session_new.
Proof.
  split; cbn; [|lia|..].
  - unfold answered. cbn. rewrite omap_empty. apply correlated_empty.
  - intros k [? Hk]. unfold waiting in Hk. cbn in Hk. by rewrite lookup_empty in Hk.
  - intros k [? Hk]. by rewrite lookup_empty in Hk.
  - intros k [? Hk]. by rewrite lookup_empty in Hk.
Qed.
End Correlation.

(** *** Numbers and receivers go together *)

(** A caller waits under the number its receiver has. *)
Definition numbered (c : ClientNode) : Prop :=
  seq c = Z.of_nat (next_receiver c) /\ forall k rx, waiting c !! k = Some rx -> k = Z.of_nat rx.

(** The calls of a session, in order: their receivers are numbered as they are. *)
Definition calls_of (evs : list session_event) : list EdgeRequestEnum :=
  omap (fun ev => match ev with EvCall kind => Some kind | _ => None end) evs.

(** The answer is what the node's handler gave to the call with receiver [rx], which
    is [kind]: the handler's request is the one with that number. *)
Definition own_answer (evs : list session_event) (rx : loc) (kind : EdgeRequestEnum) (answer : Answer) : Prop :=
  calls_of evs !! rx = Some kind /\ serves kind answer /\
  exists pre i post s, evs = pre ++ EvServe i answer :: post /\ session_run pre session_new s /\
    serving s !! i = Some (Z.of_nat rx, kind).

Definition served_session : Z -> Session -> Prop := session_ok (fun _ => serves).

Lemma served_session_step n ev s s' : (n + 1 < 2 ^ 32)%Z -> session_step ev s s' -> served_session n s ->
  served_session (n + 1) s'.
Proof. intros Hn Hs. apply (session_step_ok _ n ev); [done|done|]. destruct ev; try done. by intros k kind rx _ ? _. Qed.

Lemma served_session_run n evs s s' : (n + Z.of_nat (length evs) < 2 ^ 32)%Z -> session_run evs s s' ->
  served_session n s -> served_session (n + Z.of_nat (length evs)) s'.
Proof.
  intros Hn Hs. apply session_run_ok; [done|done|]. intros pre ev post s1 _ _. destruct ev; try done. by intros k kind rx _ ? _.
Qed.

Lemma session_step_numbered n ev s s' : (n + 1 < 2 ^ 32)%Z -> served_session n s -> session_step ev s s' ->
  numbered (client s) -> numbered (client s').
Proof.
  intros Hn Hok Hstep [Hseq Hnum]. pose proof (ses_seq _ _ _ Hok) as Hle.
  destruct Hstep as [kind s|s request c Htx|i answer s k kind Hi Hs|eps message s|s p rest Hd|m h s]; cbn; try done.
  - assert (seq (client s) ∉ numbers (sender (client s))) as Hfresh.
    { intros Hin. rewrite <-queued_numbers in Hin. apply list_elem_of_fmap in Hin as ([k kd] & Heq & Hin). cbn in Heq.
      destruct (cor_request _ _ _ _ _ _ (ses_cor _ _ _ Hok) k kd) as (x & Hx & _); [set_solver|].
      assert (0 <= k < seq (client s))%Z by (apply (ses_waiting _ _ _ Hok); eauto). lia. }
    unfold send_request. cbn. destruct (sender_closed (client s)); cbn; unfold numbered, u32_wrapping_add; cbn -[Z.pow];
      (rewrite Z.mod_small by lia); (split; [lia|]); [exact Hnum|].
    unfold waiting. cbn. rewrite waiting_snoc by exact Hfresh. intros k rx [[<- <-]|[_ Hk]]%lookup_insert_Some; [exact Hseq|by apply Hnum].
  - unfold tx_step in Htx. destruct (sender (client s)) as [|[r rx] rest] eqn:Hq; [done|]. injection Htx as -> <-.
    split; [done|]. cbn. intros k rx'. unfold waiting. cbn. rewrite waiting_insert; [|].
    + intros Hk. apply Hnum. unfold waiting. by rewrite Hq.
    + pose proof (cor_once _ _ _ _ _ _ (ses_cor _ _ _ Hok)) as Hc.
      rewrite fmap_app, queued_numbers, Hq in Hc. cbn in Hc. inversion Hc. set_solver.
  - destruct p as [[eps message]|r|r|e]; try done.
    + destruct (push_all_callers message eps (client s)) as (E1 & E2 & E3 & E4 & E5). cbn.
      unfold numbered, waiting. by rewrite E1, E2, E4, E5.
    + cbn. destruct (response_pool (client s) !! response_seq_id r) eqn:Hr; [|done]. split; [done|]. cbn.
      intros k rx Hk. apply Hnum. revert Hk. unfold waiting. cbn. clear. intros Hk.
      induction (sender (client s)) as [|[q rx'] l IH]; cbn in *; [by apply lookup_delete_Some in Hk as [_ ?]|].
      apply lookup_insert_Some in Hk as [[<- <-]|[Hne Hk]]; [apply lookup_insert_eq|].
      rewrite lookup_insert_ne by done. by apply IH.
Qed.

Lemma session_run_numbered n evs s s' : (n + Z.of_nat (length evs) < 2 ^ 32)%Z -> session_run evs s s' ->
  served_session n s -> numbered (client s) -> numbered (client s').
Proof.
  intros Hn Hrun. revert n Hn. induction Hrun as [s|ev evs s1 s2 s3 Hstep _ IH]; intros n Hn Hok Hnum; cbn [length] in *; [done|].
  apply (IH (n + 1)%Z); [lia|by apply (served_session_step n ev s1); [lia|..]|].
  by apply (session_step_numbered n ev s1); [lia|..].
Qed.

(** A receiver belongs to the call whose turn its number says. *)
Lemma session_step_calls ev s s' : session_step ev s s' ->
  match calls_of [ev] with
  | kind :: _ => asked s' = <[next_receiver (client s) := kind]> (asked s) /\
      next_receiver (client s') = S (next_receiver (client s))
  | [] => asked s' = asked s /\ next_receiver (client s') = next_receiver (client s)
  end.
Proof.
  destruct 1 as [kind s|s request c Htx|i answer s k kind Hi Hs|eps message s|s p rest Hd|m h s]; cbn; try done.
  - unfold send_request. cbn. by destruct (sender_closed (client s)).
  - unfold tx_step in Htx. destruct (sender (client s)) as [|[r rx] q]; [done|]. by injection Htx as -> <-.
  - split; [done|]. destruct p as [[eps message]|r|r|e]; cbn; try done; [apply push_all_callers|].
    by destruct (response_pool (client s) !! _).
Qed.

Lemma session_run_asked evs s s' rx kind : session_run evs s s' -> asked s' !! rx = Some kind ->
  asked s !! rx = Some kind \/ exists i, rx = next_receiver (client s) + i /\ calls_of evs !! i = Some kind.
Proof.
  induction 1 as [s|ev evs s1 s2 s3 Hstep _ IH]; intros Hask; [by left|].
  pose proof (session_step_calls ev s1 s2 Hstep) as Hcalls.
  assert (calls_of (ev :: evs) = calls_of [ev] ++ calls_of evs) as -> by apply (omap_app _ [ev] evs).
  destruct (IH Hask) as [Hold|(i & -> & Hi)].
  - destruct (calls_of [ev]) as [|kind' rest]; destruct Hcalls as [Ha Hx]; rewrite Ha in Hold; [by left|].
    apply lookup_insert_Some in Hold as [[<- <-]|[_ ?]]; [|by left]. right. exists 0. split; [lia|done].
  - right. assert (length (calls_of [ev]) <= 1) as Hle by (destruct ev; cbn; lia).
    destruct (calls_of [ev]) as [|kind' [|? ?]]; cbn in Hle; [| |lia]; destruct Hcalls as [_ Hx]; rewrite Hx.
    + by exists i.
    + exists (S i). split; [lia|done].
Qed.

(** Under every interleaving, what a caller gets is the answer to its own request. *)
Lemma session_run_own evs s : (Z.of_nat (length evs) < 2 ^ 32)%Z -> session_run evs session_new s ->
  session_ok (own_answer evs) (Z.of_nat (length evs)) s.
Proof.
  intros Hlen Hrun. apply (session_run_ok _ 0 evs session_new); [lia|done| |apply session_new_ok].
  intros pre ev post s1 Hevs Hpre. destruct ev as [?| |i answer|? ?| |? ?]; try done. intros k kind rx Hserving Hserves Hwait.
  assert (length pre <= length evs) as Hle by (rewrite Hevs, length_app; lia).
  pose proof (served_session_run 0 pre _ _ ltac:(lia) Hpre (session_new_ok _)) as [Hc _ _ _ _].
  destruct (session_run_numbered 0 pre _ _ ltac:(lia) Hpre (session_new_ok _)) as [_ Hnum].
  { split; [done|]. intros k' rx' Hk'. unfold waiting in Hk'. cbn in Hk'. by rewrite lookup_empty in Hk'. }
  pose proof (Hnum _ _ Hwait) as ->.
  destruct (cor_request _ _ _ _ _ _ Hc (Z.of_nat rx) kind) as (rx' & Hrx' & Hask).
  { apply elem_of_app. right. by eapply list_elem_of_lookup_2. }
  assert (rx' = rx) as -> by (rewrite Hwait in Hrx'; by injection Hrx').
  split_and!; [|done|by exists pre, i, post, s1].
  destruct (session_run_asked pre _ _ rx kind Hpre Hask) as [Hn|(j & -> & Hj)]; [done|].
  rewrite Hevs. unfold calls_of. rewrite omap_app. by apply lookup_app_l_Some.
Qed.
End Session.

(** ** Properties *)

Section SdkProperties.
Context `{HashOrder}.

(** The end of a call does not find a response of another kind. *)
Definition expected (kind : EdgeRequestEnum) (answer : option Answer) : Prop :=
  forall resp,
    match kind with
    | ReqSendMessage _ => finish_send_message answer <> Err (unexpected_response resp)
    | ReqEndpointOnline _ => finish_ep_online answer <> Err (unexpected_response resp)
    | ReqEndpointOffline _ => finish_ep_offline answer <> Err (unexpected_response resp)
    | ReqEndpointInterest _ => finish_ep_interests answer <> Err (unexpected_response resp)
    | ReqSetState _ => finish_single_ack answer <> Err (unexpected_response resp)
    end.

(** C17: Whatever a client's tasks, the node's handlers and its pushes do in between,
    and in whatever order the node finishes its requests, each caller gets what
    the node's request handler answered to its own request, and not to another of
    the same kind or even an equal one: the answer to the [rx]-th call is what the
    handler gave for the request numbered [rx].  So no call ever ends with an
    unexpected response.  Up to 2^32 events of the session. *)
Theorem client_gets_its_answer (evs : list session_event) (s : Session) (rx : loc) (answer : Answer)
    (Hlen : (Z.of_nat (length evs) < 2 ^ 32)%Z) (Hrun : session_run evs session_new s)
    (Hgot : receivers (client s) !! rx = Some (Some answer)) :
  exists kind, asked s !! rx = Some kind /\ own_answer evs rx kind answer /\ expected kind (Some answer).
Proof.
  pose proof (session_run_own evs s Hlen Hrun) as [Hc _ _ _ _].
  destruct (cor_answer _ _ _ _ _ _ Hc rx answer) as (kind & Hask & Hown).
  { unfold answered. by rewrite lookup_omap, Hgot. }
  exists kind. split_and!; [done|done|]. destruct Hown as (_ & Hs & _). intros resp. destruct answer as [r|e].
  - apply serves_kind in Hs. destruct kind, r; try done. cbn.
    unfold finish_send_message. cbn. by destruct (edge_result_into_std _).
  - by destruct kind.
Qed.

(** A push reaches the mailbox of every endpoint it names, once for each time
    it is named, if the client knows the endpoint and its receiver lives; nothing
    else of the client changes.  In particular a message pushed to an endpoint
    whose address the client has not registered yet is gone. *)
Theorem push_fills_mailboxes (endpoints : list EndpointAddr) (message : Message) (c : ClientNode) :
  let c' := rx_payload (PayloadPush (PushMessage endpoints message)) c in
  (forall mailbox, mailbox_heap c' !! mailbox =
     (fun box => box ++ ((fun _ => message) <$> filter (fun ep => endpoint_map c !! ep = Some mailbox) endpoints))
       <$> mailbox_heap c !! mailbox) /\
  endpoint_map c' = endpoint_map c /\ same_callers c c' /\
  ((forall ep, ep ∈ endpoints -> endpoint_map c !! ep = None) -> c' = c).
Proof.
  intros c'. split_and!; [| |apply push_all_callers|].
  - subst c'. cbn. revert c. induction endpoints as [|ep eps IH]; intros c mailbox; cbn [foldl].
    { destruct (mailbox_heap c !! mailbox); cbn; [by rewrite app_nil_r|done]. }
    rewrite IH, filter_cons. unfold push_one. destruct (endpoint_map c !! ep) as [mb|] eqn:Hep.
    + destruct (mailbox_heap c !! mb) as [box|] eqn:Hbox; cbn.
      * destruct (decide (mailbox = mb)) as [->|Hne].
        -- rewrite lookup_insert_eq, Hbox, decide_True by done. cbn. by rewrite <-app_assoc.
        -- rewrite lookup_insert_ne by done. rewrite decide_False by congruence. done.
      * destruct (decide (Some mb = Some mailbox)) as [[= ->]|]; [by rewrite Hbox|done].
    + by rewrite decide_False by congruence.
  - subst c'. cbn. revert c. induction endpoints as [|ep eps IH]; intros c; [done|]. cbn. rewrite IH.
    unfold push_one. destruct (endpoint_map c !! ep); [|done]. by destruct (mailbox_heap c !! _).
  - subst c'. cbn. induction endpoints as [|ep eps IH]; intros Hnone; [done|]. cbn.
    unfold push_one at 2. rewrite (Hnone ep) by by left. apply IH. intros ep' ?. apply Hnone. by right.
Qed.
End SdkProperties.

(** ** Witness *)

Section SdkWitness.
Import Sample.

Definition sample_kind : EdgeRequestEnum := send_ep_online_request topic [interest_new "a/*"].
Definition sample_answer : Answer :=
  fst (handle_edge_request accept no_answer None 5 77 (nid x09) sample_kind sample_edge).
Definition sample_session : Session :=
  mkSession (set_pool ∅ {[0 := Some sample_answer]}
    (mkClient [] false ∅ ∅ 1 ∅ ∅ 1)) [] [] {[0 := sample_kind]}.

Lemma sample_serves : serves sample_kind sample_answer.
Proof. by exists accept, no_answer, None, 5%Z, 77%Z, (nid x09), sample_edge. Qed.

Lemma sample_session_run : session_run [EvCall sample_kind; EvTx; EvServe 0 sample_answer; EvRx] session_new sample_session.
Proof.
  eapply run_cons; [apply step_call|]. eapply run_cons; [apply step_tx; reflexivity|].
  eapply run_cons; [apply (step_serve 0 sample_answer _ 0 sample_kind); [reflexivity|apply sample_serves]|].
  eapply run_cons; [eapply step_rx; reflexivity|].
  cbn. unfold sample_session, set_pool. cbn. rewrite edge_result_std, delete_insert_id by done. apply run_nil.
Qed.

Lemma client_gets_its_answer_witness :
  exists kind, asked sample_session !! 0 = Some kind /\
    own_answer [EvCall sample_kind; EvTx; EvServe 0 sample_answer; EvRx] 0 kind sample_answer /\
    expected kind (Some sample_answer).
Proof.
  apply (client_gets_its_answer [EvCall sample_kind; EvTx; EvServe 0 sample_answer; EvRx] sample_session 0 sample_answer);
    [cbn; lia|exact sample_session_run|reflexivity].
Defined.
End SdkWitness.
