(* ===== verification/SdkTasks.v ===== *)
(** * The two tasks of a client

    [ClientNodeInner::connect] and its [Drop] of [sdk/rust/src/node.rs]: the loops of
    the transmitting and the receiving task, how they end, and what becomes of the
    callers that wait then. [Sdk] has the body of each loop; a session there is one
    in which neither ends.

    A responder lives in the queue of requests, which the transmitting task owns,
    or in the pool, which both tasks own: it is dropped with the last owner, and
    only then does its caller learn that nothing will come. *)

From stdpp Require Import relations.
From S2P Require Import Prelude Ids Interest Message Proposal Edge Codec EdgeNode Rpc Sdk.

(** The receiving task: in its loop, at the read that follows the loop, ended. *)
Inductive RxTask : Type :=
  | RxLoop
  | RxLastRead
  | RxEnded.

Record ClientTasks : Type := mkClientTasks {
  tasks_client : ClientNode;
  tx_running : bool;
  rx_task : RxTask;
  cancelled : bool;
}.
Definition rx_running (s : ClientTasks) : bool := match rx_task s with RxEnded => false | _ => true end.

(** The end of [connect]: both tasks are spawned. *)
Definition client_spawned : ClientTasks := mkClientTasks client_connected true RxLoop false.

(** [connect], on what the web socket's handshake gives. *)
Definition connect (connect_async : Result () string) : Result ClientTasks ClientNodeError :=
  match connect_async with
  | Err e => Err (client_error_from_ws e)
  | Ok _ => Ok client_spawned
  end.

(** The channel of requests closes with its receiver. *)
Definition close_sender (c : ClientNode) : ClientNode :=
  mkClient [] true (endpoint_map c) (mailbox_heap c) (seq c) (response_pool c) (receivers c) (next_receiver c).

(** The end of the transmitting task. *)
Definition tx_end (s : ClientTasks) : ClientTasks :=
  mkClientTasks (close_sender (tasks_client s)) false (rx_task s) (cancelled s).
(** The end of the receiving task's loop, and of the task. *)
Definition rx_break (s : ClientTasks) : ClientTasks :=
  mkClientTasks (tasks_client s) (tx_running s) RxLastRead (cancelled s).
Definition rx_end (s : ClientTasks) : ClientTasks :=
  mkClientTasks (tasks_client s) (tx_running s) RxEnded (cancelled s).
Definition set_tasks_client (c : ClientNode) (s : ClientTasks) : ClientTasks :=
  mkClientTasks c (tx_running s) (rx_task s) (cancelled s).

(** What a task's [select!] yields; what the stream yields is one of the last four. *)
Inductive TxEvent : Type :=
  | TxCancelled
  | TxRequest (send_ok : bool).

Inductive RxEvent : Type :=
  | RxCancelled
  | RxError
  | RxPayload (p : EdgePayload)
  | RxUnreadable
  | RxClosed.

(** An iteration of the transmitting task, with what goes to the socket. *)
Definition tx_iteration (ev : TxEvent) (s : ClientTasks) : option (list EdgePayload * ClientTasks) :=
  if tx_running s then
    match ev with
    | TxCancelled => if cancelled s then Some ([], tx_end s) else None
    | TxRequest send_ok =>
        '(payload, c) ← tx_step (tasks_client s);
        Some (if send_ok then ([payload], set_tasks_client c s) else ([], tx_end (set_tasks_client c s)))
    end
  else None.

(** An iteration of the receiving task: an error of the stream, a message that is
    no text or a text that is no payload are passed over.  Out of the loop the task
    reads once more, whatever comes, before it ends. *)
Definition rx_iteration (ev : RxEvent) (s : ClientTasks) : option ClientTasks :=
  match rx_task s with
  | RxLoop =>
      match ev with
      | RxCancelled => if cancelled s then Some (rx_break (set_tasks_client (rx_cancelled (tasks_client s)) s)) else None
      | RxError | RxUnreadable => Some s
      | RxPayload p => Some (set_tasks_client (rx_payload p (tasks_client s)) s)
      | RxClosed => Some (rx_break s)
      end
  | RxLastRead => match ev with RxCancelled => None | _ => Some (rx_end s) end
  | RxEnded => None
  end.

(** [Drop for ClientNodeInner]. *)
Definition drop_client (s : ClientTasks) : ClientTasks :=
  mkClientTasks (tasks_client s) (tx_running s) (rx_task s) true.

(** What a caller's receiver yields: the answer if there is one, nothing yet as long
    as somebody has its responder, and otherwise that it was dropped. *)
Definition caller_poll (rx : loc) (s : ClientTasks) : Poll (option Answer) :=
  match receivers (tasks_client s) !! rx with
  | Some (Some answer) => Ready (Some answer)
  | _ =>
      let queued := existsb (fun '(_, responder) => bool_decide (responder = rx)) (sender (tasks_client s)) in
      let pooled := existsb (fun '(_, responder) => bool_decide (responder = rx))
                      (map_to_list (response_pool (tasks_client s))) in
      if (tx_running s && queued) || ((tx_running s || rx_running s) && pooled) then Pending else Ready None
  end.

Inductive task_event : Type :=
  | TaskTx (ev : TxEvent)
  | TaskRx (ev : RxEvent)
  | TaskCall (request : EdgeRequestEnum)
  | TaskDrop.

Definition task_step (ev : task_event) (s : ClientTasks) : option ClientTasks :=
  match ev with
  | TaskTx ev => snd <$> tx_iteration ev s
  | TaskRx ev => rx_iteration ev s
  | TaskCall request => Some (set_tasks_client (snd (send_request request (tasks_client s))) s)
  | TaskDrop => Some (drop_client s)
  end.

Fixpoint task_run (evs : list task_event) (s : ClientTasks) : option ClientTasks :=
  match evs with
  | [] => Some s
  | ev :: evs => task_step ev s ≫= task_run evs
  end.

(** ** Facts *)

Definition quiet_event (ev : task_event) : Prop :=
  match ev with TaskTx _ | TaskRx _ => True | TaskCall _ | TaskDrop => False end.

(** The caller waits in the pool, the queue is empty, the stream has closed. *)
Definition stranded (k : Z) (rx : loc) (s : ClientTasks) : Prop :=
  tx_running s = true /\ rx_task s = RxEnded /\ cancelled s = false /\ sender (tasks_client s) = [] /\
  response_pool (tasks_client s) !! k = Some rx /\ receivers (tasks_client s) !! rx = Some None.

Lemma stranded_pending k rx s : stranded k rx s -> caller_poll rx s = Pending.
Proof.
  intros (Ht & Hr & _ & Hs & Hp & Hrx). unfold caller_poll, rx_running. rewrite Hrx, Ht, Hr, Hs. cbn.
  replace (existsb _ _) with true; [done|]. symmetry. apply existsb_exists. exists (k, rx). split.
  - by apply list_elem_of_In, elem_of_map_to_list.
  - by apply bool_decide_eq_true.
Qed.

Lemma stranded_stuck k rx s ev s' : quiet_event ev -> stranded k rx s -> task_step ev s = Some s' -> False.
Proof.
  intros Hq (Ht & Hr & Hc & Hs & _ & _) Hstep. destruct ev as [ev|ev|?|]; cbn in Hstep; try done.
  - unfold tx_iteration in Hstep. rewrite Ht in Hstep. destruct ev; [by rewrite Hc in Hstep|].
    unfold tx_step in Hstep. by rewrite Hs in Hstep.
  - unfold rx_iteration in Hstep. by rewrite Hr in Hstep.
Qed.

(** ** Properties *)

(** C39: When the node closes the stream while a caller waits, the caller is not
    told: the client comes to rest with the caller pending.  It is the next request
    that finds out: when sending it fails, the transmitting task ends, and with the
    pool gone both callers learn that the client is disconnected; every request
    after that is refused. *)
Theorem closed_stream_strands_callers (k : Z) (rx : loc) (request : EdgeRequestEnum) (s : ClientTasks)
    (Hs : stranded k rx s) (Hopen : sender_closed (tasks_client s) = false)
    (Hfresh : next_receiver (tasks_client s) <> rx) :
  caller_poll rx s = Pending /\
  (forall ev, quiet_event ev -> task_step ev s = None) /\
  exists s', task_run [TaskCall request; TaskTx (TxRequest false)] s = Some s' /\
    caller_poll rx s' = Ready None /\ caller_poll (next_receiver (tasks_client s)) s' = Ready None /\
    await_response None = Err disconnected /\
    forall request', fst (send_request request' (tasks_client s')) = Err (mkClientError (NoConnection request')).
Proof.
  split; [by eapply stranded_pending|]. split.
  { intros ev Hq. destruct (task_step ev s) as [s'|] eqn:Hstep; [|done]. by destruct (stranded_stuck k rx s ev s'). }
  destruct s as [[q sc em mh sq pool rcv nr] tx rxr can]. unfold stranded in Hs. cbn in *.
  destruct Hs as (-> & -> & -> & -> & Hp & Hrx). subst sc. eexists. split; [reflexivity|].
  unfold caller_poll. cbn. rewrite lookup_insert_ne, Hrx by done. cbn. by rewrite lookup_insert_eq.
Qed.

(** A client that is dropped: both tasks see it, no endpoint has a mailbox in the map
    and requests are refused; but the receiving task holds the stream and the pool
    until the node sends something once more, and only then has everything gone. *)
Theorem dropped_client_settles (s : ClientTasks) (Htx : tx_running s = true) (Hrx : rx_task s = RxLoop) :
  exists s', task_run [TaskDrop; TaskTx TxCancelled; TaskRx RxCancelled] s = Some s' /\
    endpoint_map (tasks_client s') = ∅ /\
    (forall request, fst (send_request request (tasks_client s')) = Err (mkClientError (NoConnection request))) /\
    rx_running s' = true /\ task_step (TaskRx RxCancelled) s' = None /\
    forall ev, ev <> RxCancelled -> exists s'', task_step (TaskRx ev) s' = Some s'' /\
      rx_running s'' = false /\ forall rx, caller_poll rx s'' <> Pending.
Proof.
  destruct s as [c tx rxr can]. cbn in Htx, Hrx. subst tx rxr. eexists. split; [reflexivity|].
  split_and!; [done..|]. intros ev Hev. eexists. split; [by destruct ev|]. split; [done|]. intros rx. unfold caller_poll. cbn.
  by repeat case_match.
Qed.

(** As long as neither task leaves its loop, they do what a session does: a request taken
    from the queue is put on the wire after its caller is in the pool, and a payload
    received is the session's; nothing else changes the client. *)
Theorem tasks_refine_session (serving : list (Z * EdgeRequestEnum)) (downlink : list EdgePayload)
    (asked : gmap loc EdgeRequestEnum) (ev : task_event) (s s' : ClientTasks)
    (Hstep : task_step ev s = Some s') (Htx : tx_running s' = true) (Hrx : rx_task s' = RxLoop)
    (Hwire : forall p, ev = TaskRx (RxPayload p) -> head downlink = Some p) :
  exists ses, rtc (fun a b => exists e, session_step e a b) (mkSession (tasks_client s) serving downlink asked) ses /\
    client ses = tasks_client s'.
Proof.
  destruct ev as [ev|ev|request|]; cbn in Hstep.
  - unfold tx_iteration in Hstep. destruct (tx_running s); [|done]. destruct ev as [|send_ok].
    + destruct (cancelled s); [|done]. by injection Hstep as <-.
    + destruct (tx_step (tasks_client s)) as [[payload c]|] eqn:Ht; [|done]. cbn in Hstep.
      destruct send_ok; [|by injection Hstep as <-]. injection Hstep as <-. cbn [tasks_client set_tasks_client].
      unfold tx_step in Ht. destruct (sender (tasks_client s)) as [|[request responder] rest] eqn:Hs; [done|].
      injection Ht as <- <-. eexists. split; [apply rtc_once; exists EvTx; eapply step_tx|reflexivity].
      cbn [Sdk.client]. unfold tx_step. by rewrite Hs.
  - unfold rx_iteration in Hstep. destruct (rx_task s); [|destruct ev; by simplify_eq|done]. destruct ev as [| |p| |].
    + destruct (cancelled s); [|done]. by injection Hstep as <-.
    + injection Hstep as <-. eexists. split; [apply rtc_refl|done].
    + injection Hstep as <-. specialize (Hwire p eq_refl). destruct downlink as [|q down]; [done|].
      injection Hwire as ->. eexists. split; [apply rtc_once; exists EvRx; by eapply step_rx|done].
    + injection Hstep as <-. eexists. split; [apply rtc_refl|done].
    + by injection Hstep as <-.
  - injection Hstep as <-. eexists. split; [apply rtc_once; exists (EvCall request); apply step_call|done].
  - injection Hstep as <-. eexists. split; [apply rtc_refl|done].
Qed.

Section SdkTasksWitnesses.
Definition sample_request : EdgeRequestEnum := sample_kind.

(** A call, its request on the wire, and the stream closes. *)
Definition stranded_events : list task_event :=
  [TaskCall sample_request; TaskTx (TxRequest true); TaskRx RxError; TaskRx RxClosed; TaskRx RxClosed].
Definition stranded_state : ClientTasks :=
  mkClientTasks (mkClient [] false ∅ ∅ 1 {[0%Z := 0]} {[0 := None]} 1) true RxEnded false.

Lemma stranded_reached : task_run stranded_events client_spawned = Some stranded_state.
Proof. reflexivity. Qed.

Lemma closed_stream_strands_callers_witness :
  caller_poll 0 stranded_state = Pending /\
  (forall ev, quiet_event ev -> task_step ev stranded_state = None) /\
  exists s', task_run [TaskCall sample_request; TaskTx (TxRequest false)] stranded_state = Some s' /\
    caller_poll 0 s' = Ready None /\ caller_poll (next_receiver (tasks_client stranded_state)) s' = Ready None /\
    await_response None = Err disconnected /\
    forall request', fst (send_request request' (tasks_client s')) = Err (mkClientError (NoConnection request')).
Proof.
  apply (closed_stream_strands_callers 0 0 sample_request stranded_state).
  - repeat split.
  - reflexivity.
  - discriminate.
Defined.

Lemma dropped_client_settles_witness :
  exists s', task_run [TaskDrop; TaskTx TxCancelled; TaskRx RxCancelled] client_spawned = Some s' /\
    endpoint_map (tasks_client s') = ∅ /\
    (forall request, fst (send_request request (tasks_client s')) = Err (mkClientError (NoConnection request))) /\
    rx_running s' = true /\ task_step (TaskRx RxCancelled) s' = None /\
    forall ev, ev <> RxCancelled -> exists s'', task_step (TaskRx ev) s' = Some s'' /\
      rx_running s'' = false /\ forall rx, caller_poll rx s'' <> Pending.
Proof. apply (dropped_client_settles client_spawned eq_refl eq_refl). Defined.

Lemma tasks_refine_session_witness :
  exists ses, rtc (fun a b => exists e, session_step e a b)
    (mkSession (tasks_client client_spawned) [] [PayloadError (edge_error_new "x" ErrDecode)] ∅) ses /\
    client ses = tasks_client client_spawned.
Proof.
  apply (tasks_refine_session [] [PayloadError (edge_error_new "x" ErrDecode)] ∅
    (TaskRx (RxPayload (PayloadError (edge_error_new "x" ErrDecode)))) client_spawned client_spawned).
  - reflexivity.
  - reflexivity.
  - reflexivity.
  - intros p Hp. injection Hp as <-. reflexivity.
Defined.
End SdkTasksWitnesses.
