(* ===== verification/EdgeWire.v ===== *)
(** * A concrete codec of edge payloads

    The edge connections are proved against any codec that reads back what it
    wrote ([EdgeLink.faithful]); this file shows that there is one, as [Wire] does
    for the replicated state. *)

From S2P Require Import Prelude Ids Interest Message Proposal Queue Topic NodeData StateMachine Wire Edge Codec.

#[export] Instance edgemessageheader_eq_dec : EqDecision EdgeMessageHeader.
Proof. solve_decision. Defined.
#[export] Program Instance edgemessageheader_countable : Countable EdgeMessageHeader :=
  inj_countable' (fun x => (edge_ack_kind x, edge_target_kind x, edge_durability x, edge_subjects x, edge_topic x))
    (fun '(a, b, c, d, e) => mkEdgeHeader a b c d e) _.
Next Obligation. by intros []. Qed.

#[export] Instance edgemessage_eq_dec : EqDecision EdgeMessage.
Proof. solve_decision. Defined.
#[export] Program Instance edgemessage_countable : Countable EdgeMessage :=
  inj_countable' (fun x => (edge_header x, edge_payload x))
    (fun '(a, b) => mkEdgeMessage a b) _.
Next Obligation. by intros []. Qed.

#[export] Instance edgeendpointonline_eq_dec : EqDecision EdgeEndpointOnline.
Proof. solve_decision. Defined.
#[export] Program Instance edgeendpointonline_countable : Countable EdgeEndpointOnline :=
  inj_countable' (fun x => (edge_online_topic x, edge_online_interests x))
    (fun '(a, b) => mkEdgeOnline a b) _.
Next Obligation. by intros []. Qed.

#[export] Instance edgeendpointoffline_eq_dec : EqDecision EdgeEndpointOffline.
Proof. solve_decision. Defined.
#[export] Program Instance edgeendpointoffline_countable : Countable EdgeEndpointOffline :=
  inj_countable' (fun x => (edge_offline_topic x, edge_offline_endpoint x))
    (fun '(a, b) => mkEdgeOffline a b) _.
Next Obligation. by intros []. Qed.

#[export] Instance endpointinterest_eq_dec : EqDecision EndpointInterest.
Proof. solve_decision. Defined.
#[export] Program Instance endpointinterest_countable : Countable EndpointInterest :=
  inj_countable' (fun x => (interest_topic_code x, interest_endpoint x, interest_interests x))
    (fun '(a, b, c) => mkEndpointInterest a b c) _.
Next Obligation. by intros []. Qed.

#[export] Instance messagestateupdate_eq_dec : EqDecision MessageStateUpdate.
Proof. solve_decision. Defined.
#[export] Program Instance messagestateupdate_countable : Countable MessageStateUpdate :=
  inj_countable' (fun x => (update_message_id x, update_status x))
    (fun '(a, b) => mkStateUpdate a b) _.
Next Obligation. by intros []. Qed.

#[export] Instance setstate_eq_dec : EqDecision SetState.
Proof. solve_decision. Defined.
#[export] Program Instance setstate_countable : Countable SetState :=
  inj_countable' (fun x => (set_state_topic x, set_state_update x))
    (fun '(a, b) => mkSetState a b) _.
Next Obligation. by intros []. Qed.

#[export] Instance edgerequestenum_eq_dec : EqDecision EdgeRequestEnum.
Proof. solve_decision. Defined.
#[export] Program Instance edgerequestenum_countable : Countable EdgeRequestEnum :=
  inj_countable' (fun x => match x with | ReqSendMessage y => inl y | ReqEndpointOnline y => inr (inl y) | ReqEndpointOffline y => inr (inr (inl y)) | ReqEndpointInterest y => inr (inr (inr (inl y))) | ReqSetState y => inr (inr (inr (inr (y)))) end)
    (fun x => match x with | inl y => ReqSendMessage y | inr (inl y) => ReqEndpointOnline y | inr (inr (inl y)) => ReqEndpointOffline y | inr (inr (inr (inl y))) => ReqEndpointInterest y | inr (inr (inr (inr (y)))) => ReqSetState y end) _.
Next Obligation. by intros []. Qed.

#[export] Instance edgeerrorkind_eq_dec : EqDecision EdgeErrorKind.
Proof. solve_decision. Defined.
#[export] Program Instance edgeerrorkind_countable : Countable EdgeErrorKind :=
  inj_countable' (fun x => match x with | ErrDecode => inl () | ErrTopicNotFound => inr (inl ()) | ErrEndpointNotFound => inr (inr (inl ())) | ErrUnauthorized => inr (inr (inr (inl ()))) | ErrInternal => inr (inr (inr (inr (())))) end)
    (fun x => match x with | inl () => ErrDecode | inr (inl ()) => ErrTopicNotFound | inr (inr (inl ())) => ErrEndpointNotFound | inr (inr (inr (inl ()))) => ErrUnauthorized | inr (inr (inr (inr (())))) => ErrInternal end) _.
Next Obligation. by intros []. Qed.

#[export] Instance edgeerror_eq_dec : EqDecision EdgeError.
Proof. solve_decision. Defined.
#[export] Program Instance edgeerror_countable : Countable EdgeError :=
  inj_countable' (fun x => (edge_error_context x, edge_error_message x, edge_error_kind x))
    (fun '(a, b, c) => mkEdgeError a b c) _.
Next Obligation. by intros []. Qed.

#[export] Instance edgeresult_eq_dec {T E} `{EqDecision T, EqDecision E} : EqDecision (EdgeResult T E).
Proof. solve_decision. Defined.
#[export] Program Instance edgeresult_countable {T E} `{Countable T, Countable E} : Countable (EdgeResult T E) :=
  inj_countable' (fun x => match x with EdgeOk y => inl y | EdgeErr y => inr y end)
    (fun x => match x with inl y => EdgeOk y | inr y => EdgeErr y end) _.
Next Obligation. by intros ? ? ? ? ? ? []. Qed.

#[export] Instance waitackerrorexception_eq_dec : EqDecision WaitAckErrorException.
Proof. solve_decision. Defined.
#[export] Program Instance waitackerrorexception_countable : Countable WaitAckErrorException :=
  inj_countable' (fun x => match x with | MessageDropped => inl () | Overflow => inr (inl ()) | NoAvailableTarget => inr (inr (())) end)
    (fun x => match x with | inl () => MessageDropped | inr (inl ()) => Overflow | inr (inr (())) => NoAvailableTarget end) _.
Next Obligation. by intros []. Qed.

#[export] Instance waitackerror_eq_dec : EqDecision WaitAckError.
Proof. solve_decision. Defined.
#[export] Program Instance waitackerror_countable : Countable WaitAckError :=
  inj_countable' (fun x => (error_status x, error_exception x))
    (fun '(a, b) => mkWaitAckError a b) _.
Next Obligation. by intros []. Qed.

#[export] Instance waitacksuccess_eq_dec : EqDecision WaitAckSuccess.
Proof. solve_decision. Defined.
#[export] Program Instance waitacksuccess_countable : Countable WaitAckSuccess :=
  inj_countable' success_status mkWaitAckSuccess _.
Next Obligation. by intros []. Qed.

#[export] Instance edgeresponseenum_eq_dec : EqDecision EdgeResponseEnum.
Proof. solve_decision. Defined.
#[export] Program Instance edgeresponseenum_countable : Countable EdgeResponseEnum :=
  inj_countable' (fun x => match x with | RespSendMessage y => inl y | RespEndpointOnline y => inr (inl y) | RespEndpointOffline => inr (inr (inl ())) | RespEndpointInterest => inr (inr (inr (inl ()))) | RespSetState => inr (inr (inr (inr (())))) end)
    (fun x => match x with | inl y => RespSendMessage y | inr (inl y) => RespEndpointOnline y | inr (inr (inl ())) => RespEndpointOffline | inr (inr (inr (inl ()))) => RespEndpointInterest | inr (inr (inr (inr (())))) => RespSetState end) _.
Next Obligation. by intros []. Qed.

#[export] Instance edgerequest_eq_dec : EqDecision EdgeRequest.
Proof. solve_decision. Defined.
#[export] Program Instance edgerequest_countable : Countable EdgeRequest :=
  inj_countable' (fun x => (request_seq_id x, request x))
    (fun '(a, b) => mkEdgeRequest a b) _.
Next Obligation. by intros []. Qed.

#[export] Instance edgeresponse_eq_dec : EqDecision EdgeResponse.
Proof. solve_decision. Defined.
#[export] Program Instance edgeresponse_countable : Countable EdgeResponse :=
  inj_countable' (fun x => (response_seq_id x, response_of x))
    (fun '(a, b) => mkEdgeResponse a b) _.
Next Obligation. by intros []. Qed.

#[export] Instance edgepush_eq_dec : EqDecision EdgePush.
Proof. solve_decision. Defined.
#[export] Program Instance edgepush_countable : Countable EdgePush :=
  inj_countable' (fun '(PushMessage endpoints message) => (endpoints, message))
    (fun '(endpoints, message) => PushMessage endpoints message) _.
Next Obligation. by intros []. Qed.

#[export] Instance edgepayload_eq_dec : EqDecision EdgePayload.
Proof. solve_decision. Defined.
#[export] Program Instance edgepayload_countable : Countable EdgePayload :=
  inj_countable' (fun x => match x with | PayloadPush y => inl y | PayloadResponse y => inr (inl y) | PayloadRequest y => inr (inr (inl y)) | PayloadError y => inr (inr (inr (y))) end)
    (fun x => match x with | inl y => PayloadPush y | inr (inl y) => PayloadResponse y | inr (inr (inl y)) => PayloadRequest y | inr (inr (inr (y))) => PayloadError y end) _.
Next Obligation. by intros []. Qed.

(** ** The codec *)

Definition concrete_codec : Codec :=
  mkCodec (fun v => pos_bytes (encode v))
    (fun bs => match decode (bytes_pos bs) with Some v => Ok v | None => Err (decode_error "payload") end).

Lemma concrete_codec_faithful v : codec_decode concrete_codec (codec_encode concrete_codec v) = Ok v.
Proof. cbn. by rewrite bytes_pos_bytes, decode_encode. Qed.
