(* ===== verification/EdgeLink.v ===== *)
(** * An edge connection and its task

    [Node::create_edge_connection] of [node.rs] and [EdgeConnectionInstance::init]
    of [node/edge/connection.rs]: how a connection is made, the [select!] loop of
    its task, the tasks it spawns for requests, and its end.  The node's side of a
    client's session ([Sdk.Session]) is refined by it. *)

From S2P Require Import Prelude Ids Interest Message Proposal Queue Topic NodeData Edge Codec EdgeNode Rpc Sdk EdgeWire.

(** [EdgeConfig] of [edge.rs]; its [peer_auth] is a struct without fields. *)
Record EdgeConfig : Type := mkEdgeConfig {
  peer_id : NodeId;
  supported_codec_kinds : gset CodecKind;
}.

Section EdgeLink.
Context `{HashOrder}.
Context (raft_propose : Proposal -> EdgeNode -> Result () string * EdgeNode).
Context (await_handle : MessageId -> EdgeNode -> WaitAckResult * EdgeNode).
Context (edge_auth : option (NodeId -> EdgeRequestEnum -> Result () string)).
Context (timestamp executor_digest : Z).

(** ** Making a connection *)

(** The beginning of [create_edge_connection] and [init]: the codec is picked and
    looked up, the instance made and its task spawned.  The node is there: the
    method was called on it. *)
Definition connection_init (config : EdgeConfig) (n : EdgeNode) :
    Result (loc * EdgeConnection) (NodeConnectionError string) * EdgeNode :=
  match pick_preferred_codec (supported_codec_kinds config) (codec_registry n) with
  | None => (Err (mkConnectionError ConnProtocol "no codec available"), n)
  | Some preferred =>
      match registry_get preferred (codec_registry n) with
      | None => (Err (mkConnectionError ConnProtocol "preferred codec is not registered"), n)
      | Some _ =>
          let conn := fresh (dom (conn_heap n)) in
          let inst := mkEdgeConnection (peer_id config) preferred true false [] in
          (Ok (conn, inst), set_conn_heap (<[conn := inst]> (conn_heap n)) n)
      end
  end.

(** The end of [create_edge_connection]: whatever has become of the instance. *)
Definition connection_insert (conn : loc) (n : EdgeNode) : Result NodeId (NodeConnectionError string) * EdgeNode :=
  match conn_heap n !! conn with
  | None => (Err (mkConnectionError ConnClosed "no connection"), n)
  | Some inst => (Ok (conn_peer inst), set_connections (<[conn_peer inst := conn]> (edge_connections n)) n)
  end.

(** [create_edge_connection]; [meanwhile] is what other tasks, the connection's own
    among them, do before the insertion. *)
Definition create_edge_connection (meanwhile : loc -> EdgeNode -> EdgeNode) (config : EdgeConfig) (n : EdgeNode) :
    Result NodeId (NodeConnectionError string) * EdgeNode :=
  match connection_init config n with
  | (Err e, n) => (Err e, n)
  | (Ok (conn, _), n) => connection_insert conn (meanwhile conn n)
  end.

(** ** The task of a connection *)

(** The node, whether the loop still runs, the requests whose tasks have not
    finished, and what the sink has taken. *)
Record EdgeLink : Type := mkLink {
  link_node : EdgeNode;
  link_running : bool;
  in_flight : list (Z * EdgeRequestEnum);
  wire_out : list EdgePacket;
}.

Definition set_link_node (n : EdgeNode) (l : EdgeLink) : EdgeLink :=
  mkLink n (link_running l) (in_flight l) (wire_out l).

Section Task.
Context (conn : loc).

(** The end of the task, for whatever reason. *)
Definition link_finish (l : EdgeLink) : EdgeLink :=
  mkLink (connection_finished conn (link_node l)) false (in_flight l) (wire_out l).

(** The arm [stream.next()] and [PollEvent::PacketIn]. *)
Definition link_in (item : option (Result EdgePacket (NodeConnectionError string))) (l : EdgeLink) : EdgeLink :=
  match item with
  | None | Some (Err _) => link_finish l
  | Some (Ok packet) =>
      match registry_decode (packet_codec (packet_header packet)) (packet_payload packet)
              (codec_registry (link_node l)) with
      | Ok (PayloadRequest req) =>
          mkLink (link_node l) (link_running l) (in_flight l ++ [(request_seq_id req, Edge.request req)]) (wire_out l)
      | _ => l
      end
  end.

(** The arm [outbound_rx.recv_async()] and [PollEvent::PacketOut].  The task holds a
    sender of this channel itself: it is never closed from outside. *)
Definition link_out (sink_ok : bool) (l : EdgeLink) : option EdgeLink :=
  inst ← conn_heap (link_node l) !! conn;
  match conn_outbound inst with
  | [] => None
  | packet :: rest =>
      let inst := mkEdgeConnection (conn_peer inst) (conn_codec inst) (conn_alive inst) (conn_closed inst) rest in
      let n := set_conn_heap (<[conn := inst]> (conn_heap (link_node l))) (link_node l) in
      Some (if sink_ok then mkLink n (link_running l) (in_flight l) (wire_out l ++ [packet])
            else link_finish (set_link_node n l))
  end.

(** A task spawned for a request, to its end. *)
Definition link_serve (i : nat) (l : EdgeLink) : option EdgeLink :=
  '(seq_id, request) ← in_flight l !! i;
  inst ← conn_heap (link_node l) !! conn;
  encoder ← registry_get (conn_codec inst) (codec_registry (link_node l));
  let '(resp, (n, _)) := handle_edge_request raft_propose await_handle edge_auth timestamp executor_digest
                           (conn_peer inst) request (link_node l) in
  let payload := codec_encode encoder (PayloadResponse (edge_response_from_result seq_id resp)) in
  let '(packet, c) := edge_packet_new timestamp executor_digest (conn_codec inst) payload (packet_counter n) in
  Some (mkLink (snd (send_packet conn packet (set_packet_counter c n))) (link_running l) (delete i (in_flight l))
          (wire_out l)).

Inductive link_event : Type :=
  | LinkIn (item : option (Result EdgePacket (NodeConnectionError string)))
  | LinkOut (sink_ok : bool)
  | LinkServe (i : nat)
  | LinkPush (ep : EndpointAddr) (m : Message).

Definition link_step (ev : link_event) (l : EdgeLink) : option EdgeLink :=
  match ev with
  | LinkIn item => if link_running l then Some (link_in item l) else None
  | LinkOut sink_ok => if link_running l then link_out sink_ok l else None
  | LinkServe i => link_serve i l
  | LinkPush ep m =>
      Some (set_link_node (snd (edge_push_message timestamp executor_digest conn ep m (link_node l))) l)
  end.

Fixpoint link_run (evs : list link_event) (l : EdgeLink) : option EdgeLink :=
  match evs with
  | [] => Some l
  | ev :: evs => link_step ev l ≫= link_run evs
  end.
End Task.
End EdgeLink.

(** ** Facts *)

(** What a handler awaits leaves the connections to their own tasks: here, what
    happens on a connection meanwhile is a step of its own. *)
Definition leaves_links {A} (m : EdgeNode -> A * EdgeNode) : Prop :=
  forall n, conn_heap (snd (m n)) = conn_heap n /\ codec_registry (snd (m n)) = codec_registry n.

Definition keeps_links {A} (m : Handler A) : Prop :=
  forall n, conn_heap (fst (snd (m n))) = conn_heap n /\ codec_registry (fst (snd (m n))) = codec_registry n.

Section Keeps.
Context `{HashOrder}.

Lemma keeps_bind {A B} (m : Handler A) (f : A -> Handler B) :
  keeps_links m -> (forall a, keeps_links (f a)) -> keeps_links (handler_bind m f).
Proof.
  intros Hm Hf n. unfold handler_bind. specialize (Hm n). destruct (m n) as [[a|e] [n1 p1]]; [|done].
  specialize (Hf a n1). destruct (f a n1) as [r [n2 p2]]. cbn in *. intuition congruence.
Qed.
Lemma keeps_ret {A} (a : A) : keeps_links (handler_ret a).
Proof. done. Qed.
Lemma keeps_fail {A} (e : EdgeError) : keeps_links (@handler_fail A e).
Proof. done. Qed.
Lemma keeps_get {A} (f : EdgeNode -> A) : keeps_links (handler_get f).
Proof. done. Qed.
Lemma keeps_check {A} (f : EdgeNode -> Result A EdgeError) : keeps_links (handler_check f).
Proof. done. Qed.

Context (raft_propose : Proposal -> EdgeNode -> Result () string * EdgeNode).
Context (await_handle : MessageId -> EdgeNode -> WaitAckResult * EdgeNode).
Context (Hraft : forall p, leaves_links (raft_propose p)) (Hawait : forall i, leaves_links (await_handle i)).

Lemma keeps_propose context p : keeps_links (propose_or raft_propose context p).
Proof. intros n. unfold propose_or. specialize (Hraft p n). by destruct (raft_propose p n) as [[] n']. Qed.

Lemma keeps_topic code : keeps_links (topic_or_not_found code).
Proof. apply keeps_bind; [done|]. by intros []. Qed.

Lemma keeps_check_all eps from : keeps_links (check_all eps from).
Proof. induction eps; [done|]. by apply keeps_bind. Qed.

Lemma keeps_request edge_auth timestamp executor_digest from kind :
  keeps_links (handle_edge_request raft_propose await_handle edge_auth timestamp executor_digest from kind).
Proof.
  apply keeps_bind; [done|]. intros _. destruct kind.
  - intros n. cbn. unfold edge_send_message. destruct (into_message timestamp executor_digest m (message_counter n)) as [[m' code] c].
    match goal with |- context [handler_bind ?m ?f ?n'] =>
      assert (keeps_links (handler_bind m f)) as Hk; [|apply (Hk n')] end.
    apply keeps_bind; [apply keeps_topic|]. intros t. apply keeps_bind.
    + unfold send_message. apply keeps_bind; [done|]. intros _. apply keeps_bind; [apply keeps_propose|done].
    + intros id n'. specialize (Hawait id n'). by destruct (await_handle id n').
  - apply keeps_bind; [apply keeps_topic|]. intros _. apply keeps_bind.
    { intros n. by destruct (endpoint_addr_new_snowflake timestamp executor_digest (endpoint_counter n)). }
    intros ep. apply keeps_bind; [done|]. intros host. apply keeps_bind; [apply keeps_propose|]. intros _. by apply keeps_bind.
  - apply keeps_bind; [apply keeps_topic|]. intros _. apply keeps_bind; [done|]. intros _.
    apply keeps_bind; [apply keeps_propose|]. intros _. by apply keeps_bind.
  - apply keeps_bind; [apply keeps_topic|]. intros _. apply keeps_bind; [done|]. intros _.
    apply keeps_bind; [apply keeps_propose|done].
  - apply keeps_bind; [apply keeps_topic|]. intros _. apply keeps_bind; [apply keeps_check_all|]. intros _.
    apply keeps_bind; [apply keeps_propose|done].
Qed.

Lemma finished_heap conn n inst :
  conn_heap n !! conn = Some inst ->
  conn_heap (connection_finished conn n) =
    <[conn := mkEdgeConnection (conn_peer inst) (conn_codec inst) false true (conn_outbound inst)]> (conn_heap n) /\
  codec_registry (connection_finished conn n) = codec_registry n.
Proof.
  intros Hc. unfold connection_finished, remove_edge_connection. rewrite Hc. by case_match.
Qed.
End Keeps.

(** ** What a connection does for a session *)

(** The moves of the node's half of a session: the requests it is handling, and
    what it has sent.  A response or a push is a step of [session_step] whatever
    the client does; once the connection has ended, what was not yet on the wire
    is lost and answers go nowhere. *)
Section NodeHalf.
Context `{HashOrder}.

Inductive node_move : list (Z * EdgeRequestEnum) * list EdgePayload ->
    list (Z * EdgeRequestEnum) * list EdgePayload -> Prop :=
  | node_stay sv sent : node_move (sv, sent) (sv, sent)
  | node_receive sv sent k kind : node_move (sv, sent) (sv ++ [(k, kind)], sent)
  | node_session ev sv sent sv' new :
      (forall c down asked, session_step ev (mkSession c sv down asked) (mkSession c sv' (down ++ new) asked)) ->
      node_move (sv, sent) (sv', sent ++ new)
  | node_unheard sv sent i : node_move (sv, sent) (delete i sv, sent)
  | node_cut sv sent sent' : sent' `prefix_of` sent -> node_move (sv, sent) (sv, sent').

Context (conn : loc).

(** What is on the wire or will be, decoded. *)
Definition decoded (r : CodecRegistry) (l : list EdgePacket) : list EdgePayload :=
  omap (fun p => match registry_decode (packet_codec (packet_header p)) (packet_payload p) r with
                 | Ok payload => Some payload
                 | Err _ => None
                 end) l.
Definition outbound (l : EdgeLink) : list EdgePacket :=
  match conn_heap (link_node l) !! conn with
  | Some inst => if link_running l then conn_outbound inst else []
  | None => []
  end.
Definition link_half (l : EdgeLink) : list (Z * EdgeRequestEnum) * list EdgePayload :=
  (in_flight l, decoded (codec_registry (link_node l)) (wire_out l ++ outbound l)).

(** The connection is there, open as long as its loop runs, with a registered and
    faithful codec. *)
Definition faithful (codec : Codec) : Prop := forall v, codec_decode codec (codec_encode codec v) = Ok v.

Record link_ok (l : EdgeLink) : Prop := mkLinkOk {
  lk_inst : exists inst codec, conn_heap (link_node l) !! conn = Some inst /\
    conn_closed inst = negb (link_running l) /\
    registry_get (conn_codec inst) (codec_registry (link_node l)) = Some codec /\ faithful codec;
}.

Lemma decoded_app r l1 l2 : decoded r (l1 ++ l2) = decoded r l1 ++ decoded r l2.
Proof. apply omap_app. Qed.

Lemma finish_ok l : link_ok l -> link_ok (link_finish conn l) /\
  outbound (link_finish conn l) = [] /\ codec_registry (link_node (link_finish conn l)) = codec_registry (link_node l).
Proof.
  intros [(inst & codec & Hi & Hc & Hg & Hf)].
  destruct (finished_heap conn (link_node l) inst Hi) as [Hh Hr]. split_and!.
  - split. eexists _, codec. cbn. rewrite Hh, Hr, lookup_insert_eq. by split_and!.
  - unfold outbound. cbn. by rewrite Hh, lookup_insert_eq.
  - done.
Qed.

Lemma finish_move l l' : link_ok l' -> in_flight l' = in_flight l ->
  codec_registry (link_node l') = codec_registry (link_node l) -> wire_out l' = wire_out l ->
  node_move (link_half l) (link_half (link_finish conn l')).
Proof.
  intros Hok Hfl Hreg Hw. destruct (finish_ok l' Hok) as (_ & Ho & Hr). unfold link_half. rewrite Ho, Hr. cbn.
  rewrite Hfl, Hreg, Hw, app_nil_r, decoded_app. apply node_cut. by apply prefix_app_r.
Qed.

(** A packet encoded for the connection and handed to it: it will go out, unless
    the loop has ended. *)
Lemma send_packet_half l inst codec n v packet inflight :
  conn_heap (link_node l) !! conn = Some inst -> conn_closed inst = negb (link_running l) ->
  registry_get (conn_codec inst) (codec_registry (link_node l)) = Some codec -> faithful codec ->
  conn_heap n = conn_heap (link_node l) -> codec_registry n = codec_registry (link_node l) ->
  packet_codec (packet_header packet) = conn_codec inst -> packet_payload packet = codec_encode codec v ->
  let l' := mkLink (snd (send_packet conn packet n)) (link_running l) inflight (wire_out l) in
  link_ok l' /\ link_half l' = (inflight, snd (link_half l) ++ if link_running l then [v] else []).
Proof.
  intros Hi Hc Hg Hf Hh Hr Hpc Hpp. cbn zeta. unfold send_packet. rewrite Hh, Hi, Hc.
  destruct (link_running l) eqn:Hrun; cbn [negb].
  - split.
    + split. eexists _, codec. cbn. rewrite lookup_insert_eq, Hr. by split_and!.
    + unfold link_half, outbound. cbn -[decoded]. rewrite Hi, lookup_insert_eq, Hrun, Hr. cbn -[decoded]. f_equal.
      rewrite (app_assoc (wire_out l)), (decoded_app _ (_ ++ _) [packet]). f_equal.
      unfold decoded, registry_decode. cbn. rewrite Hpc, Hpp. unfold registry_get in Hg. by rewrite Hg, Hf.
  - split.
    + split. exists inst, codec. cbn. by rewrite Hh, Hr, Hi.
    + unfold link_half, outbound. cbn -[decoded]. by rewrite Hh, Hi, Hrun, Hr, !app_nil_r.
Qed.
End NodeHalf.

Section LinkSteps.
Context `{HashOrder}.
Context (raft_propose : Proposal -> EdgeNode -> Result () string * EdgeNode).
Context (await_handle : MessageId -> EdgeNode -> WaitAckResult * EdgeNode).
Context (edge_auth : option (NodeId -> EdgeRequestEnum -> Result () string)).
Context (timestamp executor_digest : Z).
Context (Hraft : forall p, leaves_links (raft_propose p)) (Hawait : forall i, leaves_links (await_handle i)).
Context (conn : loc).

Abbreviation step := (link_step raft_propose await_handle edge_auth timestamp executor_digest conn).
Abbreviation run := (link_run raft_propose await_handle edge_auth timestamp executor_digest conn).

(** The number of the request an event brings. *)
Definition received (r : CodecRegistry) (ev : link_event) : list Z :=
  match ev with
  | LinkIn (Some (Ok packet)) =>
      match registry_decode (packet_codec (packet_header packet)) (packet_payload packet) r with
      | Ok (PayloadRequest req) => [request_seq_id req]
      | _ => []
      end
  | _ => []
  end.
Definition response_ids (l : EdgeLink) : list Z := (responses_in (snd (link_half conn l))).*1.

(** The numbers that came in are being handled or answered. *)
Definition accounted (new : list Z) (l l' : EdgeLink) : Prop :=
  new ++ (in_flight l).*1 ++ response_ids l ≡ₚ (in_flight l').*1 ++ response_ids l'.

Definition link_effect (new : list Z) (l l' : EdgeLink) : Prop :=
  link_ok conn l' /\ codec_registry (link_node l') = codec_registry (link_node l) /\
  node_move (link_half conn l) (link_half conn l') /\
  (link_running l' = true -> link_running l = true /\ accounted new l l').

Lemma effect_same new l l' : link_ok conn l' -> codec_registry (link_node l') = codec_registry (link_node l) ->
  link_half conn l' = link_half conn l -> link_running l' = link_running l -> new = [] -> link_effect new l l'.
Proof.
  intros Hok Hr Hh Hrun ->. split_and!; [done|done|rewrite Hh; apply node_stay|]. rewrite Hrun. intros Hl.
  split; [done|]. unfold accounted, response_ids. rewrite Hh. by injection Hh as -> _.
Qed.

Lemma effect_finish new l l' : link_ok conn l' -> in_flight l' = in_flight l ->
  codec_registry (link_node l') = codec_registry (link_node l) -> wire_out l' = wire_out l ->
  link_effect new l (link_finish conn l').
Proof.
  intros Hok Hf Hr Hw. destruct (finish_ok conn l' Hok) as (Hok' & _ & Hr'). split_and!; [done|congruence| |done].
  by apply finish_move.
Qed.

Lemma link_step_in item l : link_ok conn l -> link_running l = true ->
  link_effect (received (codec_registry (link_node l)) (LinkIn item)) l (link_in conn item l).
Proof.
  intros Hok Hrun. destruct item as [[packet|e]|]; cbn [link_in received]; [|by apply effect_finish..].
  destruct (registry_decode _ _ _) as [[p|r|req|e]|e]; [by apply effect_same..| |by apply effect_same|by apply effect_same].
  destruct Hok as [Hi]. split_and!; [by split|done|by apply node_receive|]. intros _. split; [done|].
  unfold accounted. change (response_ids (mkLink _ _ _ _)) with (response_ids l). cbn. rewrite fmap_app. cbn. solve_Permutation.
Qed.

Lemma link_step_out sink_ok l l' : link_ok conn l -> link_running l = true ->
  link_out conn sink_ok l = Some l' -> link_effect [] l l'.
Proof.
  intros Hok Hrun Hs. destruct Hok as [(inst & codec & Hi & Hc & Hg & Hf)]. unfold link_out in Hs. rewrite Hi in Hs.
  cbn [mbind option_bind] in Hs. destruct (conn_outbound inst) as [|packet rest] eqn:Ho; [done|].
  set (n := set_conn_heap _ _) in Hs.
  assert (link_ok conn (set_link_node n l)) as Hok'.
  { split. eexists _, codec. cbn. rewrite lookup_insert_eq. by split_and!. }
  destruct sink_ok; injection Hs as <-.
  - apply effect_same; try done.
    + destruct Hok' as [Hok']. by split.
    + unfold link_half, outbound. cbn -[decoded]. rewrite lookup_insert_eq, Hi, Hrun. cbn -[decoded].
      by rewrite Ho, <-app_assoc.
  - by apply effect_finish.
Qed.

Lemma link_step_push ep m l : link_ok conn l ->
  link_effect [] l (set_link_node (snd (edge_push_message timestamp executor_digest conn ep m (link_node l))) l).
Proof.
  intros Hok. pose proof Hok as [(inst & codec & Hi & Hc & Hg & Hf)].
  unfold edge_push_message, encode_packet, registry_encode. rewrite Hi. unfold registry_get in Hg. rewrite Hg.
  cbn [edge_packet_new edge_packet_id_new_snowflake].
  set (packet := mkPacket _ _). set (n := set_packet_counter _ _).
  destruct (send_packet_half conn l inst codec n (PayloadPush (PushMessage [ep] m)) packet (in_flight l))
    as [Hok' Hh]; try done.
  assert (codec_registry (snd (send_packet conn packet n)) = codec_registry (link_node l)) as Hr.
  { unfold send_packet. change (conn_heap n) with (conn_heap (link_node l)). rewrite Hi. by destruct (conn_closed inst). }
  split_and!; [done|done| |].
  - unfold set_link_node. rewrite Hh. unfold link_half at 1. destruct (link_running l).
    + eapply (node_session (EvPush [ep] m)). intros c down asked. apply step_push.
    + cbn [snd]. rewrite app_nil_r. apply node_stay.
  - cbn [link_running set_link_node]. intros Hrun. split; [done|]. unfold accounted, response_ids, set_link_node.
    rewrite Hh. cbn [snd in_flight]. rewrite Hrun, wire_responses_in_app. cbn. by rewrite app_nil_r.
Qed.

Lemma link_step_serve i l l' : link_ok conn l ->
  link_serve raft_propose await_handle edge_auth timestamp executor_digest conn i l = Some l' -> link_effect [] l l'.
Proof.
  intros Hok Hs. pose proof Hok as [(inst & codec & Hi & Hc & Hg & Hf)]. unfold link_serve in Hs.
  destruct (in_flight l !! i) as [[k kind]|] eqn:Hk; [|done]. cbn [mbind option_bind] in Hs.
  rewrite Hi in Hs. cbn [mbind option_bind] in Hs. rewrite Hg in Hs. cbn [mbind option_bind] in Hs.
  pose proof (keeps_request raft_propose await_handle Hraft Hawait edge_auth timestamp executor_digest
    (conn_peer inst) kind (link_node l)) as [Hh Hr].
  assert (serves kind (fst (handle_edge_request raft_propose await_handle edge_auth timestamp executor_digest
    (conn_peer inst) kind (link_node l)))) as Hserves by (by repeat eexists).
  destruct (handle_edge_request _ _ _ _ _ _ _ _) as [resp [n ps]]. cbn [fst snd] in Hh, Hr, Hserves.
  cbn [edge_packet_new edge_packet_id_new_snowflake] in Hs. injection Hs as <-.
  set (v := PayloadResponse _). set (packet := mkPacket _ _). set (n' := set_packet_counter _ _).
  destruct (send_packet_half conn l inst codec n' v packet (delete i (in_flight l))) as [Hok' Hhalf]; try done.
  assert (codec_registry (snd (send_packet conn packet n')) = codec_registry (link_node l)) as Hr'.
  { unfold send_packet. change (conn_heap n') with (conn_heap n). rewrite Hh, Hi. by destruct (conn_closed inst). }
  split_and!; [done|done| |].
  - rewrite Hhalf. unfold link_half at 1. destruct (link_running l).
    + eapply (node_session (EvServe i resp)). intros c down asked. by eapply step_serve.
    + cbn [snd]. rewrite app_nil_r. apply node_unheard.
  - cbn [link_running]. intros Hrun. split; [done|]. unfold accounted, response_ids. rewrite Hhalf. cbn [snd in_flight].
    rewrite Hrun, wire_responses_in_app, fmap_app. cbn.
    rewrite (delete_Permutation (in_flight l) i _ Hk) at 1. cbn. solve_Permutation.
Qed.

Lemma link_step_effect ev l l' : link_ok conn l -> step ev l = Some l' ->
  link_effect (received (codec_registry (link_node l)) ev) l l'.
Proof.
  intros Hok Hs. destruct ev as [item|sink_ok|i|ep m]; cbn [link_step] in Hs.
  - destruct (link_running l) eqn:Hrun; [|done]. injection Hs as <-. by apply link_step_in.
  - destruct (link_running l) eqn:Hrun; [|done]. by apply link_step_out in Hs.
  - by apply link_step_serve in Hs.
  - injection Hs as <-. by apply link_step_push.
Qed.
End LinkSteps.

(** ** Properties *)

Section LinkProperties.
Context `{HashOrder}.
Context (raft_propose : Proposal -> EdgeNode -> Result () string * EdgeNode).
Context (await_handle : MessageId -> EdgeNode -> WaitAckResult * EdgeNode).
Context (edge_auth : option (NodeId -> EdgeRequestEnum -> Result () string)).
Context (timestamp executor_digest : Z).

Abbreviation run := (link_run raft_propose await_handle edge_auth timestamp executor_digest).

(** C15: The task of an edge connection is the node's half of a client's session.
    Whatever packets come in, whatever order the spawned tasks finish in, and
    whatever is pushed meanwhile, the requests being handled and the payloads sent,
    decoded, move only as a session allows: a request comes in, a response is a
    node's answer to a request it was handling, under its number, a push is a push,
    and the end of the connection cuts the wire off after what was sent. *)
Theorem link_refines_session (conn : loc) (evs : list link_event) (l l' : EdgeLink)
    (Hraft : forall p, leaves_links (raft_propose p)) (Hawait : forall i, leaves_links (await_handle i))
    (Hok : link_ok conn l) (Hrun : run conn evs l = Some l') :
  link_ok conn l' /\ rtc node_move (link_half conn l) (link_half conn l').
Proof.
  revert l Hok Hrun. induction evs as [|ev evs IH]; intros l Hok Hrun; cbn [link_run] in Hrun.
  { injection Hrun as <-. by split. }
  apply bind_Some in Hrun as (l1 & Hs & Hrun).
  destruct (link_step_effect _ _ _ _ _ Hraft Hawait conn ev l l1 Hok Hs) as (Hok1 & _ & Hm & _).
  destruct (IH l1 Hok1 Hrun) as [Hok' Hms]. split; [done|]. by eapply rtc_l.
Qed.

(** A connection that lives loses no request and answers none twice: as long as
    the loop runs, the numbers of the requests that came in, with those that were
    being handled and answered before, are the numbers of those being handled and
    of the responses sent, each as many times. *)
Theorem link_answers_once (conn : loc) (evs : list link_event) (l l' : EdgeLink)
    (Hraft : forall p, leaves_links (raft_propose p)) (Hawait : forall i, leaves_links (await_handle i))
    (Hok : link_ok conn l) (Hrun : run conn evs l = Some l') (Hlive : link_running l' = true) :
  (evs ≫= received (codec_registry (link_node l))) ++ (in_flight l).*1 ++ response_ids conn l ≡ₚ
    (in_flight l').*1 ++ response_ids conn l'.
Proof.
  enough (link_running l = true /\ accounted conn (evs ≫= received (codec_registry (link_node l))) l l') as [_ Hacc] by done.
  revert l Hok Hrun. induction evs as [|ev evs IH]; intros l Hok Hrun; cbn [link_run] in Hrun.
  { injection Hrun as <-. split; [done|]. unfold accounted. done. }
  apply bind_Some in Hrun as (l1 & Hs & Hrun).
  destruct (link_step_effect _ _ _ _ _ Hraft Hawait conn ev l l1 Hok Hs) as (Hok1 & Hreg & _ & Hacc1).
  destruct (IH l1 Hok1 Hrun) as [Hl1 Hacc]. destruct (Hacc1 Hl1) as [Hl Hone]. split; [done|].
  rewrite Hreg in Hacc. unfold accounted in *. rewrite <-Hacc. cbn [mbind list_bind]. rewrite <-Hone. solve_Permutation.
Qed.

(** A connection is made exactly when the peer and the node have a codec in
    common, and the node then finds it under the peer's id, alive and in a state
    its task keeps; but when its task has ended before the insertion, what the
    node inserts is a dead connection that nothing will remove: the peer is not
    found, and the entry stays. *)
Theorem create_edge_connection_spec (config : EdgeConfig) (n : EdgeNode)
    (Hfaithful : forall kind codec, registry_get kind (codec_registry n) = Some codec -> faithful codec) :
  let conn := fresh (dom (conn_heap n)) in
  let create meanwhile := create_edge_connection meanwhile config n in
  ((forall kind, kind ∈ supported_codec_kinds config -> registry_get kind (codec_registry n) = None) ->
   forall meanwhile, create meanwhile = (Err (mkConnectionError ConnProtocol "no codec available"), n)) /\
  ((exists kind, kind ∈ supported_codec_kinds config /\ is_Some (registry_get kind (codec_registry n))) ->
   exists n' nd,
     create (fun _ n => n) = (Ok (peer_id config), n') /\
     get_edge_connection (peer_id config) n' = Some conn /\ conn_heap n !! conn = None /\
     link_ok conn (mkLink n' true [] []) /\
     create connection_finished = (Ok (peer_id config), nd) /\
     get_edge_connection (peer_id config) nd = None /\ edge_connections nd !! peer_id config = Some conn).
Proof.
  intros conn create. unfold create, create_edge_connection, connection_init.
  pose proof (pick_preferred_codec_sound (supported_codec_kinds config) (codec_registry n)) as Hpick.
  split.
  - intros Hnone meanwhile. destruct (pick_preferred_codec _ _) as [kind|]; [|done].
    destruct Hpick as (Hin & codec & Hc & _). by rewrite Hnone in Hc.
  - intros (kind & Hin & Hreg). destruct (pick_preferred_codec _ _) as [preferred|].
    2: { apply Hpick in Hin. rewrite Hin in Hreg. by apply is_Some_None in Hreg. }
    destruct Hpick as (_ & codec & Hc & _). rewrite Hc. fold conn.
    assert (conn_heap n !! conn = None) as Hfresh by (apply not_elem_of_dom, is_fresh).
    set (inst := mkEdgeConnection (peer_id config) preferred true false []).
    set (n1 := set_conn_heap (<[conn := inst]> (conn_heap n)) n).
    assert (conn_heap n1 !! conn = Some inst) as H1 by (cbn; apply lookup_insert_eq).
    destruct (finished_heap conn n1 inst H1) as [Hdead _].
    unfold connection_insert. rewrite H1. rewrite Hdead, lookup_insert_eq. eexists _, _. split_and!; [done| |done| |done| |].
    + unfold get_edge_connection. cbn. rewrite lookup_insert_eq. cbn. by rewrite lookup_insert_eq.
    + split. exists inst, codec. cbn. rewrite lookup_insert_eq. split_and!; try done. by eapply Hfaithful.
    + unfold get_edge_connection. cbn [edge_connections set_connections conn_heap conn_peer]. rewrite lookup_insert_eq. cbn [mbind option_bind].
      by rewrite Hdead, lookup_insert_eq.
    + cbn. by rewrite lookup_insert_eq.
Qed.
End LinkProperties.

Section LinkWitnesses.
Import Sample.
#[local] Existing Instance sample_hash.

(** A registry with one faithful codec. *)
Definition one_codec (codec : Codec) : CodecRegistry := registry_register JSON codec registry_new_empty.
Definition link_edge (codec : Codec) : EdgeNode :=
  mkEdgeNode (edge_world sample_edge) (edge_connections sample_edge) (conn_heap sample_edge) (edge_routing sample_edge)
    (one_codec codec) 0 0 0 [].
Definition sample_link (codec : Codec) : EdgeLink := mkLink (link_edge codec) true [] [].

Definition request_packet (codec : Codec) : EdgePacket :=
  mkPacket (mkPacketHeader (mkEdgePacketId []) JSON)
    (codec_encode codec (PayloadRequest (mkEdgeRequest 3%Z (ReqEndpointOffline sample_offline)))).
Definition sample_link_events (codec : Codec) : list link_event :=
  [LinkIn (Some (Ok (request_packet codec))); LinkPush (ep x05) (msg Push x01); LinkServe 0; LinkOut true].

Lemma sample_link_ok codec : faithful codec -> link_ok 7 (sample_link codec).
Proof. intros Hf. split. exists sample_conn, codec. by split_and!. Qed.

Lemma link_run_cons raft_propose await_handle edge_auth timestamp executor_digest conn ev evs l l1 :
  link_step raft_propose await_handle edge_auth timestamp executor_digest conn ev l = Some l1 ->
  link_run raft_propose await_handle edge_auth timestamp executor_digest conn (ev :: evs) l =
    link_run raft_propose await_handle edge_auth timestamp executor_digest conn evs l1.
Proof. intros Hs. cbn [link_run]. by rewrite Hs. Qed.

Lemma sample_link_run codec : faithful codec ->
  exists l, link_run accept no_answer None 5 77 7 (sample_link_events codec) (sample_link codec) = Some l /\
    link_running l = true.
Proof.
  intros Hf. unfold sample_link_events.
  assert (link_in 7 (Some (Ok (request_packet codec))) (sample_link codec) =
    mkLink (link_edge codec) true [(3%Z, ReqEndpointOffline sample_offline)] []) as Hin.
  { unfold link_in. replace (registry_decode _ _ _)
      with (@Ok EdgePayload CodecError (PayloadRequest (mkEdgeRequest 3%Z (ReqEndpointOffline sample_offline)))); [done|].
    symmetry. apply Hf. }
  rewrite (link_run_cons accept no_answer None 5 77 7 (LinkIn (Some (Ok (request_packet codec)))) _
    (sample_link codec) _ (f_equal Some Hin)). clear Hin. eexists. split; vm_compute; reflexivity.
Qed.

Lemma accept_leaves p : leaves_links (accept p).
Proof. done. Qed.
Lemma no_answer_leaves i : leaves_links (no_answer i).
Proof. done. Qed.

Lemma link_refines_session_witness :
  exists l, rtc node_move (link_half 7 (sample_link concrete_codec)) (link_half 7 l) /\ link_ok 7 l.
Proof.
  destruct (sample_link_run concrete_codec concrete_codec_faithful) as (l & Hl & _). exists l. apply and_comm.
  exact (link_refines_session accept no_answer None 5 77 7 _ (sample_link concrete_codec) l accept_leaves
    no_answer_leaves (sample_link_ok _ concrete_codec_faithful) Hl).
Defined.

Lemma link_answers_once_witness :
  exists l, (sample_link_events concrete_codec ≫= received (one_codec concrete_codec)) ++ [] ++
    response_ids 7 (sample_link concrete_codec) ≡ₚ (in_flight l).*1 ++ response_ids 7 l.
Proof.
  destruct (sample_link_run concrete_codec concrete_codec_faithful) as (l & Hl & Hr). exists l.
  exact (link_answers_once accept no_answer None 5 77 7 _ (sample_link concrete_codec) l accept_leaves
    no_answer_leaves (sample_link_ok _ concrete_codec_faithful) Hl Hr).
Defined.

Lemma create_edge_connection_spec_witness :
  let config := mkEdgeConfig (nid x08) {[JSON]} in
  let n := link_edge concrete_codec in
  let conn := fresh (dom (conn_heap n)) in
  let create meanwhile := create_edge_connection meanwhile config n in
  exists n' nd,
    create (fun _ n => n) = (Ok (nid x08), n') /\
    get_edge_connection (nid x08) n' = Some conn /\ conn_heap n !! conn = None /\
    link_ok conn (mkLink n' true [] []) /\
    create connection_finished = (Ok (nid x08), nd) /\
    get_edge_connection (nid x08) nd = None /\ edge_connections nd !! nid x08 = Some conn.
Proof.
  apply (create_edge_connection_spec (mkEdgeConfig (nid x08) {[JSON]}) (link_edge concrete_codec)).
  - intros kind codec Hc. unfold link_edge, one_codec, registry_get, registry_register in Hc. cbn [codec_registry registry] in Hc.
    apply lookup_insert_Some in Hc as [[_ <-]|[_ Hc]]; [exact concrete_codec_faithful|discriminate Hc].
  - exists JSON. split; [vm_compute; reflexivity|]. eexists. reflexivity.
Defined.
End LinkWitnesses.
